(* ===== verification/_CoqProject ===== *)
-Q . S2P
Prelude.v
Go.v
GoStrings.v
ValueObjects.v
Domain.v
Redis.v
SessionScripts.v
SessionStore.v
SessionEffects.v
SessionSafety.v
SessionRepository.v
SessionGuarantees.v
SessionUseCase.v
Authorization.v
Authentication.v
Postgres.v
UserStore.v
UserTables.v
UserGuarantees.v
PermissionStore.v
UserUseCase.v
UserPolicies.v
RateLimit.v
Response.v
Base64.v
PasswordHash.v
Jwt.v
Dto.v
Gin.v
Middleware.v
Guards.v
Handlers.v
Routes.v
HttpGuarantees.v
Runtime.v
LocalHttp.v
Metrics.v
Config.v
Migrations.v
MigrationGuarantees.v
Lifecycle.v
LifecycleGuarantees.v
SessionCleaner.v
Server.v
LocalServer.v
Localization.v
Startup.v
Bootstrap.v
EndToEnd.v
