(* ===== verification/Prelude.v ===== *)
(** * GOAT API: a verification library

    The program (src/, Go) is an HTTP API for user, session and permission
    administration.  Requests enter through gin middleware and handlers
    (internal/delivery/http), which call use cases (internal/usecase); these
    work on ports (internal/domain) that adapters implement on PostgreSQL
    (internal/infra/database/postgres), Redis with Lua scripts
    (internal/infra/storage/redis, internal/infra/ratelimiter), JWT and argon2id
    (internal/infra/auth).  cmd/app composes and runs the process, cmd/migrate
    migrates the schema, internal/cron removes orphan sessions.

    ** How the code is modelled

    A Go function that calls nothing outside is a Gallina function; a function
    that calls ports is a computation [M S A = S -> res A * S] (Go.v) on an
    abstract state, which it leaves in the error case as well.  Errors are
    values with wrapping and joining, and errors.Is and errors.As search them.
    Integers are [Z], with their conversions and bounds written out where the
    code converts; strings are byte strings; instants and durations are
    nanoseconds.  A port is a [Class] of operations (Domain.v), an adapter an
    instance of it, and a use case is proved against the class.

    What is not in src/ is a parameter: the Redis server ([RedisServer]), the
    PostgreSQL client ([PgClient], [MigrationDB], [SeedDB]), gin ([GinContext],
    [GinEngine], [GinRouter]), golang-jwt ([JWTLib]), argon2 ([Argon2]), UUID
    and ULID parsing, net, text/template and x/text ([TextLibraries],
    [TemplateParser]), SHA-256, zap ([ZapLib]), the collectors of client_golang
    (Metrics.v), and the process outside of the lifecycle
    ([Lifecycle.Environment], [Bootstrap.Surroundings]).  The classes named ...Laws state the documented
    behaviour the code relies on.  Between any two calls other API processes may
    act on the same stores (the disciplines of SessionRepository.v and
    Postgres.v, the relations [others] and [elsewhere] of the migrations and
    the seeding), and a call may fail before or after its effect.  Every law
    class has a concrete instance (documented servers, LocalHttp.v,
    LocalServer.v and the Local modules), on which the theorems are applied.

    ** The files

    Foundations: Prelude.v (scope, tactics, hints, list lemmas), Go.v (errors,
    results, computations, integer conversions), GoStrings.v (strings, strconv,
    utf8), Base64.v.

    Domain: ValueObjects.v (internal/domain/valueobject, validation), Domain.v
    (entities and ports).

    Sessions: Redis.v (the server and the Lua command monad), SessionScripts.v
    (the ten .lua scripts), SessionStore.v (the store's invariant),
    SessionEffects.v (each script run symbolically), SessionSafety.v (the store
    as a state machine of all processes), SessionRepository.v
    (storage/redis/session/repository.go, script_loader.go),
    SessionGuarantees.v, SessionUseCase.v (usecase/session).

    Users and permissions: Postgres.v (tables, statements and their documented
    effect), UserStore.v (postgres/user), UserTables.v (the tables' invariant),
    UserGuarantees.v, PermissionStore.v (postgres/permission and
    usecase/permission), UserUseCase.v (usecase/user), UserPolicies.v (what it
    guarantees over both stores).

    Security: Authorization.v and Authentication.v (usecase/authorization,
    usecase/authentication), Jwt.v and PasswordHash.v (internal/infra/auth),
    RateLimit.v (internal/infra/ratelimiter and rate_limit.lua).

    Delivery: Response.v (error_mapping.go, response.go's headers and
    descriptors), Localization.v (localization.go), Dto.v (the *_dto.go files,
    helper/pagination.go), Gin.v (gin, response.go), Middleware.v (middleware/),
    Guards.v (the admission specification and its refinement), Handlers.v
    (handlers/), Routes.v (routes/, setupRoutes), HttpGuarantees.v, Server.v
    (NewServer, readiness, Start, Shutdown and Close of server.go;
    cmd/app/readiness.go), Metrics.v (internal/infra/metrics).

    Process: Runtime.v (the use cases of buildRuntime in cmd/app/app.go, as
    instances), Config.v
    (internal/config and the records derived from it), Migrations.v and
    MigrationGuarantees.v (migrations.go, migration_service.go, cmd/migrate),
    Startup.v (postgres.go, seeder.go, redis.go, the validation of assets and
    scripts), Lifecycle.v and LifecycleGuarantees.v (initializeApp of app.go,
    lifecycle.go), SessionCleaner.v (internal/cron), Bootstrap.v
    (internal/infra/logger, the default dependencies and buildRuntime of app.go,
    main.go), EndToEnd.v (both stores, the tokens and the guards together).

    Definitions keep the names of the code; a part of a long function has a
    name of its own and is used where the code has it.

    ** What the theorems show

    Sessions: every method keeps the store well formed under interference and
    faults; a blocked user has no session, and a session revoked by a block
    never comes back; a refresh token is accepted once; what is created is found
    until it expires, if its keys are left alone (SessionGuarantees.v); a replayed refresh is refused
    (Authentication.v).

    Users: a password change ends older tokens, role and status changes are
    compare-and-set, suspension and deletion fail closed over the two stores
    (for the id as the request spells it: the program blocks that very string),
    role changes respect the hierarchy (UserGuarantees.v, UserPolicies.v); a
    revoked permission is gone from the next authoritative check
    (PermissionStore.v).

    Tokens, passwords and limits: accepted tokens are sound and live as long as
    asked; a stored hash is read back and verifies; the derivation slots balance;
    a window, less the server's millisecond, admits at most its limit, and the
    limiter admits again after the delay it announces.

    Requests: the guards of a protected route implement the abstract
    [admission]; each route enforces its class; a fresh route admits only on the
    authoritative state; each request is answered once; panics are contained;
    errors map to coherent problems, a localizer that loads translates every
    key of the program, and the metrics count a returned request once.

    End to end (EndToEnd.v): a login gives a token the guards let in; a
    suspended or deleted user, a token from before a password change, a token
    retired by a refresh and a token of a session that was logged out are let
    in by no route they concern, whatever the other processes do.

    Process: a validated configuration is accepted by every component, and a
    start with it fails only by what is outside; a start gives everything or
    nothing, and the process ends with nothing held, with status 0 only if
    nothing failed (Bootstrap.v); a migration run and a seeding are all or
    nothing; resources are released once in the reverse order under any
    interleaving of Run and Shutdown, whose goroutines are never stuck on the
    lifecycle mutex and wait only in Run's select; the cleaning worker stops and is quiet
    after its shutdown; the readiness probe tells the truth.

    Each theorem that has hypotheses has a witness of the same name with the
    suffix _witness, at a concrete input.

    ** Bounds, fuel and termination

    No definition needs fuel: scripts are finite command trees, the loops of the
    code are structural on the list or the string they range over, decimal
    rendering is stdpp's, and the pages of a SCAN are read as the one list of
    keys its iterator yields.  The loops that do not end by themselves, the
    worker of the session cleaner and the goroutines of the lifecycle and of the
    HTTP server, are step relations; a bound on the worker's steps after a
    cancellation, that the goroutines of the lifecycle make finitely many moves
    by themselves, and that they are blocked only where the code waits for a
    context or for the server, are theorems.

    ** Conventions and limits

    The text of an error message is that of the code but for %q, whose quotes
    are left out, and values other than strings and integers; no theorem reads
    it.  Log calls are left out, except the cleaner's.  Timeouts are contexts the
    ports observe: a call that times out returns an error.  A use case's call of
    one port is atomic on the state, with the other processes acting between
    calls.  The ranges over Go maps are in the order of [map_to_list], which
    decides only which of several errors is reported.

    ** Not modelled

    Log calls and the text zap writes, and the one call of the ULID library
    (a port): output no code reads.  The exposition format and the sums of
    Prometheus, and what its process and Go collectors measure.  Parsing of the
    environment (caarlos0/env), pgx's parsing of a connection string (a parameter), net/http's server and
    its timeouts, and the delivery of signals (the end of a context): library
    behaviour.  The redacted String methods of the configuration records:
    formatting.  SQL migrations are opaque scripts: their
    text is not interpreted, the tables of Postgres.v are their result. *)
From stdpp Require Export base tactics list strings gmap fin_maps pretty sorting.
From Stdlib Require Export ZArith Lia Bool.

#[global] Open Scope string_scope.
#[global] Open Scope list_scope.
#[global] Open Scope Z_scope.

Declare Scope goat_scope.
Delimit Scope goat_scope with goat.

Create HintDb goat.
Create Rewrite HintDb goat.

(** String equality and emptiness tests as Go writes them. *)
Notation "a =s b" := (String.eqb a b) (at level 70, no associativity) : goat_scope.
Notation "a <>s b" := (negb (String.eqb a b)) (at level 70, no associativity) : goat_scope.
#[global] Open Scope goat_scope.

(** * Automation *)

(** Turns the boolean tests of the code into propositions, everywhere. *)
Ltac breflect :=
  repeat match goal with
  | H : negb _ = true |- _ => apply negb_true_iff in H
  | H : negb _ = false |- _ => apply negb_false_iff in H
  | H : (_ && _)%bool = true |- _ => apply andb_true_iff in H; destruct H
  | H : (_ || _)%bool = false |- _ => apply orb_false_iff in H; destruct H
  | H : (_ && _)%bool = false |- _ => apply andb_false_iff in H
  | H : (_ || _)%bool = true |- _ => apply orb_true_iff in H
  | H : String.eqb _ _ = true |- _ => apply String.eqb_eq in H
  | H : String.eqb _ _ = false |- _ => apply String.eqb_neq in H
  | H : (_ =? _)%Z = true |- _ => apply Z.eqb_eq in H
  | H : (_ =? _)%Z = false |- _ => apply Z.eqb_neq in H
  | H : (_ <? _)%Z = true |- _ => apply Z.ltb_lt in H
  | H : (_ <? _)%Z = false |- _ => apply Z.ltb_ge in H
  | H : (_ <=? _)%Z = true |- _ => apply Z.leb_le in H
  | H : (_ <=? _)%Z = false |- _ => apply Z.leb_gt in H
  | H : (_ >? _)%Z = true |- _ => rewrite Z.gtb_ltb in H
  | H : (_ >? _)%Z = false |- _ => rewrite Z.gtb_ltb in H
  | H : (_ >=? _)%Z = true |- _ => rewrite Z.geb_leb in H
  | H : (_ >=? _)%Z = false |- _ => rewrite Z.geb_leb in H
  | H : bool_decide _ = true |- _ => apply bool_decide_eq_true_1 in H
  | H : bool_decide _ = false |- _ => apply bool_decide_eq_false_1 in H
  end.

(** One round of case analysis on what blocks the evaluation of the goal, or
    of a hypothesis. *)
Ltac case_goal :=
  match goal with
  | |- context [match ?x with _ => _ end] => destruct x eqn:?
  end.
Ltac case_hyp H :=
  match type of H with
  | context [match ?x with _ => _ end] => destruct x eqn:?
  end.

(** Case analysis on a string comparison of the goal. *)
Ltac case_eqb :=
  match goal with
  | |- context [String.eqb ?a ?b] =>
      let E := fresh "E" in destruct (String.eqb a b) eqn:E;
      [apply String.eqb_eq in E | apply String.eqb_neq in E]
  end.

Lemma eqb_refl_string (s : string) : (s =s s) = true.
Proof. apply String.eqb_refl. Qed.
Lemma eqb_ne_string (s t : string) : s <> t -> (s =s t) = false.
Proof. apply String.eqb_neq. Qed.
#[export] Hint Rewrite eqb_refl_string : goat.

(** * Lists *)

(** Duplicate removal as a Go [map[T]struct{}] used as a set performs it. *)
Lemma filter_andb {A} (f g : A -> bool) (l : list A) :
  List.filter (fun x => f x && g x)%bool l = List.filter f (List.filter g l).
Proof.
  induction l as [|x l IH]; [done|]. cbn. destruct (g x) eqn:Hg; cbn.
  - destruct (f x); cbn; rewrite ?IH; done.
  - rewrite andb_false_r. exact IH.
Qed.

Lemma forallb_In {A} (f : A -> bool) (l : list A) x :
  forallb f l = true -> In x l -> f x = true.
Proof. rewrite forallb_forall. auto. Qed.

Lemma existsb_false_In {A} (f : A -> bool) (l : list A) x :
  existsb f l = false -> In x l -> f x = false.
Proof.
  intros H Hin. destruct (f x) eqn:E; [|done].
  enough (existsb f l = true) by congruence. apply existsb_exists. eauto.
Qed.

Lemma length_filter_le {A} (f : A -> bool) (l : list A) :
  (List.length (List.filter f l) <= List.length l)%nat.
Proof. induction l as [|x l IH]; [done|]. cbn. destruct (f x); cbn; lia. Qed.

Lemma map_congr_In {A B} (f g : A -> B) (l : list A) :
  (forall x, In x l -> f x = g x) -> map f l = map g l.
Proof. intros H. apply map_ext_in. exact H. Qed.
