(* ===== verification/Go.v ===== *)
(** The Go constructs the whole program shares: error values with wrapping and
    joining ([errors.New], [fmt.Errorf] with [%w], [errors.Join], [errors.Is],
    [errors.As]), the [(T, error)] result, the state-passing computation of a
    function that calls ports with side effects, and the fixed-width integer
    conversions. *)
From S2P Require Export Prelude.

(** * Errors *)

(** The package-level error values the code compares with [errors.Is]: those
    of src/ (internal/domain/errors, internal/usecase/..., postgres, cmd/app)
    and those of the libraries and of Go's standard library the code names. *)
Inductive sentinel : Set :=
  (* internal/domain/errors/errors.go *)
  | ErrInternal | ErrBadRequest | ErrUnauthorized | ErrTokenExpired | ErrTokenInvalid
  | ErrForbidden | ErrNotFound | ErrConflict | ErrInvalidInput | ErrRateLimitExceeded
  (* internal/domain/errors/password_errors.go *)
  | ErrPasswordTooShort | ErrPasswordTooLong | ErrPasswordPolicyViolation
  | ErrPasswordHashingFailed | ErrInvalidStoredPasswordHash | ErrInvalidCredentials
  | ErrInvalidPassword | ErrPasswordSameAsCurrent
  (* internal/domain/errors/permission_errors.go *)
  | ErrPermissionNotFound | ErrPermissionAlreadyExists
  (* internal/domain/errors/user_errors.go *)
  | ErrEmailAlreadyExists | ErrUserNotFound | ErrUserInactive | ErrAccountSuspended
  | ErrUserAccessBlocked | ErrInvalidUserStatusTransition
  (* internal/usecase *)
  | ErrPrincipalInactive | ErrPrincipalSuspended | ErrPrincipalSecurityStateChanged
  | ErrPermissionDenied | ErrInvalidSessionSelection | ErrConcurrentRoleChange
  (* internal/infra *)
  | ErrMigrationsPending | ErrMigrationStateInvalid | ErrPasswordHashingContextRequired
  (* cmd/app, internal/delivery/http, internal/cron *)
  | ErrApplicationAlreadyRun | ErrApplicationClosed | ErrHTTPServerStopped
  | ErrSessionCleanerStarted
  (* values of the libraries the code compares with *)
  | SqlErrNoRows | SqlErrTxDone | RedisNil
  | JwtErrTokenExpired | JwtErrTokenMalformed | JwtErrSignatureInvalid | JwtErrTokenNotValidYet
  | ContextCanceled | ContextDeadlineExceeded | SyscallEINVAL | SyscallENOTTY.

#[export] Instance sentinel_eq_dec : EqDecision sentinel.
Proof. solve_decision. Defined.

(** An error value.  [EWrap msg es] is [fmt.Errorf] with the [%w] verbs filled
    by [es]; [msg] is the text of the format around them.  [ENew] is an
    [errors.New] or [fmt.Errorf] value no code compares with.  [EPg] is a
    [*pgconn.PgError]: its SQLSTATE and constraint name.  [ECurrentSession] is
    authentication's [*CurrentSessionInvalidError]. *)
Inductive err : Set :=
  | ESentinel (s : sentinel)
  | ENew (msg : string)
  | EWrap (msg : string) (es : list err)
  | EJoin (es : list err)
  | EPg (code constraint : string)
  | ECurrentSession (cause : option err).

Coercion ESentinel : sentinel >-> err.

(** [errors.Is]: depth-first search of the wrapped values. *)
Fixpoint errors_is (e : err) (t : sentinel) : bool :=
  match e with
  | ESentinel s => bool_decide (s = t)
  | EWrap _ es | EJoin es => existsb (fun e' => errors_is e' t) es
  | ECurrentSession (Some c) => errors_is c t
  | _ => false
  end.

(** The first value found, in depth-first order, by a partial selection:
    what [errors.As] computes for one target type. *)
Definition first_some {A B} (f : A -> option B) : list A -> option B :=
  fix go l := match l with
              | [] => None
              | x :: l' => match f x with Some b => Some b | None => go l' end
              end.

(** [errors.As] with a [*pgconn.PgError] target. *)
Fixpoint errors_as_pg (e : err) : option (string * string) :=
  match e with
  | EPg code constraint => Some (code, constraint)
  | EWrap _ es | EJoin es => first_some errors_as_pg es
  | ECurrentSession (Some c) => errors_as_pg c
  | _ => None
  end.

(** [errors.As] with a [*CurrentSessionInvalidError] target: found or not. *)
Fixpoint errors_as_current_session (e : err) : bool :=
  match e with
  | ECurrentSession _ => true
  | EWrap _ es | EJoin es => existsb errors_as_current_session es
  | _ => false
  end.

(** [errors.Join]: the nil arguments are dropped, and nil is the result when
    nothing is left. *)
Definition errors_join (es : list (option err)) : option err :=
  match omap id es with
  | [] => None
  | es' => Some (EJoin es')
  end.

Definition wrap1 (msg : string) (e : err) : err := EWrap msg [e].

Lemma errors_is_self s : errors_is (ESentinel s) s = true.
Proof. cbn. by apply bool_decide_eq_true_2. Qed.

Lemma errors_is_wrap1 msg e t : errors_is (wrap1 msg e) t = errors_is e t.
Proof. cbn. by rewrite orb_false_r. Qed.

Lemma errors_is_wrap_In msg es e t :
  In e es -> errors_is e t = true -> errors_is (EWrap msg es) t = true.
Proof. intros Hin He. cbn. apply existsb_exists. eauto. Qed.

#[export] Hint Rewrite errors_is_self errors_is_wrap1 : goat.

Lemma errors_join_None (es : list (option err)) :
  errors_join es = None <-> Forall (fun e => e = None) es.
Proof.
  unfold errors_join. split.
  - intros H. induction es as [|[e|] es IH]; cbn in *; [constructor|done|].
    constructor; [done|]. apply IH. exact H.
  - intros H. induction H as [|e es -> Hes IH]; [done|]. cbn. exact IH.
Qed.

(** * Results and computations *)

(** A Go [(T, error)] return value: the zero value that comes with an error is
    never read by a caller that checks it. *)
Inductive res (A : Type) : Type :=
  | Ok (a : A)
  | Err (e : err).
Arguments Ok {A} a.
Arguments Err {A} e.

Definition res_map {A B} (f : A -> B) (r : res A) : res B :=
  match r with Ok a => Ok (f a) | Err e => Err e end.

Definition res_bind {A B} (r : res A) (f : A -> res B) : res B :=
  match r with Ok a => f a | Err e => Err e end.

(** [if err != nil { return wrap(err) }] *)
Definition res_map_err {A} (f : err -> err) (r : res A) : res A :=
  match r with Ok a => Ok a | Err e => Err (f e) end.

Definition is_ok {A} (r : res A) : bool := match r with Ok _ => true | Err _ => false end.

(** The error of a result, as the [error] variable holds it. *)
Definition err_of {A} (r : res A) : option err :=
  match r with Ok _ => None | Err e => Some e end.

(** A function that calls ports: it returns a result and leaves a state, in
    the error case as well, because an external effect is not undone by an
    error return. *)
Definition M (S A : Type) : Type := S -> res A * S.

Definition ret {S A} (a : A) : M S A := fun s => (Ok a, s).
Definition fail {S A} (e : err) : M S A := fun s => (Err e, s).
Definition of_res {S A} (r : res A) : M S A := fun s => (r, s).
Definition bind {S A B} (c : M S A) (f : A -> M S B) : M S B :=
  fun s => match c s with
           | (Ok a, s') => f a s'
           | (Err e, s') => (Err e, s')
           end.

(** [x, err := c] where the code inspects [err] itself. *)
Definition attempt {S A} (c : M S A) : M S (res A) :=
  fun s => let '(r, s') := c s in (Ok r, s').

(** [if err != nil { return f(err) }] after [c]. *)
Definition map_err {S A} (f : err -> err) (c : M S A) : M S A :=
  fun s => let '(r, s') := c s in (res_map_err f r, s').

Notation "'let!' x ':=' c 'in' k" := (bind c (fun x => k))
  (at level 10, x pattern, c at level 200, k at level 200) : goat_scope.
Notation "'do!' c 'in' k" := (bind c (fun _ => k))
  (at level 10, c at level 200, k at level 200) : goat_scope.
Notation "'letr' x ':=' c 'in' k" := (res_bind c (fun x => k))
  (at level 10, x pattern, c at level 200, k at level 200) : goat_scope.

Lemma bind_ret_l {S A B} (a : A) (f : A -> M S B) s : bind (ret a) f s = f a s.
Proof. done. Qed.

Lemma bind_assoc {S A B C} (c : M S A) (f : A -> M S B) (g : B -> M S C) s :
  bind (bind c f) g s = bind c (fun a => bind (f a) g) s.
Proof. unfold bind. destruct (c s) as [[a|e] s']; done. Qed.

Lemma bind_Ok_inv {S A B} (c : M S A) (f : A -> M S B) s b s' :
  bind c f s = (Ok b, s') -> exists a s1, c s = (Ok a, s1) /\ f a s1 = (Ok b, s').
Proof. unfold bind. destruct (c s) as [[a|e] s1]; naive_solver. Qed.

Lemma map_err_Ok_inv {S A} (g : err -> err) (c : M S A) s a s' :
  map_err g c s = (Ok a, s') -> c s = (Ok a, s').
Proof. unfold map_err. destruct (c s) as [[x|e] s1]; cbn; congruence. Qed.

Lemma res_bind_Ok_inv {A B} (r : res A) (f : A -> res B) b :
  res_bind r f = Ok b -> exists a, r = Ok a /\ f a = Ok b.
Proof. destruct r; cbn; naive_solver. Qed.

(** Inverts a computation known to have returned without error. *)
Ltac inv_ok :=
  repeat match goal with
  | H : bind _ _ _ = (Ok _, _) |- _ =>
      apply bind_Ok_inv in H; destruct H as (? & ? & ? & ?)
  | H : map_err _ _ _ = (Ok _, _) |- _ => apply map_err_Ok_inv in H
  | H : res_bind _ _ = Ok _ |- _ =>
      apply res_bind_Ok_inv in H; destruct H as (? & ? & ?)
  | H : fail _ _ = (Ok _, _) |- _ => discriminate H
  | H : ret _ _ = (Ok _, _) |- _ => injection H as ? ?; subst
  | H : Ok _ = Ok _ |- _ => injection H as ?; subst
  | H : (Ok _, _) = (Ok _, _) |- _ => injection H as ? ?; subst
  | H : Err _ = Ok _ |- _ => discriminate H
  | H : (Err _, _) = (Ok _, _) |- _ => discriminate H
  end.

(** * Integers *)

(** Conversions to the fixed widths the program uses wrap around. *)
Definition uint8 (z : Z) : Z := z mod 2^8.
Definition int8 (z : Z) : Z := (z + 2^7) mod 2^8 - 2^7.
Definition int16 (z : Z) : Z := (z + 2^15) mod 2^16 - 2^15.
Definition uint32 (z : Z) : Z := z mod 2^32.
Definition int64 (z : Z) : Z := (z + 2^63) mod 2^64 - 2^63.

Definition maxInt : Z := 2^63 - 1.
Definition in_int64 (z : Z) : Prop := -2^63 <= z < 2^63.

Lemma int64_id z : in_int64 z -> int64 z = z.
Proof. unfold in_int64, int64. intros H. rewrite Z.mod_small; lia. Qed.

Lemma int64_range z : in_int64 (int64 z).
Proof.
  unfold in_int64, int64.
  pose proof (Z.mod_pos_bound (z + 2^63) (2^64) ltac:(lia)). lia.
Qed.

Lemma int16_id z : -2^15 <= z < 2^15 -> int16 z = z.
Proof. unfold int16. intros H. rewrite Z.mod_small; lia. Qed.

Lemma uint8_id z : 0 <= z < 2^8 -> uint8 z = z.
Proof. unfold uint8. intros H. by rewrite Z.mod_small. Qed.

Lemma uint8_int16_id z : 0 <= z < 2^8 -> uint8 (int16 z) = z.
Proof. intros H. rewrite int16_id by lia. by apply uint8_id. Qed.
#[export] Hint Rewrite int64_id int16_id uint8_id using lia : goat.
