(* ===== verification/GoStrings.v ===== *)
(** The part of Go's strings, strconv, unicode/utf8 and fmt packages the
    program uses, on byte strings: decimal rendering and parsing with their
    round trips, prefixes, splitting, UTF-8 decoding and white space. *)
From S2P Require Export Go.
From Stdlib Require Import Ascii.

(** * Decimal numbers *)

Definition byte_of (a : ascii) : Z := Z.of_N (N_of_ascii a).

(** [len(s)] *)
Definition len (s : string) : Z := Z.of_nat (String.length s).

Definition is_digit (a : ascii) : bool := (48 <=? byte_of a) && (byte_of a <=? 57).
Definition digit_value (a : ascii) : Z := byte_of a - 48.

(** [strconv.Itoa], [strconv.FormatInt(_, 10)], [%d], and the decimal form in
    which go-redis sends an integer argument. *)
Definition itoa (z : Z) : string := pretty z.

(** The value of a string of digits, continued from [acc]. *)
Fixpoint parse_digits (acc : Z) (s : string) : option Z :=
  match s with
  | EmptyString => Some acc
  | String a s' => if is_digit a then parse_digits (acc * 10 + digit_value a) s' else None
  end.

(** A non-empty string of digits. *)
Definition parse_nat (s : string) : option Z :=
  match s with EmptyString => None | _ => parse_digits 0 s end.

(** An optional sign and a non-empty string of digits. *)
Definition parse_signed (s : string) : option Z :=
  match s with
  | String "-" s' => Z.opp <$> parse_nat s'
  | String "+" s' => parse_nat s'
  | _ => parse_nat s
  end.

(** [strconv.ParseInt(s, 10, 64)] *)
Definition ParseInt (s : string) : res Z :=
  match parse_signed s with
  | Some z => if (-2^63 <=? z) && (z <? 2^63) then Ok z else Err (ENew "value out of range")
  | None => Err (ENew "invalid syntax")
  end.

(** [strconv.ParseUint(s, 10, bits)] *)
Definition ParseUint (s : string) (bits : Z) : res Z :=
  match parse_nat s with
  | Some z => if z <? 2^bits then Ok z else Err (ENew "value out of range")
  | None => Err (ENew "invalid syntax")
  end.

Fixpoint all_digits (s : string) : bool :=
  match s with EmptyString => true | String a s' => is_digit a && all_digits s' end.

(** The Lua pattern [^[1-9]%d*$]. *)
Definition positive_decimal (s : string) : bool :=
  match s with
  | EmptyString => false
  | String a s' => is_digit a && (49 <=? byte_of a) && all_digits s'
  end.

(** The Lua pattern [^%d+$]. *)
Definition some_digits (s : string) : bool :=
  match s with EmptyString => false | _ => all_digits s end.

(** * Prefixes, splitting *)

(** [strings.HasPrefix] *)
Definition HasPrefix (s prefix : string) : bool := String.prefix prefix s.

(** [s[n:]] for [n <= len(s)] *)
Fixpoint drop_bytes (n : nat) (s : string) : string :=
  match n, s with
  | O, _ => s
  | S n', String _ s' => drop_bytes n' s'
  | S _, EmptyString => EmptyString
  end.

(** [strings.HasSuffix] and [strings.TrimSuffix] *)
Definition HasSuffix (s suffix : string) : bool :=
  (String.length suffix <=? String.length s)%nat
  && String.eqb (drop_bytes (String.length s - String.length suffix) s) suffix.
Definition TrimSuffix (s suffix : string) : string :=
  if HasSuffix s suffix then String.substring 0 (String.length s - String.length suffix) s else s.

(** [strings.TrimPrefix] *)
Definition TrimPrefix (s prefix : string) : string :=
  if HasPrefix s prefix then drop_bytes (String.length prefix) s else s.

(** [strings.Split] on a one-byte separator *)
Fixpoint split_on (sep : ascii) (s : string) : list string :=
  match s with
  | EmptyString => [EmptyString]
  | String a s' =>
      if Ascii.eqb a sep then EmptyString :: split_on sep s'
      else match split_on sep s' with
           | w :: ws => String a w :: ws
           | [] => [String a EmptyString]
           end
  end.

(** [strings.Cut(s, sep)] on a one-byte separator: what precedes the first
    separator, when there is one. *)
Fixpoint cut_before (sep : ascii) (s : string) : option string :=
  match s with
  | EmptyString => None
  | String a s' =>
      if Ascii.eqb a sep then Some EmptyString
      else String a <$> cut_before sep s'
  end.

Fixpoint string_forallb (p : ascii -> bool) (s : string) : bool :=
  match s with EmptyString => true | String a s' => p a && string_forallb p s' end.

(** * UTF-8 *)

Definition bytes_of (s : string) : list Z := map byte_of (String.list_ascii_of_string s).

Definition RuneError : Z := 65533.

Definition between (lo z hi : Z) : bool := (lo <=? z) && (z <=? hi).
Definition continuation (z : Z) : bool := between 128 z 191.

(** The second byte a three- or four-byte sequence accepts after its first. *)
Definition second_ok (b0 b1 : Z) : bool :=
  if b0 =? 224 then between 160 b1 191
  else if b0 =? 237 then between 128 b1 159
  else if b0 =? 240 then between 144 b1 191
  else if b0 =? 244 then between 128 b1 143
  else continuation b1.

(** The runes of [for _, r := range s]: an invalid sequence yields
    [RuneError] and consumes one byte. *)
Fixpoint runes (l : list Z) : list Z :=
  match l with
  | [] => []
  | b0 :: r0 =>
      if b0 <? 128 then b0 :: runes r0
      else if between 194 b0 223 then
        match r0 with
        | b1 :: r1 =>
            if continuation b1 then ((b0 - 192) * 64 + (b1 - 128)) :: runes r1
            else RuneError :: runes r0
        | [] => RuneError :: runes r0
        end
      else if between 224 b0 239 then
        match r0 with
        | b1 :: (b2 :: r2) =>
            if second_ok b0 b1 && continuation b2
            then ((b0 - 224) * 4096 + (b1 - 128) * 64 + (b2 - 128)) :: runes r2
            else RuneError :: runes r0
        | _ => RuneError :: runes r0
        end
      else if between 240 b0 244 then
        match r0 with
        | b1 :: (b2 :: (b3 :: r3)) =>
            if second_ok b0 b1 && continuation b2 && continuation b3
            then ((b0 - 240) * 262144 + (b1 - 128) * 4096 + (b2 - 128) * 64 + (b3 - 128))
                 :: runes r3
            else RuneError :: runes r0
        | _ => RuneError :: runes r0
        end
      else RuneError :: runes r0
  end.

(** [utf8.ValidString] *)
Fixpoint valid_utf8 (l : list Z) : bool :=
  match l with
  | [] => true
  | b0 :: r0 =>
      if b0 <? 128 then valid_utf8 r0
      else if between 194 b0 223 then
        match r0 with
        | b1 :: r1 => continuation b1 && valid_utf8 r1
        | [] => false
        end
      else if between 224 b0 239 then
        match r0 with
        | b1 :: (b2 :: r2) => second_ok b0 b1 && continuation b2 && valid_utf8 r2
        | _ => false
        end
      else if between 240 b0 244 then
        match r0 with
        | b1 :: (b2 :: (b3 :: r3)) =>
            second_ok b0 b1 && continuation b2 && continuation b3 && valid_utf8 r3
        | _ => false
        end
      else false
  end.

Definition ValidString (s : string) : bool := valid_utf8 (bytes_of s).

Lemma valid_ascii l : forallb (fun b => b <? 128) l = true -> valid_utf8 l = true.
Proof. induction l as [|b l IH]; [done|]. cbn. by intros [-> Hl]%andb_true_iff; auto. Qed.

(** [unicode.IsSpace] *)
Definition IsSpace (r : Z) : bool :=
  between 9 r 13 || (r =? 32) || (r =? 133) || (r =? 160) || (r =? 5760)
  || between 8192 r 8202 || (r =? 8232) || (r =? 8233) || (r =? 8239)
  || (r =? 8287) || (r =? 12288).

(** [strings.TrimSpace(s) == ""] *)
Definition is_blank (s : string) : bool := forallb IsSpace (runes (bytes_of s)).

(** The bytes of the leading white space of a string of runes: white space is
    below U+10000. *)
Fixpoint leading_space (rs : list Z) : nat :=
  match rs with
  | r :: rs' =>
      if IsSpace r
      then ((if (r <? 128)%Z then 1 else if (r <? 2048)%Z then 2 else 3) + leading_space rs')%nat
      else O
  | [] => O
  end.

Fixpoint trim_right (s : string) : string :=
  if is_blank s then EmptyString
  else match s with EmptyString => EmptyString | String a s' => String a (trim_right s') end.

(** [strings.TrimSpace] *)
Definition TrimSpace (s : string) : string :=
  trim_right (drop_bytes (leading_space (runes (bytes_of s))) s).

(** [strings.Join] *)
Definition Join (l : list string) (sep : string) : string := String.concat sep l.

(** * Durations *)

(** [d.Round(m)] of a duration, both in nanoseconds; the code rounds to a
    second, so nothing overflows near the largest durations but the clamp. *)
Definition duration_round (d m : Z) : Z :=
  if m <=? 0 then d
  else
    let r := Z.rem d m in
    if d <? 0 then
      let r := - r in
      if r + r <? m then d + r
      else let d1 := d - m + r in if -2^63 <=? d1 then d1 else -2^63
    else if r + r <? m then d - r
    else let d1 := d + m - r in if d1 <? 2^63 then d1 else maxInt.

(** The decimal fraction of [v] of [prec] digits, without trailing zeros. *)
Fixpoint fmt_frac (prec : nat) (v : Z) (printed : bool) (acc : string) : string :=
  match prec with
  | O => if printed then "." +:+ acc else acc
  | S prec' =>
      let digit := v mod 10 in
      let printed := printed || negb (digit =? 0) in
      fmt_frac prec' (v / 10) printed (if printed then itoa digit +:+ acc else acc)
  end.

(** [d.String()]: hours, minutes and seconds, or a smaller unit below one
    second. *)
Definition duration_String (d : Z) : string :=
  let u := Z.abs d in
  let sign := if d <? 0 then "-" else "" in
  if u =? 0 then "0s"
  else if u <? 1000 then sign +:+ (itoa u +:+ "ns")
  else if u <? 1000000 then sign +:+ (itoa (u / 1000) +:+ fmt_frac 3 u false "µs")
  else if u <? 1000000000 then sign +:+ (itoa (u / 1000000) +:+ fmt_frac 6 u false "ms")
  else
    let secs := u / 1000000000 in
    let seconds := itoa (secs mod 60) +:+ fmt_frac 9 u false "s" in
    let minutes := secs / 60 in
    if minutes =? 0 then sign +:+ seconds
    else
      let hours := minutes / 60 in
      let rest := itoa (minutes mod 60) +:+ ("m" +:+ seconds) in
      if hours =? 0 then sign +:+ rest else sign +:+ (itoa hours +:+ ("h" +:+ rest)).

Example duration_String_hours : duration_String 3723500000000 = "1h2m3.5s".
Proof. reflexivity. Qed.
Example duration_String_minute : duration_String 60000000000 = "1m0s".
Proof. reflexivity. Qed.
Example duration_String_millis : duration_String 1500000 = "1.5ms".
Proof. reflexivity. Qed.
Example TrimSpace_both : TrimSpace "  a b " = "a b".
Proof. reflexivity. Qed.

(** * Round trips *)

Lemma digit_of_pretty_char (x : N) :
  (x < 10)%N -> is_digit (pretty_N_char x) = true
               /\ digit_value (pretty_N_char x) = Z.of_N x.
Proof.
  intros H.
  assert (x = 0 \/ x = 1 \/ x = 2 \/ x = 3 \/ x = 4 \/ x = 5 \/ x = 6 \/ x = 7
          \/ x = 8 \/ x = 9)%N as Hc by lia.
  repeat (destruct Hc as [->|Hc]; [split; reflexivity|]). subst x. split; reflexivity.
Qed.

Lemma parse_digits_go (x : N) :
  exists k : Z, 0 <= k /\ forall acc s,
    parse_digits acc (pretty_N_go x s) = parse_digits (acc * 10 ^ k + Z.of_N x) s.
Proof.
  induction x as [x IH] using (well_founded_induction N.lt_wf_0).
  destruct (N.eq_dec x 0) as [->|Hx].
  - exists 0. split; [lia|]. intros acc s. rewrite pretty_N_go_0. f_equal. lia.
  - destruct (IH (x / 10)%N) as (k & Hk & Hstep); [apply N.div_lt; lia|].
    exists (k + 1). split; [lia|]. intros acc s.
    rewrite pretty_N_go_step by lia. rewrite Hstep. cbn [parse_digits].
    destruct (digit_of_pretty_char (x mod 10)) as [-> ->]; [apply N.mod_lt; lia|].
    f_equal. rewrite Z.pow_add_r by lia.
    pose proof (N.div_mod x 10 ltac:(lia)). lia.
Qed.

Lemma pretty_N_pos (x : N) : (0 < x)%N -> pretty x = pretty_N_go x "".
Proof. intros H. unfold pretty, pretty_N. by destruct (decide (x = 0)%N) as [->|]. Qed.

Lemma parse_digits_pretty (x : N) : parse_digits 0 (pretty x) = Some (Z.of_N x).
Proof.
  destruct (N.eq_dec x 0) as [->|Hx]; [reflexivity|].
  rewrite pretty_N_pos by lia.
  destruct (parse_digits_go x) as (k & _ & ->). cbn; f_equal; lia.
Qed.

(** What the first byte of a positive number's rendering is. *)
Lemma pretty_go_head (x : N) s :
  (0 < x)%N -> exists a s', pretty_N_go x s = String a s'
     /\ is_digit a = true /\ 49 <= byte_of a
     /\ (all_digits s = true -> all_digits s' = true).
Proof.
  revert s. induction x as [x IH] using (well_founded_induction N.lt_wf_0). intros s Hx.
  rewrite pretty_N_go_step by lia.
  destruct (digit_of_pretty_char (x mod 10)) as [Hd Hv]; [apply N.mod_lt; lia|].
  destruct (N.eq_dec (x / 10) 0) as [E|E].
  - rewrite E, pretty_N_go_0. eexists _, _. split; [reflexivity|]. split; [done|].
    split; [|done]. apply N.div_small_iff in E; [|lia].
    rewrite N.mod_small in Hv |- * by done. unfold digit_value in Hv. lia.
  - destruct (IH (x / 10)%N) with (s := String (pretty_N_char (x mod 10)) s)
      as (a & s' & -> & Ha & Hb & Hs); [apply N.div_lt; lia|by apply N.neq_0_lt_0|].
    eexists _, _. split; [reflexivity|]. split; [done|]. split; [done|].
    intros Hall. apply Hs. cbn. by rewrite Hd, Hall.
Qed.

Lemma itoa_pos (z : Z) : 0 < z -> itoa z = pretty_N_go (Z.to_N z) "".
Proof.
  intros H. destruct z as [|p|p]; try lia.
  transitivity (pretty (N.pos p)); [done|]. rewrite pretty_N_pos by lia. done.
Qed.

Lemma positive_decimal_itoa z : 0 < z -> positive_decimal (itoa z) = true.
Proof.
  intros H. rewrite itoa_pos by done.
  destruct (pretty_go_head (Z.to_N z) "" ltac:(lia)) as (a & s' & -> & Ha & Hb & Hs).
  cbn. rewrite Ha, (Hs eq_refl). by rewrite (proj2 (Z.leb_le _ _) Hb).
Qed.

Lemma itoa_ne_empty z : itoa z <> "".
Proof.
  destruct (Z.lt_trichotomy z 0) as [H|[->|H]]; [| done |].
  - by destruct z.
  - pose proof (positive_decimal_itoa z H) as Hp. by destruct (itoa z).
Qed.

Lemma digits_ascii s : all_digits s = true -> forallb (fun b => b <? 128) (bytes_of s) = true.
Proof.
  induction s as [|a s IH]; [done|]. cbn. intros [Ha Hs]%andb_true_iff.
  apply andb_true_iff. split; [unfold is_digit in Ha; lia|by apply IH].
Qed.

(** A number is written in ASCII. *)
Lemma ValidString_itoa z : ValidString (itoa z) = true.
Proof.
  apply valid_ascii.
  assert (Hpos : forall p, forallb (fun b => b <? 128) (bytes_of (itoa (Z.pos p))) = true).
  { intros p. apply digits_ascii. rewrite itoa_pos by done.
    destruct (pretty_go_head (Z.to_N (Z.pos p)) "" ltac:(lia)) as (a & s' & -> & Ha & _ & Hs).
    cbn. by rewrite Ha, Hs. }
  destruct z as [|p|p]; [done|apply Hpos|]. exact (Hpos p).
Qed.

Lemma parse_digits_itoa z : 0 <= z -> parse_digits 0 (itoa z) = Some z.
Proof.
  intros H. destruct z as [|p|p]; [done| |lia].
  transitivity (parse_digits 0 (pretty (N.pos p))); [done|].
  by rewrite parse_digits_pretty.
Qed.

Lemma parse_nat_itoa z : 0 <= z -> parse_nat (itoa z) = Some z.
Proof.
  intros H. unfold parse_nat. pose proof (itoa_ne_empty z).
  pose proof (parse_digits_itoa z H). by destruct (itoa z).
Qed.

Lemma digit_not_sign a : is_digit a = true -> a <> "-"%char /\ a <> "+"%char.
Proof. intros H; split; intros ->; discriminate H. Qed.

Lemma parse_signed_itoa z : parse_signed (itoa z) = Some z.
Proof.
  destruct (Z.lt_trichotomy z 0) as [H|[->|H]]; [| done |].
  - destruct z as [|p|p]; try lia.
    transitivity (Z.opp <$> parse_nat (itoa (Z.pos p))); [done|].
    by rewrite parse_nat_itoa by lia.
  - pose proof (parse_nat_itoa z ltac:(lia)) as Hp. revert Hp.
    rewrite itoa_pos by done.
    destruct (pretty_go_head (Z.to_N z) "" ltac:(lia)) as (a & s' & -> & Ha & _ & _).
    destruct (digit_not_sign a Ha) as [H1 H2]. intros Hp. unfold parse_signed.
    destruct a as [[] [] [] [] [] [] [] []]; try exact Hp; exfalso; auto.
Qed.

Lemma ParseInt_itoa z : in_int64 z -> ParseInt (itoa z) = Ok z.
Proof.
  unfold in_int64. intros H. unfold ParseInt. rewrite parse_signed_itoa.
  by rewrite (proj2 (Z.leb_le _ _)), (proj2 (Z.ltb_lt _ _)) by lia.
Qed.

Lemma ParseUint_itoa z bits : 0 <= z < 2 ^ bits -> ParseUint (itoa z) bits = Ok z.
Proof.
  intros H. unfold ParseUint. rewrite parse_nat_itoa by lia.
  by rewrite (proj2 (Z.ltb_lt _ _)) by lia.
Qed.

#[export] Instance itoa_inj : Inj (=) (=) itoa.
Proof. intros x y H. apply (inj pretty). exact H. Qed.

Lemma all_digits_pretty (x : N) : all_digits (pretty x) = true.
Proof.
  destruct (N.eq_dec x 0) as [->|Hx]; [done|]. rewrite pretty_N_pos by lia.
  destruct (pretty_go_head x "" ltac:(lia)) as (a & s' & -> & Ha & _ & Hs).
  cbn. by rewrite Ha, (Hs eq_refl).
Qed.

Lemma all_digits_itoa z : 0 <= z -> all_digits (itoa z) = true.
Proof.
  intros H. destruct z as [|p|p]; [done| |lia].
  change (itoa (Z.pos p)) with (pretty (N.pos p)). apply all_digits_pretty.
Qed.

Lemma some_digits_itoa z : 0 <= z -> some_digits (itoa z) = true.
Proof.
  intros H. unfold some_digits. pose proof (itoa_ne_empty z).
  pose proof (all_digits_itoa z H). by destruct (itoa z).
Qed.

(** A string of digits never starts a negative number, so its value is not
    negative. *)
Lemma parse_digits_nonneg s acc z :
  0 <= acc -> parse_digits acc s = Some z -> 0 <= z.
Proof.
  revert acc. induction s as [|a s IH]; cbn; intros acc Hacc H.
  - injection H as <-. done.
  - destruct (is_digit a) eqn:Ha; [|done].
    apply IH in H; [done|]. unfold is_digit in Ha. breflect. unfold digit_value. lia.
Qed.

#[export] Hint Rewrite parse_nat_itoa parse_signed_itoa positive_decimal_itoa using lia : goat.
