(* ===== verification/ValueObjects.v ===== *)
(** internal/domain/valueobject and internal/domain/validation: roles, account
    statuses, permissions and permission sets, the password policy and the
    opaque password values, JWT claims. *)
From S2P Require Export GoStrings.
From Stdlib Require Import Ascii OrderedTypeEx.

(** A Go map literal read with the comma-ok form. *)
Fixpoint map_literal {K V} (eqb : K -> K -> bool) (m : list (K * V)) (k : K) : option V :=
  match m with
  | [] => None
  | (k', v) :: m' => if eqb k k' then Some v else map_literal eqb m' k
  end.

Definition is_some {A} (o : option A) : bool := match o with Some _ => true | None => false end.

(** * Roles (user_role.go) *)
Module Role.

(** [type UserRole uint8]: a value in [0, 255]. *)
Abbreviation UserRole := Z (only parsing).

Definition RoleUnknown : UserRole := 0.
Definition RoleClient : UserRole := 1.
Definition RoleOperator : UserRole := 2.
Definition RoleAdmin : UserRole := 3.

Definition roleToString : list (UserRole * string) :=
  [(RoleClient, "client"); (RoleOperator, "operator"); (RoleAdmin, "admin")].

Definition stringToRole : list (string * UserRole) :=
  [("client", RoleClient); ("operator", RoleOperator); ("admin", RoleAdmin)].

Definition String (r : UserRole) : string :=
  match map_literal Z.eqb roleToString r with
  | Some s => s
  | None => "unknown"
  end.

Definition IsKnown (r : UserRole) : bool := is_some (map_literal Z.eqb roleToString r).

Definition ParseUserRole (s : string) : res UserRole :=
  match map_literal String.eqb stringToRole s with
  | Some r => Ok r
  | None => Err (ENew "invalid user role")
  end.

Definition AllRoles : list UserRole := [RoleClient; RoleOperator; RoleAdmin].

Definition CanModifyTargetRole (r target : UserRole) : bool :=
  if r =? RoleAdmin then true
  else if r =? RoleOperator then target =? RoleClient
  else false.

Definition CanAssignRole (r requested : UserRole) : bool :=
  IsKnown requested && CanModifyTargetRole r requested.

Definition VisibleRoles (actor : UserRole) : list UserRole :=
  if actor =? RoleAdmin then [RoleAdmin; RoleOperator; RoleClient]
  else if actor =? RoleOperator then [RoleClient]
  else [].

Lemma IsKnown_spec r : IsKnown r = true <-> r = 1 \/ r = 2 \/ r = 3.
Proof.
  unfold IsKnown, map_literal, roleToString, RoleClient, RoleOperator, RoleAdmin. cbn.
  repeat (case_goal; breflect; subst; cbn); intuition (subst; try done; try lia).
Qed.

Lemma known_cases r : IsKnown r = true -> r = RoleClient \/ r = RoleOperator \/ r = RoleAdmin.
Proof. apply IsKnown_spec. Qed.

Lemma ParseUserRole_String r : IsKnown r = true -> ParseUserRole (String r) = Ok r.
Proof. intros [-> | [-> | ->]]%known_cases; reflexivity. Qed.

Lemma ParseUserRole_Ok s r : ParseUserRole s = Ok r -> IsKnown r = true /\ String r = s.
Proof.
  unfold ParseUserRole, stringToRole. cbn [map_literal].
  do 3 (case_eqb; [subst s; intros [= <-]; split; reflexivity|]). intros [=].
Qed.

Lemma CanAssignRole_visible r t : CanAssignRole r t = true <-> In t (VisibleRoles r).
Proof.
  unfold CanAssignRole, CanModifyTargetRole, VisibleRoles.
  destruct (r =? RoleAdmin) eqn:Ha; [|destruct (r =? RoleOperator) eqn:Ho].
  - rewrite andb_true_r, IsKnown_spec. cbn. unfold RoleAdmin, RoleOperator, RoleClient.
    intuition lia.
  - split.
    + intros H. breflect. subst. by left.
    + intros [<-|[]]. reflexivity.
  - rewrite andb_false_r. by split.
Qed.

End Role.

(** * Account statuses (user_status.go) *)
Module Status.

Abbreviation UserStatus := Z (only parsing).

Definition StatusUnknown : UserStatus := 0.
Definition StatusInactive : UserStatus := 1.
Definition StatusActive : UserStatus := 2.
Definition StatusSuspended : UserStatus := 3.

Definition statusToString : list (UserStatus * string) :=
  [(StatusInactive, "inactive"); (StatusActive, "active"); (StatusSuspended, "suspended")].

Definition stringToStatus : list (string * UserStatus) :=
  [("inactive", StatusInactive); ("active", StatusActive); ("suspended", StatusSuspended)].

Definition String (r : UserStatus) : string :=
  match map_literal Z.eqb statusToString r with
  | Some s => s
  | None => "unknown"
  end.

Definition IsKnown (r : UserStatus) : bool := is_some (map_literal Z.eqb statusToString r).

Definition CanTransitionTo (r next : UserStatus) : bool :=
  if negb (IsKnown r) || negb (IsKnown next) then false
  else if r =? next then true
  else if r =? StatusInactive then next =? StatusActive
  else if r =? StatusActive then next =? StatusSuspended
  else if r =? StatusSuspended then next =? StatusActive
  else false.

Definition ParseUserStatus (s : string) : res UserStatus :=
  match map_literal String.eqb stringToStatus s with
  | Some r => Ok r
  | None => Err (ENew "invalid user role")
  end.

Lemma status_IsKnown_spec r : IsKnown r = true <-> r = 1 \/ r = 2 \/ r = 3.
Proof.
  unfold IsKnown, map_literal, statusToString, StatusInactive, StatusActive, StatusSuspended.
  cbn. repeat (case_goal; breflect; subst; cbn); intuition (subst; try done; try lia).
Qed.

Lemma status_known_cases r :
  IsKnown r = true -> r = StatusInactive \/ r = StatusActive \/ r = StatusSuspended.
Proof. apply status_IsKnown_spec. Qed.

Lemma ParseUserStatus_String r : IsKnown r = true -> ParseUserStatus (String r) = Ok r.
Proof. intros [-> | [-> | ->]]%status_known_cases; reflexivity. Qed.

Lemma ParseUserStatus_Ok s r : ParseUserStatus s = Ok r -> IsKnown r = true /\ String r = s.
Proof.
  unfold ParseUserStatus, stringToStatus. cbn [map_literal].
  do 3 (case_eqb; [subst s; intros [= <-]; split; reflexivity|]). intros [=].
Qed.

(** The transitions that change the status are exactly the three edges of the
    account life cycle. *)
Lemma CanTransitionTo_edges r n :
  CanTransitionTo r n = true /\ r <> n <->
  (r, n) = (StatusInactive, StatusActive) \/ (r, n) = (StatusActive, StatusSuspended)
  \/ (r, n) = (StatusSuspended, StatusActive).
Proof.
  split.
  - intros [H Hne]. unfold CanTransitionTo in H.
    destruct (negb (IsKnown r) || negb (IsKnown n))%bool eqn:Hk; [discriminate|].
    breflect. rewrite (proj2 (Z.eqb_neq _ _) Hne) in H.
    destruct (status_known_cases r) as [-> | [-> | ->]]; [done|..]; cbn in H; breflect; subst; auto.
  - intros [[= -> ->] | [[= -> ->] | [= -> ->]]]; done.
Qed.

End Status.

(** * Permissions (permission.go) *)
Module Permission.

Abbreviation Permission := string (only parsing).

Definition PermFullAccess : Permission := "full_access".
Definition PermUserRead : Permission := "user:read".
Definition PermUserWrite : Permission := "user:write".
Definition PermUserUpdate : Permission := "user:update".
Definition PermUserDelete : Permission := "user:delete".
Definition PermUserChangeRole : Permission := "user:change_role".
Definition PermUserChangeStatus : Permission := "user:change_status".

Definition knownPermissions : list Permission :=
  [PermFullAccess; PermUserRead; PermUserWrite; PermUserUpdate; PermUserDelete;
   PermUserChangeRole; PermUserChangeStatus].

Definition allPermissions : list Permission :=
  [PermFullAccess; PermUserChangeRole; PermUserChangeStatus; PermUserDelete;
   PermUserRead; PermUserUpdate; PermUserWrite].

(** [_, ok := knownPermissions[p]] *)
Definition known (p : Permission) : bool := existsb (String.eqb p) knownPermissions.

Definition ParsePermission (s : string) : res Permission :=
  if known s then Ok s else Err (ENew "invalid permission").

Definition AllPermissions : list Permission := allPermissions.

Record PermissionSet := { values : list Permission }.

Definition emptySet : PermissionSet := {| values := [] |}.

(** Go's [<] on strings compares bytes. *)
Definition string_le (a b : string) : Prop := String.leb a b = true.
#[global] Instance string_le_dec : RelDecision string_le.
Proof. intros a b. unfold string_le. apply _. Defined.

(** The keys of the map [unique], in the order [sort.Slice] leaves them. *)
Definition NewPermissionSet (permissions : list Permission) : res PermissionSet :=
  if forallb known permissions
  then Ok {| values := merge_sort string_le (remove_dups permissions) |}
  else Err (ENew "invalid permission").

Definition Values (s : PermissionSet) : list Permission := values s.

Definition Has (s : PermissionSet) (required : Permission) : bool :=
  if known required
  then existsb (fun p => (p =s required) || (p =s PermFullAccess)) (values s)
  else false.

Lemma string_leb_total a b : string_le a b \/ string_le b a.
Proof. apply String.leb_total. Qed.

#[global] Instance string_le_total : Total string_le.
Proof. intros a b. apply string_leb_total. Qed.

Lemma string_le_cmp a b : string_le a b <-> (String.compare a b = Lt \/ a = b).
Proof.
  unfold string_le, String.leb. destruct (a ?= b)%string eqn:E.
  - apply String.compare_eq_iff in E. split; auto.
  - split; auto.
  - split; [done|]. intros [?| ->]; [done|].
    pose proof (proj2 (String_as_OT.cmp_eq b b) eq_refl) as E2.
    change (String.compare b b = Eq) in E2. congruence.
Qed.

Lemma string_compare_lt_trans a b c :
  String.compare a b = Lt -> String.compare b c = Lt -> String.compare a c = Lt.
Proof.
  intros H1 H2. apply String_as_OT.cmp_lt. apply String_as_OT.lt_trans with b;
    apply String_as_OT.cmp_lt; done.
Qed.

#[global] Instance string_le_trans : Transitive string_le.
Proof.
  intros a b c. rewrite !string_le_cmp. intros [H1| ->] [H2| ->]; auto.
  left. by apply string_compare_lt_trans with b.
Qed.

#[global] Instance string_le_antisymm : AntiSymm (=) string_le.
Proof. intros a b H1 H2. by apply String.leb_antisym. Qed.

Lemma elem_of_values ps s p :
  NewPermissionSet ps = Ok s -> p ∈ values s <-> p ∈ ps.
Proof.
  unfold NewPermissionSet. destruct (forallb known ps); [|discriminate].
  intros [= <-]. cbn. rewrite (merge_sort_Permutation string_le), elem_of_remove_dups. done.
Qed.

Lemma NewPermissionSet_known ps s : NewPermissionSet ps = Ok s -> forallb known ps = true.
Proof. unfold NewPermissionSet. by destruct (forallb known ps). Qed.

Lemma NewPermissionSet_NoDup ps s : NewPermissionSet ps = Ok s -> NoDup (values s).
Proof.
  unfold NewPermissionSet. destruct (forallb known ps); [|discriminate]. intros [= <-]. cbn.
  rewrite (merge_sort_Permutation string_le). apply NoDup_remove_dups.
Qed.

Lemma NewPermissionSet_sorted ps s :
  NewPermissionSet ps = Ok s -> StronglySorted string_le (values s).
Proof.
  unfold NewPermissionSet. destruct (forallb known ps); [|discriminate]. intros [= <-].
  apply (StronglySorted_merge_sort _ _).
Qed.

Lemma remove_dups_NoDup {A} `{EqDecision A} (l : list A) : NoDup l -> remove_dups l = l.
Proof.
  induction 1 as [|x l Hx Hl IH]; [done|]. cbn.
  destruct (decide_rel elem_of x l); [done|]. by rewrite IH.
Qed.

(** Two sets built from lists with the same members are equal. *)
Lemma NewPermissionSet_canonical ps ps' :
  forallb known ps = true -> (forall p, p ∈ ps <-> p ∈ ps') ->
  NewPermissionSet ps = NewPermissionSet ps'.
Proof.
  intros Hk Hm.
  assert (forallb known ps' = true) as Hk'.
  { apply forallb_forall. intros p Hp. rewrite forallb_forall in Hk. apply Hk.
    apply list_elem_of_In, Hm, list_elem_of_In. done. }
  unfold NewPermissionSet. rewrite Hk, Hk'. do 2 f_equal.
  apply (StronglySorted_unique string_le); try apply (StronglySorted_merge_sort _ _).
  rewrite !(merge_sort_Permutation string_le).
  apply NoDup_Permutation; try apply NoDup_remove_dups.
  intros p. by rewrite !elem_of_remove_dups.
Qed.

Lemma known_In p : known p = true <-> p ∈ knownPermissions.
Proof.
  unfold known. rewrite existsb_exists, list_elem_of_In. split.
  - intros (q & Hq & ->%String.eqb_eq). done.
  - intros H. exists p. by rewrite String.eqb_refl.
Qed.

Lemma Has_spec ps s p :
  NewPermissionSet ps = Ok s ->
  Has s p = true <-> known p = true /\ (p ∈ ps \/ PermFullAccess ∈ ps).
Proof.
  intros Hs. unfold Has. pose proof (elem_of_values ps s p Hs) as Hp.
  pose proof (elem_of_values ps s PermFullAccess Hs) as Hf.
  destruct (known p); [|by split; [|intros []]].
  rewrite existsb_exists, <- Hp, <- Hf, !list_elem_of_In. split.
  - intros (q & Hq & Hor). breflect. destruct Hor; breflect; subst; auto.
  - intros [_ [H|H]]; eexists; (split; [exact H|]); by rewrite String.eqb_refl, ?orb_true_r.
Qed.

End Permission.

(** * Password policy (domain/validation, password.go) *)

(** The classification tables of Go's [unicode] package.  They are generated
    from the Unicode database; the theorems use what they say of ASCII. *)
Class Unicode := {
  IsUpper : Z -> bool;
  IsLower : Z -> bool;
  IsDigit : Z -> bool;
  IsPunct : Z -> bool;
  IsSymbol : Z -> bool;
}.

Definition ascii_upper (r : Z) : bool := between 65 r 90.
Definition ascii_lower (r : Z) : bool := between 97 r 122.
Definition ascii_digit (r : Z) : bool := between 48 r 57.
(** Printable, and neither a letter, a digit nor the space. *)
Definition ascii_special (r : Z) : bool :=
  between 33 r 47 || between 58 r 64 || between 91 r 96 || between 123 r 126.

Class UnicodeASCII `{Unicode} : Prop := {
  IsUpper_ascii r : 0 <= r < 128 -> IsUpper r = ascii_upper r;
  IsLower_ascii r : 0 <= r < 128 -> IsLower r = ascii_lower r;
  IsDigit_ascii r : 0 <= r < 128 -> IsDigit r = ascii_digit r;
  IsPunctSymbol_ascii r : 0 <= r < 128 -> IsPunct r || IsSymbol r = ascii_special r;
}.

Module Password.

(** The four flags of the policy's loop. *)
Record classes := { hasUpper : bool; hasLower : bool; hasDigit : bool; hasSpecial : bool }.

Definition no_classes : classes :=
  {| hasUpper := false; hasLower := false; hasDigit := false; hasSpecial := false |}.

Record PlainPassword := { plaintext : string }.
Record PasswordDigest := { encoded : string }.

Definition zeroPassword : PlainPassword := {| plaintext := "" |}.
Definition zeroDigest : PasswordDigest := {| encoded := "" |}.

Section Policy.
Context `{Unicode}.

(** One iteration of [for _, r := range plaintext]: the first matching case
    of the switch sets its flag. *)
Definition scan_rune (f : classes) (r : Z) : classes :=
  if IsUpper r then {| hasUpper := true; hasLower := hasLower f;
                       hasDigit := hasDigit f; hasSpecial := hasSpecial f |}
  else if IsLower r then {| hasUpper := hasUpper f; hasLower := true;
                            hasDigit := hasDigit f; hasSpecial := hasSpecial f |}
  else if IsDigit r then {| hasUpper := hasUpper f; hasLower := hasLower f;
                            hasDigit := true; hasSpecial := hasSpecial f |}
  else if IsPunct r || IsSymbol r then {| hasUpper := hasUpper f; hasLower := hasLower f;
                                          hasDigit := hasDigit f; hasSpecial := true |}
  else f.

Definition ValidatePasswordPolicy (plaintext : string) : res unit :=
  if len plaintext <? 8 then Err ErrPasswordTooShort
  else if len plaintext >? 72 then Err ErrPasswordTooLong
  else
    let f := fold_left scan_rune (runes (bytes_of plaintext)) no_classes in
    if negb (hasUpper f && hasLower f && hasDigit f && hasSpecial f)
    then Err ErrPasswordPolicyViolation
    else Ok tt.

Definition NewPlainPassword (plaintext : string) : res PlainPassword :=
  letr _ := ValidatePasswordPolicy plaintext in
  Ok {| plaintext := plaintext |}.

Definition Bytes (p : PlainPassword) : string := plaintext p.

Definition Validate (p : PlainPassword) : res unit := ValidatePasswordPolicy (plaintext p).

Lemma NewPlainPassword_Ok s p :
  NewPlainPassword s = Ok p -> plaintext p = s /\ Validate p = Ok tt.
Proof.
  unfold NewPlainPassword, Validate. intros H0. inv_ok. cbn.
  split; [done|]. destruct (ValidatePasswordPolicy s) as [[]|]; done.
Qed.

Lemma ValidatePasswordPolicy_nonempty s : ValidatePasswordPolicy s = Ok tt -> s <> "".
Proof. intros H0 ->. discriminate H0. Qed.

End Policy.

Definition PlainPassword_IsZero (p : PlainPassword) : bool := plaintext p =s "".

Definition redactedPassword : string := "<redacted>".
Definition PlainPassword_String (_ : PlainPassword) : string := redactedPassword.
Definition PasswordDigest_String (_ : PasswordDigest) : string := redactedPassword.

Definition NewPasswordDigest (encoded : string) : res PasswordDigest :=
  if encoded =s "" then Err ErrInvalidStoredPasswordHash
  else Ok {| encoded := encoded |}.

Definition Encoded (d : PasswordDigest) : string := encoded d.

Definition IsZero (d : PasswordDigest) : bool := encoded d =s "".

Section ASCII.
Context `{UnicodeASCII}.

Lemma runes_ascii l : Forall (fun b => 0 <= b < 128) l -> runes l = l.
Proof.
  induction 1 as [|b l Hb Hl IH]; [done|]. cbn.
  rewrite (proj2 (Z.ltb_lt b 128)) by lia. by rewrite IH.
Qed.

(** The flags after the loop: each one is the disjunction of its class test
    over the bytes, whatever the order of the switch, since the ASCII classes
    are disjoint. *)
Lemma scan_ascii l f :
  Forall (fun b => 0 <= b < 128) l ->
  fold_left scan_rune l f =
  {| hasUpper := hasUpper f || existsb ascii_upper l;
     hasLower := hasLower f || existsb ascii_lower l;
     hasDigit := hasDigit f || existsb ascii_digit l;
     hasSpecial := hasSpecial f || existsb ascii_special l |}.
Proof.
  intros Hl. revert f. induction Hl as [|b l Hb Hl IH]; intros f.
  - destruct f; cbn. by rewrite !orb_false_r.
  - cbn [fold_left existsb]. rewrite IH. unfold scan_rune.
    rewrite IsUpper_ascii, IsLower_ascii, IsDigit_ascii, IsPunctSymbol_ascii by done.
    destruct (ascii_upper b) eqn:E1, (ascii_lower b) eqn:E2, (ascii_digit b) eqn:E3,
      (ascii_special b) eqn:E4; cbn; rewrite ?orb_true_r; try done;
      exfalso; unfold ascii_upper, ascii_lower, ascii_digit, ascii_special, between in *;
      repeat (breflect; match goal with H : _ \/ _ |- _ => destruct H end); breflect; lia.
Qed.

(** The policy accepts an ASCII password exactly when it has 8 to 72 bytes
    and a character of each of the four classes. *)
Lemma ValidatePasswordPolicy_ascii s :
  Forall (fun b => 0 <= b < 128) (bytes_of s) ->
  ValidatePasswordPolicy s = Ok tt <->
  8 <= len s <= 72 /\ existsb ascii_upper (bytes_of s) = true
  /\ existsb ascii_lower (bytes_of s) = true /\ existsb ascii_digit (bytes_of s) = true
  /\ existsb ascii_special (bytes_of s) = true.
Proof.
  intros Hs. unfold ValidatePasswordPolicy. rewrite runes_ascii, scan_ascii by done. cbn.
  destruct (len s <? 8) eqn:E1; [breflect; split; [done|lia]|].
  destruct (len s >? 72) eqn:E2; [breflect; split; [done|lia]|].
  breflect.
  destruct (existsb ascii_upper _), (existsb ascii_lower _), (existsb ascii_digit _),
    (existsb ascii_special _); cbn; intuition (try done; lia).
Qed.

End ASCII.

End Password.

(** A concrete table: ASCII only.  It shows the laws can hold. *)
#[export] Instance asciiUnicode : Unicode := {|
  IsUpper := ascii_upper; IsLower := ascii_lower; IsDigit := ascii_digit;
  IsPunct := ascii_special; IsSymbol := fun _ => false |}.
#[export] Instance asciiUnicodeASCII : UnicodeASCII.
Proof. constructor; try done. intros r _. cbn. apply orb_false_r. Qed.

(** * JWT claims (jwt_claims.go) *)
Module Claims.

Abbreviation TokenType := string (only parsing).
Definition TokenTypeAccess : TokenType := "access".
Definition TokenTypeRefresh : TokenType := "refresh".
Definition TokenIssuer : string := "goat-api".
Definition TokenAudience : string := "api".

(** Instants are nanoseconds since the Unix epoch, durations nanoseconds. *)
Record JWTClaims := {
  UserID : string;
  SessionID : string;
  CredentialVersion : Z;
  Role : Z;
  Permissions : Permission.PermissionSet;
  TokenType_ : TokenType;
  JTI : string;
  Issuer : string;
  Subject : string;
  Audience : list string;
  ExpiresAt : Z;
  IssuedAt : Z;
  NotBefore : Z;
}.

Record TokenIdentity := {
  ti_UserID : string;
  ti_SessionID : string;
  ti_JTI : string;
  ti_CredentialVersion : Z;
}.

Record AuthorizationSnapshot := {
  as_Role : Z;
  as_Permissions : Permission.PermissionSet;
}.

Definition zeroSnapshot : AuthorizationSnapshot :=
  {| as_Role := Role.RoleUnknown; as_Permissions := Permission.emptySet |}.

Definition NewJWTClaims (identity : TokenIdentity) (tokenType : TokenType)
    (expiresAt issuedAt : Z) (snapshot : AuthorizationSnapshot) : res JWTClaims :=
  if (ti_UserID identity =s "") || (ti_SessionID identity =s "") || (ti_JTI identity =s "")
     || (ti_CredentialVersion identity <=? 0)
  then Err ErrInvalidInput
  else if (tokenType <>s TokenTypeAccess) && (tokenType <>s TokenTypeRefresh)
  then Err ErrInvalidInput
  else if negb (issuedAt <? expiresAt)
  then Err ErrInvalidInput
  else if (tokenType =s TokenTypeAccess) && (as_Role snapshot =? Role.RoleUnknown)
  then Err ErrInvalidInput
  else Ok {| UserID := ti_UserID identity;
             SessionID := ti_SessionID identity;
             CredentialVersion := ti_CredentialVersion identity;
             Role := as_Role snapshot;
             Permissions := as_Permissions snapshot;
             TokenType_ := tokenType;
             JTI := ti_JTI identity;
             Issuer := TokenIssuer;
             Subject := tokenType;
             Audience := [TokenAudience];
             ExpiresAt := expiresAt;
             IssuedAt := issuedAt;
             NotBefore := issuedAt |}.

Definition IsAccess (c : JWTClaims) : bool := TokenType_ c =s TokenTypeAccess.
Definition IsRefresh (c : JWTClaims) : bool := TokenType_ c =s TokenTypeRefresh.
Definition IsExpiredAt (c : JWTClaims) (now : Z) : bool := negb (now <? ExpiresAt c).

Lemma NewJWTClaims_Ok identity tokenType expiresAt issuedAt snapshot c :
  NewJWTClaims identity tokenType expiresAt issuedAt snapshot = Ok c ->
  UserID c = ti_UserID identity /\ SessionID c = ti_SessionID identity
  /\ JTI c = ti_JTI identity /\ CredentialVersion c = ti_CredentialVersion identity
  /\ TokenType_ c = tokenType /\ Role c = as_Role snapshot
  /\ Permissions c = as_Permissions snapshot
  /\ ExpiresAt c = expiresAt /\ IssuedAt c = issuedAt /\ NotBefore c = issuedAt
  /\ issuedAt < expiresAt /\ 0 < ti_CredentialVersion identity
  /\ ti_UserID identity <> "" /\ ti_SessionID identity <> "" /\ ti_JTI identity <> ""
  /\ (tokenType = TokenTypeAccess \/ tokenType = TokenTypeRefresh)
  /\ (tokenType = TokenTypeAccess -> as_Role snapshot <> Role.RoleUnknown).
Proof.
  unfold NewJWTClaims. intros H.
  destruct (_ || (ti_CredentialVersion identity <=? 0))%bool eqn:E1; [discriminate|].
  destruct ((tokenType <>s _) && _)%bool eqn:E2; [discriminate|].
  destruct (negb (issuedAt <? expiresAt)) eqn:E3; [discriminate|].
  destruct ((tokenType =s TokenTypeAccess) && _)%bool eqn:E4; [discriminate|].
  injection H as <-. cbn. breflect.
  repeat split; try done.
  - destruct E2 as [?|?]; breflect; auto.
  - intros ->. destruct E4 as [E4|E4]; breflect; done.
Qed.

End Claims.
