(* ===== verification/Domain.v ===== *)
(** internal/domain/entity and internal/domain/repository: the entities, and
    the ports of the application as operational classes.  A port's methods are
    computations over an abstract state, which the adapters instantiate. *)
From S2P Require Export ValueObjects.

(** * Entities *)

Definition InitialCredentialVersion : Z := 1.

Module User.
(** entity/user.go; instants are nanoseconds since the Unix epoch. *)
Record t := {
  ID : string;
  Email : string;
  PasswordDigest : Password.PasswordDigest;
  Status : Z;
  Role : Z;
  CredentialVersion : Z;
  CreatedAt : Z;
  UpdatedAt : option Z;
}.
End User.

Module Session.
(** entity/session.go *)
Record t := {
  ID : string;
  UserID : string;
  CredentialVersion : Z;
  SessionGeneration : Z;
  Device : string;
  IP : string;
  CurrentJTI : string;
  CreatedAt : Z;
  ExpiresAt : Z;
  UpdatedAt : Z;
  JTITTLSeconds : Z;
  SessionTTLSeconds : Z;
}.
End Session.

Module PermissionEntity.
(** entity/permission.go *)
Record t := {
  ID : string;
  Role : Z;
  Action : string;
  CreatedAt : Z;
}.
End PermissionEntity.

(** * Repository results *)

Inductive UserStatusUpdateOutcome : Set :=
  | UserStatusUpdateUnknown
  | UserStatusUpdateApplied
  | UserStatusUpdateAlreadyApplied
  | UserStatusUpdateConflict
  | UserStatusUpdateNotFound.

Record UserStatusUpdateResult := {
  su_Outcome : UserStatusUpdateOutcome;
  su_CurrentStatus : Z;
}.

(** rolechange/types.go *)
Inductive UserRoleUpdateOutcome : Set :=
  | UserRoleUpdateUnknown
  | UserRoleUpdateApplied
  | UserRoleUpdateAlreadyApplied
  | UserRoleUpdateConflict
  | UserRoleUpdateNotFound.

Record UserRoleUpdateResult := {
  ru_Outcome : UserRoleUpdateOutcome;
  ru_CurrentRole : Z;
}.

Record UserRoleUpdateCommand := {
  rc_UserID : string;
  rc_ExpectedRole : Z;
  rc_RequestedRole : Z;
}.

(** updating/types.go, emailchange/types.go, statuschange/types.go,
    detail/types.go, listing/types.go *)
Record UserUpdateCommand := {
  uc_UserID : string;
  uc_Email : string;
  uc_PasswordDigest : Password.PasswordDigest;
}.

Record UserEmailUpdateCommand := {
  ec_UserID : string;
  ec_Email : string;
}.

Record UserStatusSnapshot := {
  ss_ID : string;
  ss_Role : Z;
  ss_Status : Z;
}.

Record UserDetail := {
  ud_ID : string;
  ud_Email : string;
  ud_Role : Z;
  ud_Status : Z;
  ud_CreatedAt : Z;
}.

Record UserListCriteria := {
  lc_Statuses : list Z;
  lc_Roles : list Z;
  lc_Search : string;
}.

Record UserListItem := {
  li_ID : string;
  li_Email : string;
  li_Role : Z;
  li_Status : Z;
  li_CreatedAt : Z;
}.

Record UserListResult := {
  lr_Items : list UserListItem;
  lr_Total : Z;
}.

(** authorization/types.go *)
Record SecurityState := {
  sec_UserID : string;
  sec_Status : Z;
  sec_Role : Z;
  sec_CredentialVersion : Z;
  sec_Permissions : Permission.PermissionSet;
}.

Record IdentityState := {
  id_UserID : string;
  id_Status : Z;
  id_CredentialVersion : Z;
}.

(** * Ports *)

(** repository/session_repository.go.  [Create] also returns the session with
    the generation it assigned through the pointer. *)
Class SessionRepository (S : Type) := {
  sr_Create : Session.t -> M S Session.t;
  sr_FindByJTI : string -> string -> string -> Z -> M S (option Session.t);
  sr_ListByUser : string -> Z -> Z -> M S (list Session.t * Z);
  sr_Delete : list string -> M S unit;
  sr_DeleteByUser : string -> list string -> M S bool;
  sr_DeleteAllByUser : string -> M S unit;
  sr_BlockAndDeleteAllByUser : string -> M S unit;
  sr_UnblockUser : string -> M S unit;
  sr_DeleteOthersByUser : string -> string -> M S bool;
  sr_RotateJTI : string -> string -> string -> string -> Z -> string -> string ->
                 Z -> Z -> Z -> M S string;
  sr_DeleteOrphanSessions : M S unit;
}.

(** repository/user_repository.go *)
Class UserRepository (S : Type) := {
  ur_Create : User.t -> M S unit;
  ur_ExistsByID : string -> M S bool;
  ur_FindByID : string -> M S (option User.t);
  ur_FindByEmail : string -> M S (option User.t);
  ur_GetCredentialVersion : string -> M S Z;
  ur_UpdatePassword : string -> Password.PasswordDigest -> M S Z;
  ur_UpdateStatus : string -> Z -> Z -> M S UserStatusUpdateResult;
  ur_Delete : string -> M S unit;
}.

(** The narrower ports of usecase/user, all implemented by the PostgreSQL user
    repository. *)
Class UserReadersWriters (S : Type) := {
  FindDetailByID : string -> M S UserDetail;
  ListUsers : Z -> Z -> UserListCriteria -> M S UserListResult;
  FindStatusSnapshotByID : string -> M S UserStatusSnapshot;
  UpdateUserFields : UserUpdateCommand -> M S unit;
  UpdateEmail : UserEmailUpdateCommand -> M S unit;
  UpdateRole : UserRoleUpdateCommand -> M S UserRoleUpdateResult;
}.

(** authorization/interface.go *)
Class StateReaders (S : Type) := {
  GetSecurityState : string -> M S SecurityState;
  GetIdentityState : string -> M S IdentityState;
}.

(** repository/permission_repository.go *)
Class PermissionRepository (S : Type) := {
  pr_Create : PermissionEntity.t -> M S unit;
  pr_List : Z -> Z -> M S (list PermissionEntity.t * Z);
  pr_GetByRoleID : Z -> M S (list PermissionEntity.t);
  pr_Delete : string -> M S unit;
}.

(** service/password_service.go *)
Class PasswordHasher (S : Type) := {
  ph_Hash : Password.PlainPassword -> M S Password.PasswordDigest;
  ph_Verify : Password.PlainPassword -> Password.PasswordDigest -> M S bool;
}.

(** service/jwt_service.go: a token string and its claims. *)
Class JWTService (S : Type) := {
  GenerateAccessToken : Claims.TokenIdentity -> Claims.AuthorizationSnapshot -> Z ->
                        M S (string * Claims.JWTClaims);
  GenerateRefreshToken : Claims.TokenIdentity -> Z -> M S (string * Claims.JWTClaims);
  ParseAndValidate : string -> M S Claims.JWTClaims;
}.

(** service/rate_limiter_service.go: allowed, retry-after (nanoseconds), count. *)
Class RateLimiter (S : Type) := {
  Allow : string -> string -> string -> Z -> Z -> M S (bool * Z * Z);
}.

(** The clock and the identifier generators of the libraries ([time.Now],
    [uuid.New], [ulid.MustNew]). *)
Class Environment (S : Type) := {
  time_Now : M S Z;
  uuid_New : M S string;
  ULIDGenerator : M S string;
}.

(** [int64(d.Seconds())] of a duration in nanoseconds: the quotient is truncated
    toward zero.  [d.Seconds()] is a float64, exact enough for this to hold for
    every whole number of seconds and every duration below 2^23 seconds. *)
Definition duration_seconds (d : Z) : Z := Z.quot d 1000000000.
(** [d.Microseconds()] *)
Definition duration_micros (d : Z) : Z := Z.quot d 1000.
(** [t.Unix()] of an instant in nanoseconds. *)
Definition unix_seconds (t : Z) : Z := t / 1000000000.
(** [t.UnixMicro()] *)
Definition unix_micros (t : Z) : Z := t / 1000.
(** [time.Unix(s, 0)] *)
Definition from_unix (s : Z) : Z := s * 1000000000.

(** [pkg.RedisKey] *)
Definition RedisKey (domain entity identifier : string) : string :=
  domain +:+ (":" +:+ (entity +:+ (":" +:+ identifier))).
