(* ===== verification/Redis.v ===== *)
(** The Redis server as the scripts see it.  The server is not part of the
    repository: it is a parameter ([RedisServer]), and what the code relies on
    is that each command does what the Redis documentation says of it
    ([RedisDocumented]): there is a view of the server as a keyspace, on which
    a command has the effect and the reply of [documented].  [documented] is
    itself a server, which the witnesses use.

    Scripts are a free monad of commands, so a script is the same tree for
    every server, and [run_documented] transfers what is proved on keyspaces
    to any documented server. *)
From S2P Require Export Domain.

(** * Keyspaces *)

Inductive rvalue : Set :=
  | RString (s : string)
  | RHash (h : gmap string string)
  | RZset (z : gmap string Z)       (* member, score *)
  | ROther (type : string).         (* list, set, stream: never created by this program *)

Record rentry : Set := {
  re_value : rvalue;
  re_expire : option Z;             (* absolute, in milliseconds *)
}.

Record keyspace : Set := {
  ks_now : Z;                       (* the server's clock, in milliseconds *)
  ks_keys : gmap string rentry;
}.

Definition live_entry (now : Z) (e : rentry) : option rentry :=
  match re_expire e with
  | Some t => if t <=? now then None else Some e
  | None => Some e
  end.

(** An expired key behaves as a missing one. *)
Definition ks_entry (ks : keyspace) (k : string) : option rentry :=
  match ks_keys ks !! k with
  | Some e => live_entry (ks_now ks) e
  | None => None
  end.

Definition ks_get (ks : keyspace) (k : string) : option rvalue :=
  match ks_entry ks k with Some e => Some (re_value e) | None => None end.

Definition ks_put (k : string) (e : rentry) (ks : keyspace) : keyspace :=
  {| ks_now := ks_now ks; ks_keys := <[k := e]> (ks_keys ks) |}.

Definition ks_del (k : string) (ks : keyspace) : keyspace :=
  {| ks_now := ks_now ks; ks_keys := delete k (ks_keys ks) |}.

(** Replacing the value of a key keeps its expiry; a new key has none. *)
Definition ks_set_value (k : string) (v : rvalue) (ks : keyspace) : keyspace :=
  ks_put k {| re_value := v;
              re_expire := match ks_entry ks k with Some e => re_expire e | None => None end |} ks.

Definition elapse (d : Z) (ks : keyspace) : keyspace :=
  {| ks_now := ks_now ks + Z.max 0 d; ks_keys := ks_keys ks |}.

(** * Commands and replies *)

Inductive rcmd : Set :=
  | GET (k : string)
  | SET_EX (k v : string) (seconds : Z)
  | DEL (k : string)
  | EXISTS (k : string)
  | TYPE (k : string)
  | HGET (k f : string)
  | HMGET (k : string) (fs : list string)
  | HSET (k : string) (args : list string)
  | EXPIRE (k : string) (seconds : Z)
  | TTL (k : string)
  | TIME
  | ZADD (k : string) (nx : bool) (score member : string)
  | ZREM (k m : string)
  | ZCARD (k : string)
  | ZRANGE_ALL (k : string)          (* ZRANGE k 0 -1 *)
  | ZREVRANGE_ALL (k : string)       (* ZREVRANGE k 0 -1 *)
  | ZRANGE_FIRST (k : string)        (* ZRANGE k 0 0 WITHSCORES *)
  | ZREMRANGEBYSCORE (k : string) (min max : Z).

Inductive rreply : Set :=
  | RNil
  | RInt (z : Z)
  | RStatus (s : string)
  | RBulk (s : string)
  | RArr (l : list rreply)
  | RError (msg : string).

Definition WRONGTYPE : rreply :=
  RError "WRONGTYPE Operation against a key holding the wrong kind of value".

(** The members of a sorted set by score, then by bytes. *)
Definition zle (a b : string * Z) : Prop :=
  a.2 < b.2 \/ (a.2 = b.2 /\ Permission.string_le a.1 b.1).
#[export] Instance zle_dec : RelDecision zle.
Proof. intros a b. unfold zle. apply _. Defined.

Definition zsorted (z : gmap string Z) : list (string * Z) := merge_sort zle (map_to_list z).
Definition zmembers (z : gmap string Z) : list string := (zsorted z).*1.

(** The flat field-value list of HSET. *)
Fixpoint hset_pairs (args : list string) : option (list (string * string)) :=
  match args with
  | [] => Some []
  | f :: v :: args' => match hset_pairs args' with Some ps => Some ((f, v) :: ps) | None => None end
  | [_] => None
  end.

Fixpoint hset_all (ps : list (string * string)) (h : gmap string string) : gmap string string :=
  match ps with
  | [] => h
  | (f, v) :: ps' => hset_all ps' (<[f := v]> h)
  end.

Definition bulk_or_nil (o : option string) : rreply :=
  match o with Some s => RBulk s | None => RNil end.

(** A sorted set without members does not exist. *)
Definition ks_zset_put (k : string) (z : gmap string Z) (ks : keyspace) : keyspace :=
  if bool_decide (z = ∅) then ks_del k ks else ks_set_value k (RZset z) ks.

(** What the Redis documentation says of each command. *)
Definition documented (c : rcmd) (ks : keyspace) : rreply * keyspace :=
  match c with
  | GET k =>
      (match ks_get ks k with
       | None => RNil | Some (RString s) => RBulk s | Some _ => WRONGTYPE end, ks)
  | SET_EX k v seconds =>
      if seconds <=? 0 then (RError "ERR invalid expire time in 'set' command", ks)
      else (RStatus "OK",
            ks_put k {| re_value := RString v;
                        re_expire := Some (ks_now ks + 1000 * seconds) |} ks)
  | DEL k => (RInt (if is_some (ks_get ks k) then 1 else 0), ks_del k ks)
  | EXISTS k => (RInt (if is_some (ks_get ks k) then 1 else 0), ks)
  | TYPE k =>
      (RStatus match ks_get ks k with
               | None => "none" | Some (RString _) => "string" | Some (RHash _) => "hash"
               | Some (RZset _) => "zset" | Some (ROther t) => t end, ks)
  | HGET k f =>
      (match ks_get ks k with
       | None => RNil | Some (RHash h) => bulk_or_nil (h !! f) | Some _ => WRONGTYPE end, ks)
  | HMGET k fs =>
      (match ks_get ks k with
       | None => RArr (map (fun _ => RNil) fs)
       | Some (RHash h) => RArr (map (fun f => bulk_or_nil (h !! f)) fs)
       | Some _ => WRONGTYPE end, ks)
  | HSET k args =>
      match hset_pairs args with
      | None | Some [] => (RError "ERR wrong number of arguments for 'hset' command", ks)
      | Some ps =>
          match ks_get ks k with
          | None => (RInt (Z.of_nat (size (hset_all ps ∅))),
                     ks_set_value k (RHash (hset_all ps ∅)) ks)
          | Some (RHash h) => (RInt (Z.of_nat (size (hset_all ps h) - size h)),
                               ks_set_value k (RHash (hset_all ps h)) ks)
          | Some _ => (WRONGTYPE, ks)
          end
      end
  | EXPIRE k seconds =>
      match ks_entry ks k with
      | None => (RInt 0, ks)
      | Some e =>
          if seconds <=? 0 then (RInt 1, ks_del k ks)
          else (RInt 1, ks_put k {| re_value := re_value e;
                                    re_expire := Some (ks_now ks + 1000 * seconds) |} ks)
      end
  | TTL k =>
      (RInt match ks_entry ks k with
            | None => -2
            | Some e => match re_expire e with
                        | None => -1
                        | Some t => (t - ks_now ks + 500) / 1000
                        end
            end, ks)
  | TIME => (RArr [RBulk (itoa (ks_now ks / 1000)); RBulk (itoa (ks_now ks mod 1000 * 1000))], ks)
  | ZADD k nx score member =>
      match parse_signed score with
      | None => (RError "ERR value is not a valid float", ks)
      | Some sc =>
          match ks_get ks k with
          | None => (RInt 1, ks_set_value k (RZset {[member := sc]}) ks)
          | Some (RZset z) =>
              if nx && is_some (z !! member) then (RInt 0, ks)
              else (RInt (if is_some (z !! member) then 0 else 1),
                    ks_set_value k (RZset (<[member := sc]> z)) ks)
          | Some _ => (WRONGTYPE, ks)
          end
      end
  | ZREM k m =>
      match ks_get ks k with
      | None => (RInt 0, ks)
      | Some (RZset z) => (RInt (if is_some (z !! m) then 1 else 0),
                           ks_zset_put k (delete m z) ks)
      | Some _ => (WRONGTYPE, ks)
      end
  | ZCARD k =>
      (match ks_get ks k with
       | None => RInt 0 | Some (RZset z) => RInt (Z.of_nat (size z)) | Some _ => WRONGTYPE end, ks)
  | ZRANGE_ALL k =>
      (match ks_get ks k with
       | None => RArr [] | Some (RZset z) => RArr (RBulk <$> zmembers z) | Some _ => WRONGTYPE end,
       ks)
  | ZREVRANGE_ALL k =>
      (match ks_get ks k with
       | None => RArr [] | Some (RZset z) => RArr (RBulk <$> rev (zmembers z))
       | Some _ => WRONGTYPE end, ks)
  | ZRANGE_FIRST k =>
      (match ks_get ks k with
       | None => RArr []
       | Some (RZset z) =>
           RArr (match zsorted z with
                 | [] => [] | (m, sc) :: _ => [RBulk m; RBulk (itoa sc)] end)
       | Some _ => WRONGTYPE end, ks)
  | ZREMRANGEBYSCORE k min max =>
      match ks_get ks k with
      | None => (RInt 0, ks)
      | Some (RZset z) =>
          let keep := filter (fun mv => ~ (min <= mv.2 <= max)) z in
          (RInt (Z.of_nat (size z - size keep)), ks_zset_put k keep ks)
      | Some _ => (WRONGTYPE, ks)
      end
  end.

(** * Servers *)

Class RedisServer (DB : Type) := redis_exec : rcmd -> DB -> rreply * DB.

Class RedisDocumented (DB : Type) `{RedisServer DB} := {
  redis_view : DB -> keyspace;
  redis_exec_documented c db :
    documented c (redis_view db) = ((redis_exec c db).1, redis_view (redis_exec c db).2);
}.

#[export] Instance keyspace_server : RedisServer keyspace := documented.
#[export] Program Instance keyspace_documented : RedisDocumented keyspace :=
  {| redis_view := fun ks => ks |}.
Next Obligation. intros c db. unfold redis_exec, keyspace_server. by destruct (documented c db). Qed.

(** * Scripts *)

(** A Lua script: commands whose error reply ends the script ([redis.call]),
    commands whose error reply is a value ([redis.pcall]), and the reply. *)
Inductive script : Type :=
  | SReturn (r : rreply)
  | SCall (c : rcmd) (k : rreply -> script)
  | SPcall (c : rcmd) (k : rreply -> script).

(** [return redis.error_reply(msg)] *)
Definition SError (msg : string) : script := SReturn (RError msg).

(** A run-time error of the Lua code itself. *)
Definition SRaise (msg : string) : script := SReturn (RError msg).

(** Running a script atomically: the writes made before an error stay. *)
Fixpoint run_script {DB} `{RedisServer DB} (p : script) (db : DB) : rreply * DB :=
  match p with
  | SReturn r => (r, db)
  | SCall c k =>
      match redis_exec c db with
      | (RError msg, db') => (RError msg, db')
      | (r, db') => run_script (k r) db'
      end
  | SPcall c k => let '(r, db') := redis_exec c db in run_script (k r) db'
  end.

Notation "'call!' x ':=' c 'in' k" := (SCall c (fun x => k))
  (at level 10, x pattern, c at level 200, k at level 200) : goat_scope.
Notation "'pcall!' x ':=' c 'in' k" := (SPcall c (fun x => k))
  (at level 10, x pattern, c at level 200, k at level 200) : goat_scope.

(** What is proved of a script on keyspaces holds of every documented server. *)
Lemma run_documented {DB} `{RedisDocumented DB} (p : script) (db : DB) :
  run_script p (redis_view db) = ((run_script p db).1, redis_view (run_script p db).2).
Proof.
  revert db. induction p as [r|c k IH|c k IH]; intros db; [done|..]; cbn [run_script];
    pose proof (redis_exec_documented c db) as Hc;
    change (@redis_exec keyspace _ c (redis_view db)) with (documented c (redis_view db));
    rewrite Hc; destruct (redis_exec c db) as [r db']; cbn [fst snd].
  - destruct r; try apply IH; done.
  - apply IH.
Qed.

(** Lua's view of a reply: a nil reply is [false], so a test [if not x] is
    taken for it. *)
Definition as_string (r : rreply) : option string :=
  match r with RBulk s => Some s | _ => None end.
Definition status_of (r : rreply) : string :=
  match r with RStatus s => s | _ => "" end.
Definition int_of (r : rreply) : Z := match r with RInt z => z | _ => 0 end.
Definition elements_of (r : rreply) : list rreply := match r with RArr l => l | _ => [] end.
Definition is_error (r : rreply) : bool := match r with RError _ => true | _ => false end.
(** [t[i]] on a reply table, from 1; missing or nil is [None]. *)
Definition field (r : rreply) (i : nat) : option string :=
  match elements_of r !! (i - 1)%nat with Some x => as_string x | None => None end.

(** [tonumber] on a decimal integer, the only numerals the program stores or
    sends.  Lua's doubles represent it exactly up to 2^53; the scripts refuse
    a larger generation, and rounding cannot bring one below the bound. *)
Definition tonumber (o : option string) : option Z :=
  match o with Some s => parse_signed s | None => None end.

(** * Lemmas *)

Lemma ks_get_put_eq k e ks :
  ks_get (ks_put k e ks) k = match live_entry (ks_now ks) e with
                             | Some e' => Some (re_value e') | None => None end.
Proof. unfold ks_get, ks_entry, ks_put. cbn. by rewrite lookup_insert_eq. Qed.

Lemma ks_entry_put_ne k k' e ks : k <> k' -> ks_entry (ks_put k e ks) k' = ks_entry ks k'.
Proof. intros H. unfold ks_entry, ks_put. cbn. by rewrite lookup_insert_ne. Qed.

Lemma ks_entry_del_eq k ks : ks_entry (ks_del k ks) k = None.
Proof. unfold ks_entry, ks_del. cbn. by rewrite lookup_delete_eq. Qed.

Lemma ks_entry_del_ne k k' ks : k <> k' -> ks_entry (ks_del k ks) k' = ks_entry ks k'.
Proof. intros H. unfold ks_entry, ks_del. cbn. by rewrite lookup_delete_ne. Qed.

(** Two keyspaces that agree on what is live. *)
Lemma ks_get_entry ks ks' k : ks_entry ks k = ks_entry ks' k -> ks_get ks k = ks_get ks' k.
Proof. unfold ks_get. by intros ->. Qed.

Lemma live_entry_live now e e' : live_entry now e = Some e' -> e' = e.
Proof. unfold live_entry. repeat case_match; congruence. Qed.

Lemma ks_entry_set_value k v ks :
  ks_entry (ks_set_value k v ks) k =
  Some {| re_value := v;
          re_expire := match ks_entry ks k with Some e => re_expire e | None => None end |}.
Proof.
  unfold ks_entry at 1, ks_set_value, ks_put. cbn. rewrite lookup_insert_eq.
  destruct (ks_entry ks k) as [e|] eqn:E; [|done].
  unfold ks_entry in E. destruct (ks_keys ks !! k) as [e0|]; [|done].
  unfold live_entry in *. cbn. destruct (re_expire e0) as [t|] eqn:Et.
  - destruct (t <=? ks_now ks) eqn:Hlt; [done|]. injection E as <-. by rewrite Et, Hlt.
  - injection E as <-. by rewrite Et.
Qed.

Lemma ks_get_set_value_eq k v ks : ks_get (ks_set_value k v ks) k = Some v.
Proof. unfold ks_get. by rewrite ks_entry_set_value. Qed.

Lemma ks_entry_set_value_ne k k' v ks :
  k <> k' -> ks_entry (ks_set_value k v ks) k' = ks_entry ks k'.
Proof. apply ks_entry_put_ne. Qed.

Lemma ks_entry_put_live k v t ks :
  ks_now ks < t ->
  ks_entry (ks_put k {| re_value := v; re_expire := Some t |} ks) k
  = Some {| re_value := v; re_expire := Some t |}.
Proof.
  intros H. unfold ks_entry, ks_put. cbn. rewrite lookup_insert_eq. unfold live_entry. cbn.
  by rewrite (proj2 (Z.leb_gt _ _)).
Qed.

Lemma ks_entry_zset_put_ne k k' z ks :
  k <> k' -> ks_entry (ks_zset_put k z ks) k' = ks_entry ks k'.
Proof.
  intros H. unfold ks_zset_put. case_bool_decide.
  - by apply ks_entry_del_ne.
  - by apply ks_entry_set_value_ne.
Qed.

(** A command touches only its own key, and never the clock. *)
Definition cmd_key (c : rcmd) : option string :=
  match c with
  | GET k | SET_EX k _ _ | DEL k | EXISTS k | TYPE k | HGET k _ | HMGET k _ | HSET k _
  | EXPIRE k _ | TTL k | ZADD k _ _ _ | ZREM k _ | ZCARD k | ZRANGE_ALL k | ZREVRANGE_ALL k
  | ZRANGE_FIRST k | ZREMRANGEBYSCORE k _ _ => Some k
  | TIME => None
  end.

Lemma documented_frame c ks k :
  cmd_key c <> Some k -> ks_entry (documented c ks).2 k = ks_entry ks k.
Proof.
  intros H.
  destruct c; cbn in *; repeat case_goal; cbn; try done;
    rewrite ?ks_entry_del_ne, ?ks_entry_put_ne, ?ks_entry_set_value_ne, ?ks_entry_zset_put_ne;
    congruence.
Qed.

Lemma documented_now c ks : ks_now (documented c ks).2 = ks_now ks.
Proof. destruct c; cbn; unfold ks_zset_put; repeat case_goal; done. Qed.

Lemma run_script_now p (ks : keyspace) : ks_now (run_script p ks).2 = ks_now ks.
Proof.
  revert ks. induction p as [r|c k IH|c k IH]; intros ks; [done|..]; cbn [run_script];
    change (redis_exec c ks) with (documented c ks);
    pose proof (documented_now c ks) as Hn; destruct (documented c ks) as [r ks'];
    cbn [snd] in Hn.
  - destruct r; cbn; rewrite ?IH; done.
  - by rewrite IH.
Qed.
