(* ===== verification/SessionScripts.v ===== *)
(** The Lua scripts of internal/infra/storage/redis/scripts, one definition
    per script, over the [KEYS] and [ARGV] tables the Go callers pass.  A
    script that finds a nil key raises, as [redis.call] does on a nil
    argument, before it has written anything. *)
From S2P Require Export Redis.

(** [t[i]] on the KEYS or ARGV table. *)
Definition lua_index (l : list string) (i : Z) : option string :=
  if 1 <=? i then l !! Z.to_nat (i - 1) else None.

Definition nil_argument : script :=
  SRaise "Lua redis lib command arguments must be strings or integers".

(** [not x or x == ""] *)
Definition missing (o : option string) : bool :=
  match o with Some s => s =s "" | None => true end.

(** [a == b] where both may be nil or false; two missing values are never
    compared by the scripts. *)
Definition eq_opt (a b : option string) : bool :=
  match a, b with Some s, Some t => s =s t | _, _ => false end.

(** [o and string.match(o, "^[1-9]%d*$")] *)
Definition positive_opt (o : option string) : bool :=
  match o with Some s => positive_decimal s | None => false end.

Definition maxSafeGeneration : Z := 9007199254740991.

(** [string.match(s, pat .. "(.+)")] for a literal [pat]: what follows the
    first occurrence of [pat] that is followed by something. *)
Fixpoint match_after (pat s : string) : option string :=
  let here := if HasPrefix s pat && negb (drop_bytes (String.length pat) s =s "")
              then Some (drop_bytes (String.length pat) s) else None in
  match s with
  | EmptyString => None
  | String _ s' => match here with Some r => Some r | None => match_after pat s' end
  end.

Definition sessionKeyPrefix : string := "session:id:".
Definition jtiKeyPrefix : string := "session:jti:".

(** The check of a user's access state that create, get, rotate, block and
    unblock share: [none] when there is no state, otherwise the validated
    [blocked] and [session_generation] fields. *)
Definition with_access_state (accessKey : string) (none : script)
    (k : string -> string -> Z -> script) : script :=
  call! accessType := TYPE accessKey in
  if status_of accessType =s "none" then none
  else if status_of accessType <>s "hash" then SError "invalid_user_access_state_type"
  else
    call! access := HMGET accessKey ["blocked"; "session_generation"] in
    match field access 1, field access 2 with
    | Some blocked, Some generation =>
        if ((blocked <>s "0") && (blocked <>s "1")) || negb (positive_decimal generation)
        then SError "invalid_user_access_state"
        else match tonumber (Some generation) with
             | None => SError "invalid_user_session_generation"
             | Some n => if n >? maxSafeGeneration
                         then SError "invalid_user_session_generation"
                         else k blocked generation n
             end
    | _, _ => SError "invalid_user_access_state"
    end.

(** * create_session.lua *)

(** From the key types on: they are checked, then everything is written. *)
Definition create_session_write (sessionKey jtiKey userKey accessKey : string)
    (fields : list string) (sessionTTL jtiTTL : Z)
    (initializeAccess : bool) (generation : string) (generationNumber : Z) : script :=
  call! sessionType := TYPE sessionKey in
  call! jtiType := TYPE jtiKey in
  call! userIndexType := TYPE userKey in
  if (status_of sessionType <>s "none") && (status_of sessionType <>s "hash")
  then SError "invalid_session_key_type"
  else if (status_of jtiType <>s "none") && (status_of jtiType <>s "string")
  then SError "invalid_jti_key_type"
  else if (status_of userIndexType <>s "none") && (status_of userIndexType <>s "zset")
  then SError "invalid_user_session_index_type"
  else
    let hsetArgs := fields ++ ["session_generation"; generation] in
    let write :=
      call! _ := HSET sessionKey hsetArgs in
      call! _ := EXPIRE sessionKey sessionTTL in
      call! _ := SET_EX jtiKey sessionKey jtiTTL in
      call! time := TIME in
      match field time 1 with
      | None => nil_argument
      | Some now =>
          call! ttl := TTL userKey in
          let currentUserTTL := int_of ttl in
          call! _ := ZADD userKey false now sessionKey in
          if (currentUserTTL =? -2) || ((0 <=? currentUserTTL) && (currentUserTTL <? sessionTTL))
          then call! _ := EXPIRE userKey sessionTTL in SReturn (RInt generationNumber)
          else SReturn (RInt generationNumber)
      end in
    if initializeAccess
    then call! _ := HSET accessKey ["blocked"; "0"; "session_generation"; generation] in write
    else write.

Definition create_session (KEYS ARGV : list string) : script :=
  match KEYS with
  | sessionKey :: jtiKey :: userKey :: accessKey :: _ =>
      let n := Z.of_nat (List.length ARGV) in
      match tonumber (lua_index ARGV (n - 1)) with
      | None => SError "Session TTL must be positive integer"
      | Some sessionTTL =>
          if sessionTTL <=? 0 then SError "Session TTL must be positive integer" else
          match tonumber (lua_index ARGV n) with
          | None => SError "JTI TTL must be positive integer"
          | Some jtiTTL =>
              if jtiTTL <=? 0 then SError "JTI TTL must be positive integer" else
              if negb ((n - 2) mod 2 =? 0)
              then SError "Session fields must be field-value pairs" else
              let fields := take (Z.to_nat (n - 2)) ARGV in
              with_access_state accessKey
                (create_session_write sessionKey jtiKey userKey accessKey fields
                   sessionTTL jtiTTL true "1" 1)
                (fun blocked generation g =>
                   if blocked =s "1" then SReturn (RInt (-1))
                   else create_session_write sessionKey jtiKey userKey accessKey fields
                          sessionTTL jtiTTL false generation g)
          end
      end
  | _ => nil_argument
  end.

(** * get_session_by_jti.lua *)

(** [not generation or no match or tonumber(generation) > maxSafeGeneration] *)
Definition bad_generation (o : option string) : bool :=
  negb (positive_opt o)
  || match tonumber o with Some n => n >? maxSafeGeneration | None => true end.

Definition get_session_by_jti (KEYS ARGV : list string) : script :=
  let expectedJTI := lua_index ARGV 1 in
  let expectedUserID := lua_index ARGV 2 in
  let expectedSessionID := lua_index ARGV 3 in
  let expectedCredentialVersion := lua_index ARGV 4 in
  if missing expectedJTI then SError "JTI is required"
  else if missing expectedUserID || missing expectedSessionID
          || negb (positive_opt expectedCredentialVersion)
  then SError "Expected session identity is incomplete"
  else match KEYS with
  | jtiKey :: accessKey :: _ =>
      with_access_state accessKey (SReturn RNil) (fun blocked currentGeneration _ =>
        if blocked =s "1" then SReturn (RArr [RInt (-1)]) else
        call! mapped := GET jtiKey in
        match as_string mapped with
        | None => SReturn RNil
        | Some sessionKey =>
            call! exists_ := EXISTS sessionKey in
            if int_of exists_ =? 0 then call! _ := DEL jtiKey in SReturn RNil else
            pcall! fields := HMGET sessionKey
              ["id"; "user_id"; "current_jti"; "credential_version"; "session_generation"] in
            if is_error fields then SError "read_session_failed" else
            let id := field fields 1 in
            let userID := field fields 2 in
            let currentJTI := field fields 3 in
            let credentialVersion := field fields 4 in
            let sessionGeneration := field fields 5 in
            let expectedSessionKey :=
              match id with Some i => sessionKeyPrefix +:+ i | None => "" end in
            if missing id || missing userID || negb (eq_opt currentJTI expectedJTI)
               || (sessionKey <>s expectedSessionKey)
               || negb (positive_opt credentialVersion) || bad_generation sessionGeneration
            then call! _ := DEL jtiKey in SReturn RNil
            else if negb (eq_opt id expectedSessionID) || negb (eq_opt userID expectedUserID)
                    || negb (eq_opt credentialVersion expectedCredentialVersion)
                    || negb (eq_opt sessionGeneration (Some currentGeneration))
            then SReturn RNil
            else SReturn (RArr (map bulk_or_nil
                   [id; userID; currentJTI; credentialVersion; sessionGeneration]))
        end)
  | _ => nil_argument
  end.

(** * rotate_jti.lua *)

(** The writes of a rotation that passed every check. *)
Definition rotate_jti_write (oldJTIKey newJTIKey sessionKey userKey : string)
    (newJTI ip device updatedAt expiresAt : string) (createdAt jtiTTL sessionTTL : Z) : script :=
  call! userIndexType := TYPE userKey in
  call! newJTIType := TYPE newJTIKey in
  if (status_of userIndexType <>s "none") && (status_of userIndexType <>s "zset")
  then SError "invalid_user_session_index_type"
  else if (status_of newJTIType <>s "none") && (status_of newJTIType <>s "string")
  then SError "invalid_jti_key_type"
  else
    call! deleted := DEL oldJTIKey in
    if int_of deleted =? 0 then SReturn (RArr [RInt 0]) else
    call! _ := SET_EX newJTIKey sessionKey jtiTTL in
    call! _ := HSET sessionKey ["current_jti"; newJTI; "updated_at"; updatedAt;
                                "expires_at"; expiresAt; "ip"; ip; "device"; device] in
    call! _ := EXPIRE sessionKey sessionTTL in
    call! ttl := TTL userKey in
    let currentUserTTL := int_of ttl in
    call! _ := ZADD userKey true (itoa createdAt) sessionKey in
    let reply :=
      SReturn (RArr [RInt 1; RBulk match match_after sessionKeyPrefix sessionKey with
                                   | Some id => id | None => sessionKey end]) in
    if (currentUserTTL =? -2) || ((0 <=? currentUserTTL) && (currentUserTTL <? sessionTTL))
    then call! _ := EXPIRE userKey sessionTTL in reply
    else reply.

Definition rotate_jti (KEYS ARGV : list string) : script :=
  match KEYS, ARGV with
  | oldJTIKey :: newJTIKey :: accessKey :: _,
    newJTI :: expectedUserID :: expectedSessionID :: expectedCredentialVersion :: ip :: device
      :: updatedAt :: expiresAt :: jtiTTLArg :: sessionTTLArg :: _ =>
      match tonumber (Some jtiTTLArg) with
      | None => SError "JTI TTL must be positive"
      | Some jtiTTL =>
      if jtiTTL <=? 0 then SError "JTI TTL must be positive" else
      match tonumber (Some sessionTTLArg) with
      | None => SError "Session TTL must be positive"
      | Some sessionTTL =>
      if sessionTTL <=? 0 then SError "Session TTL must be positive" else
      if expectedUserID =s "" then SError "User ID is required" else
      if expectedSessionID =s "" then SError "Session ID is required" else
      if negb (positive_decimal expectedCredentialVersion)
      then SError "Credential version must be a positive integer" else
      with_access_state accessKey (SReturn (RArr [RInt 0])) (fun blocked currentGeneration _ =>
        if blocked =s "1" then SReturn (RArr [RInt (-1)]) else
        call! mapped := GET oldJTIKey in
        match as_string mapped with
        | None => SReturn (RArr [RInt 0])
        | Some sessionKey =>
            call! exists_ := EXISTS sessionKey in
            if int_of exists_ =? 0 then call! _ := DEL oldJTIKey in SReturn (RArr [RInt 0]) else
            pcall! fields := HMGET sessionKey
              ["id"; "user_id"; "created_at"; "credential_version"; "current_jti";
               "session_generation"] in
            if is_error fields then SError "read_session_failed" else
            let sessionID := field fields 1 in
            let userID := field fields 2 in
            let createdAt := tonumber (field fields 3) in
            let credentialVersion := field fields 4 in
            let currentJTI := field fields 5 in
            let sessionGeneration := field fields 6 in
            if missing sessionID || negb (eq_opt sessionID (Some expectedSessionID))
               || (sessionKey <>s sessionKeyPrefix +:+ expectedSessionID)
               || missing userID || negb (eq_opt userID (Some expectedUserID))
               || negb (is_some createdAt)
               || negb (eq_opt credentialVersion (Some expectedCredentialVersion))
               || negb (eq_opt currentJTI (match_after jtiKeyPrefix oldJTIKey))
               || bad_generation sessionGeneration
               || negb (eq_opt sessionGeneration (Some currentGeneration))
            then SReturn (RArr [RInt 0])
            else match createdAt with
                 | None => SReturn (RArr [RInt 0])
                 | Some created =>
                     rotate_jti_write oldJTIKey newJTIKey sessionKey
                       ("session:user:" +:+ expectedUserID)
                       newJTI ip device updatedAt expiresAt created jtiTTL sessionTTL
                 end
        end)
      end
      end
  | _, _ => nil_argument
  end.

(** * delete_session.lua *)

Fixpoint delete_session_loop (keys : list string) (last : script) : script :=
  match keys with
  | [] => last
  | sessionKey :: keys' =>
      call! userId := HGET sessionKey "user_id" in
      call! jti := HGET sessionKey "current_jti" in
      let drop := call! _ := DEL sessionKey in delete_session_loop keys' last in
      let drop_jti := match as_string jti with
                      | Some j => call! _ := DEL (jtiKeyPrefix +:+ j) in drop
                      | None => drop end in
      match as_string userId with
      | Some u => call! _ := ZREM ("session:user:" +:+ u) sessionKey in drop_jti
      | None => drop_jti
      end
  end.

Definition delete_session (KEYS : list string) : script :=
  delete_session_loop KEYS (SReturn (RInt 1)).

(** * delete_owned_sessions.lua *)

Fixpoint check_owned_loop (expectedUserID : string) (keys : list string) (owned : script) : script :=
  match keys with
  | [] => owned
  | sessionKey :: keys' =>
      call! userID := HGET sessionKey "user_id" in
      if eq_opt (as_string userID) (Some expectedUserID)
      then check_owned_loop expectedUserID keys' owned
      else SReturn (RInt 0)
  end.

Fixpoint delete_owned_loop (expectedUserID : string) (keys : list string) : script :=
  match keys with
  | [] => SReturn (RInt 1)
  | sessionKey :: keys' =>
      call! jti := HGET sessionKey "current_jti" in
      call! _ := ZREM ("session:user:" +:+ expectedUserID) sessionKey in
      let drop := call! _ := DEL sessionKey in delete_owned_loop expectedUserID keys' in
      match as_string jti with
      | Some j => call! _ := DEL (jtiKeyPrefix +:+ j) in drop
      | None => drop
      end
  end.

Definition delete_owned_sessions (KEYS ARGV : list string) : script :=
  match lua_index ARGV 1 with
  | Some expectedUserID =>
      check_owned_loop expectedUserID KEYS (delete_owned_loop expectedUserID KEYS)
  | None =>
      (* a nil owner equals no field *)
      check_owned_loop "" KEYS nil_argument
  end.

(** * delete_other_sessions.lua *)

(** A session reference read from the index before the first write. *)
Record candidate := {
  ca_sessionKey : string;
  ca_owner : option string;
  ca_jti : option string;
  ca_hasSessionPrefix : bool;
}.

Fixpoint read_candidates (expectedUserID : string) (currentSessionKey : option string)
    (keys : list string) (acc : list candidate) (k : list candidate -> script) : script :=
  match keys with
  | [] => k (rev acc)
  | sessionKey :: keys' =>
      if eq_opt (Some sessionKey) currentSessionKey
      then read_candidates expectedUserID currentSessionKey keys' acc k
      else
        pcall! fields := HMGET sessionKey ["user_id"; "current_jti"] in
        let owner := if is_error fields then None else field fields 1 in
        let jti := if eq_opt owner (Some expectedUserID) then field fields 2 else None in
        read_candidates expectedUserID currentSessionKey keys'
          ({| ca_sessionKey := sessionKey; ca_owner := owner; ca_jti := jti;
              ca_hasSessionPrefix := HasPrefix sessionKey sessionKeyPrefix |} :: acc) k
  end.

(** Deletes the JTI mapping of a revoked session when it still points to it. *)
Definition drop_jti_mapping (jti : option string) (sessionKey : string) (k : script) : script :=
  match jti with
  | None => k
  | Some j =>
      pcall! mapped := GET (jtiKeyPrefix +:+ j) in
      if eq_opt (as_string mapped) (Some sessionKey)
      then call! _ := DEL (jtiKeyPrefix +:+ j) in k
      else k
  end.

Fixpoint revoke_candidates (expectedUserID userKey : string) (others : bool)
    (cs : list candidate) (deletedCount : Z) : script :=
  match cs with
  | [] => SReturn (RInt deletedCount)
  | c :: cs' =>
      let revoke :=
        if eq_opt (ca_owner c) (Some expectedUserID) && ca_hasSessionPrefix c
        then drop_jti_mapping (ca_jti c) (ca_sessionKey c)
               (call! _ := DEL (ca_sessionKey c) in
                revoke_candidates expectedUserID userKey others cs' (deletedCount + 1))
        else revoke_candidates expectedUserID userKey others cs' deletedCount in
      if others then call! _ := ZREM userKey (ca_sessionKey c) in revoke else revoke
  end.

(** From the index on: it is read, then every candidate, then the writes. *)
Definition delete_indexed (userKey expectedUserID : string) (others : bool)
    (currentSessionKey : option string) (block : option (string * Z)) : script :=
  call! userIndexType := TYPE userKey in
  let proceed indexedSessionKeys :=
    read_candidates expectedUserID currentSessionKey indexedSessionKeys [] (fun candidates =>
      let drop_index :=
        if others then revoke_candidates expectedUserID userKey others candidates 0
        else call! _ := DEL userKey in
             revoke_candidates expectedUserID userKey others candidates 0 in
      match block with
      | Some (accessKey, nextGeneration) =>
          call! _ := HSET accessKey ["blocked"; "1"; "session_generation"; itoa nextGeneration] in
          drop_index
      | None => drop_index
      end) in
  if status_of userIndexType =s "zset" then
    call! indexed := ZRANGE_ALL userKey in proceed (omap as_string (elements_of indexed))
  else if (status_of userIndexType <>s "none") && others
  then SError "invalid_user_session_index_type"
  else proceed [].

Definition delete_other_sessions (KEYS ARGV : list string) : script :=
  match KEYS with
  | userKey :: keys =>
      match lua_index ARGV 1, lua_index ARGV 2 with
      | Some expectedUserID, Some mode =>
          if expectedUserID =s "" then SError "User ID is required" else
          if mode =s "all" then delete_indexed userKey expectedUserID false None None
          else if mode =s "others" then
            match keys with
            | [] => SError "Current session key is required"
            | currentSessionKey :: _ =>
                pcall! currentOwner := HGET currentSessionKey "user_id" in
                if eq_opt (as_string currentOwner) (Some expectedUserID)
                then delete_indexed userKey expectedUserID true (Some currentSessionKey) None
                else SReturn (RInt (-1))
            end
          else if mode =s "block_all" then
            match keys with
            | [] => SError "User access-state key is required"
            | accessKey :: _ =>
                let block next :=
                  delete_indexed userKey expectedUserID false None (Some (accessKey, next)) in
                with_access_state accessKey (block 1) (fun blocked _ generation =>
                  if blocked =s "1" then block generation
                  else if maxSafeGeneration <=? generation
                  then SError "user_session_generation_exhausted"
                  else block (generation + 1))
            end
          else SError "Unsupported user session deletion mode"
      | None, _ => SError "User ID is required"
      | Some expectedUserID, None =>
          if expectedUserID =s "" then SError "User ID is required"
          else SError "Unsupported user session deletion mode"
      end
  | [] => nil_argument
  end.

(** * unblock_user.lua *)

Definition unblock_user (KEYS : list string) : script :=
  match KEYS with
  | accessKey :: _ =>
      with_access_state accessKey (SError "missing_user_access_state")
        (fun _ generation g =>
           call! _ := HSET accessKey ["blocked"; "0"; "session_generation"; generation] in
           SReturn (RInt g))
  | [] => nil_argument
  end.

(** * clean_orphans.lua *)

Fixpoint clean_orphans_loop (userKey : string) (keys : list string) (removedCount : Z) : script :=
  match keys with
  | [] => SReturn (RInt removedCount)
  | sessionKey :: keys' =>
      call! exists_ := EXISTS sessionKey in
      if int_of exists_ =? 0
      then call! _ := ZREM userKey sessionKey in
           clean_orphans_loop userKey keys' (removedCount + 1)
      else clean_orphans_loop userKey keys' removedCount
  end.

Definition clean_orphans (KEYS : list string) : script :=
  match KEYS with
  | userKey :: _ =>
      call! stored := ZRANGE_ALL userKey in
      clean_orphans_loop userKey (omap as_string (elements_of stored)) 0
  | [] => nil_argument
  end.

(** * list_sessions.lua *)

Definition isUnixTimestamp (o : option string) : bool :=
  match o with
  | Some s => some_digits s
              && match tonumber o with Some t => t <=? 253402300799 | None => false end
  | None => false
  end.

Definition list_fields : list string :=
  ["id"; "user_id"; "device"; "ip"; "current_jti"; "credential_version";
   "session_generation"; "created_at"; "updated_at"; "expires_at"].

(** The [complete] test of the loop. *)
Definition complete_session (expectedUserID sessionKey : string) (fields : rreply) : bool :=
  eq_opt (field fields 2) (Some expectedUserID)
  && HasPrefix sessionKey sessionKeyPrefix
  && negb (missing (field fields 1))
  && match field fields 1 with Some id => sessionKey =s sessionKeyPrefix +:+ id | None => false end
  && negb (missing (field fields 5))
  && positive_opt (field fields 6)
  && positive_opt (field fields 7)
  && isUnixTimestamp (field fields 8)
  && isUnixTimestamp (field fields 9)
  && isUnixTimestamp (field fields 10).

(** The ten values a listed session adds to the reply. *)
Definition session_row (fields : rreply) : list rreply :=
  map (fun i => RBulk match field fields i with Some s => s | None => "" end)
    [1; 2; 3; 4; 5; 6; 7; 8; 9; 10]%nat.

Record cleanup_entry := {
  cl_sessionKey : string;
  cl_revoke : bool;
  cl_jti : option string;
}.

Record listing := {
  ls_rows : list rreply;          (* the result table after its first element *)
  ls_validTotal : Z;
  ls_pageCount : Z;
  ls_cleanup : list cleanup_entry; (* in reverse *)
}.

Definition list_step (expectedUserID : string) (offset limit : Z)
    (sessionKey : string) (fields : rreply) (s : listing) : listing :=
  if is_error fields then
    {| ls_rows := ls_rows s; ls_validTotal := ls_validTotal s; ls_pageCount := ls_pageCount s;
       ls_cleanup := {| cl_sessionKey := sessionKey; cl_revoke := false; cl_jti := None |}
                     :: ls_cleanup s |}
  else if complete_session expectedUserID sessionKey fields then
    let shown := (offset <=? ls_validTotal s)
                 && ((limit =? 0) || (ls_pageCount s <? limit)) in
    {| ls_rows := if shown then ls_rows s ++ session_row fields else ls_rows s;
       ls_validTotal := ls_validTotal s + 1;
       ls_pageCount := if shown then ls_pageCount s + 1 else ls_pageCount s;
       ls_cleanup := ls_cleanup s |}
  else
    {| ls_rows := ls_rows s; ls_validTotal := ls_validTotal s; ls_pageCount := ls_pageCount s;
       ls_cleanup :=
         {| cl_sessionKey := sessionKey;
            cl_revoke := eq_opt (field fields 2) (Some expectedUserID)
                         && HasPrefix sessionKey sessionKeyPrefix;
            cl_jti := if missing (field fields 5) then None else field fields 5 |}
         :: ls_cleanup s |}.

Fixpoint list_read (expectedUserID : string) (offset limit : Z) (keys : list string)
    (s : listing) (k : listing -> script) : script :=
  match keys with
  | [] => k s
  | sessionKey :: keys' =>
      pcall! fields := HMGET sessionKey list_fields in
      list_read expectedUserID offset limit keys'
        (list_step expectedUserID offset limit sessionKey fields s) k
  end.

Fixpoint list_cleanup (userKey : string) (cs : list cleanup_entry) (last : script) : script :=
  match cs with
  | [] => last
  | c :: cs' =>
      call! _ := ZREM userKey (cl_sessionKey c) in
      if cl_revoke c
      then drop_jti_mapping (cl_jti c) (cl_sessionKey c)
             (call! _ := DEL (cl_sessionKey c) in list_cleanup userKey cs' last)
      else list_cleanup userKey cs' last
  end.

Definition empty_listing : listing :=
  {| ls_rows := []; ls_validTotal := 0; ls_pageCount := 0; ls_cleanup := [] |}.

Definition list_sessions (KEYS ARGV : list string) : script :=
  match KEYS with
  | userKey :: _ =>
      match lua_index ARGV 1 with
      | None => SError "User ID is required"
      | Some expectedUserID =>
          if expectedUserID =s "" then SError "User ID is required" else
          match tonumber (lua_index ARGV 2) with
          | None => SError "Offset must be a non-negative integer"
          | Some offset =>
              if offset <? 0 then SError "Offset must be a non-negative integer" else
              match tonumber (lua_index ARGV 3) with
              | None => SError "Limit must be a non-negative integer"
              | Some limit =>
                  if limit <? 0 then SError "Limit must be a non-negative integer" else
                  call! indexed := ZREVRANGE_ALL userKey in
                  list_read expectedUserID offset limit (omap as_string (elements_of indexed))
                    empty_listing
                    (fun s => list_cleanup userKey (rev (ls_cleanup s))
                                (SReturn (RArr (RInt (ls_validTotal s) :: ls_rows s))))
              end
          end
      end
  | [] => nil_argument
  end.

(** * rate_limit.lua *)

Definition rate_limit (KEYS ARGV : list string) : script :=
  match KEYS, ARGV with
  | key :: _, limitArg :: windowArg :: timeArg :: member :: secondsArg :: _ =>
      match tonumber (Some limitArg), tonumber (Some windowArg), tonumber (Some timeArg),
            tonumber (Some secondsArg) with
      | Some limit, Some window_micro, Some current_time, Some window_seconds =>
          call! _ := ZREMRANGEBYSCORE key 0 (current_time - window_micro) in
          call! count := ZCARD key in
          let current_count := int_of count in
          if current_count <? limit then
            call! _ := ZADD key false (itoa current_time) member in
            call! _ := EXPIRE key window_seconds in
            SReturn (RArr [RInt 1; RInt 0; RInt (current_count + 1)])
          else
            call! oldest := ZRANGE_FIRST key in
            let retry_after_micro :=
              match elements_of oldest with
              | [] => 0
              | _ => match tonumber (field oldest 2) with
                     | Some score => score + window_micro - current_time
                     | None => 0
                     end
              end in
            let retry_after_micro := if retry_after_micro <? 0 then 0 else retry_after_micro in
            SReturn (RArr [RInt 0; RInt retry_after_micro; RInt current_count])
      | _, _, _, _ => SRaise "attempt to perform arithmetic on a nil value"
      end
  | _, _ => nil_argument
  end.
