(* ===== verification/SessionStore.v ===== *)
(** The session store the Lua scripts maintain in Redis: its key space, its
    invariant, and what each script does to it.

    A session is a hash [session:id:<id>], a JTI mapping [session:jti:<jti>]
    holds the key of the session whose refresh token carries that JTI, the
    sorted set [session:user:<user>] indexes a user's sessions, and the
    persistent hash [session:access:<user>] holds whether the user may hold
    sessions at all and the generation its sessions must carry.  Revoking
    every session of a user is one write to the access state: the generation
    grows, and a session of an older generation is never accepted again,
    whatever remains of its keys. *)
From S2P Require Export SessionScripts.
From Stdlib Require Import Ascii.

(** * Keys *)

Definition accessKeyPrefix : string := "session:access:".
Definition userKeyPrefix : string := "session:user:".
Definition idKey (sid : string) : string := sessionKeyPrefix +:+ sid.
Definition jtiKey (jti : string) : string := jtiKeyPrefix +:+ jti.
Definition userKey (uid : string) : string := userKeyPrefix +:+ uid.
Definition accessKey (uid : string) : string := accessKeyPrefix +:+ uid.

Inductive key_class : Set := KAccess | KId | KJti | KUser | KOther.

#[export] Instance key_class_eq_dec : EqDecision key_class.
Proof. solve_decision. Defined.

Definition class_of (k : string) : key_class :=
  if HasPrefix k accessKeyPrefix then KAccess
  else if HasPrefix k sessionKeyPrefix then KId
  else if HasPrefix k jtiKeyPrefix then KJti
  else if HasPrefix k userKeyPrefix then KUser
  else KOther.

Lemma append_cons a p s : String a p +:+ s = String a (p +:+ s).
Proof. reflexivity. Qed.

Lemma HasPrefix_app p s : HasPrefix (p +:+ s) p = true.
Proof.
  unfold HasPrefix. induction p as [|a p IH]; [by destruct s|]. rewrite append_cons. cbn.
  destruct (ascii_dec a a); [exact IH|done].
Qed.

Lemma HasPrefix_inv k p : HasPrefix k p = true -> exists s, k = p +:+ s.
Proof.
  unfold HasPrefix. revert k. induction p as [|a p IH]; intros k H; [by exists k|].
  destruct k as [|b k]; [done|]. cbn in H. destruct (ascii_dec a b) as [->|]; [|done].
  destruct (IH k H) as [s ->]. by exists s.
Qed.

Lemma class_idKey s : class_of (idKey s) = KId.
Proof. unfold class_of, idKey. rewrite HasPrefix_app. reflexivity. Qed.
Lemma class_jtiKey s : class_of (jtiKey s) = KJti.
Proof. unfold class_of, jtiKey. rewrite HasPrefix_app. reflexivity. Qed.
Lemma class_userKey s : class_of (userKey s) = KUser.
Proof. unfold class_of, userKey. rewrite HasPrefix_app. reflexivity. Qed.
Lemma class_accessKey s : class_of (accessKey s) = KAccess.
Proof. unfold class_of, accessKey. by rewrite HasPrefix_app. Qed.

Lemma class_sessionPrefix k : HasPrefix k sessionKeyPrefix = true -> class_of k = KId.
Proof. intros H. destruct (HasPrefix_inv _ _ H) as [s ->]. apply class_idKey. Qed.

Lemma class_KId_inv k : class_of k = KId -> exists s, k = idKey s.
Proof.
  unfold class_of. intros H. repeat (case_match; try done). by apply HasPrefix_inv.
Qed.
Lemma class_KAccess_inv k : class_of k = KAccess -> exists u, k = accessKey u.
Proof.
  unfold class_of. intros H. repeat (case_match; try done). by apply HasPrefix_inv.
Qed.

Lemma append_inj p s t : p +:+ s = p +:+ t -> s = t.
Proof.
  induction p as [|a p IH]; [done|]. rewrite !append_cons. intros H. injection H. exact IH.
Qed.

Lemma idKey_inj s t : idKey s = idKey t -> s = t.
Proof. apply append_inj. Qed.
Lemma jtiKey_inj s t : jtiKey s = jtiKey t -> s = t.
Proof. apply append_inj. Qed.
Lemma accessKey_inj s t : accessKey s = accessKey t -> s = t.
Proof. apply append_inj. Qed.

(** Keys of different classes are different keys. *)
Lemma class_ne k k' : class_of k <> class_of k' -> k <> k'.
Proof. congruence. Qed.

Lemma RedisKey_session_id s : RedisKey "session" "id" s = idKey s.
Proof. reflexivity. Qed.
Lemma RedisKey_session_jti s : RedisKey "session" "jti" s = jtiKey s.
Proof. reflexivity. Qed.
Lemma RedisKey_session_user s : RedisKey "session" "user" s = userKey s.
Proof. reflexivity. Qed.
Lemma RedisKey_session_access s : RedisKey "session" "access" s = accessKey s.
Proof. reflexivity. Qed.

#[export] Hint Rewrite class_idKey class_jtiKey class_userKey class_accessKey : goat.
#[export] Hint Rewrite RedisKey_session_id RedisKey_session_jti RedisKey_session_user
  RedisKey_session_access : goat.

Ltac key_ne :=
  solve [ assumption
        | apply class_ne; autorewrite with goat; congruence
        | apply class_ne; congruence
        | intros ?H; apply (f_equal class_of) in H; autorewrite with goat in H; congruence ].

(** * What a script may write

    [session_cmd fk c]: outside the keys [fk] selects, the command writes only
    where the scripts are meant to: no access state, no owner and no
    generation of a session. *)

Definition field_names (args : list string) : list string :=
  match hset_pairs args with Some ps => ps.*1 | None => [] end.

Definition identity_field (f : string) : bool :=
  (f =s "user_id") || (f =s "session_generation").

Definition in_class (c : key_class) (k : string) : bool := bool_decide (class_of k = c).

Definition session_cmd (fk : string -> bool) (c : rcmd) : bool :=
  match c with
  | GET _ | EXISTS _ | TYPE _ | HGET _ _ | HMGET _ _ | TTL _ | TIME | ZCARD _
  | ZRANGE_ALL _ | ZREVRANGE_ALL _ | ZRANGE_FIRST _ => true
  | DEL k | EXPIRE k _ => fk k || negb (in_class KAccess k)
  | SET_EX k v _ => in_class KJti k && in_class KId v
  | ZADD k _ _ _ | ZREM k _ => in_class KUser k || in_class KOther k
  | ZREMRANGEBYSCORE k _ _ => in_class KOther k
  | HSET k args =>
      (fk k && (in_class KAccess k || in_class KId k))
      || (in_class KId k && forallb (fun f => negb (identity_field f)) (field_names args))
  end.

Fixpoint every_cmd (P : rcmd -> bool) (p : script) : Prop :=
  match p with
  | SReturn _ => True
  | SCall c k | SPcall c k => P c = true /\ forall r, every_cmd P (k r)
  end.

Lemma every_cmd_run (P : rcmd -> bool) (R : keyspace -> keyspace -> Prop) :
  (forall ks, R ks ks) -> (forall a b c, R a b -> R b c -> R a c) ->
  (forall c ks, P c = true -> R ks (documented c ks).2) ->
  forall p ks, every_cmd P p -> R ks (run_script p ks).2.
Proof.
  intros Hrefl Htrans Hc p. induction p as [r|c k IH|c k IH]; intros ks Hp; [apply Hrefl|..];
    cbn in Hp |- *; destruct Hp as [HP Hk];
    change (redis_exec c ks) with (documented c ks);
    specialize (Hc c ks HP); destruct (documented c ks) as [r ks']; cbn in Hc.
  - destruct r; try exact Hc; eapply Htrans; eauto.
  - eapply Htrans; eauto.
Qed.

Lemma every_cmd_and P Q p :
  every_cmd P p -> every_cmd Q p -> every_cmd (fun c => P c && Q c) p.
Proof.
  induction p as [r|c k IH|c k IH]; cbn; [done|..]; intros [HP Hp] [HQ Hq];
    (split; [by rewrite HP, HQ|auto]).
Qed.

(** ** Owner and generation of a session *)

Definition session_of (ks : keyspace) (k : string) : option (string * string) :=
  match ks_get ks k with
  | Some (RHash h) =>
      match h !! "user_id", h !! "session_generation" with
      | Some u, Some g => Some (u, g)
      | _, _ => None
      end
  | _ => None
  end.

(** Outside [fk], access states are kept, and a session of the later keyspace
    is a session of the earlier one with the same owner and generation. *)
Record shrinks (fk : string -> bool) (ks ks' : keyspace) : Prop := {
  sh_access k : class_of k = KAccess -> fk k = false -> ks_entry ks' k = ks_entry ks k;
  sh_id k o : class_of k = KId -> fk k = false ->
              session_of ks' k = Some o -> session_of ks k = Some o;
}.

Lemma shrinks_refl fk ks : shrinks fk ks ks.
Proof. by split. Qed.

Lemma shrinks_trans fk a b c : shrinks fk a b -> shrinks fk b c -> shrinks fk a c.
Proof.
  intros Hab Hbc. split; intros k.
  - intros Hk Hf. etrans; [by apply (sh_access _ _ _ Hbc)|by apply (sh_access _ _ _ Hab)].
  - intros o Hk Hf Ho. apply (sh_id _ _ _ Hab); auto. by apply (sh_id _ _ _ Hbc).
Qed.

Lemma session_of_entry ks ks' k :
  ks_entry ks k = ks_entry ks' k -> session_of ks k = session_of ks' k.
Proof. intros H. unfold session_of. by rewrite (ks_get_entry _ _ _ H). Qed.

Lemma shrinks_frame fk c ks k0 :
  cmd_key c = Some k0 ->
  (fk k0 = false -> class_of k0 = KAccess -> ks_entry (documented c ks).2 k0 = ks_entry ks k0) ->
  (fk k0 = false -> class_of k0 = KId -> forall o,
     session_of (documented c ks).2 k0 = Some o -> session_of ks k0 = Some o) ->
  shrinks fk ks (documented c ks).2.
Proof.
  intros Hk Ha Hi. split; intros k.
  - intros Hc Hf. destruct (decide (k = k0)) as [->|Hne]; [by apply Ha|].
    apply documented_frame. congruence.
  - intros o Hc Hf Ho. destruct (decide (k = k0)) as [->|Hne]; [by apply Hi|].
    rewrite <- (session_of_entry (documented c ks).2); [done|].
    apply documented_frame. congruence.
Qed.

Lemma hset_all_lookup_ne ps h f :
  f ∉ ps.*1 -> hset_all ps h !! f = h !! f.
Proof.
  revert h. induction ps as [|[g v] ps IH]; intros h Hf; [done|]. cbn in *.
  apply not_elem_of_cons in Hf as [Hne Hf]. rewrite IH by done. by rewrite lookup_insert_ne.
Qed.

(** A read leaves the keyspace as it is. *)
Definition read_cmd (c : rcmd) : bool :=
  match c with
  | GET _ | EXISTS _ | TYPE _ | HGET _ _ | HMGET _ _ | TTL _ | TIME | ZCARD _
  | ZRANGE_ALL _ | ZREVRANGE_ALL _ | ZRANGE_FIRST _ => true
  | _ => false
  end.

Lemma read_cmd_state c ks : read_cmd c = true -> (documented c ks).2 = ks.
Proof. destruct c; done. Qed.

Lemma session_of_del k ks o : session_of (ks_del k ks) k = Some o -> session_of ks k = Some o.
Proof. unfold session_of, ks_get. by rewrite ks_entry_del_eq. Qed.

Lemma documented_EXPIRE_get k s ks v :
  ks_get (documented (EXPIRE k s) ks).2 k = Some v -> ks_get ks k = Some v.
Proof.
  cbn. unfold ks_get at 2. destruct (ks_entry ks k) as [e|] eqn:E; cbn.
  - case_match; cbn.
    + unfold ks_get. by rewrite ks_entry_del_eq.
    + rewrite ks_get_put_eq. case_match eqn:L; [|done]. intros [= <-].
      apply live_entry_live in L. by subst.
  - unfold ks_get. by rewrite E.
Qed.

Lemma session_of_EXPIRE k s ks o :
  session_of (documented (EXPIRE k s) ks).2 k = Some o -> session_of ks k = Some o.
Proof.
  unfold session_of at 1. destruct (ks_get _ _) as [v|] eqn:E; [|done].
  apply documented_EXPIRE_get in E. unfold session_of. by rewrite E.
Qed.

Lemma session_of_HSET k args ks o :
  forallb (fun f => negb (identity_field f)) (field_names args) = true ->
  session_of (documented (HSET k args) ks).2 k = Some o -> session_of ks k = Some o.
Proof.
  unfold field_names. cbn. intros Hf.
  destruct (hset_pairs args) as [[|p ps]|] eqn:Ep; cbn [snd]; try done.
  assert (Hni : forall f, identity_field f = true -> f ∉ (p :: ps).*1).
  { intros f Hi Hin. apply list_elem_of_In in Hin.
    pose proof (forallb_In _ _ _ Hf Hin) as Hn. cbv beta in Hn. by rewrite Hi in Hn. }
  destruct (ks_get ks k) as [[|h| |]|] eqn:Eg; cbn [snd]; try done;
    unfold session_of at 1; rewrite ks_get_set_value_eq;
    rewrite !hset_all_lookup_ne by (apply Hni; reflexivity);
    unfold session_of; rewrite ?Eg; try done.
Qed.

Lemma session_cmd_shrinks fk c ks :
  session_cmd fk c = true -> shrinks fk ks (documented c ks).2.
Proof.
  unfold session_cmd, in_class. intros H.
  destruct c; try (rewrite read_cmd_state by done; apply shrinks_refl);
    (eapply shrinks_frame; [reflexivity|intros Hf Hc..]).
  all: rewrite ?Hf, ?Hc in H; cbn in H; try (exfalso; by breflect; naive_solver).
  all: breflect; try congruence; try (exfalso; naive_solver congruence).
  - intros o. apply session_of_del.
  - intros o. by apply session_of_HSET.
  - intros o. apply session_of_EXPIRE.
Qed.

(** The value of a key has the type its class is used with, and a JTI mapping
    names a session key. *)
Definition value_typed (c : key_class) (v : rvalue) : bool :=
  match c, v with
  | KJti, RString s => in_class KId s
  | (KAccess | KId), RHash _ | KUser, RZset _ | KOther, _ => true
  | _, _ => false
  end.

Definition typed (ks : keyspace) : Prop :=
  forall k v, ks_get ks k = Some v -> value_typed (class_of k) v = true.

Lemma typed_step c ks :
  typed ks ->
  (forall k v, cmd_key c = Some k -> ks_get (documented c ks).2 k = Some v ->
               value_typed (class_of k) v = true) ->
  typed (documented c ks).2.
Proof.
  intros Hty Hk k v Hv. destruct (decide (cmd_key c = Some k)) as [E|E]; [by eapply Hk|].
  apply Hty. rewrite <- Hv. symmetry. apply ks_get_entry. by apply documented_frame.
Qed.

Lemma ks_get_zset_put_typed k z ks v :
  class_of k = KUser \/ class_of k = KOther ->
  ks_get (ks_zset_put k z ks) k = Some v -> value_typed (class_of k) v = true.
Proof.
  unfold ks_zset_put. intros Hc. case_bool_decide.
  - unfold ks_get. by rewrite ks_entry_del_eq.
  - rewrite ks_get_set_value_eq. intros [= <-]. by destruct Hc as [-> | ->].
Qed.

Lemma session_cmd_typed fk c ks :
  session_cmd fk c = true -> typed ks -> typed (documented c ks).2.
Proof.
  intros H Hty. destruct (read_cmd c) eqn:Hr; [by rewrite read_cmd_state|].
  apply typed_step; [done|]. intros k' v Hk. destruct c; cbn in Hr, Hk; try discriminate;
    injection Hk as ->; cbn in H; unfold in_class in H; cbn [documented].
  - case_match; cbn [snd]; [intros Hv; by eapply Hty|].
    rewrite ks_get_put_eq. case_match eqn:L; [|done]. intros [= <-].
    apply live_entry_live in L as ->. breflect. rewrite H. by apply bool_decide_eq_true_2.
  - cbn. unfold ks_get. by rewrite ks_entry_del_eq.
  - assert (Hc : class_of k' = KAccess \/ class_of k' = KId).
    { breflect. destruct H as [H|H]; breflect; [destruct H0|]; breflect; auto. }
    repeat case_match; cbn [snd]; try (intros Hv; by eapply Hty);
      rewrite ks_get_set_value_eq; intros [= <-]; by destruct Hc as [-> | ->].
  - intros Hv. apply documented_EXPIRE_get in Hv. by eapply Hty.
  - assert (Hc : class_of k' = KUser \/ class_of k' = KOther)
      by (breflect; destruct H; breflect; auto).
    repeat case_match; cbn [snd]; try (intros Hv; by eapply Hty);
      rewrite ks_get_set_value_eq; intros [= <-]; by destruct Hc as [-> | ->].
  - assert (Hc : class_of k' = KUser \/ class_of k' = KOther)
      by (breflect; destruct H; breflect; auto).
    repeat case_match; cbn [snd]; try (intros Hv; by eapply Hty).
    all: by apply ks_get_zset_put_typed.
  - breflect. repeat case_match; cbn [snd]; try (intros Hv; by eapply Hty).
    all: apply ks_get_zset_put_typed; auto.
Qed.

Lemma session_script_shrinks fk p ks :
  every_cmd (session_cmd fk) p -> shrinks fk ks (run_script p ks).2.
Proof.
  apply (every_cmd_run (session_cmd fk) (shrinks fk)).
  - apply shrinks_refl.
  - apply shrinks_trans.
  - intros c ks'. apply session_cmd_shrinks.
Qed.

Lemma session_script_typed fk p ks :
  every_cmd (session_cmd fk) p -> typed ks -> typed (run_script p ks).2.
Proof.
  apply (every_cmd_run (session_cmd fk) (fun a b => typed a -> typed b)); [auto..|].
  intros c ks'. apply session_cmd_typed.
Qed.

(** * The commands of each script *)

Definition no_key : string -> bool := fun _ => false.

(** A command of a script on keys of known class. *)
Ltac known_class :=
  repeat match goal with H : class_of ?k = _ |- context [class_of ?k] => rewrite H end;
  autorewrite with goat; reflexivity.
Ltac cmd_ok :=
  unfold session_cmd, in_class;
  first [ reflexivity
        | known_class
        | apply orb_true_intro; right; known_class ].

(** Walks through a script, one command or one test at a time. *)
Ltac walk_step :=
  match goal with
  | |- True => exact I
  | |- true = true => reflexivity
  | |- forall _, _ => intro
  | |- _ /\ _ => split
  | |- every_cmd _ (SReturn _) => exact I
  | |- every_cmd _ (SError _) => exact I
  | |- every_cmd _ (SRaise _) => exact I
  | |- every_cmd _ nil_argument => exact I
  | |- every_cmd _ (SCall _ _) => cbn [every_cmd]
  | |- every_cmd _ (SPcall _ _) => cbn [every_cmd]
  | |- every_cmd _ (let _ := _ in _) => cbv zeta
  | |- every_cmd _ (if ?b then _ else _) => destruct b eqn:?
  | |- every_cmd _ (match ?x with _ => _ end) => destruct x eqn:?
  | |- session_cmd _ _ = true => cmd_ok
  end.
Ltac walk := repeat walk_step.

Lemma every_cmd_access fk key none k :
  every_cmd (session_cmd fk) none ->
  (forall b g n, every_cmd (session_cmd fk) (k b g n)) ->
  every_cmd (session_cmd fk) (with_access_state key none k).
Proof.
  intros Hn Hk. unfold with_access_state. walk; [exact Hn|]. apply Hk.
Qed.

(** [get_session_by_jti] deletes at most a stale JTI mapping. *)
Lemma get_session_cmds fk jti ARGV akey :
  every_cmd (session_cmd fk) (get_session_by_jti [jtiKey jti; akey] ARGV).
Proof.
  unfold get_session_by_jti. walk. apply every_cmd_access; [exact I|]. intros b g n. walk.
Qed.

Lemma rotate_write_cmds fk oldJTI newJTI sid uid j ip dev upd exp c jt st :
  every_cmd (session_cmd fk)
    (rotate_jti_write (jtiKey oldJTI) (jtiKey newJTI) (idKey sid) (userKey uid)
       j ip dev upd exp c jt st).
Proof. unfold rotate_jti_write. walk. Qed.

Lemma rotate_cmds fk oldJTI newJTI akey ARGV :
  every_cmd (session_cmd fk) (rotate_jti [jtiKey oldJTI; jtiKey newJTI; akey] ARGV).
Proof.
  unfold rotate_jti. walk. apply every_cmd_access; [exact I|]. intros b g n. walk.
  breflect. subst. apply rotate_write_cmds.
Qed.

(** ** Deletions *)

Lemma delete_session_loop_cmds fk keys last :
  Forall (fun k => class_of k = KId) keys ->
  every_cmd (session_cmd fk) last ->
  every_cmd (session_cmd fk) (delete_session_loop keys last).
Proof.
  intros Hk Hl. induction Hk as [|k keys Hk _ IH]; [exact Hl|]. cbn [delete_session_loop].
  walk; exact IH.
Qed.

Lemma ids_class ids : Forall (fun k => class_of k = KId) (map idKey ids).
Proof. induction ids; cbn; constructor; auto using class_idKey. Qed.

Lemma delete_session_cmds fk ids : every_cmd (session_cmd fk) (delete_session (map idKey ids)).
Proof. apply delete_session_loop_cmds; [apply ids_class|exact I]. Qed.

Lemma check_owned_cmds fk u keys owned :
  every_cmd (session_cmd fk) owned -> every_cmd (session_cmd fk) (check_owned_loop u keys owned).
Proof. intros Ho. induction keys as [|k keys IH]; [exact Ho|]. cbn. walk. exact IH. Qed.

Lemma delete_owned_loop_cmds fk u keys :
  Forall (fun k => class_of k = KId) keys ->
  every_cmd (session_cmd fk) (delete_owned_loop u keys).
Proof.
  intros Hk. induction Hk as [|k keys Hk _ IH]; [exact I|]. cbn [delete_owned_loop].
  walk; exact IH.
Qed.

Lemma delete_owned_cmds fk ids ARGV :
  every_cmd (session_cmd fk) (delete_owned_sessions (map idKey ids) ARGV).
Proof.
  unfold delete_owned_sessions. walk; apply check_owned_cmds; [|exact I].
  apply delete_owned_loop_cmds, ids_class.
Qed.

Lemma drop_jti_cmds fk j k rest :
  every_cmd (session_cmd fk) rest -> every_cmd (session_cmd fk) (drop_jti_mapping j k rest).
Proof. intros Hr. unfold drop_jti_mapping. walk; exact Hr. Qed.

(** A candidate's [hasSessionPrefix] is the test of its key. *)
Definition candidate_wf (c : candidate) : Prop :=
  ca_hasSessionPrefix c = HasPrefix (ca_sessionKey c) sessionKeyPrefix.

Lemma read_candidates_cmds fk u cur keys acc k :
  Forall candidate_wf acc ->
  (forall cs, Forall candidate_wf cs -> every_cmd (session_cmd fk) (k cs)) ->
  every_cmd (session_cmd fk) (read_candidates u cur keys acc k).
Proof.
  intros Hacc Hk. revert acc Hacc. induction keys as [|key keys IH]; intros acc Hacc; cbn.
  - apply Hk. by apply Forall_rev.
  - walk; apply IH; [done|]. constructor; [reflexivity|done].
Qed.

Lemma revoke_candidates_cmds fk u uid others cs n :
  Forall candidate_wf cs -> every_cmd (session_cmd fk) (revoke_candidates u (userKey uid) others cs n).
Proof.
  intros Hcs. revert n. induction Hcs as [|c cs Hc _ IH]; intros n; [exact I|].
  cbn [revoke_candidates]. cbv zeta.
  assert (Hdel : (eq_opt (ca_owner c) (Some u) && ca_hasSessionPrefix c) = true ->
                 class_of (ca_sessionKey c) = KId).
  { intros Ht. apply andb_true_iff in Ht as [_ Ht]. rewrite Hc in Ht.
    by apply class_sessionPrefix. }
  walk; try apply IH; apply drop_jti_cmds; pose proof (Hdel eq_refl); walk; apply IH.
Qed.

(** The script from the index on; [block] writes the access state [akey]. *)
Lemma delete_indexed_cmds uid u others cur block fk :
  (forall akey n, block = Some (akey, n) -> fk akey = true /\ class_of akey = KAccess) ->
  every_cmd (session_cmd fk) (delete_indexed (userKey uid) u others cur block).
Proof.
  intros Hb.
  assert (Hread : forall keys, every_cmd (session_cmd fk)
    (read_candidates u cur keys [] (fun candidates =>
      let drop_index :=
        if others then revoke_candidates u (userKey uid) others candidates 0
        else call! _ := DEL (userKey uid) in
             revoke_candidates u (userKey uid) others candidates 0 in
      match block with
      | Some (akey, nextGeneration) =>
          call! _ := HSET akey ["blocked"; "1"; "session_generation"; itoa nextGeneration] in
          drop_index
      | None => drop_index
      end))).
  { intros keys. apply read_candidates_cmds; [constructor|]. intros cs Hcs. cbv zeta.
    pose proof (fun n => revoke_candidates_cmds fk u uid others cs n Hcs) as Hr.
    destruct block as [[akey n]|]; [|walk; apply Hr].
    destruct (Hb akey n eq_refl) as [Hfk Hcl].
    walk; try apply Hr; unfold session_cmd, in_class; rewrite Hfk, Hcl; reflexivity. }
  unfold delete_indexed. cbv zeta. walk; apply Hread.
Qed.

Lemma delete_other_cmds fk uid keys ARGV :
  (lua_index ARGV 2 = Some "block_all" -> forall a rest, keys = a :: rest ->
     fk a = true /\ class_of a = KAccess) ->
  every_cmd (session_cmd fk) (delete_other_sessions (userKey uid :: keys) ARGV).
Proof.
  intros Hb. unfold delete_other_sessions. walk; try (apply delete_indexed_cmds; done).
  breflect. subst.
  apply every_cmd_access; intros; walk; apply delete_indexed_cmds; intros ? ? [= <- _];
    by eapply Hb.
Qed.

Lemma clean_orphans_cmds fk key keys :
  class_of key = KUser \/ class_of key = KOther ->
  every_cmd (session_cmd fk) (clean_orphans (key :: keys)).
Proof.
  intros Hk. cbn. split; [done|]. intros r. generalize 0.
  induction (omap as_string (elements_of r)) as [|k ks IH]; intros n; cbn [clean_orphans_loop]; walk;
    try apply IH. cbn. unfold in_class. by destruct Hk as [-> | ->].
Qed.

Definition cleanup_wf (c : cleanup_entry) : Prop :=
  cl_revoke c = true -> class_of (cl_sessionKey c) = KId.

Lemma list_step_wf u o l key fields s :
  Forall cleanup_wf (ls_cleanup s) -> Forall cleanup_wf (ls_cleanup (list_step u o l key fields s)).
Proof.
  intros H. unfold list_step.
  destruct (is_error fields); [|destruct (complete_session u key fields)]; cbn; try done;
    (constructor; [|done]); intros Hr; cbn in *; [done|].
  breflect. by apply class_sessionPrefix.
Qed.

Lemma list_cleanup_cmds fk uid cs last :
  Forall cleanup_wf cs -> every_cmd (session_cmd fk) last ->
  every_cmd (session_cmd fk) (list_cleanup (userKey uid) cs last).
Proof.
  intros Hcs Hl. induction Hcs as [|c cs Hc _ IH]; [exact Hl|]. cbn [list_cleanup].
  walk; [|exact IH]. apply drop_jti_cmds. pose proof (Hc Heqb). walk. exact IH.
Qed.

Lemma list_read_cmds fk u o l keys s k :
  Forall cleanup_wf (ls_cleanup s) ->
  (forall s', Forall cleanup_wf (ls_cleanup s') -> every_cmd (session_cmd fk) (k s')) ->
  every_cmd (session_cmd fk) (list_read u o l keys s k).
Proof.
  intros Hs Hk. revert s Hs. induction keys as [|key keys IH]; intros s Hs; cbn; [by apply Hk|].
  walk. by apply IH, list_step_wf.
Qed.

Lemma list_sessions_cmds fk uid keys ARGV :
  every_cmd (session_cmd fk) (list_sessions (userKey uid :: keys) ARGV).
Proof.
  unfold list_sessions. walk. apply list_read_cmds; [constructor|]. intros ls Hls.
  apply list_cleanup_cmds; [by apply Forall_rev|exact I].
Qed.

Lemma rate_limit_cmds fk key keys ARGV :
  class_of key = KOther -> every_cmd (session_cmd fk) (rate_limit (key :: keys) ARGV).
Proof.
  intros Hk. unfold rate_limit. walk; unfold session_cmd, in_class; rewrite Hk;
    rewrite ?orb_true_r; reflexivity.
Qed.

(** * The access state and the invariant *)

Definition bit (b : bool) : string := if b then "1" else "0".

(** User [uid] has the access state [(b, n)], which never expires. *)
Definition access_is (ks : keyspace) (uid : string) (b : bool) (n : Z) : Prop :=
  exists h, ks_entry ks (accessKey uid) = Some {| re_value := RHash h; re_expire := None |}
            /\ h !! "blocked" = Some (bit b) /\ h !! "session_generation" = Some (itoa n)
            /\ 1 <= n <= maxSafeGeneration.

Record wf (ks : keyspace) : Prop := {
  wf_typed : typed ks;
  wf_access uid : ks_entry ks (accessKey uid) = None \/ exists b n, access_is ks uid b n;
  wf_session k uid g :
    class_of k = KId -> session_of ks k = Some (uid, g) ->
    exists b n m, access_is ks uid b n /\ g = itoa m /\ 1 <= m <= n /\ (b = true -> m < n);
}.

Lemma bit_inj a b : bit a = bit b -> a = b.
Proof. by destruct a, b. Qed.

Lemma access_is_inj ks uid b n b' n' :
  access_is ks uid b n -> access_is ks uid b' n' -> b = b' /\ n = n'.
Proof.
  intros (h & He & Hb & Hg & _) (h' & He' & Hb' & Hg' & _).
  rewrite He in He'. injection He' as <-.
  split; [apply bit_inj; congruence|apply itoa_inj; congruence].
Qed.

Lemma access_is_entry ks ks' uid b n :
  ks_entry ks' (accessKey uid) = ks_entry ks (accessKey uid) ->
  access_is ks uid b n -> access_is ks' uid b n.
Proof. intros E (h & He & H). exists h. by rewrite E. Qed.

Lemma wf_access_dec ks uid :
  wf ks -> ks_entry ks (accessKey uid) = None \/ (exists n, access_is ks uid false n)
           \/ (exists n, access_is ks uid true n).
Proof. intros Hwf. destruct (wf_access ks Hwf uid) as [|([|] & n & H)]; eauto. Qed.

Lemma wf_shrinks ks ks' : wf ks -> shrinks no_key ks ks' -> typed ks' -> wf ks'.
Proof.
  intros Hwf Hs Hty. split; [done|..].
  - intros uid. pose proof (sh_access _ _ _ Hs (accessKey uid) (class_accessKey _) eq_refl) as E.
    destruct (wf_access ks Hwf uid) as [H|(b & n & H)]; [left; congruence|].
    right. exists b, n. by eapply access_is_entry.
  - intros k uid g Hk Hsess.
    destruct (wf_session ks Hwf k uid g Hk) as (b & n & m & Ha & Hm).
    { by apply (sh_id _ _ _ Hs). }
    exists b, n, m. split; [|done]. eapply access_is_entry; [|done].
    apply (sh_access _ _ _ Hs); [apply class_accessKey|done].
Qed.

Lemma wf_script ks p : every_cmd (session_cmd no_key) p -> wf ks -> wf (run_script p ks).2.
Proof.
  intros Hp Hwf. eapply wf_shrinks; [done|by apply session_script_shrinks|].
  eapply session_script_typed; [done|by apply wf_typed].
Qed.

(** Time passing only expires keys, and access states do not expire. *)
Lemma ks_entry_elapse d ks k e : ks_entry (elapse d ks) k = Some e -> ks_entry ks k = Some e.
Proof.
  unfold ks_entry, elapse. cbn. destruct (ks_keys ks !! k) as [e0|]; [|done].
  unfold live_entry. destruct (re_expire e0) as [t|]; [|done].
  destruct (t <=? ks_now ks + _) eqn:E; [done|]. intros H. rewrite (proj2 (Z.leb_gt _ _)); [done|].
  breflect. lia.
Qed.

Lemma ks_get_elapse d ks k v : ks_get (elapse d ks) k = Some v -> ks_get ks k = Some v.
Proof.
  unfold ks_get. destruct (ks_entry (elapse d ks) k) as [e|] eqn:E; [|done].
  by rewrite (ks_entry_elapse _ _ _ _ E).
Qed.

Lemma ks_entry_elapse_persistent d ks k v :
  ks_entry ks k = Some {| re_value := v; re_expire := None |} ->
  ks_entry (elapse d ks) k = Some {| re_value := v; re_expire := None |}.
Proof.
  unfold ks_entry, elapse. cbn. destruct (ks_keys ks !! k) as [e0|]; [|done].
  unfold live_entry. destruct (re_expire e0) as [t|] eqn:E; [|done].
  destruct (t <=? ks_now ks); [done|]. intros H. injection H as ->. done.
Qed.

Lemma access_is_elapse d ks uid b n : access_is ks uid b n -> access_is (elapse d ks) uid b n.
Proof. intros (h & He & H). exists h. split; [|done]. by apply ks_entry_elapse_persistent. Qed.

Lemma session_of_elapse d ks k o : session_of (elapse d ks) k = Some o -> session_of ks k = Some o.
Proof.
  unfold session_of. destruct (ks_get (elapse d ks) k) as [v|] eqn:E; [|done].
  by rewrite (ks_get_elapse _ _ _ _ E).
Qed.

Lemma wf_elapse d ks : wf ks -> wf (elapse d ks).
Proof.
  intros Hwf. split.
  - intros k v Hv. apply (wf_typed ks Hwf). by eapply ks_get_elapse.
  - intros uid. destruct (wf_access ks Hwf uid) as [H|(b & n & H)].
    + left. destruct (ks_entry (elapse d ks) (accessKey uid)) as [e|] eqn:E; [|done].
      apply ks_entry_elapse in E. congruence.
    + right. exists b, n. by apply access_is_elapse.
  - intros k uid g Hk Hs. apply session_of_elapse in Hs.
    destruct (wf_session ks Hwf k uid g Hk Hs) as (b & n & m & Ha & Hm).
    exists b, n, m. split; [by apply access_is_elapse|done].
Qed.

Definition empty_keyspace (now : Z) : keyspace := {| ks_now := now; ks_keys := ∅ |}.

Lemma ks_entry_empty now k : ks_entry (empty_keyspace now) k = None.
Proof. unfold ks_entry, empty_keyspace. cbn. by rewrite lookup_empty. Qed.

Lemma wf_empty now : wf (empty_keyspace now).
Proof.
  split.
  - intros k v. unfold ks_get. by rewrite ks_entry_empty.
  - intros uid. left. apply ks_entry_empty.
  - intros k uid g _. unfold session_of, ks_get. by rewrite ks_entry_empty.
Qed.

(** ** Running commands *)

Lemma run_call c k (ks : keyspace) :
  run_script (SCall c k) ks = match documented c ks with
                              | (RError m, ks') => (RError m, ks')
                              | (r, ks') => run_script (k r) ks'
                              end.
Proof. reflexivity. Qed.

Lemma run_pcall c k (ks : keyspace) :
  run_script (SPcall c k) ks = run_script (k (documented c ks).1) (documented c ks).2.
Proof.
  cbn. change (redis_exec c ks) with (documented c ks). by destruct (documented c ks).
Qed.

Definition type_name (o : option rvalue) : string :=
  match o with
  | None => "none" | Some (RString _) => "string" | Some (RHash _) => "hash"
  | Some (RZset _) => "zset" | Some (ROther t) => t
  end.

Lemma run_TYPE k f (ks : keyspace) :
  run_script (SCall (TYPE k) f) ks = run_script (f (RStatus (type_name (ks_get ks k)))) ks.
Proof. reflexivity. Qed.

Lemma run_EXISTS k f (ks : keyspace) :
  run_script (SCall (EXISTS k) f) ks
  = run_script (f (RInt (if is_some (ks_get ks k) then 1 else 0))) ks.
Proof. reflexivity. Qed.

Lemma run_DEL k f (ks : keyspace) :
  run_script (SCall (DEL k) f) ks
  = run_script (f (RInt (if is_some (ks_get ks k) then 1 else 0))) (ks_del k ks).
Proof. reflexivity. Qed.

Lemma run_HMGET k fs f (ks : keyspace) h :
  ks_get ks k = Some (RHash h) ->
  run_script (SCall (HMGET k fs) f) ks
  = run_script (f (RArr (map (fun x => bulk_or_nil (h !! x)) fs))) ks.
Proof. intros H. rewrite run_call. cbn [documented]. by rewrite H. Qed.

Lemma run_GET_string k f (ks : keyspace) s :
  ks_get ks k = Some (RString s) -> run_script (SCall (GET k) f) ks = run_script (f (RBulk s)) ks.
Proof. intros H. rewrite run_call. cbn [documented]. by rewrite H. Qed.

Lemma run_GET_none k f (ks : keyspace) :
  ks_get ks k = None -> run_script (SCall (GET k) f) ks = run_script (f RNil) ks.
Proof. intros H. rewrite run_call. cbn [documented]. by rewrite H. Qed.

Lemma run_HSET k args f (ks : keyspace) h ps :
  hset_pairs args = Some ps -> ps <> [] ->
  match ks_get ks k with None => Some ∅ | Some (RHash h0) => Some h0 | _ => None end = Some h ->
  exists n, run_script (SCall (HSET k args) f) ks
            = run_script (f (RInt n)) (ks_set_value k (RHash (hset_all ps h)) ks).
Proof.
  intros Hp Hne Hh. rewrite run_call. cbn [documented]. rewrite Hp.
  destruct ps as [|p ps]; [done|].
  destruct (ks_get ks k) as [[|h0| |]|]; try done; injection Hh as ->; eauto.
Qed.

Lemma lua_index_1 a l : lua_index (a :: l) 1 = Some a.
Proof. reflexivity. Qed.
Lemma lua_index_2 a b l : lua_index (a :: b :: l) 2 = Some b.
Proof. reflexivity. Qed.
Lemma lua_index_3 a b c l : lua_index (a :: b :: c :: l) 3 = Some c.
Proof. reflexivity. Qed.
Lemma lua_index_4 a b c d l : lua_index (a :: b :: c :: d :: l) 4 = Some d.
Proof. reflexivity. Qed.

(** ** The access check *)

Lemma run_access_none ks uid none k :
  ks_entry ks (accessKey uid) = None ->
  run_script (with_access_state (accessKey uid) none k) ks = run_script none ks.
Proof.
  intros H. unfold with_access_state. rewrite run_TYPE. unfold ks_get. by rewrite H.
Qed.

Lemma run_access_some ks uid b n none k :
  access_is ks uid b n ->
  run_script (with_access_state (accessKey uid) none k) ks
  = run_script (k (bit b) (itoa n) n) ks.
Proof.
  intros (h & He & Hb & Hg & Hn). unfold with_access_state. rewrite run_TYPE.
  assert (Hk : ks_get ks (accessKey uid) = Some (RHash h)) by (unfold ks_get; by rewrite He).
  rewrite Hk. cbn [type_name status_of]. cbv beta iota. cbn [String.eqb Ascii.eqb Bool.eqb negb].
  erewrite run_HMGET by exact Hk. cbn [map]. rewrite Hb, Hg.
  unfold field. cbn [elements_of bulk_or_nil lookup list_lookup Nat.sub as_string].
  rewrite positive_decimal_itoa by lia. unfold tonumber. rewrite parse_signed_itoa.
  replace (n >? maxSafeGeneration) with false by lia. by destruct b.
Qed.

