(* ===== verification/SessionEffects.v ===== *)
(** What each session script does on a well-formed store, exactly: looking a
    session up, rotating its JTI, creating it, and deleting or blocking a
    user's sessions.  Each lemma runs the script symbolically; the keyspace it
    leaves is described key by key, but for the user's index. *)
From S2P Require Export SessionStore.
From Stdlib Require Import Ascii.

(** * Looking a session up *)

(** The JTI is the current one of session [sid] of [uid], issued under
    credential version [cv], of the user's current generation [n], and the
    user may hold sessions. *)
Record valid_session (ks : keyspace) (jti uid sid : string) (cv n : Z) : Prop := {
  vs_access : access_is ks uid false n;
  vs_mapping : ks_get ks (jtiKey jti) = Some (RString (idKey sid));
  vs_hash : exists h, ks_get ks (idKey sid) = Some (RHash h)
              /\ h !! "id" = Some sid /\ h !! "user_id" = Some uid
              /\ h !! "current_jti" = Some jti
              /\ h !! "credential_version" = Some (itoa cv)
              /\ h !! "session_generation" = Some (itoa n);
}.

Definition get_script (jti uid sid : string) (cv : Z) : script :=
  get_session_by_jti [jtiKey jti; accessKey uid] [jti; uid; sid; itoa cv].

Definition session_reply (sid uid jti : string) (cv n : Z) : rreply :=
  RArr [RBulk sid; RBulk uid; RBulk jti; RBulk (itoa cv); RBulk (itoa n)].

Section GetSession.
Context (ks : keyspace) (jti uid sid : string) (cv : Z).
Hypothesis jti_ne : jti <> "".
Hypothesis uid_ne : uid <> "".
Hypothesis sid_ne : sid <> "".
Hypothesis cv_pos : 0 < cv.

(** The argument checks pass. *)
Lemma get_script_body :
  get_script jti uid sid cv =
  with_access_state (accessKey uid) (SReturn RNil) (fun blocked currentGeneration _ =>
    if blocked =s "1" then SReturn (RArr [RInt (-1)]) else
    call! mapped := GET (jtiKey jti) in
    match as_string mapped with
    | None => SReturn RNil
    | Some sessionKey =>
        call! exists_ := EXISTS sessionKey in
        if int_of exists_ =? 0 then call! _ := DEL (jtiKey jti) in SReturn RNil else
        pcall! fields := HMGET sessionKey
          ["id"; "user_id"; "current_jti"; "credential_version"; "session_generation"] in
        if is_error fields then SError "read_session_failed" else
        if missing (field fields 1) || missing (field fields 2)
           || negb (eq_opt (field fields 3) (Some jti))
           || (sessionKey <>s match field fields 1 with
                              | Some i => sessionKeyPrefix +:+ i | None => "" end)
           || negb (positive_opt (field fields 4)) || bad_generation (field fields 5)
        then call! _ := DEL (jtiKey jti) in SReturn RNil
        else if negb (eq_opt (field fields 1) (Some sid)) || negb (eq_opt (field fields 2) (Some uid))
                || negb (eq_opt (field fields 4) (Some (itoa cv)))
                || negb (eq_opt (field fields 5) (Some currentGeneration))
        then SReturn RNil
        else SReturn (RArr (map bulk_or_nil
               [field fields 1; field fields 2; field fields 3; field fields 4; field fields 5]))
    end).
Proof using jti_ne uid_ne sid_ne cv_pos.
  unfold get_script, get_session_by_jti.
  rewrite lua_index_1, lua_index_2, lua_index_3, lua_index_4. cbn [missing positive_opt].
  rewrite !(eqb_ne_string _ ""), positive_decimal_itoa by (done || lia). reflexivity.
Qed.

Lemma get_script_blocked n :
  access_is ks uid true n ->
  run_script (get_script jti uid sid cv) ks = (RArr [RInt (-1)], ks).
Proof using jti_ne uid_ne sid_ne cv_pos.
  intros H. rewrite get_script_body. by rewrite (run_access_some _ _ _ _ _ _ H).
Qed.

Lemma get_script_valid n :
  valid_session ks jti uid sid cv n ->
  run_script (get_script jti uid sid cv) ks = (session_reply sid uid jti cv n, ks).
Proof using jti_ne uid_ne sid_ne cv_pos.
  intros [Ha Hm (h & Hh & Hid & Hu & Hj & Hc & Hg)].
  rewrite get_script_body, (run_access_some _ _ _ _ _ _ Ha). cbn [bit String.eqb Ascii.eqb Bool.eqb].
  rewrite (run_GET_string _ _ _ _ Hm). cbn [as_string]. rewrite run_EXISTS, Hh. cbn [is_some int_of Z.eqb].
  rewrite run_pcall. cbn [documented fst snd]. rewrite Hh. cbn [map]. rewrite Hid, Hu, Hj, Hc, Hg.
  destruct Ha as (_ & _ & _ & _ & Hn). unfold field, bad_generation, tonumber, idKey.
  cbn [elements_of is_error bulk_or_nil lookup list_lookup Nat.sub as_string missing eq_opt positive_opt].
  rewrite !parse_signed_itoa, !positive_decimal_itoa, !eqb_refl_string by lia.
  rewrite !(eqb_ne_string _ "") by done.
  replace (n >? maxSafeGeneration) with false by lia. reflexivity.
Qed.

(** Any other outcome is the nil reply: with no error on a well-formed store. *)
Lemma get_script_inv b n :
  typed ks -> access_is ks uid b n ->
  (exists n', valid_session ks jti uid sid cv n')
  \/ (b = true /\ run_script (get_script jti uid sid cv) ks = (RArr [RInt (-1)], ks))
  \/ (run_script (get_script jti uid sid cv) ks).1 = RNil.
Proof using jti_ne uid_ne sid_ne cv_pos.
  intros Hty Ha. destruct b; [right; left; split; [done|by eapply get_script_blocked]|].
  rewrite get_script_body, (run_access_some _ _ _ _ _ _ Ha). cbn [bit String.eqb Ascii.eqb Bool.eqb].
  destruct (ks_get ks (jtiKey jti)) as [v|] eqn:Hm; [|rewrite run_GET_none by done; auto].
  pose proof (Hty _ _ Hm) as Ht. rewrite class_jtiKey in Ht.
  destruct v as [sk| | |]; try discriminate. cbn in Ht. unfold in_class in Ht. breflect.
  rewrite (run_GET_string _ _ _ _ Hm). cbn [as_string]. rewrite run_EXISTS.
  destruct (ks_get ks sk) as [w|] eqn:Hw; [|cbn [is_some int_of Z.eqb]; rewrite run_DEL; auto].
  cbn [is_some int_of Z.eqb]. rewrite run_pcall. cbn [documented fst snd]. rewrite Hw.
  pose proof (Hty _ _ Hw) as Hh. rewrite Ht in Hh. destruct w as [|h| |]; try discriminate.
  cbn [map is_error]. unfold field. cbn [elements_of lookup list_lookup Nat.sub].
  match goal with |- context [if ?b then _ else _] => destruct b eqn:E1 end;
    [rewrite run_DEL; auto|].
  match goal with |- context [if ?b then _ else _] => destruct b eqn:E2 end; [auto|].
  left. exists n. breflect.
  destruct (h !! "id") as [i|] eqn:Hi, (h !! "user_id") as [u|] eqn:Hu,
    (h !! "current_jti") as [j|] eqn:Hj, (h !! "credential_version") as [c|] eqn:Hc,
    (h !! "session_generation") as [g|] eqn:Hg; cbn in *; try done.
  breflect. subst. split; [done|..]; [done|]. exists h. done.
Qed.

End GetSession.

(** * Writing sessions *)

Lemma drop_bytes_app p s : drop_bytes (String.length p) (p +:+ s) = s.
Proof. induction p as [|a p IH]; [done|]. rewrite append_cons. exact IH. Qed.

Lemma match_after_here a p s : s <> "" -> match_after (String a p) (String a p +:+ s) = Some s.
Proof.
  intros Hs. rewrite append_cons. cbn [match_after]. rewrite <- append_cons, HasPrefix_app.
  rewrite drop_bytes_app. by rewrite eqb_ne_string.
Qed.

Lemma match_after_idKey s : s <> "" -> match_after sessionKeyPrefix (idKey s) = Some s.
Proof. apply match_after_here. Qed.
Lemma match_after_jtiKey s : s <> "" -> match_after jtiKeyPrefix (jtiKey s) = Some s.
Proof. apply match_after_here. Qed.

(** The end of a creation and of a rotation: the session is indexed, and the
    index lives at least as long as the session. *)
Definition index_session (ukey : string) (nx : bool) (score member : string)
    (extend : Z -> bool) (ttl : Z) (reply : rreply) : script :=
  call! t := TTL ukey in
  call! _ := ZADD ukey nx score member in
  if extend (int_of t) then call! _ := EXPIRE ukey ttl in SReturn reply else SReturn reply.

Lemma typed_user_index ks uid :
  typed ks -> ks_get ks (userKey uid) = None \/ exists z, ks_get ks (userKey uid) = Some (RZset z).
Proof.
  intros Hty. destruct (ks_get ks (userKey uid)) as [v|] eqn:E; [|auto].
  pose proof (Hty _ _ E) as H. rewrite class_userKey in H. destruct v; try done. eauto.
Qed.

Lemma run_index_session ks uid nx score member extend ttl reply z0 :
  typed ks -> parse_signed score = Some z0 ->
  exists ks', run_script (index_session (userKey uid) nx score member extend ttl reply) ks
              = (reply, ks')
    /\ (forall k, k <> userKey uid -> ks_entry ks' k = ks_entry ks k).
Proof.
  intros Hty Hsc. unfold index_session. rewrite run_call. cbn [documented].
  rewrite run_call. cbn [documented]. rewrite Hsc.
  match goal with |- context [extend ?x] => generalize (extend x) as b end. intros b.
  assert (Htail : forall ks1 r, is_error r = false ->
    (forall k, k <> userKey uid -> ks_entry ks1 k = ks_entry ks k) ->
    exists ks', match r with
                | RError m => (RError m, ks1)
                | _ => run_script (if b then call! _ := EXPIRE (userKey uid) ttl in SReturn reply
                                   else SReturn reply) ks1
                end = (reply, ks')
      /\ (forall k, k <> userKey uid -> ks_entry ks' k = ks_entry ks k)).
  { intros ks1 r Hr Hf.
    assert (Hx : exists ks', run_script (if b then call! _ := EXPIRE (userKey uid) ttl in SReturn reply
                                         else SReturn reply) ks1 = (reply, ks')
              /\ (forall k, k <> userKey uid -> ks_entry ks' k = ks_entry ks k)).
    { destruct b; [|eauto]. rewrite run_call.
      pose proof (documented_frame (EXPIRE (userKey uid) ttl) ks1) as Hfr.
      exists (documented (EXPIRE (userKey uid) ttl) ks1).2. split.
      - cbn [documented]. repeat case_match; simplify_eq; done.
      - intros k Hk. rewrite Hfr by (cbn; congruence). auto. }
    destruct r; try done; exact Hx. }
  destruct (typed_user_index ks uid Hty) as [-> | [z ->]].
  - apply (Htail _ (RInt 1)); [done|]. intros k Hk. apply ks_entry_set_value_ne. done.
  - destruct (nx && is_some (z !! member)).
    + apply (Htail _ (RInt 0)); done.
    + apply (Htail _ (RInt (if is_some (z !! member) then 0 else 1))); [done|]. intros k Hk. apply ks_entry_set_value_ne. done.
Qed.

Lemma run_SET_EX k v s f (ks : keyspace) :
  0 < s -> run_script (SCall (SET_EX k v s) f) ks
           = run_script (f (RStatus "OK"))
               (ks_put k {| re_value := RString v; re_expire := Some (ks_now ks + 1000 * s) |} ks).
Proof. intros H. rewrite run_call. cbn [documented]. by rewrite (proj2 (Z.leb_gt _ _)). Qed.

Lemma run_EXPIRE k s f (ks : keyspace) e :
  0 < s -> ks_entry ks k = Some e ->
  run_script (SCall (EXPIRE k s) f) ks
  = run_script (f (RInt 1))
      (ks_put k {| re_value := re_value e; re_expire := Some (ks_now ks + 1000 * s) |} ks).
Proof. intros H E. rewrite run_call. cbn [documented]. by rewrite E, (proj2 (Z.leb_gt _ _)). Qed.

(** The hash of a session after [HSET] and [EXPIRE]. *)
Definition put_hash (k : string) (h : gmap string string) (ttl : Z) (ks : keyspace) : keyspace :=
  ks_put k {| re_value := RHash h; re_expire := Some (ks_now ks + 1000 * ttl) |}
    (ks_set_value k (RHash h) ks).

Lemma ks_entry_put_hash k h ttl ks :
  0 < ttl -> ks_entry (put_hash k h ttl ks) k
             = Some {| re_value := RHash h; re_expire := Some (ks_now ks + 1000 * ttl) |}.
Proof. intros H. unfold put_hash. rewrite ks_entry_put_live; [done|]. cbn. lia. Qed.

Lemma ks_entry_put_hash_ne k k' h ttl ks :
  k <> k' -> ks_entry (put_hash k h ttl ks) k' = ks_entry ks k'.
Proof.
  intros H. unfold put_hash. rewrite ks_entry_put_ne by done. by apply ks_entry_set_value_ne.
Qed.

Lemma run_HSET_EXPIRE k args ttl f (ks : keyspace) h ps :
  hset_pairs args = Some ps -> ps <> [] -> 0 < ttl ->
  match ks_get ks k with None => Some ∅ | Some (RHash h0) => Some h0 | _ => None end = Some h ->
  run_script (call! _ := HSET k args in call! _ := EXPIRE k ttl in f) ks
  = run_script f (put_hash k (hset_all ps h) ttl ks).
Proof.
  intros Hp Hne Ht Hh.
  destruct (run_HSET k args (fun _ => call! _ := EXPIRE k ttl in f) ks h ps Hp Hne Hh) as [n ->].
  erewrite run_EXPIRE; [|done|apply ks_entry_set_value]. reflexivity.
Qed.

(** ** Rotation *)

Definition extends (sessionTTL t : Z) : bool := (t =? -2) || ((0 <=? t) && (t <? sessionTTL)).

Definition rotated_pairs (newJTI updatedAt expiresAt ip device : string) : list (string * string) :=
  [("current_jti", newJTI); ("updated_at", updatedAt); ("expires_at", expiresAt);
   ("ip", ip); ("device", device)].

(** The keyspace a rotation leaves, but for the index. *)
Definition rotation (oldJTI newJTI sid updatedAt expiresAt ip device : string) (jtiTTL sessionTTL : Z)
    (h : gmap string string) (ks : keyspace) : keyspace :=
  put_hash (idKey sid) (hset_all (rotated_pairs newJTI updatedAt expiresAt ip device) h) sessionTTL
    (ks_put (jtiKey newJTI) {| re_value := RString (idKey sid);
                               re_expire := Some (ks_now ks + 1000 * jtiTTL) |}
       (ks_del (jtiKey oldJTI) ks)).

Lemma typed_jti ks j v : typed ks -> ks_get ks (jtiKey j) = Some v -> exists s, v = RString (idKey s).
Proof.
  intros Hty H. pose proof (Hty _ _ H) as Ht. rewrite class_jtiKey in Ht.
  destruct v as [k| | |]; try done. cbn in Ht. unfold in_class in Ht. breflect.
  destruct (class_KId_inv _ Ht) as [s ->]. eauto.
Qed.

Lemma typed_hash ks sid v : typed ks -> ks_get ks (idKey sid) = Some v -> exists h, v = RHash h.
Proof.
  intros Hty H. pose proof (Hty _ _ H) as Ht. rewrite class_idKey in Ht. destruct v; try done. eauto.
Qed.

Lemma typed_names ks :
  typed ks ->
  (forall u, (type_name (ks_get ks (userKey u)) <>s "none")
             && (type_name (ks_get ks (userKey u)) <>s "zset") = false)
  /\ (forall j, (type_name (ks_get ks (jtiKey j)) <>s "none")
                && (type_name (ks_get ks (jtiKey j)) <>s "string") = false)
  /\ (forall s, (type_name (ks_get ks (idKey s)) <>s "none")
                && (type_name (ks_get ks (idKey s)) <>s "hash") = false).
Proof.
  intros Hty. repeat split; intros x.
  - by destruct (typed_user_index ks x Hty) as [-> | [z ->]].
  - destruct (ks_get ks (jtiKey x)) as [v|] eqn:E; [|done].
    by destruct (typed_jti ks x v Hty E) as [s ->].
  - destruct (ks_get ks (idKey x)) as [v|] eqn:E; [|done].
    by destruct (typed_hash ks x v Hty E) as [s ->].
Qed.

Lemma typed_entries ks ks' :
  typed ks ->
  (forall k v, ks_get ks' k = Some v ->
     ks_get ks k = Some v \/ value_typed (class_of k) v = true) -> typed ks'.
Proof. intros Hty H k v Hv. destruct (H k v Hv) as [Hk|Hk]; [by apply Hty|done]. Qed.

Lemma rotate_write_run ks oldJTI newJTI sid uid upd exp ip dev created jt st h :
  typed ks -> sid <> "" -> 0 < jt -> 0 < st ->
  is_some (ks_get ks (jtiKey oldJTI)) = true -> ks_get ks (idKey sid) = Some (RHash h) ->
  exists ks',
    run_script (rotate_jti_write (jtiKey oldJTI) (jtiKey newJTI) (idKey sid) (userKey uid)
                  newJTI ip dev upd exp created jt st) ks
    = (RArr [RInt 1; RBulk sid], ks')
    /\ forall k, k <> userKey uid ->
       ks_entry ks' k = ks_entry (rotation oldJTI newJTI sid upd exp ip dev jt st h ks) k.
Proof.
  intros Hty Hsid Hjt Hst Hold Hh.
  destruct (typed_names ks Hty) as (Hu & Hj & _).
  unfold rotate_jti_write. rewrite run_TYPE, run_TYPE. cbn [status_of].
  rewrite Hu, Hj, run_DEL, Hold. cbn [int_of Z.eqb]. rewrite run_SET_EX by done.
  assert (Hid : ks_get (ks_put (jtiKey newJTI)
      {| re_value := RString (idKey sid); re_expire := Some (ks_now (ks_del (jtiKey oldJTI) ks) + 1000 * jt) |}
      (ks_del (jtiKey oldJTI) ks)) (idKey sid) = Some (RHash h)).
  { rewrite <- Hh. apply ks_get_entry. rewrite ks_entry_put_ne by key_ne.
    by rewrite ks_entry_del_ne by key_ne. }
  rewrite (run_HSET_EXPIRE _ _ _ _ _ h (rotated_pairs newJTI upd exp ip dev));
    [|reflexivity|done|done|by rewrite Hid].
  rewrite match_after_idKey by done.
  match goal with |- exists _, run_script _ ?ks1 = _ /\ _ =>
    destruct (run_index_session ks1 uid true (itoa created) (idKey sid) (extends st) st
                (RArr [RInt 1; RBulk sid]) created) as (ks' & Hrun & Hframe)
  end; [|apply parse_signed_itoa|eauto].
  apply (typed_entries ks); [done|]. intros k v.
  destruct (decide (k = idKey sid)) as [->|H1].
  - unfold ks_get. rewrite ks_entry_put_hash by done. intros [= <-]. right. by rewrite class_idKey.
  - unfold ks_get at 1. rewrite ks_entry_put_hash_ne by done.
    destruct (decide (k = jtiKey newJTI)) as [->|H2].
    + rewrite ks_entry_put_live by (cbn; lia). intros [= <-]. right. rewrite class_jtiKey. cbn.
      unfold in_class. by rewrite class_idKey.
    + rewrite ks_entry_put_ne by done. destruct (decide (k = jtiKey oldJTI)) as [->|H3].
      * by rewrite ks_entry_del_eq.
      * rewrite ks_entry_del_ne by done. auto.
Qed.

Definition rotate_script (oldJTI newJTI uid sid : string) (cv : Z) (ip device : string)
    (updatedAt expiresAt jtiTTL sessionTTL : Z) : script :=
  rotate_jti [jtiKey oldJTI; jtiKey newJTI; accessKey uid]
    [newJTI; uid; sid; itoa cv; ip; device; itoa updatedAt; itoa expiresAt;
     itoa jtiTTL; itoa sessionTTL].

Section Rotate.
Context (ks : keyspace) (oldJTI newJTI uid sid : string) (cv : Z) (ip device : string)
  (updatedAt expiresAt jtiTTL sessionTTL : Z).
Hypothesis old_ne : oldJTI <> "".
Hypothesis uid_ne : uid <> "".
Hypothesis sid_ne : sid <> "".
Hypothesis cv_pos : 0 < cv.
Hypothesis jtiTTL_pos : 0 < jtiTTL.
Hypothesis sessionTTL_pos : 0 < sessionTTL.
Hypothesis ks_typed : typed ks.

Let rotate := rotate_script oldJTI newJTI uid sid cv ip device updatedAt expiresAt jtiTTL sessionTTL.
Let write created := rotate_jti_write (jtiKey oldJTI) (jtiKey newJTI) (idKey sid) (userKey uid)
                       newJTI ip device (itoa updatedAt) (itoa expiresAt) created jtiTTL sessionTTL.

Lemma rotate_blocked n : access_is ks uid true n -> run_script rotate ks = (RArr [RInt (-1)], ks).
Proof using uid_ne sid_ne cv_pos jtiTTL_pos sessionTTL_pos.
  intros H. unfold rotate, rotate_script, rotate_jti, tonumber.
  rewrite !parse_signed_itoa, !(proj2 (Z.leb_gt _ _)), !(eqb_ne_string _ ""),
    positive_decimal_itoa by (done || lia). cbn [negb].
  by rewrite (run_access_some _ _ _ _ _ _ H).
Qed.

(** A rotation either writes, for a valid session, or changes nothing but a
    stale mapping. *)
Lemma rotate_cases :
  wf ks ->
  (exists n created h, valid_session ks oldJTI uid sid cv n
     /\ ks_get ks (idKey sid) = Some (RHash h)
     /\ tonumber (h !! "created_at") = Some created
     /\ run_script rotate ks = run_script (write created) ks)
  \/ (exists n, access_is ks uid true n /\ run_script rotate ks = (RArr [RInt (-1)], ks))
  \/ run_script rotate ks = (RArr [RInt 0], ks)
  \/ run_script rotate ks = (RArr [RInt 0], ks_del (jtiKey oldJTI) ks).
Proof using old_ne uid_ne sid_ne cv_pos jtiTTL_pos sessionTTL_pos ks_typed.
  intros Hwf. destruct (wf_access_dec ks uid Hwf) as [Hn|[[n Ha]|[n Ha]]];
    [right; right; left| |right; left; exists n; split; [done|by apply (rotate_blocked n)]].
  - unfold rotate, rotate_script, rotate_jti, tonumber.
    rewrite !parse_signed_itoa, !(proj2 (Z.leb_gt _ _)), !(eqb_ne_string _ ""),
      positive_decimal_itoa by (done || lia). cbn [negb].
    by rewrite (run_access_none _ _ _ _ Hn).
  - unfold rotate, rotate_script, rotate_jti, tonumber.
    rewrite !parse_signed_itoa, !(proj2 (Z.leb_gt _ _)), !(eqb_ne_string _ ""),
      positive_decimal_itoa by (done || lia). cbn [negb].
    rewrite (run_access_some _ _ _ _ _ _ Ha). cbn [bit String.eqb Ascii.eqb Bool.eqb].
    destruct (ks_get ks (jtiKey oldJTI)) as [v|] eqn:Hm; [|rewrite run_GET_none by done; auto].
    destruct (typed_jti _ _ _ ks_typed Hm) as [s ->].
    rewrite (run_GET_string _ _ _ _ Hm). cbn [as_string]. rewrite run_EXISTS.
    destruct (ks_get ks (idKey s)) as [w|] eqn:Hw; [|cbn [is_some int_of Z.eqb]; rewrite run_DEL; auto].
    destruct (typed_hash _ _ _ ks_typed Hw) as [h ->].
    cbn [is_some int_of Z.eqb]. rewrite run_pcall. cbn [documented fst snd]. rewrite Hw.
    cbn [map is_error]. unfold field. cbn [elements_of lookup list_lookup Nat.sub].
    rewrite match_after_jtiKey by done.
    match goal with |- context [if ?b then _ else _] => destruct b eqn:E1 end; [auto|].
    left. breflect.
    destruct (h !! "id") as [i|] eqn:Hi, (h !! "user_id") as [u|] eqn:Hu,
      (h !! "created_at") as [c|] eqn:Hc, (h !! "credential_version") as [v|] eqn:Hv,
      (h !! "current_jti") as [j|] eqn:Hj, (h !! "session_generation") as [g|] eqn:Hg;
      cbn in *; try done.
    breflect. subst.
    match goal with H : idKey s = _ |- _ => apply append_inj in H; subst end.
    destruct (parse_signed c) as [created|] eqn:Ec; [|done].
    exists n, created, h. split; [split; [done..|by exists h]|]. split; [done|].
    split; [by rewrite Hc|reflexivity].
Qed.

Lemma rotate_valid n created h :
  valid_session ks oldJTI uid sid cv n -> ks_get ks (idKey sid) = Some (RHash h) ->
  tonumber (h !! "created_at") = Some created ->
  run_script rotate ks = run_script (write created) ks.
Proof using old_ne uid_ne sid_ne cv_pos jtiTTL_pos sessionTTL_pos.
  intros [Ha Hm (h' & Hh & Hi & Hu & Hj & Hv & Hg)] Hh' Hc. rewrite Hh in Hh'. injection Hh' as ->.
  unfold rotate, rotate_script, rotate_jti. unfold tonumber at 1 2.
  rewrite !parse_signed_itoa, !(proj2 (Z.leb_gt _ _)), !(eqb_ne_string _ ""),
    positive_decimal_itoa by (done || lia). cbn [negb].
  rewrite (run_access_some _ _ _ _ _ _ Ha). cbn [bit String.eqb Ascii.eqb Bool.eqb].
  rewrite (run_GET_string _ _ _ _ Hm). cbn [as_string]. rewrite run_EXISTS, Hh. cbn [is_some int_of Z.eqb].
  rewrite run_pcall. cbn [documented fst snd]. rewrite Hh. cbn [map is_error].
  unfold field. cbn [elements_of lookup list_lookup Nat.sub]. rewrite match_after_jtiKey by done.
  rewrite Hi, Hu, Hj, Hv, Hg.
  assert (Hcn : tonumber match bulk_or_nil (h !! "created_at") with RBulk s => Some s | _ => None end
                = Some created) by (destruct (h !! "created_at"); done).
  cbn [bulk_or_nil as_string missing eq_opt]. unfold as_string. rewrite Hcn. cbn [is_some].
  destruct Ha as (_ & _ & _ & _ & Hn). unfold bad_generation, tonumber. cbn [positive_opt].
  rewrite !eqb_refl_string, !(eqb_ne_string _ ""), positive_decimal_itoa, parse_signed_itoa by (done || lia).
  replace (n >? maxSafeGeneration) with false by lia.
  reflexivity.
Qed.

End Rotate.

(** ** Creation *)

Definition session_fields (s : Session.t) : list string :=
  ["id"; Session.ID s; "user_id"; Session.UserID s; "device"; Session.Device s;
   "ip"; Session.IP s; "created_at"; itoa (unix_seconds (Session.CreatedAt s));
   "updated_at"; itoa (unix_seconds (Session.UpdatedAt s));
   "expires_at"; itoa (unix_seconds (Session.ExpiresAt s));
   "current_jti"; Session.CurrentJTI s;
   "credential_version"; itoa (Session.CredentialVersion s)].

Definition create_argv (s : Session.t) : list string :=
  session_fields s ++ [itoa (Session.SessionTTLSeconds s); itoa (Session.JTITTLSeconds s)].

Definition create_script (s : Session.t) : script :=
  create_session [idKey (Session.ID s); jtiKey (Session.CurrentJTI s);
                  userKey (Session.UserID s); accessKey (Session.UserID s)] (create_argv s).

(** The fields [create_session] stores. *)
Definition created_pairs (s : Session.t) (n : Z) : list (string * string) :=
  [("id", Session.ID s); ("user_id", Session.UserID s); ("device", Session.Device s);
   ("ip", Session.IP s); ("created_at", itoa (unix_seconds (Session.CreatedAt s)));
   ("updated_at", itoa (unix_seconds (Session.UpdatedAt s)));
   ("expires_at", itoa (unix_seconds (Session.ExpiresAt s)));
   ("current_jti", Session.CurrentJTI s);
   ("credential_version", itoa (Session.CredentialVersion s));
   ("session_generation", itoa n)].

Definition hash_at (ks : keyspace) (k : string) : gmap string string :=
  match ks_get ks k with Some (RHash h) => h | _ => ∅ end.

Definition set_access (uid : string) (b : bool) (n : Z) (ks : keyspace) : keyspace :=
  ks_set_value (accessKey uid)
    (RHash (hset_all [("blocked", bit b); ("session_generation", itoa n)]
              (hash_at ks (accessKey uid)))) ks.

(** The keyspace a creation leaves, but for the index. *)
Definition creation (s : Session.t) (init : bool) (n : Z) (ks : keyspace) : keyspace :=
  let ks1 := if init then set_access (Session.UserID s) false n ks else ks in
  ks_put (jtiKey (Session.CurrentJTI s))
    {| re_value := RString (idKey (Session.ID s));
       re_expire := Some (ks_now ks + 1000 * Session.JTITTLSeconds s) |}
    (put_hash (idKey (Session.ID s))
       (hset_all (created_pairs s n) (hash_at ks (idKey (Session.ID s))))
       (Session.SessionTTLSeconds s) ks1).

Lemma create_script_body s :
  0 < Session.SessionTTLSeconds s -> 0 < Session.JTITTLSeconds s ->
  create_script s =
  let write := create_session_write (idKey (Session.ID s)) (jtiKey (Session.CurrentJTI s))
                 (userKey (Session.UserID s)) (accessKey (Session.UserID s)) (session_fields s)
                 (Session.SessionTTLSeconds s) (Session.JTITTLSeconds s) in
  with_access_state (accessKey (Session.UserID s)) (write true "1" 1)
    (fun blocked generation g =>
       if blocked =s "1" then SReturn (RInt (-1)) else write false generation g).
Proof.
  intros H1 H2. unfold create_script, create_session.
  change (Z.of_nat (List.length (create_argv s))) with 20.
  change (lua_index (create_argv s) (20 - 1)) with (Some (itoa (Session.SessionTTLSeconds s))).
  change (lua_index (create_argv s) 20) with (Some (itoa (Session.JTITTLSeconds s))).
  unfold tonumber. rewrite !parse_signed_itoa, !(proj2 (Z.leb_gt _ _)) by lia. reflexivity.
Qed.

Lemma ks_entry_set_access_ne uid b n ks k :
  k <> accessKey uid -> ks_entry (set_access uid b n ks) k = ks_entry ks k.
Proof. intros H. unfold set_access. apply ks_entry_set_value_ne. congruence. Qed.

Lemma access_is_set_access uid b n ks :
  (ks_entry ks (accessKey uid) = None \/ exists b' n', access_is ks uid b' n') ->
  1 <= n <= maxSafeGeneration -> access_is (set_access uid b n ks) uid b n.
Proof.
  intros H Hn. eexists. unfold set_access. rewrite ks_entry_set_value.
  split; [|split; [|split; [|exact Hn]]].
  - destruct H as [-> | (b' & n' & h & -> & _)]; reflexivity.
  - cbn. by rewrite lookup_insert_ne, lookup_insert_eq.
  - cbn. by rewrite lookup_insert_eq.
Qed.

Lemma create_write_run s ks init n :
  typed ks -> 0 < Session.SessionTTLSeconds s -> 0 < Session.JTITTLSeconds s ->
  exists ks',
    run_script (create_session_write (idKey (Session.ID s)) (jtiKey (Session.CurrentJTI s))
                 (userKey (Session.UserID s)) (accessKey (Session.UserID s)) (session_fields s)
                 (Session.SessionTTLSeconds s) (Session.JTITTLSeconds s) init (itoa n) n) ks
    = (RInt n, ks')
    /\ forall k, k <> userKey (Session.UserID s) ->
       ks_entry ks' k = ks_entry (creation s init n ks) k.
Proof.
  intros Hty Hst Hjt. destruct (typed_names ks Hty) as (Hu & Hj & Hi).
  unfold create_session_write. rewrite !run_TYPE. cbn [status_of]. rewrite Hu, Hj, Hi.
  set (write := SCall (HSET (idKey (Session.ID s)) _) _).
  assert (Hw : forall ks1, typed ks1 -> ks_now ks1 = ks_now ks ->
     hash_at ks1 (idKey (Session.ID s)) = hash_at ks (idKey (Session.ID s)) ->
     exists ks', run_script write ks1 = (RInt n, ks')
       /\ forall k, k <> userKey (Session.UserID s) -> ks_entry ks' k = ks_entry (
            ks_put (jtiKey (Session.CurrentJTI s))
              {| re_value := RString (idKey (Session.ID s));
                 re_expire := Some (ks_now ks + 1000 * Session.JTITTLSeconds s) |}
              (put_hash (idKey (Session.ID s))
                 (hset_all (created_pairs s n) (hash_at ks (idKey (Session.ID s))))
                 (Session.SessionTTLSeconds s) ks1)) k).
  { intros ks1 Hty1 Hnow Hh. unfold write. rewrite <- Hh, <- Hnow.
    rewrite (run_HSET_EXPIRE _ _ _ _ _ (hash_at ks1 (idKey (Session.ID s))) (created_pairs s n));
      [|reflexivity|done|done|].
    2: { unfold hash_at. destruct (ks_get ks1 _) as [v|] eqn:E; [|done].
         by destruct (typed_hash _ _ _ Hty1 E) as [h ->]. }
    rewrite run_SET_EX by done. rewrite run_call. cbn [documented].
    unfold field. cbn [elements_of lookup list_lookup Nat.sub as_string].
    match goal with |- exists _, run_script _ ?ks2 = _ /\ _ =>
      destruct (run_index_session ks2 (Session.UserID s) false (itoa (ks_now ks2 / 1000))
                  (idKey (Session.ID s)) (extends (Session.SessionTTLSeconds s))
                  (Session.SessionTTLSeconds s) (RInt n) (ks_now ks2 / 1000)) as (ks' & Hrun & Hf)
    end; [|apply parse_signed_itoa|exists ks'; split; [exact Hrun|exact Hf]].
    apply (typed_entries ks1); [done|]. intros k v.
    destruct (decide (k = jtiKey (Session.CurrentJTI s))) as [->|H2].
    + unfold ks_get. rewrite ks_entry_put_live by (cbn; lia). intros [= <-]. right. rewrite class_jtiKey.
      cbn. unfold in_class. by rewrite class_idKey.
    + unfold ks_get at 1. rewrite ks_entry_put_ne by done.
      destruct (decide (k = idKey (Session.ID s))) as [->|H1].
      * rewrite ks_entry_put_hash by done. intros [= <-]. right. by rewrite class_idKey.
      * rewrite ks_entry_put_hash_ne by done. auto. }
  unfold creation, set_access. destruct init; [|by apply Hw].
  destruct (run_HSET (accessKey (Session.UserID s)) ["blocked"; "0"; "session_generation"; itoa n]
              (fun _ => write) ks (hash_at ks (accessKey (Session.UserID s)))
              [("blocked", "0"); ("session_generation", itoa n)]) as [m Hm]; [done|done| |].
  { unfold hash_at. destruct (ks_get ks _) as [v|] eqn:E; [|done].
    pose proof (Hty _ _ E) as Ht. rewrite class_accessKey in Ht. by destruct v. }
  rewrite Hm. apply Hw; [|done|].
  - apply (typed_entries ks); [done|]. intros k v.
    destruct (decide (k = accessKey (Session.UserID s))) as [->|H].
    + rewrite ks_get_set_value_eq. intros [= <-]. right. by rewrite class_accessKey.
    + unfold ks_get at 1. rewrite ks_entry_set_value_ne by done. auto.
  - unfold hash_at at 1. unfold ks_get. rewrite ks_entry_set_value_ne by key_ne. done.
Qed.

Lemma create_cases s ks :
  wf ks -> 0 < Session.SessionTTLSeconds s -> 0 < Session.JTITTLSeconds s ->
  (exists n, access_is ks (Session.UserID s) true n
             /\ run_script (create_script s) ks = (RInt (-1), ks))
  \/ exists (init : bool) (n : Z) ks',
       (if init then ks_entry ks (accessKey (Session.UserID s)) = None /\ n = 1
        else access_is ks (Session.UserID s) false n)
       /\ run_script (create_script s) ks = (RInt n, ks')
       /\ forall k, k <> userKey (Session.UserID s) ->
          ks_entry ks' k = ks_entry (creation s init n ks) k.
Proof.
  intros Hwf H1 H2. rewrite create_script_body by done. cbv zeta.
  destruct (wf_access_dec ks (Session.UserID s) Hwf) as [Hn|[[n Ha]|[n Ha]]].
  - right. rewrite (run_access_none _ _ _ _ Hn).
    destruct (create_write_run s ks true 1 (wf_typed _ Hwf) H1 H2) as (ks' & Hr & Hf).
    exists true, 1, ks'. split; [done|]. split; [exact Hr|exact Hf].
  - right. rewrite (run_access_some _ _ _ _ _ _ Ha). cbn [bit String.eqb Ascii.eqb Bool.eqb].
    destruct (create_write_run s ks false n (wf_typed _ Hwf) H1 H2) as (ks' & Hr & Hf).
    exists false, n, ks'. split; [done|]. split; [exact Hr|exact Hf].
  - left. exists n. split; [done|]. by rewrite (run_access_some _ _ _ _ _ _ Ha).
Qed.

(** * Deleting a user's sessions *)

(** The owner a session key has, as the script reads it. *)
Definition owner_of (ks : keyspace) (k : string) : option string :=
  match ks_get ks k with Some (RHash h) => h !! "user_id" | _ => None end.

Definition candidate_at (ks : keyspace) (u k : string) : candidate :=
  {| ca_sessionKey := k;
     ca_owner := owner_of ks k;
     ca_jti := if eq_opt (owner_of ks k) (Some u)
               then match ks_get ks k with Some (RHash h) => h !! "current_jti" | _ => None end
               else None;
     ca_hasSessionPrefix := HasPrefix k sessionKeyPrefix |}.

Definition is_other (cur : option string) (k : string) : bool := negb (eq_opt (Some k) cur).

Definition candidates_of (ks : keyspace) (u : string) (cur : option string) (keys : list string)
    : list candidate :=
  map (candidate_at ks u) (List.filter (is_other cur) keys).

Lemma run_read_candidates ks u cur keys acc k :
  run_script (read_candidates u cur keys acc k) ks
  = run_script (k (rev acc ++ candidates_of ks u cur keys)) ks.
Proof.
  revert acc. induction keys as [|key keys IH]; intros acc; cbn [read_candidates].
  - unfold candidates_of. cbn. by rewrite app_nil_r.
  - unfold candidates_of, is_other. cbn [List.filter].
    destruct (eq_opt (Some key) cur); cbn [negb]; [apply IH|].
    rewrite run_pcall. rewrite read_cmd_state by done. rewrite IH. cbn [rev map]. rewrite <- app_assoc.
    cbn [app]. repeat f_equal. unfold candidate_at, owner_of. cbn [documented fst].
    destruct (ks_get ks key) as [[| h | |]|]; try reflexivity.
    cbn [map is_error]. unfold field. cbn [elements_of lookup list_lookup Nat.sub].
    destruct (h !! "user_id") as [w|], (h !! "current_jti") as [j|]; reflexivity.
Qed.

Definition revoked (u : string) (cs : list candidate) (k : string) : bool :=
  existsb (fun c => eq_opt (ca_owner c) (Some u) && ca_hasSessionPrefix c
                    && (ca_sessionKey c =s k)) cs.

Lemma run_drop_jti (ks : keyspace) j key rest :
  exists ks1, run_script (drop_jti_mapping j key rest) ks = run_script rest ks1
    /\ (forall k, ks_entry ks1 k = ks_entry ks k
                  \/ (class_of k = KJti /\ ks_get ks k = Some (RString key) /\ ks_entry ks1 k = None)).
Proof.
  unfold drop_jti_mapping. destruct j as [j|]; [|exists ks; auto].
  rewrite run_pcall. rewrite read_cmd_state by done. cbn [documented fst].
  destruct (ks_get ks (jtiKeyPrefix +:+ j)) as [[v| | |]|] eqn:E; cbn [as_string eq_opt];
    try (exists ks; auto; fail).
  destruct (v =s key) eqn:Ev; [|exists ks; auto].
  breflect. subst. rewrite run_DEL. exists (ks_del (jtiKeyPrefix +:+ j) ks). split; [done|].
  intros k. destruct (decide (k = jtiKeyPrefix +:+ j)) as [->|Hne].
  - right. split; [apply class_jtiKey|]. split; [done|apply ks_entry_del_eq].
  - left. by apply ks_entry_del_ne.
Qed.

Lemma run_ZREM_user ks uid m f :
  typed ks ->
  exists ks1, run_script (SCall (ZREM (userKey uid) m) f) ks
              = run_script (f (RInt (int_of (documented (ZREM (userKey uid) m) ks).1))) ks1
    /\ typed ks1 /\ forall k, k <> userKey uid -> ks_entry ks1 k = ks_entry ks k.
Proof.
  intros Hty. exists (documented (ZREM (userKey uid) m) ks).2.
  split; [|split; [apply (session_cmd_typed no_key); [|done]|
                   intros k Hk; apply documented_frame; cbn; congruence]].
  2: cmd_ok.
  rewrite run_call. cbn [documented].
  by destruct (typed_user_index ks uid Hty) as [-> | [z ->]].
Qed.

(** What the deletions do to a key: a revoked session disappears, a JTI
    mapping may disappear with the revoked session it points to, and nothing
    else changes but the index. *)
Record revocation (uid : string) (rev : string -> bool) (ks ks' : keyspace) : Prop := {
  rv_gone k : rev k = true -> ks_entry ks' k = None;
  rv_kept k : rev k = false -> k <> userKey uid ->
              (forall s, class_of k = KJti -> ks_get ks k = Some (RString s) -> rev s = false) ->
              ks_entry ks' k = ks_entry ks k;
  rv_less k e : k <> userKey uid -> ks_entry ks' k = Some e -> ks_entry ks k = Some e;
}.

Lemma revocation_none uid ks ks' :
  (forall k, k <> userKey uid -> ks_entry ks' k = ks_entry ks k) ->
  revocation uid (fun _ => false) ks ks'.
Proof. intros H. split; [done|auto|]. intros k e Hk. by rewrite H. Qed.

Lemma revocation_index uid ks ks1 ks' rev :
  (forall k, k <> userKey uid -> ks_entry ks1 k = ks_entry ks k) ->
  revocation uid rev ks1 ks' -> revocation uid rev ks ks'.
Proof.
  intros Hf Hrv. split.
  - apply (rv_gone _ _ _ _ Hrv).
  - intros k Hk Hu Hj. rewrite (rv_kept _ _ _ _ Hrv k Hk Hu); [auto|].
    intros s Hcl Hs. apply Hj; [done|]. rewrite <- Hs. symmetry. by apply ks_get_entry, Hf.
  - intros k e Hu He. rewrite <- Hf by done. by apply (rv_less _ _ _ _ Hrv).
Qed.

Lemma revoke_run uid u others cs (ks : keyspace) n :
  typed ks -> Forall candidate_wf cs ->
  exists m ks', run_script (revoke_candidates u (userKey uid) others cs n) ks = (RInt m, ks')
                /\ n <= m /\ revocation uid (revoked u cs) ks ks'.
Proof.
  intros Hty Hcs. revert ks n Hty. induction Hcs as [|c cs Hc Hcs IH]; intros ks n Hty.
  { exists n, ks. split; [done|]. split; [lia|]. by apply revocation_none. }
  cbn [revoke_candidates]. cbv zeta.
  match goal with |- context [if others then _ else ?r] => set (revoke := r) end.
  assert (Hrev : forall ks0, typed ks0 -> exists m ks', run_script revoke ks0 = (RInt m, ks')
                   /\ n <= m /\ revocation uid (revoked u (c :: cs)) ks0 ks').
  { intros ks0 Hty0. unfold revoke, revoked. cbn [existsb].
    destruct (eq_opt (ca_owner c) (Some u) && ca_hasSessionPrefix c) eqn:Ec; cbn [andb orb];
      [|by apply IH].
    assert (Hid : class_of (ca_sessionKey c) = KId).
    { apply class_sessionPrefix. rewrite <- Hc. by breflect. }
    destruct (run_drop_jti ks0 (ca_jti c) (ca_sessionKey c)
                (call! _ := DEL (ca_sessionKey c) in
                 revoke_candidates u (userKey uid) others cs (n + 1))) as (ks1 & -> & Hj).
    rewrite run_DEL.
    assert (Hless : forall k e, ks_entry (ks_del (ca_sessionKey c) ks1) k = Some e ->
                                ks_entry ks0 k = Some e).
    { intros k e. destruct (decide (k = ca_sessionKey c)) as [->|Hne];
        [by rewrite ks_entry_del_eq|rewrite ks_entry_del_ne by done].
      destruct (Hj k) as [-> | (_ & _ & ->)]; done. }
    destruct (IH (ks_del (ca_sessionKey c) ks1) (n + 1)) as (m & ks' & Hrun & Hm & Hrv).
    { apply (typed_entries ks0); [done|]. intros k v. unfold ks_get.
      destruct (ks_entry (ks_del (ca_sessionKey c) ks1) k) as [e|] eqn:E; [|done].
      rewrite (Hless _ _ E). auto. }
    exists m, ks'. split; [done|]. split; [lia|]. split.
    - intros k Hk. apply orb_true_iff in Hk as [Hk|Hk]; [|by apply (rv_gone _ _ _ _ Hrv)].
      breflect. subst k. destruct (ks_entry ks' (ca_sessionKey c)) as [e|] eqn:E; [|done].
      apply (rv_less _ _ _ _ Hrv) in E; [|key_ne]. by rewrite ks_entry_del_eq in E.
    - intros k Hk Hu Hjti. apply orb_false_iff in Hk as [Hk1 Hk2]. breflect.
      assert (Hk0 : ks_entry (ks_del (ca_sessionKey c) ks1) k = ks_entry ks0 k).
      { rewrite ks_entry_del_ne by done. destruct (Hj k) as [Hk0|(Hcl & Hget & _)]; [done|].
        specialize (Hjti _ Hcl Hget). by rewrite eqb_refl_string in Hjti. }
      rewrite (rv_kept _ _ _ _ Hrv k Hk2 Hu); [done|].
      intros s Hcl Hs. rewrite (ks_get_entry _ _ _ Hk0) in Hs.
      specialize (Hjti s Hcl Hs). by apply orb_false_iff in Hjti as [_ ?].
    - intros k e Hu Hk. by apply Hless, (rv_less _ _ _ _ Hrv). }
  destruct others; [|by apply Hrev].
  destruct (run_ZREM_user ks uid (ca_sessionKey c) (fun _ => revoke) Hty) as (ks1 & Hz & Hty1 & Hf).
  rewrite Hz. destruct (Hrev ks1 Hty1) as (m & ks' & Hrun & Hm & Hrv).
  exists m, ks'. split; [done|]. split; [done|].
  by apply (revocation_index uid ks ks1).
Qed.

(** The sessions a user's index names. *)
Definition indexed_keys (ks : keyspace) (uid : string) : list string :=
  match ks_get ks (userKey uid) with Some (RZset z) => zmembers z | _ => [] end.

Lemma omap_as_string_bulk (l : list string) : omap as_string (RBulk <$> l) = l.
Proof. induction l as [|x l IH]; [done|]. cbn. f_equal. exact IH. Qed.

Lemma candidates_of_wf ks u cur keys : Forall candidate_wf (candidates_of ks u cur keys).
Proof. apply Forall_forall. intros c Hc. apply list_elem_of_fmap in Hc as (k & -> & _). done. Qed.

Lemma zmembers_empty : zmembers ∅ = [].
Proof. reflexivity. Qed.

(** The access state the block mode writes before the deletions. *)
Definition blocking (block : option (string * Z)) (ks : keyspace) : keyspace :=
  match block with
  | Some (uid, n) => set_access uid true n ks
  | None => ks
  end.

Lemma set_access_typed uid b n ks : typed ks -> typed (set_access uid b n ks).
Proof.
  intros Hty. apply (typed_entries ks); [done|]. intros k v.
  destruct (decide (k = accessKey uid)) as [->|H].
  - unfold set_access. rewrite ks_get_set_value_eq. intros [= <-]. right. by rewrite class_accessKey.
  - unfold ks_get at 1. rewrite ks_entry_set_access_ne by done. auto.
Qed.

Lemma run_HSET_access uid b n f ks :
  typed ks ->
  exists m, run_script (SCall (HSET (accessKey uid) ["blocked"; bit b; "session_generation"; itoa n]) f) ks
            = run_script (f (RInt m)) (set_access uid b n ks).
Proof.
  intros Hty. apply run_HSET; [done..|]. unfold hash_at.
  destruct (ks_get ks (accessKey uid)) as [v|] eqn:E; [|done].
  pose proof (Hty _ _ E) as Ht. rewrite class_accessKey in Ht. by destruct v.
Qed.

Lemma delete_indexed_run ks uid u others cur block :
  typed ks ->
  exists m ks',
    run_script (delete_indexed (userKey uid) u others cur
                  (match block with Some (b, n) => Some (accessKey b, n) | None => None end)) ks
    = (RInt m, ks') /\ 0 <= m
    /\ revocation uid (revoked u (candidates_of ks u cur (indexed_keys ks uid)))
         (blocking block ks) ks'.
Proof.
  intros Hty. unfold delete_indexed. cbv zeta. rewrite run_TYPE. cbn [status_of].
  assert (Hgo : forall keys, exists m ks', run_script
      (read_candidates u cur keys [] (fun candidates =>
        match (match block with Some (b, n) => Some (accessKey b, n) | None => None end) with
        | Some (akey, next) =>
            call! _ := HSET akey ["blocked"; "1"; "session_generation"; itoa next] in
            if others then revoke_candidates u (userKey uid) others candidates 0
            else call! _ := DEL (userKey uid) in
                 revoke_candidates u (userKey uid) others candidates 0
        | None => if others then revoke_candidates u (userKey uid) others candidates 0
                  else call! _ := DEL (userKey uid) in
                       revoke_candidates u (userKey uid) others candidates 0
        end)) ks = (RInt m, ks') /\ 0 <= m
    /\ revocation uid (revoked u (candidates_of ks u cur keys)) (blocking block ks) ks').
  { intros keys. rewrite run_read_candidates. cbn [rev app].
    pose proof (candidates_of_wf ks u cur keys) as Hwf.
    set (cs := candidates_of ks u cur keys) in *.
    assert (Hdrop : forall ks1, typed ks1 -> exists m ks', run_script
        (if others then revoke_candidates u (userKey uid) others cs 0
         else call! _ := DEL (userKey uid) in revoke_candidates u (userKey uid) others cs 0) ks1
        = (RInt m, ks') /\ 0 <= m /\ revocation uid (revoked u cs) ks1 ks').
    { intros ks1 Hty1. destruct others; [by apply revoke_run|]. rewrite run_DEL.
      destruct (revoke_run uid u false cs (ks_del (userKey uid) ks1) 0) as (m & ks' & Hr & Hm & Hrv); [|done|].
      - apply (typed_entries ks1); [done|]. intros k v. unfold ks_get at 1.
        destruct (decide (k = userKey uid)) as [->|Hne]; [by rewrite ks_entry_del_eq|].
        rewrite ks_entry_del_ne by done. auto.
      - exists m, ks'. split; [done|]. split; [done|]. apply (revocation_index uid ks1 (ks_del (userKey uid) ks1)); [|done].
        intros k Hk. by apply ks_entry_del_ne. }
    destruct block as [[b n]|]; [|by apply Hdrop]. cbn [blocking].
    destruct (run_HSET_access b true n
      (fun _ => if others then revoke_candidates u (userKey uid) others cs 0
                else call! _ := DEL (userKey uid) in revoke_candidates u (userKey uid) others cs 0)
      ks Hty) as [m Hm]. cbn [bit] in Hm. rewrite Hm. by apply Hdrop, set_access_typed. }
  unfold indexed_keys.
  destruct (typed_user_index ks uid Hty) as [Hn | [z Hz]].
  - rewrite Hn. apply (Hgo []).
  - rewrite Hz. cbn [type_name String.eqb Ascii.eqb Bool.eqb].
    rewrite run_call. cbn [documented]. rewrite Hz. cbn [elements_of].
    rewrite omap_as_string_bulk. apply Hgo.
Qed.

(** ** The three modes, blocking and unblocking *)

Definition delete_all_script (uid : string) : script :=
  delete_other_sessions [userKey uid] [uid; "all"].
Definition block_script (uid : string) : script :=
  delete_other_sessions [userKey uid; accessKey uid] [uid; "block_all"].
Definition delete_others_script (uid sid : string) : script :=
  delete_other_sessions [userKey uid; idKey sid] [uid; "others"].
Definition unblock_script (uid : string) : script := unblock_user [accessKey uid].

(** Every session the index of [uid] names, that [uid] owns. *)
Definition owned_indexed (ks : keyspace) (uid : string) (cur : option string) : string -> bool :=
  revoked uid (candidates_of ks uid cur (indexed_keys ks uid)).

Lemma delete_all_run ks uid :
  typed ks -> uid <> "" ->
  exists m ks', run_script (delete_all_script uid) ks = (RInt m, ks') /\ 0 <= m
                /\ revocation uid (owned_indexed ks uid None) ks ks'.
Proof.
  intros Hty Hne. unfold delete_all_script, delete_other_sessions.
  rewrite lua_index_1, lua_index_2, (eqb_ne_string uid "") by done. cbn [String.eqb Ascii.eqb Bool.eqb].
  apply (delete_indexed_run ks uid uid false None None Hty).
Qed.

Lemma block_run ks uid :
  wf ks -> uid <> "" ->
  (access_is ks uid false maxSafeGeneration
   /\ run_script (block_script uid) ks = (RError "user_session_generation_exhausted", ks))
  \/ exists n m ks',
       ((ks_entry ks (accessKey uid) = None /\ n = 1)
        \/ access_is ks uid true n
        \/ (access_is ks uid false (n - 1) /\ n <= maxSafeGeneration))
       /\ run_script (block_script uid) ks = (RInt m, ks') /\ 0 <= m
       /\ revocation uid (owned_indexed ks uid None) (set_access uid true n ks) ks'.
Proof.
  intros Hwf Hne. unfold block_script, delete_other_sessions.
  rewrite lua_index_1, lua_index_2, (eqb_ne_string uid "") by done. cbn [String.eqb Ascii.eqb Bool.eqb].
  cbv zeta. pose proof (wf_typed _ Hwf) as Hty.
  destruct (wf_access_dec ks uid Hwf) as [Hn|[[n Ha]|[n Ha]]].
  - right. rewrite (run_access_none _ _ _ _ Hn).
    destruct (delete_indexed_run ks uid uid false None (Some (uid, 1)) Hty) as (m & ks' & Hr & Hrv).
    exists 1, m, ks'. auto.
  - rewrite (run_access_some _ _ _ _ _ _ Ha). cbn [bit String.eqb Ascii.eqb Bool.eqb].
    destruct (maxSafeGeneration <=? n) eqn:E; breflect.
    + left. destruct Ha as (h & He & Hb & Hg & Hr). assert (n = maxSafeGeneration) as -> by lia.
      split; [by exists h|done].
    + right. destruct (delete_indexed_run ks uid uid false None (Some (uid, n + 1)) Hty) as (m & ks' & Hr & Hrv).
      exists (n + 1), m, ks'. split; [|done]. right; right. replace (n + 1 - 1) with n by lia.
      split; [done|lia].
  - right. rewrite (run_access_some _ _ _ _ _ _ Ha). cbn [bit String.eqb Ascii.eqb Bool.eqb].
    destruct (delete_indexed_run ks uid uid false None (Some (uid, n)) Hty) as (m & ks' & Hr & Hrv).
    exists n, m, ks'. auto.
Qed.

Lemma unblock_run ks uid :
  wf ks ->
  (ks_entry ks (accessKey uid) = None
   /\ run_script (unblock_script uid) ks = (RError "missing_user_access_state", ks))
  \/ exists b n, access_is ks uid b n
       /\ run_script (unblock_script uid) ks = (RInt n, set_access uid false n ks).
Proof.
  intros Hwf. destruct (wf_access ks Hwf uid) as [Hn|(b & n & Ha)].
  - left. split; [done|]. unfold unblock_script, unblock_user. by rewrite (run_access_none _ _ _ _ Hn).
  - right. exists b, n. split; [done|]. unfold unblock_script, unblock_user.
    rewrite (run_access_some _ _ _ _ _ _ Ha).
    destruct (run_HSET_access uid false n (fun _ => SReturn (RInt n)) ks (wf_typed _ Hwf)) as [m Hm].
    exact Hm.
Qed.

Lemma delete_others_run ks uid sid :
  typed ks -> uid <> "" ->
  (owner_of ks (idKey sid) <> Some uid
   /\ run_script (delete_others_script uid sid) ks = (RInt (-1), ks))
  \/ exists m ks', owner_of ks (idKey sid) = Some uid /\ 0 <= m
       /\ run_script (delete_others_script uid sid) ks = (RInt m, ks')
       /\ revocation uid (owned_indexed ks uid (Some (idKey sid))) ks ks'.
Proof.
  intros Hty Hne. unfold delete_others_script, delete_other_sessions.
  rewrite lua_index_1, lua_index_2, (eqb_ne_string uid "") by done. cbn [String.eqb Ascii.eqb Bool.eqb].
  rewrite run_pcall, read_cmd_state by done.
  assert (Ho : as_string (documented (HGET (idKey sid) "user_id") ks).1 = owner_of ks (idKey sid)).
  { unfold owner_of. cbn [documented fst]. destruct (ks_get ks (idKey sid)) as [[|h| |]|]; try done.
    by destruct (h !! "user_id"). }
  rewrite Ho. destruct (owner_of ks (idKey sid)) as [o|]; cbn [eq_opt]; [|by left].
  destruct (o =s uid) eqn:E; breflect; [subst|left; split; [congruence|done]]. right.
  destruct (delete_indexed_run ks uid uid true (Some (idKey sid)) None Hty) as (m & ks' & Hr & Hm & Hrv).
  by exists m, ks'.
Qed.

(** Every outcome of a lookup. *)
Lemma get_script_cases ks jti uid sid cv :
  wf ks -> jti <> "" -> uid <> "" -> sid <> "" -> 0 < cv ->
  (exists n, valid_session ks jti uid sid cv n
     /\ run_script (get_script jti uid sid cv) ks = (session_reply sid uid jti cv n, ks))
  \/ (exists n, access_is ks uid true n
     /\ run_script (get_script jti uid sid cv) ks = (RArr [RInt (-1)], ks))
  \/ ((forall n, ~ access_is ks uid true n)
      /\ (run_script (get_script jti uid sid cv) ks).1 = RNil).
Proof.
  intros Hwf Hj Hu Hs Hc. destruct (wf_access_dec ks uid Hwf) as [Hn|[[n Ha]|[n Ha]]].
  - right; right. split; [intros n (h & He & _); congruence|].
    rewrite get_script_body by done. by rewrite (run_access_none _ _ _ _ Hn).
  - destruct (get_script_inv ks jti uid sid cv Hj Hu Hs Hc false n (wf_typed _ Hwf) Ha)
      as [(n' & Hv)|[[? _]|Hnil]]; [|done|].
    + left. exists n'. split; [done|]. by apply get_script_valid.
    + right; right. split; [|done]. intros n' Ha'. by destruct (access_is_inj _ _ _ _ _ _ Ha Ha').
  - right; left. exists n. split; [done|]. by apply (get_script_blocked ks jti uid sid cv Hj Hu Hs Hc n).
Qed.

(** * Deleting owned sessions *)

Definition delete_owned_script (uid : string) (ids : list string) : script :=
  delete_owned_sessions (map idKey ids) [uid].

Definition owns (ks : keyspace) (uid sid : string) : bool :=
  eq_opt (owner_of ks (idKey sid)) (Some uid).

Definition hash_field (ks : keyspace) (k f : string) : option string :=
  match ks_get ks k with Some (RHash h) => h !! f | _ => None end.

Lemma run_HGET_id ks sid f k :
  typed ks ->
  run_script (SCall (HGET (idKey sid) f) k) ks
  = run_script (k (bulk_or_nil (hash_field ks (idKey sid) f))) ks.
Proof.
  intros Hty. rewrite run_call. cbn [documented]. unfold hash_field.
  destruct (ks_get ks (idKey sid)) as [v|] eqn:E; [|done].
  destruct (typed_hash _ _ _ Hty E) as [h ->]. by destruct (h !! f).
Qed.

Lemma as_string_bulk o : as_string (bulk_or_nil o) = o.
Proof. by destruct o. Qed.

Lemma check_owned_run ks uid ids owned :
  typed ks ->
  run_script (check_owned_loop uid (map idKey ids) owned) ks
  = if forallb (owns ks uid) ids then run_script owned ks else (RInt 0, ks).
Proof.
  intros Hty. induction ids as [|i ids IH]; [done|]. cbn [map check_owned_loop].
  rewrite run_HGET_id by done. rewrite as_string_bulk.
  cbn [forallb]. unfold owns at 1, owner_of. unfold hash_field.
  destruct (eq_opt _ _); [exact IH|done].
Qed.

(** What the loop does to a key. *)
Record owned_deletion (uid : string) (ids : list string) (ks ks' : keyspace) : Prop := {
  od_gone sid : In sid ids -> ks_entry ks' (idKey sid) = None;
  od_kept k : (forall sid, In sid ids -> k <> idKey sid) -> k <> userKey uid ->
              (forall sid, In sid ids -> forall j, k = jtiKey j -> hash_field ks (idKey sid) "current_jti" <> Some j) ->
              ks_entry ks' k = ks_entry ks k;
  od_less k e : k <> userKey uid -> ks_entry ks' k = Some e -> ks_entry ks k = Some e;
}.

Lemma delete_owned_loop_run ks uid ids :
  typed ks ->
  exists ks', run_script (delete_owned_loop uid (map idKey ids)) ks = (RInt 1, ks')
              /\ owned_deletion uid ids ks ks'.
Proof.
  revert ks. induction ids as [|i ids IH]; intros ks Hty.
  { exists ks. split; [done|]. by split. }
  cbn [map delete_owned_loop]. rewrite run_HGET_id, as_string_bulk by done. cbv zeta.
  set (jti := hash_field ks (idKey i) "current_jti").
  match goal with |- context [SCall (ZREM _ _) ?f] =>
    destruct (run_ZREM_user ks uid (idKey i) f Hty) as (ks1 & Hz & Hty1 & Hf1) end.
  change ("session:user:" +:+ uid) with (userKey uid). rewrite Hz. clear Hz.
  assert (Hgo : exists ks2,
    run_script match jti with
               | Some j => call! _ := DEL (jtiKeyPrefix +:+ j) in
                           call! _ := DEL (idKey i) in delete_owned_loop uid (map idKey ids)
               | None => call! _ := DEL (idKey i) in delete_owned_loop uid (map idKey ids)
               end ks1 = run_script (delete_owned_loop uid (map idKey ids)) (ks_del (idKey i) ks2)
    /\ forall k, ks_entry ks2 k = (if bool_decide (jti <> None /\ k = jtiKey (default "" jti))
                                   then None else ks_entry ks1 k)).
  { destruct jti as [j|].
    - exists (ks_del (jtiKey j) ks1). rewrite !run_DEL. split; [done|]. intros k. cbn.
      destruct (decide (k = jtiKey j)) as [->|Hne].
      + rewrite bool_decide_eq_true_2 by done. apply ks_entry_del_eq.
      + rewrite bool_decide_eq_false_2 by naive_solver. by apply ks_entry_del_ne.
    - exists ks1. rewrite run_DEL. split; [done|]. intros k.
      by rewrite bool_decide_eq_false_2 by naive_solver. }
  destruct Hgo as (ks2 & Hrun & Hks2). rewrite Hrun. clear Hrun.
  assert (Hless : forall k e, k <> userKey uid -> ks_entry (ks_del (idKey i) ks2) k = Some e ->
                              ks_entry ks k = Some e).
  { intros k e Hk. destruct (decide (k = idKey i)) as [->|Hne]; [by rewrite ks_entry_del_eq|].
    rewrite ks_entry_del_ne by done. rewrite Hks2, <- (Hf1 k Hk). by case_bool_decide. }
  assert (Hty2 : typed (ks_del (idKey i) ks2)).
  { apply (typed_entries ks1); [done|]. intros k v. unfold ks_get.
    destruct (ks_entry (ks_del (idKey i) ks2) k) as [e|] eqn:E; [|done].
    destruct (decide (k = idKey i)) as [->|Hne]; [by rewrite ks_entry_del_eq in E|].
    rewrite ks_entry_del_ne, Hks2 in E by done. case_bool_decide; [done|]. rewrite E. auto. }
  destruct (IH _ Hty2) as (ks' & Hr & Hod). exists ks'. split; [done|]. split.
  - intros sid [->|Hin]; [|by apply (od_gone _ _ _ _ Hod)].
    destruct (ks_entry ks' (idKey sid)) as [e|] eqn:E; [|done].
    apply (od_less _ _ _ _ Hod) in E; [|key_ne]. by rewrite ks_entry_del_eq in E.
  - intros k Hk Hu Hj. rewrite (od_kept _ _ _ _ Hod); [|intros; apply Hk; by right|done|].
    + rewrite ks_entry_del_ne by (intros <-; by apply (Hk i); [left|]). rewrite Hks2.
      case_bool_decide as Hb; [|by apply Hf1]. exfalso. destruct Hb as [Hsome ->].
      destruct jti as [j|] eqn:Ej; [|done]. by apply (Hj i (or_introl eq_refl) j).
    + intros sid Hin j -> Hcur. apply (Hj sid (or_intror Hin) j eq_refl).
      unfold hash_field, ks_get in *.
      destruct (ks_entry (ks_del (idKey i) ks2) (idKey sid)) as [e|] eqn:E; [|done].
      by rewrite (Hless (idKey sid) e ltac:(key_ne) E).
  - intros k e Hk He. apply Hless; [done|]. by apply (od_less _ _ _ _ Hod).
Qed.

(** All or nothing. *)
Lemma delete_owned_run ks uid ids :
  typed ks ->
  if forallb (owns ks uid) ids
  then exists ks', run_script (delete_owned_script uid ids) ks = (RInt 1, ks')
                   /\ owned_deletion uid ids ks ks'
  else run_script (delete_owned_script uid ids) ks = (RInt 0, ks).
Proof.
  intros Hty. unfold delete_owned_script, delete_owned_sessions. rewrite lua_index_1.
  rewrite check_owned_run by done. destruct (forallb _ ids); [|done]. by apply delete_owned_loop_run.
Qed.
