(* ===== verification/SessionSafety.v ===== *)
(** The session store as a state machine: the operations the repository
    performs, in any order and by any number of API processes, and time
    passing.  Every operation keeps the store well-formed; generations never
    decrease; an operation other than a creation never gives a session an
    owner or a generation it did not have; so a session that is older than its
    owner's generation ([stale]) stays so. *)
From S2P Require Export SessionEffects.

(** * Operations *)

Inductive store_op : Set :=
  | OpCreate (s : Session.t)
  | OpFind (jti uid sid : string) (cv : Z)
  | OpRotate (oldJTI newJTI uid sid : string) (cv : Z) (ip device : string)
             (updatedAt expiresAt jtiTTL sessionTTL : Z)
  | OpList (uid : string) (offset limit : Z)
  | OpDelete (ids : list string)
  | OpDeleteByUser (uid : string) (ids : list string)
  | OpDeleteAll (uid : string)
  | OpBlock (uid : string)
  | OpUnblock (uid : string)
  | OpDeleteOthers (uid sid : string)
  | OpCleanOrphans (key : string)        (* a key SCAN matched with session:user:* *)
  | OpRateLimit (key : string) (argv : list string)   (* the limiter shares the server *)
  | OpElapse (ms : Z).

Definition list_script (uid : string) (offset limit : Z) : script :=
  list_sessions [userKey uid] [uid; itoa offset; itoa limit].

Definition op_script (op : store_op) : script :=
  match op with
  | OpCreate s => create_script s
  | OpFind jti uid sid cv => get_script jti uid sid cv
  | OpRotate o n uid sid cv ip dev up ex jt st => rotate_script o n uid sid cv ip dev up ex jt st
  | OpList uid offset limit => list_script uid offset limit
  | OpDelete ids => delete_session (map idKey ids)
  | OpDeleteByUser uid ids => delete_owned_sessions (map idKey ids) [uid]
  | OpDeleteAll uid => delete_all_script uid
  | OpBlock uid => block_script uid
  | OpUnblock uid => unblock_script uid
  | OpDeleteOthers uid sid => delete_others_script uid sid
  | OpCleanOrphans key => clean_orphans [key]
  | OpRateLimit key argv => rate_limit [key] argv
  | OpElapse _ => SReturn RNil
  end.

(** The arguments the repository passes: its own guards, and the keys SCAN
    and the limiter use. *)
Definition op_ok (op : store_op) : Prop :=
  match op with
  | OpCreate s => 0 < Session.SessionTTLSeconds s /\ 0 < Session.JTITTLSeconds s
  | OpBlock uid => uid <> ""
  | OpCleanOrphans key => class_of key = KUser
  | OpRateLimit key _ => class_of key = KOther
  | _ => True
  end.

Definition run_op (op : store_op) (ks : keyspace) : rreply * keyspace :=
  match op with
  | OpElapse ms => (RNil, elapse ms ks)
  | _ => run_script (op_script op) ks
  end.

Fixpoint run_ops (ops : list store_op) (ks : keyspace) : keyspace :=
  match ops with
  | [] => ks
  | op :: ops' => run_ops ops' (run_op op ks).2
  end.

(** The states the store goes through. *)
Inductive reachable : keyspace -> Prop :=
  | reachable_empty now : reachable (empty_keyspace now)
  | reachable_op op ks : reachable ks -> op_ok op -> reachable (run_op op ks).2.

(** The session an operation may create, and the users whose access state it
    may write. *)
Definition creates (op : store_op) (sid : string) : Prop :=
  match op with OpCreate s => sid = Session.ID s | _ => False end.

(** * How the store evolves *)

Record evolves (new : string -> Prop) (ks ks' : keyspace) : Prop := {
  ev_access uid b n : access_is ks uid b n -> exists b' n', access_is ks' uid b' n' /\ n <= n';
  ev_session sid o : ~ new sid -> session_of ks' (idKey sid) = Some o ->
                     session_of ks (idKey sid) = Some o;
}.

Lemma evolves_refl new ks : evolves new ks ks.
Proof. split; [intros uid b n H; exists b, n; split; [done|lia]|done]. Qed.

Lemma evolves_trans new a b c : evolves new a b -> evolves new b c -> evolves new a c.
Proof.
  intros Hab Hbc. split.
  - intros uid x n H. destruct (ev_access _ _ _ Hab uid x n H) as (x1 & n1 & H1 & L1).
    destruct (ev_access _ _ _ Hbc uid x1 n1 H1) as (x2 & n2 & H2 & L2). exists x2, n2.
    split; [done|lia].
  - intros sid o Hn Ho. apply (ev_session _ _ _ Hab); [done|]. by apply (ev_session _ _ _ Hbc).
Qed.

Lemma shrinks_evolves new ks ks' : shrinks no_key ks ks' -> evolves new ks ks'.
Proof.
  intros Hs. split.
  - intros uid b n H. exists b, n. split; [|lia].
    eapply access_is_entry; [|done]. apply (sh_access _ _ _ Hs); [apply class_accessKey|done].
  - intros sid o _. apply (sh_id _ _ _ Hs); [apply class_idKey|done].
Qed.

Lemma elapse_evolves new d ks : evolves new ks (elapse d ks).
Proof.
  split.
  - intros uid b n H. exists b, n. split; [by apply access_is_elapse|lia].
  - intros sid o _. apply session_of_elapse.
Qed.

(** A session whose generation is below its owner's. *)
Definition stale (ks : keyspace) (sid : string) : Prop :=
  forall uid g, session_of ks (idKey sid) = Some (uid, g) ->
  exists b n m, access_is ks uid b n /\ g = itoa m /\ m < n.

Lemma stale_evolves new ks ks' sid : evolves new ks ks' -> ~ new sid -> stale ks sid -> stale ks' sid.
Proof.
  intros He Hn Hs uid g Ho. apply (ev_session _ _ _ He) in Ho; [|done].
  destruct (Hs uid g Ho) as (b & n & m & Ha & Hg & Hlt).
  destruct (ev_access _ _ _ He uid b n Ha) as (b' & n' & Ha' & Hle).
  exists b', n', m. split; [done|]. split; [done|lia].
Qed.

Lemma stale_not_valid ks jti uid sid cv n : stale ks sid -> ~ valid_session ks jti uid sid cv n.
Proof.
  intros Hs [Ha _ (h & Hh & _ & Hu & _ & _ & Hg)].
  destruct (Hs uid (itoa n)) as (b & n' & m & Ha' & Hm & Hlt).
  { unfold session_of. by rewrite Hh, Hu, Hg. }
  destruct (access_is_inj _ _ _ _ _ _ Ha Ha') as [_ <-]. apply itoa_inj in Hm. lia.
Qed.

Lemma ks_get_elapse_live d ks k v t :
  ks_entry ks k = Some {| re_value := v; re_expire := Some t |} -> 0 <= d -> ks_now ks + d < t ->
  ks_get (elapse d ks) k = Some v.
Proof.
  unfold ks_get, ks_entry, elapse. cbn.
  destruct (ks_keys ks !! k) as [e|]; [|done]. unfold live_entry.
  destruct (re_expire e) as [t'|] eqn:E; [|intros [= ->]; discriminate].
  destruct (t' <=? ks_now ks) eqn:L; [done|]. intros [= ->] Hd Ht. cbn in E. injection E as ->.
  rewrite Z.max_r by lia. by rewrite (proj2 (Z.leb_gt _ _)).
Qed.

(** ** Writing an access state *)

Lemma session_of_set_access uid b n ks k :
  class_of k = KId -> session_of (set_access uid b n ks) k = session_of ks k.
Proof. intros H. apply session_of_entry, ks_entry_set_access_ne. key_ne. Qed.

Lemma set_access_other uid b n ks uid' b' n' :
  uid' <> uid -> access_is ks uid' b' n' -> access_is (set_access uid b n ks) uid' b' n'.
Proof.
  intros Hne. apply access_is_entry. apply ks_entry_set_access_ne.
  intros H. apply accessKey_inj in H. congruence.
Qed.

(** The generation may only grow, strictly when sessions of the old one exist
    and the user becomes blocked. *)
Definition access_step (ks : keyspace) (uid : string) (b : bool) (n : Z) : Prop :=
  1 <= n <= maxSafeGeneration
  /\ ((ks_entry ks (accessKey uid) = None)
      \/ exists b0 n0, access_is ks uid b0 n0 /\ n0 <= n
                       /\ (b = true -> b0 = false -> n0 < n)).

Lemma set_access_wf ks uid b n : wf ks -> access_step ks uid b n -> wf (set_access uid b n ks).
Proof.
  intros Hwf [Hn Hstep].
  assert (Hnew : access_is (set_access uid b n ks) uid b n).
  { apply access_is_set_access; [|done]. destruct Hstep as [H|(b0 & n0 & H & _)]; eauto. }
  split.
  - apply set_access_typed, Hwf.
  - intros uid'. destruct (decide (uid' = uid)) as [->|Hne]; [eauto|].
    destruct (wf_access ks Hwf uid') as [H|(b' & n' & H)].
    + left. rewrite ks_entry_set_access_ne; [done|]. intros E. apply accessKey_inj in E. congruence.
    + right. exists b', n'. by apply set_access_other.
  - intros k uid' g Hk Hs. rewrite session_of_set_access in Hs by done.
    destruct (wf_session ks Hwf k uid' g Hk Hs) as (b' & n' & m & Ha & Hg & Hm & Hb).
    destruct (decide (uid' = uid)) as [->|Hne].
    + exists b, n, m. split; [done|]. split; [done|].
      destruct Hstep as [Hnone|(b0 & n0 & H & Hle & Hlt)].
      * destruct Ha as (h & He & _). congruence.
      * destruct (access_is_inj _ _ _ _ _ _ Ha H) as [-> ->]. split; [lia|]. intros ->.
        destruct b0; [specialize (Hb eq_refl); lia|specialize (Hlt eq_refl eq_refl); lia].
    + exists b', n', m. split; [by apply set_access_other|done].
Qed.

Lemma set_access_evolves new ks uid b n :
  access_step ks uid b n -> evolves new ks (set_access uid b n ks).
Proof.
  intros [Hn Hstep].
  assert (Hnew : access_is (set_access uid b n ks) uid b n).
  { apply access_is_set_access; [|done]. destruct Hstep as [H|(b0 & n0 & H & _)]; eauto. }
  split.
  - intros uid' b' n' Ha. destruct (decide (uid' = uid)) as [->|Hne].
    + exists b, n. split; [done|]. destruct Hstep as [Hnone|(b0 & n0 & H & Hle & _)].
      * destruct Ha as (h & He & _). congruence.
      * destruct (access_is_inj _ _ _ _ _ _ Ha H) as [_ ->]. done.
    + exists b', n'. split; [by apply set_access_other|lia].
  - intros sid o _. by rewrite session_of_set_access by apply class_idKey.
Qed.

(** ** Revocations and creations *)

Lemma revoked_class u cs k : Forall candidate_wf cs -> revoked u cs k = true -> class_of k = KId.
Proof.
  intros Hcs Hr. apply existsb_exists in Hr as (c & Hin & Hc). breflect. subst.
  apply list_elem_of_In in Hin. rewrite Forall_forall in Hcs. specialize (Hcs c Hin).
  apply class_sessionPrefix. congruence.
Qed.

Lemma owned_indexed_class ks uid cur k : owned_indexed ks uid cur k = true -> class_of k = KId.
Proof. apply revoked_class, candidates_of_wf. Qed.

Lemma revocation_shrinks uid rev ks ks' :
  (forall k, rev k = true -> class_of k = KId) -> revocation uid rev ks ks' -> shrinks no_key ks ks'.
Proof.
  intros Hc Hrv. split.
  - intros k Hk _. apply (rv_kept _ _ _ _ Hrv); [|key_ne|intros s H; congruence].
    destruct (rev k) eqn:E; [|done]. specialize (Hc k E). congruence.
  - intros k o Hk _. unfold session_of, ks_get.
    destruct (ks_entry ks' k) as [e|] eqn:E; [|done].
    apply (rv_less _ _ _ _ Hrv) in E; [|key_ne]. by rewrite E.
Qed.

Lemma created_user_id s n h : hset_all (created_pairs s n) h !! "user_id" = Some (Session.UserID s).
Proof. cbn. by simplify_map_eq. Qed.
Lemma created_generation s n h :
  hset_all (created_pairs s n) h !! "session_generation" = Some (itoa n).
Proof. cbn. by simplify_map_eq. Qed.

Section Creation.
Context (s : Session.t) (ks ks' : keyspace) (init : bool) (n : Z).
Hypothesis Hwf : wf ks.
Hypothesis Hinit : if init then ks_entry ks (accessKey (Session.UserID s)) = None /\ n = 1
                   else access_is ks (Session.UserID s) false n.
Hypothesis Hst : 0 < Session.SessionTTLSeconds s.
Hypothesis Hjt : 0 < Session.JTITTLSeconds s.
Hypothesis Hframe : forall k, k <> userKey (Session.UserID s) ->
                    ks_entry ks' k = ks_entry (creation s init n ks) k.

Hypothesis Hnow : ks_now ks' = ks_now ks.

Let base := if init then set_access (Session.UserID s) false n ks else ks.

Lemma creation_base_wf : wf base /\ access_is base (Session.UserID s) false n
                         /\ forall new, evolves new ks base.
Proof.
  unfold base. clear Hframe. destruct init.
  - destruct Hinit as [Hn ->].
    assert (Hs : access_step ks (Session.UserID s) false 1).
    { split; [unfold maxSafeGeneration; lia|by left]. }
    split; [by apply set_access_wf|]. split.
    + apply access_is_set_access; [by left|unfold maxSafeGeneration; lia].
    + intros new. by apply set_access_evolves.
  - split; [done|]. split; [done|]. intros new. apply evolves_refl.
Qed.

Lemma creation_jti :
  ks_entry ks' (jtiKey (Session.CurrentJTI s))
  = Some {| re_value := RString (idKey (Session.ID s));
            re_expire := Some (ks_now ks + 1000 * Session.JTITTLSeconds s) |}.
Proof.
  rewrite Hframe by key_ne. unfold creation. rewrite ks_entry_put_live; [done|].
  destruct init; cbn; lia.
Qed.

Lemma creation_id :
  ks_entry ks' (idKey (Session.ID s))
  = Some {| re_value := RHash (hset_all (created_pairs s n) (hash_at ks (idKey (Session.ID s))));
            re_expire := Some (ks_now ks + 1000 * Session.SessionTTLSeconds s) |}.
Proof.
  rewrite Hframe by key_ne. unfold creation. rewrite ks_entry_put_ne by key_ne.
  rewrite ks_entry_put_hash by done. by destruct init.
Qed.

Lemma creation_other k :
  k <> userKey (Session.UserID s) -> k <> jtiKey (Session.CurrentJTI s) ->
  k <> idKey (Session.ID s) -> ks_entry ks' k = ks_entry base k.
Proof.
  intros Hu Hj Hi. rewrite Hframe by done. unfold creation.
  rewrite ks_entry_put_ne by congruence. by rewrite ks_entry_put_hash_ne by congruence.
Qed.

Lemma creation_access uid b m : access_is base uid b m -> access_is ks' uid b m.
Proof. apply access_is_entry. apply creation_other; key_ne. Qed.

Lemma creation_session : session_of ks' (idKey (Session.ID s)) = Some (Session.UserID s, itoa n).
Proof.
  unfold session_of, ks_get. rewrite creation_id. cbn [re_value].
  by rewrite created_user_id, created_generation.
Qed.

Lemma creation_wf : typed ks' -> wf ks'.
Proof.
  intros Hty. destruct creation_base_wf as (Hb & Hacc & _). split; [done|..].
  - intros uid. destruct (wf_access base Hb uid) as [H|(b & m & H)].
    + left. rewrite creation_other by key_ne. done.
    + right. exists b, m. by apply creation_access.
  - intros k uid g Hk Hs. destruct (decide (k = idKey (Session.ID s))) as [->|Hne].
    + rewrite creation_session in Hs. injection Hs as <- <-.
      exists false, n, n. split; [by apply creation_access|]. split; [done|].
      split; [|done]. destruct Hacc as (_ & _ & _ & _ & Hr). lia.
    + rewrite (session_of_entry _ base) in Hs by (apply creation_other; key_ne).
      destruct (wf_session base Hb k uid g Hk Hs) as (b & m & i & Ha & Hrest).
      exists b, m, i. split; [by apply creation_access|done].
Qed.

Lemma creation_evolves : evolves (fun sid => sid = Session.ID s) ks ks'.
Proof.
  destruct creation_base_wf as (_ & _ & Hev). eapply evolves_trans; [apply Hev|]. split.
  - intros uid b m Ha. exists b, m. split; [by apply creation_access|lia].
  - intros sid o Hne. rewrite (session_of_entry ks' base); [done|].
    apply creation_other; try key_ne. intros E. apply idKey_inj in E. congruence.
Qed.

(** The created session is the valid one of its JTI, for as long as its TTLs. *)
Lemma creation_valid d :
  0 <= d < 1000 * Session.SessionTTLSeconds s -> d < 1000 * Session.JTITTLSeconds s ->
  valid_session (elapse d ks') (Session.CurrentJTI s) (Session.UserID s) (Session.ID s)
    (Session.CredentialVersion s) n.
Proof.
  intros Hd Hd'. destruct creation_base_wf as (_ & Hacc & _).
  assert (Hhash : ks_get (elapse d ks') (idKey (Session.ID s))
            = Some (RHash (hset_all (created_pairs s n) (hash_at ks (idKey (Session.ID s)))))).
  { eapply ks_get_elapse_live; [apply creation_id| |]; lia. }
  split.
  - by apply access_is_elapse, creation_access.
  - eapply ks_get_elapse_live; [apply creation_jti| |]; lia.
  - eexists. split; [exact Hhash|]. cbn. by simplify_map_eq.
Qed.

End Creation.

(** * Every operation *)

(** The operations that write neither an access state nor a new session. *)
Definition plain_op (op : store_op) : bool :=
  match op with OpCreate _ | OpBlock _ | OpUnblock _ | OpElapse _ => false | _ => true end.

Lemma plain_op_cmds op :
  plain_op op = true -> op_ok op -> every_cmd (session_cmd no_key) (op_script op).
Proof.
  destruct op; try done; intros _ Hok; cbn [op_script] in *.
  - apply get_session_cmds.
  - apply rotate_cmds.
  - apply list_sessions_cmds.
  - apply delete_session_cmds.
  - apply delete_owned_cmds.
  - apply delete_other_cmds. done.
  - apply delete_other_cmds. done.
  - apply clean_orphans_cmds. auto.
  - by apply rate_limit_cmds.
Qed.

(** Every operation, with the keys of access states and sessions left open. *)
Definition access_or_id (k : string) : bool := in_class KAccess k || in_class KId k.

Lemma access_or_id_access uid : access_or_id (accessKey uid) = true.
Proof. unfold access_or_id, in_class. by rewrite class_accessKey. Qed.
Lemma access_or_id_id sid : access_or_id (idKey sid) = true.
Proof. unfold access_or_id, in_class. by rewrite class_idKey. Qed.

Lemma create_write_cmds s fields st jt init g n :
  every_cmd (session_cmd access_or_id)
    (create_session_write (idKey (Session.ID s)) (jtiKey (Session.CurrentJTI s))
       (userKey (Session.UserID s)) (accessKey (Session.UserID s)) fields st jt init g n).
Proof.
  unfold create_session_write. walk;
    unfold session_cmd; rewrite ?access_or_id_access, ?access_or_id_id; unfold in_class;
    autorewrite with goat; rewrite ?orb_true_r; reflexivity.
Qed.

Lemma op_cmds op : op_ok op -> every_cmd (session_cmd access_or_id) (op_script op).
Proof.
  destruct op; intros Hok; cbn [op_script op_ok] in *.
  - unfold create_script, create_session. walk.
    apply every_cmd_access; [apply create_write_cmds|]. intros. walk. apply create_write_cmds.
  - apply get_session_cmds.
  - apply rotate_cmds.
  - apply list_sessions_cmds.
  - apply delete_session_cmds.
  - apply delete_owned_cmds.
  - apply delete_other_cmds. done.
  - apply delete_other_cmds. intros _ a rest [= <- _].
    split; [apply access_or_id_access|apply class_accessKey].
  - unfold unblock_script, unblock_user. apply every_cmd_access; [exact I|]. intros. walk.
    unfold session_cmd. rewrite access_or_id_access. unfold in_class. autorewrite with goat. reflexivity.
  - apply delete_other_cmds. done.
  - apply clean_orphans_cmds. auto.
  - by apply rate_limit_cmds.
  - exact I.
Qed.

Lemma access_cmds_typed op ks :
  op_ok op -> (forall ms, op <> OpElapse ms) -> typed ks -> typed (run_op op ks).2.
Proof.
  intros Hok Hne Hty. pose proof (session_script_typed access_or_id _ ks (op_cmds op Hok) Hty).
  destruct op; try done. by destruct (Hne ms).
Qed.

Lemma block_step ks uid n :
  ((ks_entry ks (accessKey uid) = None /\ n = 1)
   \/ access_is ks uid true n
   \/ (access_is ks uid false (n - 1) /\ n <= maxSafeGeneration)) ->
  access_step ks uid true n.
Proof.
  intros [[Hn ->]|[Ha|[Ha Hle]]].
  - split; [unfold maxSafeGeneration; lia|by left].
  - split; [by destruct Ha as (_ & _ & _ & _ & H)|]. right. exists true, n. split; [done|]. split; [lia|done].
  - split; [destruct Ha as (_ & _ & _ & _ & H); lia|]. right. exists false, (n - 1).
    split; [done|]. split; [lia|]. lia.
Qed.

Lemma run_op_sound op ks :
  op_ok op -> wf ks -> wf (run_op op ks).2 /\ evolves (creates op) ks (run_op op ks).2.
Proof.
  intros Hok Hwf. pose proof (wf_typed _ Hwf) as Hty.
  destruct (plain_op op) eqn:Hp.
  { pose proof (plain_op_cmds op Hp Hok) as Hc.
    destruct op; try discriminate; cbn [run_op] in *;
      (split; [by apply wf_script|by apply shrinks_evolves, session_script_shrinks]). }
  destruct op; try discriminate; cbn [op_ok] in Hok.
  - pose proof (access_cmds_typed (OpCreate s) ks Hok ltac:(done) Hty) as Hty'. cbn [run_op op_script creates] in *.
    destruct Hok as [H1 H2].
    destruct (create_cases s ks Hwf H1 H2) as [(n & _ & Hr)|(init & n & ks' & Hi & Hr & Hf)];
      rewrite Hr in Hty' |- *; cbn [snd] in *.
    + split; [done|apply evolves_refl].
    + split; [by eapply creation_wf|by eapply creation_evolves].
  - pose proof (access_cmds_typed (OpBlock uid) ks Hok ltac:(done) Hty) as Hty'. cbn [run_op op_script creates] in *.
    destruct (block_run ks uid Hwf Hok) as [[_ Hr]|(n & m & ks' & Hs & Hr & _ & Hrv)];
      rewrite Hr in Hty' |- *; cbn [snd] in *; [split; [done|apply evolves_refl]|].
    apply block_step in Hs.
    pose proof (revocation_shrinks _ _ _ _ (owned_indexed_class ks uid None) Hrv) as Hsh.
    split.
    + eapply wf_shrinks; [by apply set_access_wf|done|done].
    + eapply evolves_trans; [by apply set_access_evolves|by apply shrinks_evolves].
  - cbn [run_op op_script creates].
    destruct (unblock_run ks uid Hwf) as [[_ Hr]|(b & n & Ha & Hr)]; rewrite Hr; cbn [snd];
      [split; [done|apply evolves_refl]|].
    assert (Hs : access_step ks uid false n).
    { split; [by destruct Ha as (_ & _ & _ & _ & H)|]. right. exists b, n. split; [done|].
      split; [lia|done]. }
    split; [by apply set_access_wf|by apply set_access_evolves].
  - cbn. split; [by apply wf_elapse|apply elapse_evolves].
Qed.

Lemma run_op_wf op ks : op_ok op -> wf ks -> wf (run_op op ks).2.
Proof. intros H Hwf. by apply run_op_sound. Qed.

Lemma reachable_wf ks : reachable ks -> wf ks.
Proof. induction 1; [apply wf_empty|by apply run_op_wf]. Qed.

Lemma run_ops_wf ops ks : Forall op_ok ops -> wf ks -> wf (run_ops ops ks).
Proof.
  intros Hops. revert ks. induction Hops as [|op ops Hop _ IH]; intros ks Hwf; [done|].
  cbn. by apply IH, run_op_wf.
Qed.

Lemma run_ops_stale ops ks sid :
  Forall op_ok ops -> Forall (fun op => ~ creates op sid) ops -> wf ks ->
  stale ks sid -> stale (run_ops ops ks) sid.
Proof.
  intros Hops. revert ks. induction Hops as [|op ops Hop _ IH]; intros ks Hc Hwf Hs; [done|].
  inversion_clear Hc. cbn. apply IH; [done|by apply run_op_wf|].
  by eapply stale_evolves; [apply run_op_sound|..].
Qed.

(** Blocking makes every session of the user stale. *)
Lemma block_stale ks uid sid m :
  wf ks -> uid <> "" -> (run_op (OpBlock uid) ks).1 = RInt m ->
  (forall v g, session_of ks (idKey sid) = Some (v, g) -> v = uid) ->
  stale (run_op (OpBlock uid) ks).2 sid.
Proof.
  intros Hwf Hne Hr Hown. cbn [run_op op_script] in *.
  destruct (block_run ks uid Hwf Hne) as [[_ H]|(n & m' & ks' & Hs & H & _ & Hrv)];
    rewrite H in Hr |- *; cbn [fst snd] in *; [discriminate|].
  intros v g Ho.
  pose proof (revocation_shrinks _ _ _ _ (owned_indexed_class ks uid None) Hrv) as Hsh.
  apply (sh_id _ _ _ Hsh) in Ho; [|apply class_idKey|done].
  rewrite session_of_set_access in Ho by apply class_idKey.
  pose proof (Hown v g Ho) as ->.
  destruct (wf_session ks Hwf _ _ _ (class_idKey sid) Ho) as (b & n0 & i & Ha & Hg & Hi & Hb).
  exists true, n, i. split; [|split; [done|]].
  - eapply access_is_entry; [apply (sh_access _ _ _ Hsh); [apply class_accessKey|done]|].
    apply access_is_set_access; [right; eauto|]. by destruct (block_step _ _ _ Hs).
  - destruct Hs as [[Hnone _]|[Ha'|[Ha' _]]].
    + destruct Ha as (h & He & _). congruence.
    + destruct (access_is_inj _ _ _ _ _ _ Ha Ha') as [-> ->]. specialize (Hb eq_refl). lia.
    + destruct (access_is_inj _ _ _ _ _ _ Ha Ha') as [-> ->]. lia.
Qed.

(** A block lasts until the user is unblocked. *)
Lemma run_op_blocked op ks uid n :
  op_ok op -> wf ks -> op <> OpUnblock uid ->
  access_is ks uid true n -> access_is (run_op op ks).2 uid true n.
Proof.
  intros Hok Hwf Hne Ha. destruct (plain_op op) eqn:Hp.
  { pose proof (plain_op_cmds op Hp Hok) as Hc.
    assert (Hs : shrinks no_key ks (run_op op ks).2)
      by (destruct op; try discriminate; by apply session_script_shrinks).
    eapply access_is_entry; [|done]. apply (sh_access _ _ _ Hs); [apply class_accessKey|done]. }
  destruct op; try discriminate; cbn [op_ok] in Hok; cbn [run_op op_script].
  - destruct Hok as [H1 H2].
    destruct (create_cases s ks Hwf H1 H2) as [(n' & _ & ->)|(init & n' & ks' & Hi & -> & Hf)]; [done|].
    cbn [snd]. destruct (decide (uid = Session.UserID s)) as [->|Hu].
    { exfalso. destruct init.
      - destruct Hi as [Hi _]. destruct Ha as (h & He & _). congruence.
      - by destruct (access_is_inj _ _ _ _ _ _ Ha Hi). }
    eapply creation_access; [exact Hf|]. destruct init; [|done]. by apply set_access_other.
  - destruct (block_run ks uid0 Hwf Hok) as [[_ ->]|(n' & m & ks' & Hs & -> & _ & Hrv)]; [done|].
    cbn [snd].
    pose proof (revocation_shrinks _ _ _ _ (owned_indexed_class ks uid0 None) Hrv) as Hsh.
    eapply access_is_entry; [apply (sh_access _ _ _ Hsh); [apply class_accessKey|done]|].
    destruct (decide (uid = uid0)) as [<-|Hu]; [|by apply set_access_other].
    destruct Hs as [[Hnone _]|[Ha'|[Ha' _]]].
    + destruct Ha as (h & He & _). congruence.
    + destruct (access_is_inj _ _ _ _ _ _ Ha Ha') as [_ <-].
      apply access_is_set_access; [eauto|]. by destruct Ha as (_ & _ & _ & _ & Hr).
    + by destruct (access_is_inj _ _ _ _ _ _ Ha Ha').
  - destruct (unblock_run ks uid0 Hwf) as [[_ ->]|(b & n' & _ & ->)]; [done|]. cbn [snd].
    apply set_access_other; [congruence|done].
  - by apply access_is_elapse.
Qed.

Lemma run_ops_blocked ops ks uid n :
  Forall op_ok ops -> Forall (fun op => op <> OpUnblock uid) ops -> wf ks ->
  access_is ks uid true n -> access_is (run_ops ops ks) uid true n.
Proof.
  intros Hops. revert ks. induction Hops as [|op ops Hop _ IH]; intros ks Hc Hwf Ha; [done|].
  inversion_clear Hc. cbn. apply IH; [done|by apply run_op_wf|by apply run_op_blocked].
Qed.

Lemma run_ops_session ops ks sid o :
  Forall op_ok ops -> Forall (fun op => ~ creates op sid) ops -> wf ks ->
  session_of (run_ops ops ks) (idKey sid) = Some o -> session_of ks (idKey sid) = Some o.
Proof.
  intros Hops. revert ks. induction Hops as [|op ops Hop _ IH]; intros ks Hc Hwf Ho; [done|].
  inversion_clear Hc. cbn in Ho. apply IH in Ho; [|done|by apply run_op_wf].
  destruct (run_op_sound op ks Hop Hwf) as [_ Hev]. by apply (ev_session _ _ _ Hev).
Qed.

Lemma block_blocks ks uid m :
  wf ks -> uid <> "" -> (run_op (OpBlock uid) ks).1 = RInt m ->
  exists n, access_is (run_op (OpBlock uid) ks).2 uid true n.
Proof.
  intros Hwf Hne. cbn [run_op op_script].
  destruct (block_run ks uid Hwf Hne) as [[_ ->]|(n & m' & ks' & Hs & -> & _ & Hrv)]; [done|].
  intros _. exists n. cbn [snd].
  pose proof (revocation_shrinks _ _ _ _ (owned_indexed_class ks uid None) Hrv) as Hsh.
  eapply access_is_entry; [apply (sh_access _ _ _ Hsh); [apply class_accessKey|done]|].
  apply block_step in Hs as [Hn Hs]. apply access_is_set_access; [|done].
  destruct Hs as [Hs|(b0 & n0 & Hs & _)]; eauto.
Qed.

(** * Refresh tokens that were used

    A JTI whose mapping is gone stays unknown until an operation issues it
    again. *)

Definition issues (op : store_op) (jti : string) : Prop :=
  match op with
  | OpCreate s => jti = Session.CurrentJTI s
  | OpRotate _ n _ _ _ _ _ _ _ _ _ => jti = n
  | _ => False
  end.

Definition is_set (c : rcmd) : bool := match c with SET_EX _ _ _ => true | _ => false end.
Definition spares (key : string) (c : rcmd) : bool :=
  match c with SET_EX k _ _ => k <>s key | _ => true end.

Section NoSet.
Context (P : rcmd -> bool) (HP : forall c, is_set c = false -> P c = true).

Local Ltac nwalk :=
  repeat first [walk_step | match goal with |- P _ = true => by apply HP end].

Lemma noset_drop_jti j k rest : every_cmd P rest -> every_cmd P (drop_jti_mapping j k rest).
Proof. intros Hr. unfold drop_jti_mapping. nwalk; exact Hr. Qed.

Lemma noset_access key none k :
  every_cmd P none -> (forall b g n, every_cmd P (k b g n)) ->
  every_cmd P (with_access_state key none k).
Proof. intros Hn Hk. unfold with_access_state. nwalk; [exact Hn|apply Hk]. Qed.

Lemma noset_delete_indexed uk u others cur block : every_cmd P (delete_indexed uk u others cur block).
Proof.
  assert (Hrev : forall cs n, every_cmd P (revoke_candidates u uk others cs n)).
  { induction cs as [|c cs IH]; intros n; cbn [revoke_candidates]; cbv zeta; nwalk;
      try apply IH; apply noset_drop_jti; nwalk; apply IH. }
  assert (Hread : forall keys acc k, (forall cs, every_cmd P (k cs)) ->
                  every_cmd P (read_candidates u cur keys acc k)).
  { induction keys as [|key keys IH]; intros acc k Hk; cbn [read_candidates]; [apply Hk|].
    nwalk; by apply IH. }
  unfold delete_indexed. cbv zeta. nwalk; apply Hread; intros cs; nwalk; apply Hrev.
Qed.

Lemma noset_op op : (forall jti, ~ issues op jti) -> every_cmd P (op_script op).
Proof.
  destruct op; intros Hi; cbn [op_script issues] in *.
  - by destruct (Hi (Session.CurrentJTI s)).
  - unfold get_script, get_session_by_jti. nwalk. apply noset_access; [exact I|]. intros. nwalk.
  - by destruct (Hi newJTI).
  - unfold list_script, list_sessions. nwalk.
    assert (Hc : forall cs last, every_cmd P last -> every_cmd P (list_cleanup (userKey uid) cs last)).
    { induction cs as [|c cs IH]; intros last Hl; cbn [list_cleanup]; nwalk; try exact Hl; try (by apply IH).
      apply noset_drop_jti. nwalk. by apply IH. }
    assert (Hr : forall keys st k, (forall st', every_cmd P (k st')) ->
                 every_cmd P (list_read s z z0 keys st k)).
    { induction keys as [|key keys IH]; intros st k Hk; cbn [list_read]; nwalk; [apply Hk|by apply IH]. }
    apply Hr. intros st. apply Hc. exact I.
  - unfold delete_session. induction (map idKey ids) as [|k ks IH]; cbn [delete_session_loop]; nwalk; exact IH.
  - unfold delete_owned_sessions. rewrite lua_index_1. generalize (map idKey ids) at 1 as l.
    induction l as [|k l IH]; cbn [check_owned_loop]; [|nwalk; exact IH].
    induction (map idKey ids) as [|k ks IH]; cbn [delete_owned_loop]; nwalk; exact IH.
  - unfold delete_all_script, delete_other_sessions. nwalk; try apply noset_delete_indexed.
  - unfold block_script, delete_other_sessions. nwalk; try apply noset_delete_indexed.
    apply noset_access; intros; nwalk; apply noset_delete_indexed.
  - unfold unblock_script, unblock_user. apply noset_access; [exact I|]. intros. nwalk.
  - unfold delete_others_script, delete_other_sessions. nwalk; try apply noset_delete_indexed.
    apply noset_access; intros; nwalk; apply noset_delete_indexed.
  - unfold clean_orphans. nwalk. generalize 0.
    induction (omap as_string (elements_of r)) as [|k ks IH]; intros n; cbn [clean_orphans_loop]; nwalk; apply IH.
  - unfold rate_limit. nwalk.
  - exact I.
Qed.
End NoSet.

Lemma op_spares op jti : ~ issues op jti -> every_cmd (spares (jtiKey jti)) (op_script op).
Proof.
  intros Hi. destruct op; try (apply noset_op; [by intros []|by intros ? []]); cbn [issues op_script] in *.
  - assert (Hk : (jtiKey (Session.CurrentJTI s) <>s jtiKey jti) = true).
    { apply negb_true_iff, eqb_ne_string. intros E. apply jtiKey_inj in E. congruence. }
    unfold create_script, create_session. walk; try reflexivity.
    unfold with_access_state, create_session_write; walk; try reflexivity; exact Hk.
  - assert (Hk : (jtiKey newJTI <>s jtiKey jti) = true).
    { apply negb_true_iff, eqb_ne_string. intros E. apply jtiKey_inj in E. congruence. }
    unfold rotate_script, rotate_jti. walk; try reflexivity.
    unfold with_access_state, rotate_jti_write; walk; try reflexivity; exact Hk.
Qed.

Lemma cmd_keeps_absent fk jti c ks :
  session_cmd fk c = true -> spares (jtiKey jti) c = true ->
  ks_entry ks (jtiKey jti) = None -> ks_entry (documented c ks).2 (jtiKey jti) = None.
Proof.
  intros Hc Hs Hn. destruct (decide (cmd_key c = Some (jtiKey jti))) as [Hk|Hk];
    [|by rewrite documented_frame].
  destruct c; cbn in Hk; try discriminate; injection Hk as ->; cbn [session_cmd] in Hc;
    unfold in_class in Hc; rewrite ?class_jtiKey in Hc; cbn [spares] in Hs;
    rewrite ?read_cmd_state by done; try done; try (exfalso; breflect; naive_solver congruence).
  - apply ks_entry_del_eq.
  - exfalso. cbn in Hc. by rewrite andb_false_r in Hc.
  - cbn [documented]. rewrite Hn. done.
Qed.

Lemma run_op_absent op ks jti :
  op_ok op -> ~ issues op jti -> ks_entry ks (jtiKey jti) = None ->
  ks_entry (run_op op ks).2 (jtiKey jti) = None.
Proof.
  intros Hok Hi Hn.
  assert (Hs : ks_entry (run_script (op_script op) ks).2 (jtiKey jti) = None).
  { apply (every_cmd_run (fun c => session_cmd access_or_id c && spares (jtiKey jti) c)
      (fun a b => ks_entry a (jtiKey jti) = None -> ks_entry b (jtiKey jti) = None)); [auto..| |done].
    - intros c ks' H. apply andb_true_iff in H as [H1 H2]. by eapply cmd_keeps_absent.
    - apply every_cmd_and; [by apply op_cmds|by apply op_spares]. }
  destruct op; try exact Hs. cbn.
  destruct (ks_entry (elapse ms ks) (jtiKey jti)) as [e|] eqn:E; [|done].
  apply ks_entry_elapse in E. congruence.
Qed.

Lemma run_ops_absent ops ks jti :
  Forall op_ok ops -> Forall (fun op => ~ issues op jti) ops ->
  ks_entry ks (jtiKey jti) = None -> ks_entry (run_ops ops ks) (jtiKey jti) = None.
Proof.
  intros Hops. revert ks. induction Hops as [|op ops Hop _ IH]; intros ks Hc Hn; [done|].
  inversion_clear Hc. cbn. apply IH; [done|by apply run_op_absent].
Qed.

(** ** What a rotation leaves *)

Section Rotation.
Context (ks ks' : keyspace) (oldJTI newJTI uid sid upd exp ip dev : string) (cv n jt st : Z)
  (h : gmap string string).
Hypothesis Hvalid : valid_session ks oldJTI uid sid cv n.
Hypothesis Hh : ks_get ks (idKey sid) = Some (RHash h).
Hypothesis Hjt : 0 < jt.
Hypothesis Hst : 0 < st.
Hypothesis Hnow : ks_now ks' = ks_now ks.
Hypothesis Hframe : forall k, k <> userKey uid ->
  ks_entry ks' k = ks_entry (rotation oldJTI newJTI sid upd exp ip dev jt st h ks) k.

Lemma rotation_new_valid d :
  0 <= d < 1000 * jt -> d < 1000 * st -> valid_session (elapse d ks') newJTI uid sid cv n.
Proof.
  intros Hd Hd'. destruct Hvalid as [Ha Hm (h' & Hh' & Hi & Hu & Hj & Hc & Hg)].
  rewrite Hh in Hh'. injection Hh' as <-. split.
  - apply access_is_elapse. eapply access_is_entry; [|exact Ha].
    rewrite Hframe by key_ne. unfold rotation.
    rewrite ks_entry_put_hash_ne, ks_entry_put_ne, ks_entry_del_ne by key_ne. done.
  - eapply (ks_get_elapse_live d ks' _ _ (ks_now ks + 1000 * jt)); [|lia|lia].
    rewrite Hframe by key_ne. unfold rotation. rewrite ks_entry_put_hash_ne by key_ne.
    rewrite ks_entry_put_live; [done|]. cbn. lia.
  - exists (hset_all (rotated_pairs newJTI upd exp ip dev) h). split.
    + eapply (ks_get_elapse_live d ks' _ _ (ks_now ks + 1000 * st)); [|lia|lia].
      rewrite Hframe by key_ne. unfold rotation. by rewrite ks_entry_put_hash.
    + cbn. by simplify_map_eq.
Qed.

Lemma rotation_old_gone : newJTI <> oldJTI -> ks_entry ks' (jtiKey oldJTI) = None.
Proof.
  intros Hne. rewrite Hframe by key_ne. unfold rotation.
  rewrite ks_entry_put_hash_ne by key_ne. rewrite ks_entry_put_ne.
  - apply ks_entry_del_eq.
  - intros E. apply jtiKey_inj in E. congruence.
Qed.
End Rotation.

Lemma absent_not_valid ks jti uid sid cv n :
  ks_entry ks (jtiKey jti) = None -> ~ valid_session ks jti uid sid cv n.
Proof. intros Hn [_ Hm _]. unfold ks_get in Hm. by rewrite Hn in Hm. Qed.
