(* ===== verification/SessionRepository.v ===== *)
(** internal/infra/storage/redis: the registry of embedded scripts
    (script_loader.go), and the session repository (session/repository.go) on
    a Redis client.

    The client is a port: [RedisClient] runs a script atomically and scans
    keys.  [RedisClientLaws] says what the repository relies on: before a
    script runs, other processes may have run the operations the discipline
    allows; the script then runs on the resulting store, once; and when the
    discipline allows faults, the connection may fail before or after that. *)
From S2P Require Export SessionSafety.

(** * The script registry *)

Module ScriptRegistry.

Record scriptAsset := { sa_name : string; sa_source : string }.

(** [scriptRegistry.scripts]; a [*redis.Script] is its source. *)
Abbreviation scriptRegistry := (gmap string string) (only parsing).

Definition requiredScriptNames : list string :=
  ["clean_orphans"; "create_session"; "delete_other_sessions"; "delete_owned_sessions";
   "delete_session"; "get_session_by_jti"; "list_sessions"; "rate_limit"; "rotate_jti";
   "unblock_user"].

Definition errInvalidScriptRegistry : err := ENew "invalid embedded Redis script registry".
Definition errScriptNotRegistered : err := ENew "redis script is not registered".

(** The first loop of [newScriptRegistry]. *)
Fixpoint register_assets (assets : list scriptAsset) (registry : scriptRegistry)
    : res scriptRegistry :=
  match assets with
  | [] => Ok registry
  | asset :: assets' =>
      if is_blank (sa_name asset)
      then Err (wrap1 "script name is empty" errInvalidScriptRegistry)
      else if is_blank (sa_source asset)
      then Err (wrap1 "script is empty" errInvalidScriptRegistry)
      else if is_some (registry !! sa_name asset)
      then Err (wrap1 "script is registered more than once" errInvalidScriptRegistry)
      else register_assets assets' (<[sa_name asset := sa_source asset]> registry)
  end.

(** The second loop: every required name, once. *)
Fixpoint check_required (required seen : list string) (registry : scriptRegistry)
    : res scriptRegistry :=
  match required with
  | [] => Ok registry
  | name :: required' =>
      if is_blank name
      then Err (wrap1 "required script name is empty" errInvalidScriptRegistry)
      else if bool_decide (name ∈ seen)
      then Err (wrap1 "required script is declared more than once" errInvalidScriptRegistry)
      else if is_some (registry !! name) then check_required required' (name :: seen) registry
      else Err (EWrap "required script" [errInvalidScriptRegistry; errScriptNotRegistered])
  end.

Definition newScriptRegistry (assets : list scriptAsset) (required : list string)
    : res scriptRegistry :=
  letr registry := register_assets assets ∅ in check_required required [] registry.

(** [(r *scriptRegistry) script], on a loaded registry. *)
Definition script_of (registry : scriptRegistry) (name : string) : res string :=
  match registry !! name with
  | Some source => Ok source
  | None => Err (wrap1 name errScriptNotRegistered)
  end.

(** A call of the function [fs.WalkDir] is given: the path, the error of the
    walk, whether the entry is a directory, and what [fs.ReadFile] gives. *)
Record walkedEntry := {
  we_path : string; we_Err : option err; we_IsDir : bool; we_ReadFile : res string;
}.

(** The function, over the entries of the walk; an error ends it. *)
Fixpoint walk_assets (entries : list walkedEntry) (assets : list scriptAsset) : res (list scriptAsset) :=
  match entries with
  | [] => Ok assets
  | entry :: entries' =>
      match we_Err entry with
      | Some walkErr => Err walkErr
      | None =>
          if we_IsDir entry || negb (HasSuffix (we_path entry) ".lua") then walk_assets entries' assets
          else
            letr source := we_ReadFile entry in
            let name := TrimSuffix (TrimPrefix (we_path entry) "scripts/") ".lua" in
            walk_assets entries' (assets ++ [{| sa_name := name; sa_source := source |}])
      end
  end.

Definition loadScriptRegistry (fsys : list walkedEntry) (required : list string) : res scriptRegistry :=
  match walk_assets fsys [] with
  | Err e => Err (EWrap "read embedded scripts" [errInvalidScriptRegistry; e])
  | Ok assets => newScriptRegistry assets required
  end.

(** The embedded files, as the walk of their directory. *)
Class EmbeddedScripts := luaScripts : list walkedEntry.

Definition embeddedScriptRegistry `{EmbeddedScripts} : res scriptRegistry :=
  loadScriptRegistry luaScripts requiredScriptNames.

Definition GetScript `{EmbeddedScripts} (name : string) : res string :=
  match embeddedScriptRegistry with
  | Err e => Err (wrap1 "load embedded Redis scripts" e)
  | Ok registry => script_of registry name
  end.

Lemma register_assets_spec assets reg reg' :
  register_assets assets reg = Ok reg' ->
  Forall (fun a => is_blank (sa_source a) = false) assets
  /\ forall name source, reg' !! name = Some source ->
     reg !! name = Some source
     \/ exists a, In a assets /\ sa_name a = name /\ sa_source a = source.
Proof.
  revert reg. induction assets as [|a assets IH]; intros reg; cbn.
  - intros [= ->]. split; [constructor|auto].
  - destruct (is_blank (sa_name a)) eqn:E1; [discriminate|].
    destruct (is_blank (sa_source a)) eqn:E2; [discriminate|].
    destruct (is_some (reg !! sa_name a)); [discriminate|].
    intros H. destruct (IH _ H) as [Hb Hl]. split; [by constructor|].
    intros name source Hs. destruct (Hl name source Hs) as [Hr|(b & Hin & Hb')]; [|eauto].
    destruct (decide (sa_name a = name)) as [<-|Hne].
    + rewrite lookup_insert_eq in Hr. injection Hr as <-. right. exists a. auto.
    + rewrite lookup_insert_ne in Hr by done. auto.
Qed.

Lemma check_required_spec required seen reg reg' :
  check_required required seen reg = Ok reg' ->
  reg' = reg /\ (forall name, In name required -> is_some (reg !! name) = true).
Proof.
  revert seen. induction required as [|n required IH]; intros seen; cbn.
  - intros [= ->]. done.
  - destruct (is_blank n); [discriminate|]. destruct (bool_decide (n ∈ seen)); [discriminate|].
    destruct (is_some (reg !! n)) eqn:E; [|discriminate].
    intros Hc. destruct (IH _ Hc) as [-> Hr]. split; [done|]. intros name [<-|Hin]; auto.
Qed.

Lemma newScriptRegistry_inv assets required reg :
  newScriptRegistry assets required = Ok reg ->
  forall name, In name required ->
  exists a, In a assets /\ sa_name a = name /\ is_blank (sa_source a) = false
            /\ script_of reg name = Ok (sa_source a).
Proof.
  unfold newScriptRegistry. intros H name Hin. inv_ok.
  apply register_assets_spec in H as [Hb Hl].
  match goal with H : check_required _ _ _ = _ |- _ =>
    apply check_required_spec in H as [-> Hr] end.
  specialize (Hr name Hin). unfold script_of.
  destruct (_ !! name) as [source|] eqn:E; [|done].
  destruct (Hl name source E) as [He|(a & Ha & <- & <-)]; [by rewrite lookup_empty in He|].
  exists a. split; [done|]. split; [done|]. split; [|done].
  rewrite Forall_forall in Hb. apply Hb. by apply list_elem_of_In.
Qed.

Lemma GetScript_registered `{EmbeddedScripts} reg name :
  embeddedScriptRegistry = Ok reg -> In name requiredScriptNames ->
  exists source, GetScript name = Ok source.
Proof.
  unfold GetScript. intros Hr Hin. rewrite Hr. unfold embeddedScriptRegistry, loadScriptRegistry in Hr.
  destruct (walk_assets luaScripts []) as [assets|]; [|discriminate].
  destruct (newScriptRegistry_inv _ _ _ Hr name Hin) as (a & _ & _ & _ & ->). eauto.
Qed.

(** A concrete embedding, for the witnesses. *)
Definition sample_assets : list walkedEntry :=
  {| we_path := "scripts"; we_Err := None; we_IsDir := true; we_ReadFile := Err (ENew "is a directory") |}
  :: map (fun n => {| we_path := "scripts/" +:+ (n +:+ ".lua"); we_Err := None; we_IsDir := false;
                      we_ReadFile := Ok "return 1" |}) requiredScriptNames.

End ScriptRegistry.
Export ScriptRegistry.

(** * The client *)

Class RedisClient (S : Type) := {
  rc_run : script -> M S rreply;                 (* script.Run(...): its reply or error *)
  (* Scan(...).Iterator(): the keys [Next] yields and, at the end, [Err] *)
  rc_scan : string -> M S (list string * option err);
}.

(** What a go-redis command returns for a reply. *)
Definition reply_result (r : rreply) : res rreply :=
  match r with
  | RNil => Err RedisNil
  | RError msg => Err (ENew msg)
  | _ => Ok r
  end.

Record discipline := {
  interferes : store_op -> Prop;   (* what other processes may do between calls *)
  faults : Prop;                   (* whether calls may fail in transport *)
}.

(** Alone, with a connection that works. *)
Definition undisturbed : discipline := {| interferes := fun _ => False; faults := False |}.

Definition admissible (D : discipline) (ops : list store_op) : Prop :=
  Forall (fun op => op_ok op /\ interferes D op) ops.

Class RedisClientLaws (S : Type) (D : discipline) `{RedisClient S} := {
  rc_view : S -> keyspace;
  rc_run_law p s :
    exists ops, admissible D ops /\
    let '(r, ks') := run_script p (run_ops ops (rc_view s)) in
    (let '(x, s') := rc_run p s in x = reply_result r /\ rc_view s' = ks')
    \/ (faults D /\ let '(x, s') := rc_run p s in
          (exists e, x = Err e /\ errors_is e RedisNil = false)
          /\ (rc_view s' = run_ops ops (rc_view s) \/ rc_view s' = ks'));
  rc_scan_law pattern s :
    exists ops, admissible D ops /\
    let '(x, s') := rc_scan (pattern +:+ "*") s in
    rc_view s' = run_ops ops (rc_view s)
    /\ exists keys failure, x = Ok (keys, failure)
       /\ Forall (fun k => HasPrefix k pattern = true) keys
       /\ (failure <> None -> faults D);
}.

(** [Cmd.Int64] *)
Definition cmd_Int64 (r : rreply) : res Z :=
  match r with
  | RInt z => Ok z
  | RBulk s | RStatus s => ParseInt s
  | _ => Err (ENew "redis: unexpected type for Int64")
  end.

(** [Cmd.Slice] *)
Definition cmd_Slice (r : rreply) : res (list rreply) :=
  match r with
  | RArr l => Ok l
  | _ => Err (ENew "redis: unexpected type for Slice")
  end.

(** [v.(int64)] and [v.(string)] *)
Definition as_int64 (r : rreply) : option Z := match r with RInt z => Some z | _ => None end.
Definition as_gostring (r : rreply) : option string :=
  match r with RBulk s | RStatus s => Some s | _ => None end.

(** * The repository *)

Module SessionRepo.
Section Repository.
Context {S : Type} `{RedisClient S} `{Environment S} `{EmbeddedScripts}.

(** [GetScript], whose error the caller wraps. *)
Definition resolve (what name : string) : M S unit :=
  match GetScript name with
  | Ok _ => ret tt
  | Err e => fail (wrap1 what e)
  end.

Definition Create (s : Session.t) : M S Session.t :=
  if (Session.SessionTTLSeconds s <=? 0) || (Session.JTITTLSeconds s <=? 0)
  then fail (ENew "TTL values must be positive")
  else if Session.CredentialVersion s <=? 0
  then fail (ENew "credential version must be positive")
  else
    let sessionkey := RedisKey "session" "id" (Session.ID s) in
    let jtiKey := RedisKey "session" "jti" (Session.CurrentJTI s) in
    let userkey := RedisKey "session" "user" (Session.UserID s) in
    let accessKey := RedisKey "session" "access" (Session.UserID s) in
    let argv :=
      ["id"; Session.ID s;
       "user_id"; Session.UserID s;
       "device"; Session.Device s;
       "ip"; Session.IP s;
       "created_at"; itoa (unix_seconds (Session.CreatedAt s));
       "updated_at"; itoa (unix_seconds (Session.UpdatedAt s));
       "expires_at"; itoa (unix_seconds (Session.ExpiresAt s));
       "current_jti"; Session.CurrentJTI s;
       "credential_version"; itoa (Session.CredentialVersion s);
       itoa (Session.SessionTTLSeconds s);
       itoa (Session.JTITTLSeconds s)] in
    do! resolve "resolve create-session script" "create_session" in
    let! reply := rc_run (create_session [sessionkey; jtiKey; userkey; accessKey] argv) in
    let! generation := of_res (cmd_Int64 reply) in
    if generation =? -1 then fail ErrUserAccessBlocked
    else if generation <=? 0 then fail (ENew "create session returned invalid generation")
    else ret {| Session.ID := Session.ID s;
                Session.UserID := Session.UserID s;
                Session.CredentialVersion := Session.CredentialVersion s;
                Session.SessionGeneration := generation;
                Session.Device := Session.Device s;
                Session.IP := Session.IP s;
                Session.CurrentJTI := Session.CurrentJTI s;
                Session.CreatedAt := Session.CreatedAt s;
                Session.ExpiresAt := Session.ExpiresAt s;
                Session.UpdatedAt := Session.UpdatedAt s;
                Session.JTITTLSeconds := Session.JTITTLSeconds s;
                Session.SessionTTLSeconds := Session.SessionTTLSeconds s |}.

(** The session the reply of five fields describes; the fields the reply does
    not carry have their zero value ([zero_time] for the instants). *)
Definition zero_time : Z := -62135596800000000000.

Definition found_session (id user jti : string) (credentialVersion sessionGeneration : Z) : Session.t :=
  {| Session.ID := id; Session.UserID := user;
     Session.CredentialVersion := credentialVersion;
     Session.SessionGeneration := sessionGeneration;
     Session.Device := ""; Session.IP := ""; Session.CurrentJTI := jti;
     Session.CreatedAt := zero_time; Session.ExpiresAt := zero_time;
     Session.UpdatedAt := zero_time;
     Session.JTITTLSeconds := 0; Session.SessionTTLSeconds := 0 |}.

(** [for index := range result { value, ok := result[index].(string) ... }] *)
Fixpoint string_fields (result : list rreply) : res (list string) :=
  match result with
  | [] => Ok []
  | r :: result' =>
      match as_gostring r with
      | Some s => letr ss := string_fields result' in Ok (s :: ss)
      | None => Err (ENew "unexpected Redis session field type")
      end
  end.

(** [v, err := strconv.ParseInt(f, 10, 64); err != nil || v <= 0] *)
Definition parse_positive (what f : string) : res Z :=
  match ParseInt f with
  | Ok v => if v <=? 0 then Err (ENew what) else Ok v
  | Err _ => Err (ENew what)
  end.

Definition decode_found (result : list rreply) : res (option Session.t) :=
  match result with
  | [RInt (-1)] => Err ErrUserAccessBlocked
  | _ =>
      if negb (List.length result =? 5)%nat
      then Err (ENew "unexpected Redis session field count")
      else
        letr fields := string_fields result in
        match fields with
        | id :: user :: jti :: version :: generation :: _ =>
            letr credentialVersion := parse_positive "parse session credential version" version in
            letr sessionGeneration := parse_positive "parse session generation" generation in
            Ok (Some (found_session id user jti credentialVersion sessionGeneration))
        | _ => Err (ENew "unexpected Redis session field count")
        end
  end.

Definition FindByJTI (jti expectedUserID expectedSessionID : string)
    (expectedCredentialVersion : Z) : M S (option Session.t) :=
  if (jti =s "") || (expectedUserID =s "") || (expectedSessionID =s "")
     || (expectedCredentialVersion <=? 0)
  then ret None
  else
    let jtiKey := RedisKey "session" "jti" jti in
    let accessKey := RedisKey "session" "access" expectedUserID in
    do! resolve "resolve session-by-JTI script" "get_session_by_jti" in
    let! result := attempt (
      let! reply := rc_run (get_session_by_jti [jtiKey; accessKey]
                              [jti; expectedUserID; expectedSessionID;
                               itoa expectedCredentialVersion]) in
      of_res (cmd_Slice reply)) in
    match result with
    | Err e => if errors_is e RedisNil then ret None else fail e
    | Ok result => of_res (decode_found result)
    end.

(** ** Listing *)

Definition sessionListFieldCount : nat := 10.

Definition decode_row (fields : list string) : res Session.t :=
  match fields with
  | [id; user; device; ip; jti; version; generation; created; updated; expires] =>
      letr credentialVersion := parse_positive "parse session credential_version" version in
      letr sessionGeneration := parse_positive "parse session session_generation" generation in
      letr createdAt := res_map_err (wrap1 "parse session created_at") (ParseInt created) in
      letr updatedAt := res_map_err (wrap1 "parse session updated_at") (ParseInt updated) in
      letr expiresAt := res_map_err (wrap1 "parse session expires_at") (ParseInt expires) in
      Ok {| Session.ID := id; Session.UserID := user;
            Session.CredentialVersion := credentialVersion;
            Session.SessionGeneration := sessionGeneration;
            Session.Device := device; Session.IP := ip; Session.CurrentJTI := jti;
            Session.CreatedAt := from_unix createdAt;
            Session.ExpiresAt := from_unix expiresAt;
            Session.UpdatedAt := from_unix updatedAt;
            Session.JTITTLSeconds := 0; Session.SessionTTLSeconds := 0 |}
  | _ => Err (ENew "unexpected redis session list field count")
  end.

(** The loop over the rows of [sessionListFieldCount] values; [n] rows are left. *)
Fixpoint decode_rows (n : nat) (result : list rreply) : res (list Session.t) :=
  match n with
  | O => Ok []
  | Datatypes.S n' =>
      letr fields := string_fields (take sessionListFieldCount result) in
      letr s := decode_row fields in
      letr rest := decode_rows n' (drop sessionListFieldCount result) in
      Ok (s :: rest)
  end.

Definition decodeSessionList (result : list rreply) : res (list Session.t * Z) :=
  match result with
  | [] => Err (ENew "redis session list returned no total")
  | first :: rest =>
      match as_int64 first with
      | None => Err (ENew "unexpected redis session total")
      | Some total =>
          if total <? 0 then Err (ENew "unexpected redis session total") else
          if negb (List.length rest mod sessionListFieldCount =? 0)%nat
          then Err (ENew "unexpected redis session list field count")
          else
            letr sessions := decode_rows (List.length rest / sessionListFieldCount) rest in
            Ok (sessions, total)
      end
  end.

Definition ListByUser (userID : string) (offset limit : Z) : M S (list Session.t * Z) :=
  if userID =s "" then fail (ENew "user ID is required")
  else if (offset <? 0) || (limit <? 0)
  then fail (ENew "session pagination values must not be negative")
  else
    let userKey := RedisKey "session" "user" userID in
    do! resolve "resolve list-sessions script" "list_sessions" in
    let! reply := rc_run (list_sessions [userKey] [userID; itoa offset; itoa limit]) in
    let! result := of_res (cmd_Slice reply) in
    of_res (decodeSessionList result).

(** ** Rotation *)

Definition extractSessionIDFromKey (key : string) : string :=
  let prefix := "session:id:" in
  if HasPrefix key prefix then drop_bytes (String.length prefix) key else key.

Definition decode_rotation (res_ : list rreply) : res string :=
  let two :=
    match res_ with
    | [status; sessionID] =>
        match as_int64 status with
        | Some 1 =>
            match as_gostring sessionID with
            | Some id => if id =s "" then Err (ENew "unexpected Redis session ID type")
                         else Ok (extractSessionIDFromKey id)
            | None => Err (ENew "unexpected Redis session ID type")
            end
        | _ => Err (ENew "unexpected Redis rotation status")
        end
    | _ => Err (ENew "unexpected Redis rotation result length")
    end in
  match res_ with
  | [status] =>
      match as_int64 status with
      | None => Err (ENew "unexpected Redis rotation status type")
      | Some (-1) => Err ErrUserAccessBlocked
      | Some 0 => Err ErrUnauthorized
      | Some _ => two
      end
  | _ => two
  end.

Definition RotateJTI (oldJTI newJTI expectedUserID expectedSessionID : string)
    (expectedCredentialVersion : Z) (ip device : string) (expiresAt jtiTTL sessionTTL : Z)
    : M S string :=
  let oldJTIKey := RedisKey "session" "jti" oldJTI in
  let newJTIKey := RedisKey "session" "jti" newJTI in
  let accessKey := RedisKey "session" "access" expectedUserID in
  let! now := time_Now in
  let updatedAt := unix_seconds now in
  let argv := [newJTI; expectedUserID; expectedSessionID; itoa expectedCredentialVersion;
               ip; device; itoa updatedAt; itoa (unix_seconds expiresAt);
               itoa jtiTTL; itoa sessionTTL] in
  do! resolve "resolve rotate-JTI script" "rotate_jti" in
  let! result := attempt (
    let! reply := rc_run (rotate_jti [oldJTIKey; newJTIKey; accessKey] argv) in
    of_res (cmd_Slice reply)) in
  match result with
  | Err e => if errors_is e RedisNil then ret "" else fail (wrap1 "failed to rotate JTI" e)
  | Ok res_ => of_res (decode_rotation res_)
  end.

(** ** Deletions *)

Definition session_keys (sessionIDs : list string) : list string :=
  map (RedisKey "session" "id") sessionIDs.

(** [_, err = script.Run(...).Result()] *)
Definition run_unit (p : script) : M S unit :=
  let! _ := rc_run p in ret tt.

Definition Delete (sessionIDs : list string) : M S unit :=
  match sessionIDs with
  | [] => ret tt
  | _ =>
      do! resolve "resolve delete-session script" "delete_session" in
      run_unit (delete_session (session_keys sessionIDs))
  end.

Definition DeleteByUser (userID : string) (sessionIDs : list string) : M S bool :=
  match sessionIDs with
  | [] => ret true
  | _ =>
      do! resolve "resolve delete-owned-sessions script" "delete_owned_sessions" in
      let! reply := rc_run (delete_owned_sessions (session_keys sessionIDs) [userID]) in
      let! deleted := of_res (cmd_Int64 reply) in
      ret (deleted =? 1)
  end.

Definition DeleteAllByUser (userID : string) : M S unit :=
  if userID =s "" then fail (ENew "user ID is required")
  else
    let userKey := RedisKey "session" "user" userID in
    do! resolve "resolve delete-all-sessions script" "delete_other_sessions" in
    run_unit (delete_other_sessions [userKey] [userID; "all"]).

Definition BlockAndDeleteAllByUser (userID : string) : M S unit :=
  if userID =s "" then fail (ENew "user ID is required")
  else
    let userKey := RedisKey "session" "user" userID in
    let accessKey := RedisKey "session" "access" userID in
    do! resolve "resolve block-and-delete-all-sessions script" "delete_other_sessions" in
    run_unit (delete_other_sessions [userKey; accessKey] [userID; "block_all"]).

Definition UnblockUser (userID : string) : M S unit :=
  if userID =s "" then fail (ENew "user ID is required")
  else
    let accessKey := RedisKey "session" "access" userID in
    do! resolve "resolve unblock-user script" "unblock_user" in
    run_unit (unblock_user [accessKey]).

Definition DeleteOthersByUser (userID currentSessionID : string) : M S bool :=
  let userKey := RedisKey "session" "user" userID in
  let currentSessionKey := RedisKey "session" "id" currentSessionID in
  do! resolve "resolve delete-other-sessions script" "delete_other_sessions" in
  let! reply := rc_run (delete_other_sessions [userKey; currentSessionKey] [userID; "others"]) in
  let! deleted := of_res (cmd_Int64 reply) in
  ret (0 <=? deleted).

(** The error of one index is logged, and the iteration goes on.  The pages of
    the scan are read ahead of the scripts here: a scan writes nothing, and the
    law of [rc_scan] leaves open which keys it yields. *)
Fixpoint clean_keys (keys : list string) : M S unit :=
  match keys with
  | [] => ret tt
  | userKey :: keys' =>
      let! _ := attempt (rc_run (clean_orphans [userKey])) in clean_keys keys'
  end.

Definition DeleteOrphanSessions : M S unit :=
  do! resolve "resolve clean-orphans script" "clean_orphans" in
  let! scanned := rc_scan "session:user:*" in
  do! clean_keys scanned.1 in
  match scanned.2 with
  | Some e => fail e
  | None => ret tt
  end.

#[global] Instance redis_session_repository : SessionRepository S :=
  {| sr_Create := Create;
     sr_FindByJTI := FindByJTI;
     sr_ListByUser := ListByUser;
     sr_Delete := Delete;
     sr_DeleteByUser := DeleteByUser;
     sr_DeleteAllByUser := DeleteAllByUser;
     sr_BlockAndDeleteAllByUser := BlockAndDeleteAllByUser;
     sr_UnblockUser := UnblockUser;
     sr_DeleteOthersByUser := DeleteOthersByUser;
     sr_RotateJTI := RotateJTI;
     sr_DeleteOrphanSessions := DeleteOrphanSessions |}.

End Repository.
End SessionRepo.
