(* ===== verification/SessionGuarantees.v ===== *)
(** What the Redis session repository guarantees its callers, whatever other
    API processes do to the same store between its calls ([discipline]): every
    method is a sequence of the store's operations ([does]), so the store's
    invariant holds at every point; a blocked user has no session; a session
    revoked by a block is never accepted again; a refresh token is accepted
    once; and a created or rotated session is found until it expires. *)
From S2P Require Export SessionRepository.
From Stdlib Require Import Ascii.

(** * Methods as sequences of store operations *)

Section Does.
Context {S : Type} {D : discipline} `{RedisClientLaws S D}.

(** From [s] to [s'] only other processes' operations, and those of [own],
    happen to the store. *)
Definition store_trace (own : store_op -> Prop) (s s' : S) : Prop :=
  exists ops, Forall (fun op => op_ok op /\ (interferes D op \/ own op)) ops
              /\ rc_view s' = run_ops ops (rc_view s).

Definition does {A} (own : store_op -> Prop) (c : M S A) : Prop :=
  forall s, store_trace own s (c s).2.

Lemma run_ops_app ops1 ops2 ks : run_ops (ops1 ++ ops2) ks = run_ops ops2 (run_ops ops1 ks).
Proof. revert ks. induction ops1 as [|op ops IH]; intros ks; cbn; [done|apply IH]. Qed.

Lemma store_trace_refl own s : store_trace own s s.
Proof. exists []. split; [constructor|done]. Qed.

Lemma store_trace_trans own a b c :
  store_trace own a b -> store_trace own b c -> store_trace own a c.
Proof.
  intros (o1 & H1 & E1) (o2 & H2 & E2). exists (o1 ++ o2). split; [by apply Forall_app|].
  by rewrite E2, E1, run_ops_app.
Qed.

Lemma store_trace_mono (own own' : store_op -> Prop) a b :
  (forall op, own op -> own' op) -> store_trace own a b -> store_trace own' a b.
Proof.
  intros Hi (o & Ho & E). exists o. split; [|done]. eapply Forall_impl; [exact Ho|].
  cbn. naive_solver.
Qed.

Lemma store_trace_wf own s s' : wf (rc_view s) -> store_trace own s s' -> wf (rc_view s').
Proof.
  intros Hwf (ops & Ho & ->). apply run_ops_wf; [|done].
  eapply Forall_impl; [exact Ho|]. by intros op [? _].
Qed.

Lemma does_ret {A} own (a : A) : does own (ret a).
Proof. intros s. apply store_trace_refl. Qed.
Lemma does_fail {A} own e : does own (fail e : M S A).
Proof. intros s. apply store_trace_refl. Qed.
Lemma does_of_res {A} own (r : res A) : does own (of_res r : M S A).
Proof. intros s. apply store_trace_refl. Qed.

Lemma does_bind {A B} own (c : M S A) (f : A -> M S B) :
  does own c -> (forall a, does own (f a)) -> does own (bind c f).
Proof.
  intros Hc Hf s. unfold bind. specialize (Hc s). destruct (c s) as [[a|e] s']; cbn in *; [|done].
  eapply store_trace_trans; [exact Hc|apply Hf].
Qed.

Lemma does_attempt {A} own (c : M S A) : does own c -> does own (attempt c).
Proof. intros Hc s. specialize (Hc s). unfold attempt. by destruct (c s). Qed.

Lemma does_run (own : store_op -> Prop) op :
  op_ok op -> own op -> (forall ms, op <> OpElapse ms) -> does own (rc_run (op_script op)).
Proof.
  intros Hok Hown Hne s. destruct (rc_run_law (op_script op) s) as (ops & Hadm & Hl).
  assert (Hops : Forall (fun op => op_ok op /\ (interferes D op \/ own op)) ops).
  { eapply Forall_impl; [exact Hadm|]. cbn. tauto. }
  assert (Hrun : run_script (op_script op) (run_ops ops (rc_view s))
                 = run_op op (run_ops ops (rc_view s))).
  { destruct op; try done. by destruct (Hne ms). }
  rewrite Hrun in Hl. destruct (run_op op (run_ops ops (rc_view s))) as [r ks'] eqn:E.
  destruct (rc_run (op_script op) s) as [x s'].
  assert (Hcase : rc_view s' = run_ops ops (rc_view s) \/ rc_view s' = ks') by naive_solver.
  destruct Hcase as [Hv|Hv]; cbn [snd].
  - by exists ops.
  - exists (ops ++ [op]). split; [apply Forall_app; split; [done|constructor; [auto|constructor]]|].
    rewrite run_ops_app. cbn. by rewrite E.
Qed.

End Does.
Arguments does {S} D {_ _} {A} own c.
Arguments store_trace {S} D {_ _} own s s'.

(** The clock of the process is not part of the store. *)
Class ClockLaws (S : Type) (D : discipline) `{RedisClientLaws S D} `{Environment S} : Prop :=
  time_Now_view s : rc_view (time_Now s).2 = rc_view s.

Ltac does_step :=
  match goal with
  | |- does _ _ (ret _) => apply does_ret
  | |- does _ _ (fail _) => apply does_fail
  | |- does _ _ (of_res _) => apply does_of_res
  | |- does _ _ (bind _ _) => apply does_bind; [|intros]
  | |- does _ _ (attempt _) => apply does_attempt
  | |- does _ _ (SessionRepo.run_unit _) => unfold SessionRepo.run_unit
  | |- does _ _ (if ?b then _ else _) => destruct b eqn:?
  | |- does _ _ (match ?x with _ => _ end) => destruct x eqn:?
  | |- does _ _ (let _ := _ in _) => cbv zeta
  end.

Section Methods.
Context {S : Type} {D : discipline} `{RedisClientLaws S D} `{Environment S} `{EmbeddedScripts}.
Context {CL : ClockLaws S D}.

Lemma does_resolve own what name : does D own (SessionRepo.resolve what name).
Proof. unfold SessionRepo.resolve. repeat does_step. Qed.

Lemma session_keys_idKey ids : SessionRepo.session_keys ids = map idKey ids.
Proof. reflexivity. Qed.

Lemma Create_does s : does D (eq (OpCreate s)) (SessionRepo.Create s).
Proof.
  unfold SessionRepo.Create. repeat does_step; try apply does_resolve.
  breflect. apply (does_run _ (OpCreate s)); [split; lia|done|done].
Qed.

Lemma FindByJTI_does jti uid sid cv :
  does D (eq (OpFind jti uid sid cv)) (SessionRepo.FindByJTI jti uid sid cv).
Proof.
  unfold SessionRepo.FindByJTI. repeat does_step; try apply does_resolve.
  by apply (does_run _ (OpFind jti uid sid cv)).
Qed.

Lemma ListByUser_does uid offset limit :
  does D (eq (OpList uid offset limit)) (SessionRepo.ListByUser uid offset limit).
Proof.
  unfold SessionRepo.ListByUser. repeat does_step; try apply does_resolve.
  by apply (does_run _ (OpList uid offset limit)).
Qed.

(** A rotation for some instant. *)
Definition rotation_op (o n uid sid : string) (cv : Z) (ip dev : string) (expiresAt jt st : Z)
    (op : store_op) : Prop :=
  exists up, op = OpRotate o n uid sid cv ip dev up (unix_seconds expiresAt) jt st.

Lemma RotateJTI_does o n uid sid cv ip dev ex jt st :
  does D (rotation_op o n uid sid cv ip dev ex jt st)
    (SessionRepo.RotateJTI o n uid sid cv ip dev ex jt st).
Proof.
  unfold SessionRepo.RotateJTI. cbv zeta. apply does_bind.
  { intros s. exists []. split; [constructor|apply time_Now_view]. }
  intros now. repeat does_step; try apply does_resolve.
  apply (does_run _ (OpRotate o n uid sid cv ip dev (unix_seconds now) (unix_seconds ex) jt st));
    [done|eexists; reflexivity|done].
Qed.

Lemma Delete_does ids : does D (eq (OpDelete ids)) (SessionRepo.Delete ids).
Proof.
  unfold SessionRepo.Delete. destruct ids as [|i ids]; repeat does_step; try apply does_resolve.
  by apply (does_run _ (OpDelete (i :: ids))).
Qed.

Lemma DeleteByUser_does uid ids :
  does D (eq (OpDeleteByUser uid ids)) (SessionRepo.DeleteByUser uid ids).
Proof.
  unfold SessionRepo.DeleteByUser. destruct ids as [|i ids]; repeat does_step; try apply does_resolve.
  by apply (does_run _ (OpDeleteByUser uid (i :: ids))).
Qed.

Lemma DeleteAllByUser_does uid : does D (eq (OpDeleteAll uid)) (SessionRepo.DeleteAllByUser uid).
Proof.
  unfold SessionRepo.DeleteAllByUser. repeat does_step; try apply does_resolve.
  by apply (does_run _ (OpDeleteAll uid)).
Qed.

Lemma BlockAndDeleteAllByUser_does uid :
  does D (eq (OpBlock uid)) (SessionRepo.BlockAndDeleteAllByUser uid).
Proof.
  unfold SessionRepo.BlockAndDeleteAllByUser. repeat does_step; try apply does_resolve.
  breflect. by apply (does_run _ (OpBlock uid)).
Qed.

Lemma UnblockUser_does uid : does D (eq (OpUnblock uid)) (SessionRepo.UnblockUser uid).
Proof.
  unfold SessionRepo.UnblockUser. repeat does_step; try apply does_resolve.
  by apply (does_run _ (OpUnblock uid)).
Qed.

Lemma DeleteOthersByUser_does uid sid :
  does D (eq (OpDeleteOthers uid sid)) (SessionRepo.DeleteOthersByUser uid sid).
Proof.
  unfold SessionRepo.DeleteOthersByUser. repeat does_step; try apply does_resolve.
  by apply (does_run _ (OpDeleteOthers uid sid)).
Qed.

Definition clean_op (op : store_op) : Prop := exists key, op = OpCleanOrphans key.

Lemma clean_keys_does keys :
  Forall (fun k => class_of k = KUser) keys -> does D clean_op (SessionRepo.clean_keys keys).
Proof.
  induction 1 as [|k keys Hk _ IH]; cbn; repeat does_step; [|exact IH].
  apply (does_run _ (OpCleanOrphans k)); [done|by exists k|done].
Qed.

Lemma DeleteOrphanSessions_does : does D clean_op SessionRepo.DeleteOrphanSessions.
Proof.
  unfold SessionRepo.DeleteOrphanSessions. apply does_bind; [apply does_resolve|]. intros _ s.
  destruct (rc_scan_law "session:user:" s) as (ops & Hadm & Hl).
  change ("session:user:" +:+ "*") with "session:user:*" in Hl.
  unfold bind. destruct (rc_scan "session:user:*" s) as [x s1]. destruct Hl as [Hv Hx].
  assert (Ht : store_trace D clean_op s s1).
  { exists ops. split; [|done]. eapply Forall_impl; [exact Hadm|]. cbn. tauto. }
  destruct Hx as (keys & failure & -> & Hx & _). cbn [fst snd].
  eapply store_trace_trans; [exact Ht|].
  enough (Hd : does D clean_op (do! SessionRepo.clean_keys keys in
                                match failure with Some e => fail e | None => ret tt end))
    by exact (Hd s1).
  apply does_bind; [|intros _; destruct failure; does_step].
  apply clean_keys_does. eapply Forall_impl; [exact Hx|]. intros k Hk. cbn in Hk.
  destruct (HasPrefix_inv _ _ Hk) as [u ->]. apply (class_userKey u).
Qed.

End Methods.

(** * Reading what a call returned *)

Section Calls.
Context {S : Type} {D : discipline} `{RedisClientLaws S D}.

(** A call that returned a reply ran its script, once. *)
Lemma rc_run_Ok p s r s' :
  rc_run p s = (Ok r, s') ->
  exists ops, admissible D ops
    /\ reply_result (run_script p (run_ops ops (rc_view s))).1 = Ok r
    /\ rc_view s' = (run_script p (run_ops ops (rc_view s))).2.
Proof.
  intros Hr. destruct (rc_run_law p s) as (ops & Hadm & Hl). exists ops. split; [done|].
  rewrite Hr in Hl. destruct (run_script p _) as [r0 ks']. cbn [fst snd].
  destruct Hl as [[Hx Hv]|(_ & (e & He & _) & _)]; [auto|discriminate].
Qed.

Lemma admissible_ok ops : admissible D ops -> Forall op_ok ops.
Proof. intros Ha. eapply Forall_impl; [exact Ha|]. by intros op [? _]. Qed.

Lemma admissible_not (P : store_op -> Prop) ops :
  (forall op, interferes D op -> ~ P op) -> admissible D ops -> Forall (fun op => ~ P op) ops.
Proof. intros Hi Ha. eapply Forall_impl; [exact Ha|]. intros op [_ ?]. auto. Qed.

End Calls.


Lemma positive_found cv : 0 < cv <= maxInt -> ParseInt (itoa cv) = Ok cv.
Proof. intros Hc. apply ParseInt_itoa. unfold in_int64, maxInt in *. lia. Qed.

Lemma decode_session_reply sid uid jti cv n :
  0 < cv <= maxInt -> 1 <= n <= maxSafeGeneration ->
  SessionRepo.decode_found [RBulk sid; RBulk uid; RBulk jti; RBulk (itoa cv); RBulk (itoa n)]
  = Ok (Some (SessionRepo.found_session sid uid jti cv n)).
Proof.
  intros Hc Hn. unfold SessionRepo.decode_found, SessionRepo.parse_positive. cbn.
  rewrite (positive_found cv Hc). cbn. rewrite (proj2 (Z.leb_gt _ _)) by lia. cbn.
  rewrite (positive_found n) by (unfold maxInt, maxSafeGeneration in *; lia). cbn.
  by rewrite (proj2 (Z.leb_gt _ _)) by lia.
Qed.

(** The entity with the generation [Create] assigned. *)
Definition created_session (x : Session.t) (generation : Z) : Session.t :=
  {| Session.ID := Session.ID x; Session.UserID := Session.UserID x;
     Session.CredentialVersion := Session.CredentialVersion x;
     Session.SessionGeneration := generation;
     Session.Device := Session.Device x; Session.IP := Session.IP x;
     Session.CurrentJTI := Session.CurrentJTI x;
     Session.CreatedAt := Session.CreatedAt x; Session.ExpiresAt := Session.ExpiresAt x;
     Session.UpdatedAt := Session.UpdatedAt x;
     Session.JTITTLSeconds := Session.JTITTLSeconds x;
     Session.SessionTTLSeconds := Session.SessionTTLSeconds x |}.

Section Outcomes.
Context {S : Type} {D : discipline} `{RedisClientLaws S D} `{Environment S} `{EmbeddedScripts}.
Context {CL : ClockLaws S D}.

(** The lookup as one script and the reading of its reply. *)
Definition find_outcome (r : res rreply) : res (option Session.t) :=
  match res_bind r cmd_Slice with
  | Err e => if errors_is e RedisNil then Ok None else Err e
  | Ok result => SessionRepo.decode_found result
  end.

Lemma FindByJTI_run jti uid sid cv s :
  SessionRepo.FindByJTI jti uid sid cv s =
  if (jti =s "") || (uid =s "") || (sid =s "") || (cv <=? 0) then (Ok None, s)
  else match GetScript "get_session_by_jti" with
       | Err e => (Err (wrap1 "resolve session-by-JTI script" e), s)
       | Ok _ => let '(r, s1) := rc_run (get_script jti uid sid cv) s in (find_outcome r, s1)
       end.
Proof.
  unfold SessionRepo.FindByJTI, SessionRepo.resolve, find_outcome. cbv zeta.
  destruct (_ || _); [done|]. destruct (GetScript _); [|done].
  unfold bind, attempt, ret, of_res, fail. change (RedisKey "session" "jti" jti) with (jtiKey jti).
  change (RedisKey "session" "access" uid) with (accessKey uid). fold (get_script jti uid sid cv).
  destruct (rc_run (get_script jti uid sid cv) s) as [[reply|e] s1]; cbn;
    [destruct (cmd_Slice reply) as [l|e]; cbn; [done|]|]; by destruct (errors_is e RedisNil).
Qed.

(** A session found is valid at the instant the script ran. *)
Lemma FindByJTI_found jti uid sid cv s x s' :
  wf (rc_view s) -> cv <= maxInt -> SessionRepo.FindByJTI jti uid sid cv s = (Ok (Some x), s') ->
  exists ops n, admissible D ops
    /\ valid_session (run_ops ops (rc_view s)) jti uid sid cv n
    /\ x = SessionRepo.found_session sid uid jti cv n.
Proof.
  intros Hwf Hcv. rewrite FindByJTI_run.
  destruct (_ || _) eqn:E; [intros [= ?]|]. breflect. destruct (GetScript _); [|discriminate].
  destruct (rc_run (get_script jti uid sid cv) s) as [[reply|e] s1] eqn:Hrun.
  2: { unfold find_outcome. cbn. destruct (errors_is e RedisNil); discriminate. }
  apply rc_run_Ok in Hrun as (ops & Hadm & Hrep & _). intros [= Hf <-]. exists ops.
  assert (Hwf1 : wf (run_ops ops (rc_view s)))
    by (apply run_ops_wf; [by eapply admissible_ok|done]).
  destruct (get_script_cases (run_ops ops (rc_view s)) jti uid sid cv Hwf1)
    as [(n & Hv & Hr)|[(n & Ha & Hr)|[_ Hr]]]; try done; rewrite Hr in Hrep; cbn in Hrep;
    try discriminate; injection Hrep as <-.
  - exists n. split; [done|]. split; [done|]. unfold find_outcome in Hf. cbn [res_bind cmd_Slice session_reply] in Hf.
    destruct (vs_access _ _ _ _ _ _ Hv) as (_ & _ & _ & _ & Hn).
    rewrite decode_session_reply in Hf by (done || lia). by injection Hf as <-.
  - discriminate.
Qed.

(** The rotation as one script and the reading of its reply. *)
Definition rotate_outcome (r : res rreply) : res string :=
  match res_bind r cmd_Slice with
  | Err e => if errors_is e RedisNil then Ok "" else Err (wrap1 "failed to rotate JTI" e)
  | Ok l => SessionRepo.decode_rotation l
  end.

Lemma RotateJTI_run o n uid sid cv ip dev ex jt st s :
  SessionRepo.RotateJTI o n uid sid cv ip dev ex jt st s =
  match time_Now s with
  | (Err e, s1) => (Err e, s1)
  | (Ok now, s1) =>
      match GetScript "rotate_jti" with
      | Err e => (Err (wrap1 "resolve rotate-JTI script" e), s1)
      | Ok _ => let '(r, s2) := rc_run (rotate_script o n uid sid cv ip dev (unix_seconds now)
                                          (unix_seconds ex) jt st) s1 in (rotate_outcome r, s2)
      end
  end.
Proof.
  unfold SessionRepo.RotateJTI, SessionRepo.resolve, rotate_outcome. cbv zeta. unfold bind at 1.
  destruct (time_Now s) as [[now|e] s1]; [|done]. destruct (GetScript _); [|done].
  unfold bind, attempt, ret, of_res, fail.
  change (rotate_jti _ _)
    with (rotate_script o n uid sid cv ip dev (unix_seconds now) (unix_seconds ex) jt st).
  destruct (rc_run (rotate_script o n uid sid cv ip dev _ _ jt st) s1) as [[reply|e] s2]; cbn; cbn;
    [destruct (cmd_Slice reply) as [l|e]; cbn; [done|]|]; cbn; by destruct (errors_is e RedisNil).
Qed.

(** A rotation that succeeds found the old JTI valid, and left [rotation]. *)
Lemma RotateJTI_rotated o n uid sid cv ip dev ex jt st s id s' :
  wf (rc_view s) -> o <> "" -> uid <> "" -> sid <> "" -> 0 < cv -> 0 < jt -> 0 < st ->
  SessionRepo.RotateJTI o n uid sid cv ip dev ex jt st s = (Ok id, s') ->
  id = SessionRepo.extractSessionIDFromKey sid /\ exists ops g h up, let ks := run_ops ops (rc_view s) in
    admissible D ops
    /\ valid_session ks o uid sid cv g /\ ks_get ks (idKey sid) = Some (RHash h)
    /\ ks_now (rc_view s') = ks_now ks
    /\ forall k, k <> userKey uid -> ks_entry (rc_view s') k
         = ks_entry (rotation o n sid (itoa up) (itoa (unix_seconds ex)) ip dev jt st h ks) k.
Proof.
  intros Hwf Ho Hu Hs Hc Hj Ht. rewrite RotateJTI_run.
  pose proof (time_Now_view s) as Hview. destruct (time_Now s) as [[now|e] s1]; [|discriminate].
  cbn [snd] in Hview. destruct (GetScript _); [|discriminate].
  match goal with |- context [rc_run ?p s1] =>
    destruct (rc_run_law p s1) as (ops & Hadm & Hl); destruct (rc_run p s1) as [x s2] end.
  rewrite Hview in *. intros [= Hout <-].
  assert (Hwf1 : wf (run_ops ops (rc_view s)))
    by (apply run_ops_wf; [by eapply admissible_ok|done]).
  set (ks := run_ops ops (rc_view s)) in *.
  destruct (run_script _ ks) as [r ks'] eqn:Hr in Hl.
  destruct Hl as [[-> Hv]|(_ & (e & -> & He) & _)].
  2: { unfold rotate_outcome in Hout. cbn in Hout. by rewrite He in Hout. }
  destruct (rotate_cases ks o n uid sid cv ip dev (unix_seconds now)
      (unix_seconds ex) jt st Ho Hu Hs Hc Hj Ht (wf_typed _ Hwf1) Hwf1)
    as [(g & created & h & Hval & Hh & _ & Hr')|[(g & _ & Hr')|[Hr'|Hr']]];
    rewrite Hr in Hr'; try (injection Hr' as -> ->; discriminate).
  destruct (rotate_write_run ks o n sid uid (itoa (unix_seconds now))
    (itoa (unix_seconds ex)) ip dev created jt st h) as (ks1 & Hw & Hf); try done.
  { apply wf_typed, Hwf1. }
  { by rewrite (vs_mapping _ _ _ _ _ _ Hval). }
  rewrite Hw in Hr'. injection Hr' as -> ->. split.
  - unfold rotate_outcome in Hout. cbn in Hout. rewrite (eqb_ne_string sid "") in Hout by done.
    by injection Hout as <-.
  - exists ops, g, h, (unix_seconds now). cbv zeta. fold ks. rewrite Hv.
    split; [done|]. split; [done|]. split; [done|]. split; [|done].
    pose proof (run_script_now (rotate_jti_write (jtiKey o) (jtiKey n) (idKey sid) (userKey uid) n ip dev
      (itoa (unix_seconds now)) (itoa (unix_seconds ex)) created jt st) ks) as Hnow.
    by rewrite Hw in Hnow.
Qed.

(** A creation that succeeds. *)
Lemma Create_run x s :
  SessionRepo.Create x s =
  if (Session.SessionTTLSeconds x <=? 0) || (Session.JTITTLSeconds x <=? 0)
  then (Err (ENew "TTL values must be positive"), s)
  else if Session.CredentialVersion x <=? 0
  then (Err (ENew "credential version must be positive"), s)
  else match GetScript "create_session" with
       | Err e => (Err (wrap1 "resolve create-session script" e), s)
       | Ok _ =>
           let '(r, s1) := rc_run (create_script x) s in
           (match res_bind r cmd_Int64 with
            | Err e => Err e
            | Ok g => if g =? -1 then Err ErrUserAccessBlocked
                      else if g <=? 0 then Err (ENew "create session returned invalid generation")
                      else Ok (created_session x g)
            end, s1)
       end.
Proof.
  unfold SessionRepo.Create, SessionRepo.resolve. cbv zeta.
  destruct (_ || _); [done|]. destruct (_ <=? _); [done|]. destruct (GetScript _); [|done].
  unfold bind, ret, of_res, fail. change (create_session _ _) with (create_script x).
  destruct (rc_run (create_script x) s) as [[reply|e] s1]; cbn; [|done].
  destruct (cmd_Int64 reply) as [g|e]; cbn; [|done].
  destruct (g =? -1); [done|]. by destruct (g <=? 0).
Qed.

Lemma Create_created x s x' s' :
  wf (rc_view s) -> SessionRepo.Create x s = (Ok x', s') ->
  0 < Session.SessionTTLSeconds x /\ 0 < Session.JTITTLSeconds x /\ 0 < Session.CredentialVersion x
  /\ exists ops init n, let ks := run_ops ops (rc_view s) in
    admissible D ops /\ wf ks
    /\ (if (init : bool) then ks_entry ks (accessKey (Session.UserID x)) = None /\ n = 1
        else access_is ks (Session.UserID x) false n)
    /\ x' = created_session x n
    /\ ks_now (rc_view s') = ks_now ks
    /\ forall k, k <> userKey (Session.UserID x) ->
       ks_entry (rc_view s') k = ks_entry (creation x init n ks) k.
Proof.
  intros Hwf. rewrite Create_run.
  destruct ((Session.SessionTTLSeconds x <=? 0) || _) eqn:E1; [intros [=]|].
  destruct (Session.CredentialVersion x <=? 0) eqn:E2; [intros [=]|]. breflect.
  destruct (GetScript _); [|intros [=]].
  destruct (rc_run (create_script x) s) as [[reply|e] s1] eqn:Hrun; [|intros [=]].
  apply rc_run_Ok in Hrun as (ops & Hadm & Hrep & Hv). cbn [res_bind].
  assert (Hwf1 : wf (run_ops ops (rc_view s)))
    by (apply run_ops_wf; [by eapply admissible_ok|done]).
  intros [= Hout <-]. split; [done|]. split; [done|]. split; [done|].
  exists ops. pose proof (run_script_now (create_script x) (run_ops ops (rc_view s))) as Hnow.
  destruct (create_cases x (run_ops ops (rc_view s)) Hwf1) as [(n & _ & Hr)|(init & n & ks' & Hi & Hr & Hf)];
    try done; rewrite Hr in Hrep, Hv, Hnow; cbn in Hrep, Hv, Hnow; injection Hrep as <-; cbn in Hout;
    [discriminate|].
  exists init, n. cbv zeta. rewrite Hv. split; [done|]. split; [done|]. split; [done|].
  destruct (n =? -1); [discriminate|]. destruct (n <=? 0); [discriminate|].
  injection Hout as <-. done.
Qed.

(** A block that succeeds. *)
Lemma BlockAndDeleteAllByUser_blocked uid s s' :
  wf (rc_view s) -> SessionRepo.BlockAndDeleteAllByUser uid s = (Ok tt, s') ->
  uid <> "" /\ exists ops m, let ks := run_ops ops (rc_view s) in
    admissible D ops /\ wf ks /\ (run_op (OpBlock uid) ks).1 = RInt m
    /\ rc_view s' = (run_op (OpBlock uid) ks).2.
Proof.
  intros Hwf. unfold SessionRepo.BlockAndDeleteAllByUser, SessionRepo.resolve, SessionRepo.run_unit.
  destruct (uid =s "") eqn:E; [discriminate|]. breflect. cbv zeta.
  destruct (GetScript _); [|discriminate]. change (delete_other_sessions _ _) with (block_script uid).
  unfold bind, ret. destruct (rc_run (block_script uid) s) as [[reply|e] s1] eqn:Hrun; [|discriminate].
  apply rc_run_Ok in Hrun as (ops & Hadm & Hrep & Hv). intros [= <-]. split; [done|].
  assert (Hwf1 : wf (run_ops ops (rc_view s)))
    by (apply run_ops_wf; [by eapply admissible_ok|done]).
  exists ops. cbv zeta. cbn [run_op op_script].
  destruct (block_run (run_ops ops (rc_view s)) uid Hwf1 E) as [[_ Hr]|(n & m & ks' & _ & Hr & _)];
    rewrite Hr in Hrep, Hv |- *; cbn in *; [discriminate|]. by exists m.
Qed.

(** A deletion of listed sessions that reports success removed every one. *)
Lemma DeleteByUser_gone uid ids s s' :
  wf (rc_view s) -> ids <> [] -> SessionRepo.DeleteByUser uid ids s = (Ok true, s') ->
  wf (rc_view s') /\ forall sid, In sid ids -> ks_entry (rc_view s') (idKey sid) = None.
Proof.
  intros Hwf Hne Hrun. split.
  { replace s' with (SessionRepo.DeleteByUser uid ids s).2 by (by rewrite Hrun).
    eapply store_trace_wf; [exact Hwf|apply DeleteByUser_does]. }
  unfold SessionRepo.DeleteByUser, SessionRepo.resolve in Hrun. destruct ids as [|i ids]; [done|].
  cbv zeta in Hrun. destruct (GetScript _); [|discriminate].
  rewrite session_keys_idKey in Hrun. fold (delete_owned_script uid (i :: ids)) in Hrun.
  apply bind_Ok_inv in Hrun as (u & s0 & [= <- <-] & Hrun).
  apply bind_Ok_inv in Hrun as (reply & s1 & Hr & Hd).
  apply rc_run_Ok in Hr as (ops & Hadm & Hrep & Hv).
  apply bind_Ok_inv in Hd as (n & s2 & [= Hn <-] & Hb). injection Hb as Hb <-. breflect. subst n.
  rewrite Hv.
  assert (Hty : typed (run_ops ops (rc_view s))).
  { apply wf_typed, run_ops_wf; [by eapply admissible_ok|done]. }
  pose proof (delete_owned_run _ uid (i :: ids) Hty) as Hrun.
  destruct (forallb _ (i :: ids)).
  - destruct Hrun as (ks' & -> & Hod). intros sid. apply (od_gone _ _ _ _ Hod).
  - rewrite Hrun in Hrep. cbn in Hrep. injection Hrep as <-. discriminate.
Qed.

End Outcomes.

(** * A local store, for the witnesses *)

Module Local.
#[global] Instance client : RedisClient keyspace := {|
  rc_run := fun p ks => let '(r, ks') := run_script p ks in (reply_result r, ks');
  rc_scan := fun pattern ks =>
    (Ok (List.filter (fun k => HasPrefix (k +:+ "*") pattern) (map fst (map_to_list (ks_keys ks))), None), ks);
|}.

Lemma HasPrefix_star k p : HasPrefix (k +:+ "*") (p +:+ "*") = true -> HasPrefix k p = true.
Proof.
  revert k. induction p as [|a p IH]; intros k Hp; [by destruct k|].
  destruct k as [|b k].
  - exfalso. unfold HasPrefix in Hp. rewrite append_cons in Hp.
    change ("" +:+ "*") with "*"%string in Hp. cbn in Hp.
    destruct (Ascii.ascii_dec a "*"%char); [|done]. by destruct p.
  - unfold HasPrefix in *. rewrite !append_cons in Hp. cbn in Hp |- *.
    destruct (Ascii.ascii_dec a b); [by apply IH|done].
Qed.

#[global] Program Instance laws : RedisClientLaws keyspace undisturbed := {| rc_view := fun ks => ks |}.
Next Obligation.
  intros p s. exists []. split; [constructor|]. cbn [run_ops].
  unfold rc_run, client. destruct (run_script p s) as [r ks']. left. done.
Qed.
Next Obligation.
  intros pattern s. exists []. split; [constructor|]. cbn. split; [done|].
  do 2 eexists. split; [reflexivity|]. split; [|done]. apply Forall_forall. intros k Hk. apply list_elem_of_In, filter_In in Hk as [_ Hk].
  by apply HasPrefix_star.
Qed.

#[global] Instance environment : Environment keyspace := {|
  time_Now := fun ks => (Ok (ks_now ks * 1000000), ks);
  uuid_New := fun ks => (Ok "11111111-1111-4111-8111-111111111111", ks);
  ULIDGenerator := fun ks => (Ok "01ARZ3NDEKTSV4RRFFQ69G5FAV", ks);
|}.

#[global] Instance clock : ClockLaws keyspace undisturbed.
Proof. intros s. done. Qed.

#[global] Instance scripts : EmbeddedScripts := sample_assets.

Definition registry : gmap string string :=
  match embeddedScriptRegistry with Ok r => r | Err _ => ∅ end.
Lemma registry_ok : embeddedScriptRegistry = Ok registry.
Proof.
  assert (H : is_ok embeddedScriptRegistry = true) by (vm_compute; reflexivity).
  unfold registry. by destruct embeddedScriptRegistry.
Qed.

Definition store : keyspace := empty_keyspace 1000000.

Definition session (id user jti : string) : Session.t :=
  {| Session.ID := id; Session.UserID := user; Session.CredentialVersion := 1;
     Session.SessionGeneration := 0; Session.Device := "phone"; Session.IP := "192.0.2.1";
     Session.CurrentJTI := jti; Session.CreatedAt := 1000000000000;
     Session.ExpiresAt := 1600000000000; Session.UpdatedAt := 1000000000000;
     Session.JTITTLSeconds := 600; Session.SessionTTLSeconds := 600 |}.

(** The store after user [u1] opened session [s1] with refresh token [j1]. *)
Definition store1 : keyspace := (SessionRepo.Create (session "s1" "u1" "j1") store).2.

(** [store1] after [u1] was blocked, and unblocked again; and after [j1] was
    rotated to [j2]. *)
Definition blocked1 : keyspace := (SessionRepo.BlockAndDeleteAllByUser "u1" store1).2.
Definition unblocked1 : keyspace := (SessionRepo.UnblockUser "u1" blocked1).2.
Definition rotated1 : keyspace :=
  (SessionRepo.RotateJTI "j1" "j2" "u1" "s1" 1 "" "" 1600000000000 600 600 store1).2.

Lemma store_wf : wf store.
Proof. apply wf_empty. Qed.

Lemma store1_wf : wf store1.
Proof.
  exact (store_trace_wf (D := undisturbed) _ store store1 store_wf
           (Create_does (session "s1" "u1" "j1") store)).
Qed.
End Local.

(** * The guarantees *)

Section Guarantees.
Context {S : Type} {D : discipline} `{RedisClientLaws S D} `{Environment S} `{EmbeddedScripts}.
Context {CL : ClockLaws S D}.

(** A JTI the store does not know is refused, and stays unknown. *)
Lemma store_trace_absent jti s s' :
  (forall op, interferes D op -> ~ issues op jti) -> wf (rc_view s) ->
  store_trace D (fun op => ~ issues op jti) s s' ->
  ks_entry (rc_view s) (jtiKey jti) = None ->
  wf (rc_view s') /\ ks_entry (rc_view s') (jtiKey jti) = None.
Proof using Type.
  intros Hint Hwf (ops & Hops & ->) Hn.
  assert (Hops' : Forall op_ok ops /\ Forall (fun op => ~ issues op jti) ops).
  { split; (eapply Forall_impl; [exact Hops|]); cbn; naive_solver. }
  destruct Hops' as [Hok Hi]. split; [by apply run_ops_wf|by apply run_ops_absent].
Qed.

Lemma absent_jti_never_valid jti s ops u i v m :
  (forall op, interferes D op -> ~ issues op jti) -> ks_entry (rc_view s) (jtiKey jti) = None ->
  admissible D ops -> ~ valid_session (run_ops ops (rc_view s)) jti u i v m.
Proof using Type.
  intros Hint Hn Hadm. apply absent_not_valid, run_ops_absent; [by eapply admissible_ok| |done].
  by eapply (admissible_not (fun op => issues op jti)).
Qed.

Lemma absent_jti_not_found jti s u i v x :
  (forall op, interferes D op -> ~ issues op jti) -> wf (rc_view s) ->
  ks_entry (rc_view s) (jtiKey jti) = None -> v <= maxInt ->
  (SessionRepo.FindByJTI jti u i v s).1 <> Ok (Some x).
Proof using Type.
  intros Hint Hwf Hn Hv Hx. destruct (SessionRepo.FindByJTI jti u i v s) as [r s3] eqn:Hf.
  cbn in Hx. subst.
  destruct (FindByJTI_found _ _ _ _ _ _ _ Hwf Hv Hf) as (ops3 & m & Hadm3 & Hval3 & _).
  by eapply absent_jti_never_valid.
Qed.

Lemma absent_jti_not_rotated jti s new u i v ip dev ex jt st id :
  (forall op, interferes D op -> ~ issues op jti) -> wf (rc_view s) -> jti <> "" ->
  ks_entry (rc_view s) (jtiKey jti) = None -> u <> "" -> i <> "" -> 0 < v -> 0 < jt -> 0 < st ->
  (SessionRepo.RotateJTI jti new u i v ip dev ex jt st s).1 <> Ok id.
Proof using CL.
  intros Hint Hwf Hj Hn Hu Hi Hv Hjt Hst Hx.
  destruct (SessionRepo.RotateJTI jti new u i v ip dev ex jt st s) as [r s3] eqn:Hf. cbn in Hx. subst.
  destruct (RotateJTI_rotated _ _ _ _ _ _ _ _ _ _ _ _ _ Hwf Hj Hu Hi Hv Hjt Hst Hf)
    as (_ & ops3 & n3 & h3 & up3 & Hadm3 & Hval3 & _). by eapply absent_jti_never_valid.
Qed.

(** A session the store does not hold is not found, and stays away until it is
    created again. *)
Lemma store_trace_ended sid s s' :
  (forall op, interferes D op -> ~ creates op sid) -> wf (rc_view s) ->
  store_trace D (fun op => ~ creates op sid) s s' ->
  session_of (rc_view s) (idKey sid) = None ->
  wf (rc_view s') /\ session_of (rc_view s') (idKey sid) = None.
Proof using Type.
  intros Hint Hwf (ops & Hops & ->) Hn.
  assert (Hops' : Forall op_ok ops /\ Forall (fun op => ~ creates op sid) ops).
  { split; (eapply Forall_impl; [exact Hops|]); cbn; naive_solver. }
  destruct Hops' as [Hok Hi]. split; [by apply run_ops_wf|].
  destruct (session_of (run_ops ops (rc_view s)) (idKey sid)) as [o|] eqn:Ho; [|done].
  apply run_ops_session in Ho; [congruence|done..].
Qed.

Lemma ended_session_not_found sid s jti u v x :
  (forall op, interferes D op -> ~ creates op sid) -> wf (rc_view s) ->
  session_of (rc_view s) (idKey sid) = None -> v <= maxInt ->
  (SessionRepo.FindByJTI jti u sid v s).1 <> Ok (Some x).
Proof using Type.
  intros Hint Hwf Hn Hv Hx. destruct (SessionRepo.FindByJTI jti u sid v s) as [r s3] eqn:Hf.
  cbn in Hx. subst. destruct (FindByJTI_found _ _ _ _ _ _ _ Hwf Hv Hf) as (ops & m & Hadm & Hval & _).
  destruct (vs_hash _ _ _ _ _ _ Hval) as (h & Hh & _ & Hu & _ & _ & Hg).
  assert (Ho : session_of (run_ops ops (rc_view s)) (idKey sid) = Some (u, itoa m))
    by (unfold session_of; by rewrite Hh, Hu, Hg).
  apply run_ops_session in Ho; [congruence|by eapply admissible_ok| |done].
  by eapply (admissible_not (fun op => creates op sid)).
Qed.

Lemma RotateJTI_consumes old new uid sid cv ip dev ex jt st s id s' :
  wf (rc_view s) -> old <> "" -> new <> old -> uid <> "" -> sid <> "" -> 0 < cv -> 0 < jt -> 0 < st ->
  SessionRepo.RotateJTI old new uid sid cv ip dev ex jt st s = (Ok id, s') ->
  wf (rc_view s') /\ ks_entry (rc_view s') (jtiKey old) = None.
Proof using CL.
  intros Hwf Ho Hnew Hu Hs Hcv Hjt Hst Hrot.
  destruct (RotateJTI_rotated _ _ _ _ _ _ _ _ _ _ _ _ _ Hwf Ho Hu Hs Hcv Hjt Hst Hrot)
    as (_ & ops & n & h & up & Hadm & Hval & Hh & Hnow & Hf).
  split; [|by eapply rotation_old_gone].
  replace s' with (SessionRepo.RotateJTI old new uid sid cv ip dev ex jt st s).2 by (by rewrite Hrot).
  eapply store_trace_wf; [exact Hwf|apply RotateJTI_does].
Qed.

(** C14. Every method of the session repository, whatever it returns and
    whatever other processes do meanwhile, leaves a well-formed store: typed
    keys, permanent access states with a generation between 1 and 2^53 - 1,
    and sessions whose generation does not exceed their owner's, and is below
    it when the owner is blocked. *)
Theorem repository_keeps_invariant (s : S) (x : Session.t) (a b u sid ip dev : string)
    (ids : list string) (cv off lim ex jt st : Z) :
  wf (rc_view s) ->
  wf (rc_view (SessionRepo.Create x s).2)
  /\ wf (rc_view (SessionRepo.FindByJTI a u sid cv s).2)
  /\ wf (rc_view (SessionRepo.ListByUser u off lim s).2)
  /\ wf (rc_view (SessionRepo.RotateJTI a b u sid cv ip dev ex jt st s).2)
  /\ wf (rc_view (SessionRepo.Delete ids s).2)
  /\ wf (rc_view (SessionRepo.DeleteByUser u ids s).2)
  /\ wf (rc_view (SessionRepo.DeleteAllByUser u s).2)
  /\ wf (rc_view (SessionRepo.BlockAndDeleteAllByUser u s).2)
  /\ wf (rc_view (SessionRepo.UnblockUser u s).2)
  /\ wf (rc_view (SessionRepo.DeleteOthersByUser u sid s).2)
  /\ wf (rc_view (SessionRepo.DeleteOrphanSessions s).2).
Proof using CL.
  intros Hwf.
  assert (Hd : forall A own (c : M S A), does D own c -> wf (rc_view (c s).2))
    by (intros A own c Hc; eapply store_trace_wf; [exact Hwf|apply Hc]).
  repeat split; eapply Hd;
    auto using Create_does, FindByJTI_does, ListByUser_does, RotateJTI_does, Delete_does,
      DeleteByUser_does, DeleteAllByUser_does, BlockAndDeleteAllByUser_does, UnblockUser_does,
      DeleteOthersByUser_does, DeleteOrphanSessions_does.
Qed.

(** C1. Revocation is final.  When a block of user [uid] returns without error,
    no session of [uid] that existed before it is ever found or rotated again,
    with any refresh token, under any identity, after any operations of any
    process (an unblock included) that do not create a session of that ID
    anew. *)
Theorem revoked_session_never_returns (uid sid : string) (s s1 s2 : S) :
  (forall op, interferes D op -> ~ creates op sid) ->
  wf (rc_view s) ->
  (forall v g, session_of (rc_view s) (idKey sid) = Some (v, g) -> v = uid) ->
  SessionRepo.BlockAndDeleteAllByUser uid s = (Ok tt, s1) ->
  store_trace D (fun op => ~ creates op sid) s1 s2 ->
  forall jti jti' u cv ip dev ex jt st,
    0 < cv <= maxInt -> 0 < jt -> 0 < st -> jti <> "" -> u <> "" -> sid <> "" ->
    (forall x, (SessionRepo.FindByJTI jti u sid cv s2).1 <> Ok (Some x))
    /\ (forall id, (SessionRepo.RotateJTI jti jti' u sid cv ip dev ex jt st s2).1 <> Ok id).
Proof using CL.
  intros Hint Hwf Hown Hblock (ops2 & Hops2 & Hv2) jti jti' u cv ip dev ex jt st Hcv Hjt Hst Hj Hu Hs.
  destruct (BlockAndDeleteAllByUser_blocked uid s s1 Hwf Hblock) as (Hne & ops & m & Hadm & Hwf1 & Hr & Hv).
  assert (Hst1 : stale (rc_view s1) sid).
  { rewrite Hv. eapply block_stale; [done|done|exact Hr|]. intros v g Ho.
    apply (Hown v g). eapply run_ops_session; [by eapply admissible_ok| |done|exact Ho].
    by eapply (admissible_not (fun op => creates op sid)). }
  assert (Hwfs1 : wf (rc_view s1)) by (rewrite Hv; by apply run_op_wf).
  assert (Hops2' : Forall op_ok ops2 /\ Forall (fun op => ~ creates op sid) ops2).
  { split; (eapply Forall_impl; [exact Hops2|]); cbn; naive_solver. }
  destruct Hops2' as [Hok2 Hnc2].
  assert (Hwf2 : wf (rc_view s2)) by (rewrite Hv2; by apply run_ops_wf).
  assert (Hst2 : stale (rc_view s2) sid) by (rewrite Hv2; by apply run_ops_stale).
  assert (Hno : forall ops n, admissible D ops -> ~ valid_session (run_ops ops (rc_view s2)) jti u sid cv n).
  { intros ops3 n Hadm3. apply stale_not_valid, run_ops_stale; [by eapply admissible_ok| |done..].
    by eapply (admissible_not (fun op => creates op sid)). }
  split.
  - intros x Hx. destruct (SessionRepo.FindByJTI jti u sid cv s2) as [r s3] eqn:Hf. cbn in Hx. subst.
    destruct (FindByJTI_found _ _ _ _ _ _ _ Hwf2 (proj2 Hcv) Hf) as (ops3 & n & Hadm3 & Hval & _).
    by apply (Hno ops3 n).
  - intros id Hx. destruct (SessionRepo.RotateJTI _ _ _ _ _ _ _ _ _ _ s2) as [r s3] eqn:Hf. cbn in Hx. subst.
    destruct (RotateJTI_rotated _ _ _ _ _ _ _ _ _ _ _ _ _ Hwf2 Hj Hu Hs (proj1 Hcv) Hjt Hst Hf)
      as (_ & ops3 & n & h & up & Hadm3 & Hval & _).
    by apply (Hno ops3 n).
Qed.

(** What a block that returned leaves. *)
Lemma block_leaves_blocked uid s s1 :
  wf (rc_view s) -> SessionRepo.BlockAndDeleteAllByUser uid s = (Ok tt, s1) ->
  uid <> "" /\ wf (rc_view s1) /\ exists g, access_is (rc_view s1) uid true g.
Proof using CL.
  intros Hwf Hblock.
  destruct (BlockAndDeleteAllByUser_blocked uid s s1 Hwf Hblock) as (Hne & ops & m & Hadm & Hwf1 & Hr & Hv).
  destruct (block_blocks _ _ _ Hwf1 Hne Hr) as [g Hg]. rewrite <- Hv in Hg.
  split; [done|]. split; [rewrite Hv; by apply run_op_wf|]. by exists g.
Qed.

Lemma blocked_trace uid g s s' :
  (forall op, interferes D op -> op <> OpUnblock uid) ->
  wf (rc_view s) -> access_is (rc_view s) uid true g ->
  store_trace D (fun op => op <> OpUnblock uid) s s' -> access_is (rc_view s') uid true g.
Proof using CL.
  intros Hint Hwf Hb (ops & Hops & Hv).
  assert (Hok : Forall op_ok ops /\ Forall (fun op => op <> OpUnblock uid) ops)
    by (split; (eapply Forall_impl; [exact Hops|]); cbn; naive_solver).
  destruct Hok. rewrite Hv. by apply run_ops_blocked.
Qed.

(** What the store refuses to a blocked user. *)
Definition refused (uid : string) (s : S) : Prop :=
  (forall jti sid cv x, cv <= maxInt -> (SessionRepo.FindByJTI jti uid sid cv s).1 <> Ok (Some x))
  /\ (forall o n sid cv ip dev ex jt st id, o <> "" -> sid <> "" -> 0 < cv -> 0 < jt -> 0 < st ->
        (SessionRepo.RotateJTI o n uid sid cv ip dev ex jt st s).1 <> Ok id)
  /\ (forall x x', Session.UserID x = uid -> (SessionRepo.Create x s).1 <> Ok x').

Lemma blocked_refused uid g s :
  (forall op, interferes D op -> op <> OpUnblock uid) ->
  uid <> "" -> wf (rc_view s) -> access_is (rc_view s) uid true g -> refused uid s.
Proof using CL.
  intros Hint Hne Hwf Hb2.
  assert (Hb : forall ops, admissible D ops -> access_is (run_ops ops (rc_view s)) uid true g).
  { intros ops3 Hadm3. apply run_ops_blocked; [by eapply admissible_ok| |done..].
    by eapply (admissible_not (fun op => op = OpUnblock uid)). }
  assert (Hno : forall ops jti sid cv n, admissible D ops ->
                ~ valid_session (run_ops ops (rc_view s)) jti uid sid cv n).
  { intros ops3 jti sid cv n Hadm3 Hval.
    by destruct (access_is_inj _ _ _ _ _ _ (vs_access _ _ _ _ _ _ Hval) (Hb ops3 Hadm3)). }
  split; [|split].
  - intros jti sid cv x Hcv Hx. destruct (SessionRepo.FindByJTI jti uid sid cv s) as [r s3] eqn:Hf.
    cbn in Hx. subst.
    destruct (FindByJTI_found _ _ _ _ _ _ _ Hwf Hcv Hf) as (ops3 & n & Hadm3 & Hval & _).
    by eapply Hno.
  - intros o n sid cv ip dev ex jt st id Ho Hs Hcv Hjt Hst Hx.
    destruct (SessionRepo.RotateJTI _ _ _ _ _ _ _ _ _ _ s) as [r s3] eqn:Hf. cbn in Hx. subst.
    destruct (RotateJTI_rotated _ _ _ _ _ _ _ _ _ _ _ _ _ Hwf Ho Hne Hs Hcv Hjt Hst Hf)
      as (_ & ops3 & n3 & h & up & Hadm3 & Hval & _). by eapply Hno.
  - intros x x' Hu Hx. destruct (SessionRepo.Create x s) as [r s3] eqn:Hf. cbn in Hx. subst.
    destruct (Create_created _ _ _ _ Hwf Hf) as (_ & _ & _ & ops3 & init & n & Hadm3 & _ & Hi & _).
    specialize (Hb ops3 Hadm3). destruct init.
    + destruct Hi as [Hi _]. destruct Hb as (h & He & _). congruence.
    + by destruct (access_is_inj _ _ _ _ _ _ Hi Hb).
Qed.

(** C3. A blocked user has no session.  After a block of [uid] returned without
    error, and until some process unblocks [uid], no lookup finds a session of
    [uid], no refresh token of [uid] is rotated, and no session is created for
    [uid]. *)
Theorem blocked_until_unblocked (uid : string) (s s1 s2 : S) :
  (forall op, interferes D op -> op <> OpUnblock uid) ->
  wf (rc_view s) ->
  SessionRepo.BlockAndDeleteAllByUser uid s = (Ok tt, s1) ->
  store_trace D (fun op => op <> OpUnblock uid) s1 s2 ->
  (forall jti sid cv x, cv <= maxInt -> (SessionRepo.FindByJTI jti uid sid cv s2).1 <> Ok (Some x))
  /\ (forall o n sid cv ip dev ex jt st id, o <> "" -> sid <> "" -> 0 < cv -> 0 < jt -> 0 < st ->
        (SessionRepo.RotateJTI o n uid sid cv ip dev ex jt st s2).1 <> Ok id)
  /\ (forall x x', Session.UserID x = uid -> (SessionRepo.Create x s2).1 <> Ok x').
Proof using CL.
  intros Hint Hwf Hblock Htr.
  destruct (block_leaves_blocked _ _ _ Hwf Hblock) as (Hne & Hwf1 & g & Hg).
  eapply blocked_refused; [done|done|by eapply store_trace_wf|by eapply blocked_trace].
Qed.

(** C2. A refresh token is used at most once.  After a rotation of [old] to
    another JTI returned without error, no lookup and no rotation accepts
    [old], under any identity, until an operation issues that very JTI again;
    so of two racing refreshes with the same token at most one succeeds. *)
Theorem refresh_token_single_use (old new uid sid : string) (cv : Z) (ip dev : string)
    (ex jt st : Z) (s s1 s2 : S) (id : string) :
  (forall op, interferes D op -> ~ issues op old) ->
  wf (rc_view s) -> old <> "" -> new <> old -> uid <> "" -> sid <> "" -> 0 < cv -> 0 < jt -> 0 < st ->
  SessionRepo.RotateJTI old new uid sid cv ip dev ex jt st s = (Ok id, s1) ->
  store_trace D (fun op => ~ issues op old) s1 s2 ->
  (forall u i v x, v <= maxInt -> (SessionRepo.FindByJTI old u i v s2).1 <> Ok (Some x))
  /\ (forall new' u i v ip' dev' ex' jt' st' id', u <> "" -> i <> "" -> 0 < v -> 0 < jt' -> 0 < st' ->
        (SessionRepo.RotateJTI old new' u i v ip' dev' ex' jt' st' s2).1 <> Ok id').
Proof using CL.
  intros Hint Hwf Ho Hnew Hu Hs Hcv Hjt Hst Hrot Htr.
  destruct (RotateJTI_consumes _ _ _ _ _ _ _ _ _ _ _ _ _ Hwf Ho Hnew Hu Hs Hcv Hjt Hst Hrot)
    as [Hwf1 Hgone].
  destruct (store_trace_absent old s1 s2 Hint Hwf1 Htr Hgone) as [Hwf2 Hgone2].
  split.
  - intros u i v x. by apply absent_jti_not_found.
  - intros new' u i v ip' dev' ex' jt' st' id'. by apply absent_jti_not_rotated.
Qed.

End Guarantees.

Lemma repository_keeps_invariant_witness :
  wf (rc_view (SessionRepo.BlockAndDeleteAllByUser "u1" Local.store1).2).
Proof.
  exact (proj1 (proj2 (proj2 (proj2 (proj2 (proj2 (proj2 (proj2
    (repository_keeps_invariant (D := undisturbed) Local.store1 (Local.session "s2" "u1" "j2")
       "j1" "j2" "u1" "s1" "" "" ["s1"] 1 0 10 0 600 600 Local.store1_wf))))))))).
Defined.

Lemma revoked_session_never_returns_witness :
  (SessionRepo.FindByJTI "j1" "u1" "s1" 1 Local.unblocked1).1
  <> Ok (Some (SessionRepo.found_session "s1" "u1" "j1" 1 1)).
Proof.
  assert (Ht : store_trace undisturbed (fun op => ~ creates op "s1") Local.blocked1 Local.unblocked1).
  { eapply store_trace_mono; [|apply UnblockUser_does]. intros op <- []. }
  apply (revoked_session_never_returns (D := undisturbed) "u1" "s1" Local.store1
           Local.blocked1 Local.unblocked1) with
    (jti := "j1") (jti' := "j2") (u := "u1") (cv := 1) (ip := "") (dev := "") (ex := 0)
    (jt := 600) (st := 600).
  - done.
  - apply Local.store1_wf.
  - intros v g Hv. vm_compute in Hv. congruence.
  - vm_compute. reflexivity.
  - exact Ht.
  - unfold maxInt. lia.
  - lia.
  - lia.
  - done.
  - done.
  - done.
Defined.

Lemma blocked_until_unblocked_witness :
  (SessionRepo.Create (Local.session "s3" "u1" "j3") Local.blocked1).1
  <> Ok (created_session (Local.session "s3" "u1" "j3") 2).
Proof.
  apply (blocked_until_unblocked (D := undisturbed) "u1" Local.store1 Local.blocked1 Local.blocked1).
  - done.
  - apply Local.store1_wf.
  - vm_compute. reflexivity.
  - apply store_trace_refl.
  - reflexivity.
Defined.

Lemma refresh_token_single_use_witness :
  (SessionRepo.FindByJTI "j1" "u1" "s1" 1 Local.rotated1).1
  <> Ok (Some (SessionRepo.found_session "s1" "u1" "j1" 1 1)).
Proof.
  apply (refresh_token_single_use (D := undisturbed) "j1" "j2" "u1" "s1" 1 "" "" 1600000000000 600 600
           Local.store1 Local.rotated1 Local.rotated1 "s1").
  - done.
  - apply Local.store1_wf.
  - done.
  - done.
  - done.
  - done.
  - lia.
  - lia.
  - lia.
  - vm_compute. reflexivity.
  - apply store_trace_refl.
  - unfold maxInt. lia.
Defined.

(** * Calls without interference *)

Section Undisturbed.
Context {S : Type} `{RedisClientLaws S undisturbed} `{Environment S} `{EmbeddedScripts}.
Context {CL : ClockLaws S undisturbed}.
Context (reg : gmap string string) (Hreg : embeddedScriptRegistry = Ok reg).

Lemma undisturbed_nil ops : admissible undisturbed ops -> ops = [].
Proof. by intros [|op ops' [_ []]]. Qed.

Lemma rc_run_undisturbed p s :
  exists s', rc_run p s = (reply_result (run_script p (rc_view s)).1, s')
             /\ rc_view s' = (run_script p (rc_view s)).2.
Proof.
  destruct (rc_run_law p s) as (ops & Hadm & Hl). rewrite (undisturbed_nil _ Hadm) in Hl.
  cbn [run_ops] in Hl. destruct (run_script p (rc_view s)) as [r ks'], (rc_run p s) as [x s'].
  destruct Hl as [[-> Hv]|[[] _]]. by exists s'.
Qed.

Lemma registered name : In name requiredScriptNames -> exists source, GetScript name = Ok source.
Proof using Hreg. apply (GetScript_registered reg name Hreg). Qed.

Lemma FindByJTI_undisturbed jti uid sid cv s :
  jti <> "" -> uid <> "" -> sid <> "" -> 0 < cv ->
  exists s', SessionRepo.FindByJTI jti uid sid cv s
             = (find_outcome (reply_result (run_script (get_script jti uid sid cv) (rc_view s)).1), s')
             /\ rc_view s' = (run_script (get_script jti uid sid cv) (rc_view s)).2.
Proof using Hreg.
  intros Hj Hu Hs Hc. rewrite FindByJTI_run.
  rewrite !(eqb_ne_string _ ""), (proj2 (Z.leb_gt _ _)) by (done || lia). cbn [orb].
  destruct (registered "get_session_by_jti") as [src ->]; [cbn; auto 12|].
  destruct (rc_run_undisturbed (get_script jti uid sid cv) s) as (s' & -> & Hv). by exists s'.
Qed.

Lemma FindByJTI_valid jti uid sid cv n s :
  jti <> "" -> uid <> "" -> sid <> "" -> 0 < cv <= maxInt ->
  valid_session (rc_view s) jti uid sid cv n ->
  exists s', SessionRepo.FindByJTI jti uid sid cv s
             = (Ok (Some (SessionRepo.found_session sid uid jti cv n)), s')
             /\ rc_view s' = rc_view s.
Proof using Hreg.
  intros Hj Hu Hs Hc Hval.
  destruct (FindByJTI_undisturbed jti uid sid cv s) as (s' & Hf & Hv); try done; try lia.
  rewrite (get_script_valid (rc_view s) jti uid sid cv) with (n := n) in Hf, Hv by (done || lia).
  exists s'. split; [|done]. rewrite Hf. f_equal. unfold find_outcome. cbn [reply_result fst session_reply res_bind cmd_Slice].
  destruct (vs_access _ _ _ _ _ _ Hval) as (_ & _ & _ & _ & Hn). by apply decode_session_reply.
Qed.

Lemma valid_session_kept ks ks' jti uid sid cv n :
  ks_entry ks' (accessKey uid) = ks_entry ks (accessKey uid) ->
  ks_entry ks' (jtiKey jti) = ks_entry ks (jtiKey jti) ->
  ks_entry ks' (idKey sid) = ks_entry ks (idKey sid) ->
  valid_session ks jti uid sid cv n -> valid_session ks' jti uid sid cv n.
Proof.
  intros Ea Ej Ei [Ha Hm (h & Hh & Hrest)]. split.
  - by eapply access_is_entry.
  - by rewrite (ks_get_entry _ _ _ Ej).
  - exists h. by rewrite (ks_get_entry _ _ _ Ei).
Qed.

(** From [ks] to [ks'] the three keys a session is looked up by were left as they
    are. *)
Definition untouched (uid jti sid : string) (ks ks' : keyspace) : Prop :=
  forall k, In k [accessKey uid; jtiKey jti; idKey sid] -> ks_entry ks' k = ks_entry ks k.

Lemma untouched_refl uid jti sid ks : untouched uid jti sid ks ks.
Proof. by intros k _. Qed.

Lemma untouched_valid uid jti sid ks ks' cv n :
  untouched uid jti sid ks ks' -> valid_session ks jti uid sid cv n -> valid_session ks' jti uid sid cv n.
Proof. intros Hu. by apply valid_session_kept; apply Hu; cbn; auto. Qed.

Lemma created_found (x x' : Session.t) (s s1 s2 : S) (d : Z) :
  wf (rc_view s) ->
  Session.CurrentJTI x <> "" -> Session.UserID x <> "" -> Session.ID x <> "" ->
  Session.CredentialVersion x <= maxInt ->
  SessionRepo.Create x s = (Ok x', s1) ->
  untouched (Session.UserID x) (Session.CurrentJTI x) (Session.ID x) (elapse d (rc_view s1)) (rc_view s2) ->
  0 <= d < 1000 * Session.SessionTTLSeconds x -> d < 1000 * Session.JTITTLSeconds x ->
  (SessionRepo.FindByJTI (Session.CurrentJTI x) (Session.UserID x) (Session.ID x)
     (Session.CredentialVersion x) s2).1
  = Ok (Some (SessionRepo.found_session (Session.ID x) (Session.UserID x) (Session.CurrentJTI x)
                (Session.CredentialVersion x) (Session.SessionGeneration x'))).
Proof using Hreg.
  intros Hwf Hj Hu Hi Hcv Hcreate Hv2 Hd Hd'.
  destruct (Create_created x s x' s1 Hwf Hcreate)
    as (Hst & Hjt & Hc & ops & init & n & Hadm & Hwf1 & Hi1 & -> & Hnow & Hf).
  rewrite (undisturbed_nil _ Hadm) in *. cbn [run_ops] in *.
  destruct (FindByJTI_valid (Session.CurrentJTI x) (Session.UserID x) (Session.ID x)
    (Session.CredentialVersion x) n s2) as (s3 & Hfind & _); try done.
  - eapply untouched_valid; [exact Hv2|]. by eapply creation_valid.
  - by rewrite Hfind.
Qed.

(** C25. A session that was created is found under its JTI, user, ID and
    credential version, with the generation the creation reported, at any
    instant before either of its lifetimes ends, whatever was done to the store
    since but to its three keys (its hash, its JTI's and the user's access
    state, which rotations, revocations and blocks change), and with no other
    process at the store during the two calls themselves. *)
Theorem create_then_find (x x' : Session.t) (s s1 s2 : S) (d : Z) :
  wf (rc_view s) ->
  Session.CurrentJTI x <> "" -> Session.UserID x <> "" -> Session.ID x <> "" ->
  Session.CredentialVersion x <= maxInt ->
  SessionRepo.Create x s = (Ok x', s1) ->
  untouched (Session.UserID x) (Session.CurrentJTI x) (Session.ID x) (elapse d (rc_view s1)) (rc_view s2) ->
  0 <= d < 1000 * Session.SessionTTLSeconds x -> d < 1000 * Session.JTITTLSeconds x ->
  (SessionRepo.FindByJTI (Session.CurrentJTI x) (Session.UserID x) (Session.ID x)
     (Session.CredentialVersion x) s2).1
  = Ok (Some (SessionRepo.found_session (Session.ID x) (Session.UserID x) (Session.CurrentJTI x)
                (Session.CredentialVersion x) (Session.SessionGeneration x'))).
Proof using Hreg. apply created_found. Qed.

(** After a rotation the new JTI is found, for the same session, user,
    credential version and generation, until its new lifetimes end. *)
Theorem rotate_then_find (old new uid sid ip dev : string) (cv ex jt st d : Z) (s s1 s2 : S) (id : string) :
  wf (rc_view s) -> old <> "" -> new <> "" -> uid <> "" -> sid <> "" -> 0 < cv <= maxInt ->
  0 < jt -> 0 < st ->
  SessionRepo.RotateJTI old new uid sid cv ip dev ex jt st s = (Ok id, s1) ->
  rc_view s2 = elapse d (rc_view s1) -> 0 <= d < 1000 * jt -> d < 1000 * st ->
  exists n, valid_session (rc_view s) old uid sid cv n
    /\ id = SessionRepo.extractSessionIDFromKey sid
    /\ (SessionRepo.FindByJTI new uid sid cv s2).1
       = Ok (Some (SessionRepo.found_session sid uid new cv n)).
Proof using CL Hreg.
  intros Hwf Ho Hn Hu Hs Hcv Hjt Hst Hrot Hv2 Hd Hd'.
  destruct (RotateJTI_rotated _ _ _ _ _ _ _ _ _ _ _ _ _ Hwf Ho Hu Hs (proj1 Hcv) Hjt Hst Hrot)
    as (-> & ops & n & h & up & Hadm & Hval & Hh & Hnow & Hf).
  rewrite (undisturbed_nil _ Hadm) in *. cbn [run_ops] in *.
  exists n. split; [done|]. split; [done|].
  destruct (FindByJTI_valid new uid sid cv n s2) as (s3 & Hfind & _); try done.
  - rewrite Hv2. by eapply (rotation_new_valid (rc_view s) (rc_view s1) old new uid sid _ _ _ _ cv n jt st h).
  - by rewrite Hfind.
Qed.

(** A valid session whose keys and access state an operation kept. *)
Lemma owned_indexed_owner ks uid cur k : owned_indexed ks uid cur k = true -> owner_of ks k = Some uid.
Proof.
  unfold owned_indexed, revoked, candidates_of. intros Hr.
  apply existsb_exists in Hr as (c & Hin & Hc). apply in_map_iff in Hin as (k' & <- & _).
  cbn in Hc. breflect. subst k'.
  destruct (owner_of ks k) as [o|]; cbn in *; [breflect; congruence|done].
Qed.

Lemma valid_owner ks jti uid sid cv n : valid_session ks jti uid sid cv n -> owner_of ks (idKey sid) = Some uid.
Proof. intros [_ _ (h & Hh & _ & Hu & _)]. unfold owner_of. by rewrite Hh. Qed.

(** Revoking a user's sessions keeps every valid session of other users. *)
Lemma revocation_isolated ks ks1 ks' uid cur jti v sid cv n :
  (forall k, class_of k <> KAccess -> ks_entry ks1 k = ks_entry ks k) ->
  (v <> uid -> ks_entry ks1 (accessKey v) = ks_entry ks (accessKey v)) ->
  revocation uid (owned_indexed ks uid cur) ks1 ks' -> v <> uid ->
  valid_session ks jti v sid cv n -> valid_session ks' jti v sid cv n.
Proof.
  intros Hk1 Ha1 Hrv Hne Hval. specialize (Ha1 Hne).
  pose proof (vs_mapping _ _ _ _ _ _ Hval) as Hmap.
  assert (Hnot : owned_indexed ks uid cur (idKey sid) = false).
  { destruct (owned_indexed ks uid cur (idKey sid)) eqn:E; [|done].
    apply owned_indexed_owner in E. rewrite (valid_owner _ _ _ _ _ _ Hval) in E. congruence. }
  assert (Hcl : forall k, class_of k <> KId -> owned_indexed ks uid cur k = false).
  { intros k Hc. destruct (owned_indexed ks uid cur k) eqn:E; [|done].
    by apply owned_indexed_class in E. }
  revert Hval. apply valid_session_kept.
  - rewrite (rv_kept _ _ _ _ Hrv); [done|apply Hcl; by autorewrite with goat|key_ne|].
    intros s E. by rewrite class_accessKey in E.
  - rewrite (rv_kept _ _ _ _ Hrv); [by apply Hk1; autorewrite with goat|apply Hcl; by autorewrite with goat|key_ne|].
    intros s _ E. rewrite (ks_get_entry _ ks), Hmap in E; [by injection E as <-|].
    apply Hk1. by rewrite class_jtiKey.
  - rewrite (rv_kept _ _ _ _ Hrv); [by apply Hk1; autorewrite with goat|done|key_ne|].
    intros s E. by rewrite class_idKey in E.
Qed.

(** The three calls that revoke a user's sessions, as one script each. *)
Lemma run_unit_undisturbed p s :
  exists s', SessionRepo.run_unit p s
             = (match reply_result (run_script p (rc_view s)).1 with Ok _ => Ok tt | Err e => Err e end, s')
             /\ rc_view s' = (run_script p (rc_view s)).2.
Proof.
  unfold SessionRepo.run_unit, bind. destruct (rc_run_undisturbed p s) as (s' & -> & Hv). exists s'.
  by destruct (reply_result _).
Qed.

(** Deleting or blocking all sessions of a user, or all but the current
    one, leaves every valid session of every other user valid. *)
Theorem revocation_spares_other_users (uid v sid cur jti : string) (cv n : Z) (s : S) :
  wf (rc_view s) -> uid <> "" -> v <> uid -> valid_session (rc_view s) jti v sid cv n ->
  valid_session (rc_view (SessionRepo.DeleteAllByUser uid s).2) jti v sid cv n
  /\ valid_session (rc_view (SessionRepo.BlockAndDeleteAllByUser uid s).2) jti v sid cv n
  /\ valid_session (rc_view (SessionRepo.DeleteOthersByUser uid cur s).2) jti v sid cv n.
Proof using Hreg.
  intros Hwf Hne Hvu Hval.
  destruct (registered "delete_other_sessions") as [src Hsrc]; [cbn; auto 12|].
  split; [|split].
  - unfold SessionRepo.DeleteAllByUser, SessionRepo.resolve.
    rewrite (eqb_ne_string uid "") by done. rewrite Hsrc. cbv zeta. rewrite bind_ret_l.
    destruct (run_unit_undisturbed (delete_all_script uid) s) as (s' & Hr & Hv).
    change (delete_other_sessions _ _) with (delete_all_script uid). rewrite Hr. cbn [snd]. rewrite Hv.
    destruct (delete_all_run (rc_view s) uid (wf_typed _ Hwf) Hne) as (m & ks' & -> & _ & Hrv).
    by eapply (revocation_isolated (rc_view s) (rc_view s)).
  - unfold SessionRepo.BlockAndDeleteAllByUser, SessionRepo.resolve.
    rewrite (eqb_ne_string uid "") by done. rewrite Hsrc. cbv zeta. rewrite bind_ret_l.
    destruct (run_unit_undisturbed (block_script uid) s) as (s' & Hr & Hv).
    change (delete_other_sessions _ _) with (block_script uid). rewrite Hr. cbn [snd]. rewrite Hv.
    destruct (block_run (rc_view s) uid Hwf Hne) as [[_ ->]|(g & m & ks' & _ & -> & _ & Hrv)]; [done|].
    eapply (revocation_isolated (rc_view s)); [| |exact Hrv|done|done].
    + intros k Hk. apply ks_entry_set_access_ne. intros ->. by rewrite class_accessKey in Hk.
    + intros _. apply ks_entry_set_access_ne. intros E. by apply accessKey_inj in E.
  - unfold SessionRepo.DeleteOthersByUser, SessionRepo.resolve.
    rewrite Hsrc. cbv zeta. rewrite bind_ret_l.
    change (delete_other_sessions _ _) with (delete_others_script uid cur). unfold bind.
    destruct (rc_run_undisturbed (delete_others_script uid cur) s) as (s' & -> & Hv).
    destruct (delete_others_run (rc_view s) uid cur (wf_typed _ Hwf) Hne)
      as [[_ Hr]|(m & ks' & _ & Hm & Hr & Hrv)]; rewrite Hr in Hv |- *; cbn in *; rewrite Hv; [done|].
    by eapply (revocation_isolated (rc_view s) (rc_view s)).
Qed.

(** Deleting all sessions of a user really deletes them: the call returns
    without error, and no session the user's index named, and the user owned,
    is left in the store. *)
Theorem delete_all_removes_indexed (uid : string) (s : S) :
  wf (rc_view s) -> uid <> "" ->
  exists s', SessionRepo.DeleteAllByUser uid s = (Ok tt, s')
    /\ forall k, In k (indexed_keys (rc_view s) uid) -> owner_of (rc_view s) k = Some uid ->
                 class_of k = KId -> ks_get (rc_view s') k = None.
Proof using Hreg.
  intros Hwf Hne. destruct (registered "delete_other_sessions") as [src Hsrc]; [cbn; auto 12|].
  unfold SessionRepo.DeleteAllByUser, SessionRepo.resolve.
  rewrite (eqb_ne_string uid "") by done. rewrite Hsrc. cbv zeta. rewrite bind_ret_l.
  destruct (run_unit_undisturbed (delete_all_script uid) s) as (s' & Hr & Hv).
  change (delete_other_sessions _ _) with (delete_all_script uid). rewrite Hr. exists s'.
  destruct (delete_all_run (rc_view s) uid (wf_typed _ Hwf) Hne) as (m & ks' & Hd & _ & Hrv).
  rewrite Hd in Hv |- *. cbn in *. split; [done|]. intros k Hin Ho Hk. rewrite Hv.
  unfold ks_get. rewrite (rv_gone _ _ _ _ Hrv); [done|].
  apply existsb_exists. exists (candidate_at (rc_view s) uid k). split.
  - apply in_map. apply filter_In. split; [done|reflexivity].
  - cbn [candidate_at ca_owner ca_hasSessionPrefix ca_sessionKey]. rewrite Ho. cbn [eq_opt].
    rewrite !eqb_refl_string. cbn [andb]. rewrite andb_true_r.
    destruct (class_KId_inv k Hk) as [i ->]. apply HasPrefix_app.
Qed.
End Undisturbed.

Lemma create_then_find_witness :
  (SessionRepo.FindByJTI "j1" "u1" "s1" 1 (elapse 599999 Local.store1)).1
  = Ok (Some (SessionRepo.found_session "s1" "u1" "j1" 1 1)).
Proof.
  apply (create_then_find Local.registry Local.registry_ok (Local.session "s1" "u1" "j1")
           (created_session (Local.session "s1" "u1" "j1") 1) Local.store Local.store1
           (elapse 599999 Local.store1) 599999).
  - apply Local.store_wf.
  - done.
  - done.
  - done.
  - unfold maxInt. cbn. lia.
  - vm_compute. reflexivity.
  - apply untouched_refl.
  - cbn. lia.
  - cbn. lia.
Defined.

Lemma rotate_then_find_witness :
  exists n, valid_session (rc_view (D := undisturbed) Local.store1) "j1" "u1" "s1" 1 n
    /\ "s1" = SessionRepo.extractSessionIDFromKey "s1"
    /\ (SessionRepo.FindByJTI "j2" "u1" "s1" 1 (elapse 1000 Local.rotated1)).1
       = Ok (Some (SessionRepo.found_session "s1" "u1" "j2" 1 n)).
Proof.
  apply (rotate_then_find Local.registry Local.registry_ok "j1" "j2" "u1" "s1" "" "" 1
           1600000000000 600 600 1000 Local.store1 Local.rotated1 (elapse 1000 Local.rotated1) "s1").
  - apply Local.store1_wf.
  - done.
  - done.
  - done.
  - done.
  - unfold maxInt. lia.
  - lia.
  - lia.
  - vm_compute. reflexivity.
  - reflexivity.
  - lia.
  - lia.
Defined.

Lemma store1_valid : valid_session Local.store1 "j1" "u1" "s1" 1 1.
Proof.
  split.
  - eexists. split; [vm_compute; reflexivity|].
    split; [vm_compute; reflexivity|]. split; [vm_compute; reflexivity|].
    unfold maxSafeGeneration. lia.
  - reflexivity.
  - eexists. split; [vm_compute; reflexivity|]. repeat split; vm_compute; reflexivity.
Qed.

Lemma revocation_spares_other_users_witness :
  valid_session (rc_view (D := undisturbed) (SessionRepo.BlockAndDeleteAllByUser "u2" Local.store1).2) "j1" "u1" "s1" 1 1.
Proof.
  apply (revocation_spares_other_users Local.registry Local.registry_ok "u2" "u1" "s1" "s2" "j1" 1 1
           Local.store1).
  - apply Local.store1_wf.
  - done.
  - done.
  - apply store1_valid.
Defined.

Lemma delete_all_removes_indexed_witness :
  exists s', SessionRepo.DeleteAllByUser "u1" Local.store1 = (Ok tt, s')
    /\ forall k, In k (indexed_keys (rc_view (D := undisturbed) Local.store1) "u1") ->
                 owner_of (rc_view (D := undisturbed) Local.store1) k = Some "u1" ->
                 class_of k = KId -> ks_get (rc_view (D := undisturbed) s') k = None.
Proof.
  apply (delete_all_removes_indexed Local.registry Local.registry_ok "u1" Local.store1).
  - apply Local.store1_wf.
  - done.
Defined.
