(* ===== verification/SessionUseCase.v ===== *)
(** internal/usecase/session: the session workflows over the session
    repository port.  Log calls are left out: no code reads the log. *)
From S2P Require Export SessionGuarantees.

(** [ulid.ParseStrict] of github.com/oklog/ulid: whether it accepts. *)
Class ULIDParser := ulid_ParseStrict : string -> bool.

Module SessionUC.

Record SessionOutput := {
  so_ID : string; so_Device : string; so_IP : string;
  so_CreatedAt : Z; so_UpdatedAt : Z; so_Current : bool;
}.

Record CreateInput := {
  ci_ID : string; ci_UserID : string; ci_Device : string; ci_IP : string;
  ci_CurrentJTI : string; ci_CredentialVersion : Z;
  ci_SessionTTL : Z; ci_JTITTL : Z;
}.

Record DeleteSessionsInput := {
  di_UserID : string; di_CurrentSession : string;
  di_TargetSessions : list string; di_RemoveOthers : bool;
}.

Record RotateInput := {
  ri_UserID : string; ri_SessionID : string; ri_OldJTI : string; ri_CurrentJTI : string;
  ri_CredentialVersion : Z; ri_Device : string; ri_IP : string;
  ri_SessionTTL : Z; ri_JTITTL : Z;
}.

Record ValidateInput := {
  vi_UserID : string; vi_SessionID : string; vi_JTI : string; vi_CredentialVersion : Z;
}.

Section UseCase.
Context {S : Type} `{SessionRepository S} `{Environment S} `{ULIDParser}.

Definition isValidSessionID (sessionID : string) : bool := ulid_ParseStrict sessionID.

(** The entity [CreateSession] stores, at instant [now]. *)
Definition new_session (input : CreateInput) (now : Z) : Session.t :=
  {| Session.ID := ci_ID input;
     Session.UserID := ci_UserID input;
     Session.CredentialVersion := ci_CredentialVersion input;
     Session.SessionGeneration := 0;
     Session.Device := ci_Device input;
     Session.IP := ci_IP input;
     Session.CurrentJTI := ci_CurrentJTI input;
     Session.CreatedAt := now;
     Session.ExpiresAt := now + ci_SessionTTL input;
     Session.UpdatedAt := now;
     Session.JTITTLSeconds := duration_seconds (ci_JTITTL input);
     Session.SessionTTLSeconds := duration_seconds (ci_SessionTTL input) |}.

Definition CreateSession (input : CreateInput) : M S unit :=
  if ci_CredentialVersion input <=? 0 then fail (ENew "credential version must be positive")
  else
    let! now := time_Now in
    let! _ := sr_Create (new_session input now) in
    ret tt.

Definition session_output (sessionID : string) (se : Session.t) : SessionOutput :=
  {| so_ID := Session.ID se; so_Device := Session.Device se; so_IP := Session.IP se;
     so_CreatedAt := Session.CreatedAt se; so_UpdatedAt := Session.UpdatedAt se;
     so_Current := Session.ID se =s sessionID |}.

Definition GetSessionsByUser (userID sessionID : string) (offset limit : Z)
    : M S (list SessionOutput * Z) :=
  let! found := sr_ListByUser userID offset limit in
  let '(sessions, total) := found in
  ret (map (session_output sessionID) sessions, total).

Definition RotateSessionJTI (input : RotateInput) : M S string :=
  if (ri_UserID input =s "") || (ri_SessionID input =s "") || (ri_OldJTI input =s "")
     || (ri_CurrentJTI input =s "") || (ri_CredentialVersion input <=? 0)
  then fail ErrUnauthorized
  else
    let! now := time_Now in
    let expiresAt := now + ri_SessionTTL input in
    let! sessionID :=
      sr_RotateJTI (ri_OldJTI input) (ri_CurrentJTI input) (ri_UserID input) (ri_SessionID input)
        (ri_CredentialVersion input) (ri_IP input) (ri_Device input) expiresAt
        (duration_seconds (ri_JTITTL input)) (duration_seconds (ri_SessionTTL input)) in
    if sessionID =s "" then fail ErrUnauthorized else ret sessionID.

Definition validateSession (input : ValidateInput) : M S (option Session.t * bool) :=
  if (vi_UserID input =s "") || (vi_JTI input =s "") then ret (None, false)
  else
    let! current := sr_FindByJTI (vi_JTI input) (vi_UserID input) (vi_SessionID input)
                      (vi_CredentialVersion input) in
    match current with
    | None => ret (None, false)
    | Some c =>
        if (Session.ID c =s "") || (Session.UserID c <>s vi_UserID input)
           || (Session.CurrentJTI c <>s vi_JTI input)
           || (Session.CredentialVersion c <=? 0) || (Session.SessionGeneration c <=? 0)
           || negb (Session.CredentialVersion c =? vi_CredentialVersion input)
           || ((vi_SessionID input <>s "") && (Session.ID c <>s vi_SessionID input))
        then ret (None, false)
        else ret (Some c, true)
    end.

Definition ValidateSession (input : ValidateInput) : M S bool :=
  if (vi_UserID input =s "") || (vi_SessionID input =s "") || (vi_JTI input =s "")
     || (vi_CredentialVersion input <=? 0)
  then ret false
  else let! r := validateSession input in ret r.2.

Definition DeleteSessions (input : DeleteSessionsInput) : M S unit :=
  if di_UserID input =s "" then fail ErrUnauthorized
  else if di_RemoveOthers input then
    if negb (isValidSessionID (di_CurrentSession input)) then fail ErrInvalidSessionSelection
    else
      let! currentOwned := sr_DeleteOthersByUser (di_UserID input) (di_CurrentSession input) in
      if currentOwned then ret tt else fail ErrNotFound
  else
    match di_TargetSessions input with
    | [] => fail ErrInvalidSessionSelection
    | targets =>
        if negb (forallb isValidSessionID targets) then fail ErrInvalidSessionSelection
        else
          let! deleted := sr_DeleteByUser (di_UserID input) targets in
          if deleted then ret tt else fail ErrNotFound
    end.

(** What a validation answers, in terms of the lookup. *)
Lemma ValidateSession_true_inv input s s' :
  ValidateSession input s = (Ok true, s') ->
  exists c, sr_FindByJTI (vi_JTI input) (vi_UserID input) (vi_SessionID input)
              (vi_CredentialVersion input) s = (Ok (Some c), s')
    /\ Session.ID c = vi_SessionID input /\ Session.UserID c = vi_UserID input
    /\ Session.CurrentJTI c = vi_JTI input
    /\ Session.CredentialVersion c = vi_CredentialVersion input
    /\ 0 < Session.CredentialVersion c /\ 0 < Session.SessionGeneration c
    /\ vi_SessionID input <> "".
Proof.
  unfold ValidateSession. destruct (_ || _ || _ || _) eqn:E; [intros [=]|]. breflect.
  intros ([o b] & s1 & Hv & Hr)%bind_Ok_inv. injection Hr as Hb <-. cbn in Hb. subst b.
  unfold validateSession in Hv. destruct (_ || _) eqn:E'; [discriminate|].
  apply bind_Ok_inv in Hv as ([c|] & s2 & Hf & Hr); [|discriminate].
  match type of Hr with (if ?b then _ else _) _ = _ => destruct b eqn:E2; [discriminate|] end.
  injection Hr as _ <-. exists c. split; [exact Hf|].
  breflect. repeat split; try done; try congruence; try lia.
  match goal with H : _ \/ _ |- _ => destruct H; breflect; congruence end.
Qed.

End UseCase.
End SessionUC.
