(* ===== verification/Authorization.v ===== *)
(** internal/usecase/authorization: principals, and the fresh checks of a
    verified token against the authoritative user state. *)
From S2P Require Export Domain.

Module Authorization.

(** The zero value is not valid; other values come from [NewPrincipal]. *)
Record Principal := {
  userID : string;
  sessionID : string;
  credentialVersion : Z;
  role : Z;
  permissions : Permission.PermissionSet;
}.

Definition isKnownRole (r : Z) : bool :=
  (r =? Role.RoleClient) || (r =? Role.RoleOperator) || (r =? Role.RoleAdmin).

Definition NewPrincipal (userID sessionID : string) (credentialVersion role : Z)
    (permissions : Permission.PermissionSet) : res Principal :=
  if (userID =s "") || (sessionID =s "") then Err (ENew "principal identity is incomplete")
  else if credentialVersion <=? 0 then Err (ENew "principal credential version must be positive")
  else if negb (isKnownRole role) then Err (ENew "principal role is invalid")
  else Ok {| userID := userID; sessionID := sessionID; credentialVersion := credentialVersion;
             role := role; permissions := permissions |}.

Definition IsValid (p : Principal) : bool :=
  (userID p <>s "") && (sessionID p <>s "") && (0 <? credentialVersion p) && isKnownRole (role p).

Definition classifyStateReadError (e : err) : err :=
  if errors_is e ErrUserNotFound
  then EWrap "principal state" [ESentinel ErrPrincipalSecurityStateChanged; e]
  else e.

Definition validateIdentityState (state : IdentityState) : res unit :=
  if id_UserID state =s "" then Err (ENew "authoritative user identity is empty")
  else if id_CredentialVersion state <=? 0
  then Err (ENew "authoritative credential version must be positive")
  else Ok tt.

Definition validateSecurityState (state : SecurityState) : res unit :=
  letr _ := validateIdentityState {| id_UserID := sec_UserID state; id_Status := sec_Status state;
                                     id_CredentialVersion := sec_CredentialVersion state |} in
  if negb (isKnownRole (sec_Role state)) then Err (ENew "authoritative user role is invalid")
  else Ok tt.

Definition validateActiveStatus (status : Z) : res unit :=
  if status =? Status.StatusInactive then Err ErrPrincipalInactive
  else if status =? Status.StatusSuspended then Err ErrPrincipalSuspended
  else if status =? Status.StatusActive then Ok tt
  else Err (ENew "authoritative user status is invalid").

Section UseCase.
Context {S : Type} `{StateReaders S}.

Definition AuthorizeFreshIdentity (principal : Principal) : M S Principal :=
  if negb (IsValid principal) then fail ErrPrincipalSecurityStateChanged
  else
    let! state := map_err classifyStateReadError (GetIdentityState (userID principal)) in
    do! of_res (validateIdentityState state) in
    if (id_UserID state <>s userID principal)
       || negb (id_CredentialVersion state =? credentialVersion principal)
    then fail ErrPrincipalSecurityStateChanged
    else
      do! of_res (validateActiveStatus (id_Status state)) in
      of_res (NewPrincipal (id_UserID state) (sessionID principal) (id_CredentialVersion state)
                (role principal) (permissions principal)).

Definition AuthorizeFresh (principal : Principal) (required : Permission.Permission) : M S Principal :=
  if negb (IsValid principal) then fail ErrPrincipalSecurityStateChanged
  else
    let! state := map_err classifyStateReadError (GetSecurityState (userID principal)) in
    do! of_res (validateSecurityState state) in
    if (sec_UserID state <>s userID principal)
       || negb (sec_CredentialVersion state =? credentialVersion principal)
    then fail ErrPrincipalSecurityStateChanged
    else
      do! of_res (validateActiveStatus (sec_Status state)) in
      do! (if required <>s "" then
             match Permission.ParsePermission required with
             | Err e => fail (wrap1 "required permission is invalid" e)
             | Ok _ => if negb (Permission.Has (sec_Permissions state) required)
                       then fail ErrPermissionDenied else ret tt
             end
           else ret tt) in
      of_res (NewPrincipal (sec_UserID state) (sessionID principal) (sec_CredentialVersion state)
                (sec_Role state) (sec_Permissions state)).

(** ** Lemmas *)

Lemma isKnownRole_IsKnown r : isKnownRole r = Role.IsKnown r.
Proof.
  unfold isKnownRole, Role.RoleClient, Role.RoleOperator, Role.RoleAdmin.
  destruct (Role.IsKnown r) eqn:E.
  - apply Role.IsKnown_spec in E as [-> | [-> | ->]]; reflexivity.
  - destruct ((r =? 1) || (r =? 2) || (r =? 3)) eqn:F; [|done].
    enough (Role.IsKnown r = true) by congruence. apply Role.IsKnown_spec.
    breflect. destruct F as [F|F]; [|breflect; auto].
    apply orb_true_iff in F as [F|F]; breflect; auto.
Qed.

Lemma NewPrincipal_Ok u sid cv r ps p :
  NewPrincipal u sid cv r ps = Ok p ->
  p = {| userID := u; sessionID := sid; credentialVersion := cv; role := r; permissions := ps |}
  /\ IsValid p = true.
Proof.
  unfold NewPrincipal. destruct (_ || _) eqn:E1; [discriminate|].
  destruct (cv <=? 0) eqn:E2; [discriminate|]. destruct (negb _) eqn:E3; [discriminate|].
  intros [= <-]. split; [done|]. breflect. unfold IsValid. cbn.
  rewrite !eqb_ne_string by done. rewrite E3. rewrite (proj2 (Z.ltb_lt _ _)); [done|lia].
Qed.

Lemma NewPrincipal_IsValid u sid cv r ps :
  u <> "" -> sid <> "" -> 0 < cv -> isKnownRole r = true ->
  NewPrincipal u sid cv r ps
  = Ok {| userID := u; sessionID := sid; credentialVersion := cv; role := r; permissions := ps |}.
Proof.
  intros Hu Hs Hc Hr. unfold NewPrincipal. rewrite !eqb_ne_string by done.
  rewrite (proj2 (Z.leb_gt _ _)) by lia. by rewrite Hr.
Qed.

Lemma validateActiveStatus_Ok st u : validateActiveStatus st = Ok u -> st = Status.StatusActive.
Proof.
  unfold validateActiveStatus. destruct (_ =? _) eqn:?; [discriminate|].
  destruct (st =? Status.StatusSuspended) eqn:?; [discriminate|].
  destruct (st =? Status.StatusActive) eqn:?; [by breflect|discriminate].
Qed.

Lemma AuthorizeFresh_Ok (p p' : Principal) (required : Permission.Permission) (s s' : S) :
  AuthorizeFresh p required s = (Ok p', s') ->
  IsValid p = true
  /\ exists state, GetSecurityState (userID p) s = (Ok state, s')
     /\ sec_UserID state = userID p /\ sec_CredentialVersion state = credentialVersion p
     /\ isKnownRole (sec_Role state) = true /\ sec_Status state = Status.StatusActive
     /\ (required = "" \/ (Permission.known required = true
                           /\ Permission.Has (sec_Permissions state) required = true))
     /\ p' = {| userID := userID p; sessionID := sessionID p;
                credentialVersion := credentialVersion p;
                role := sec_Role state; permissions := sec_Permissions state |}.
Proof.
  unfold AuthorizeFresh. destruct (IsValid p) eqn:Hv; [|discriminate]. cbn [negb].
  intros (state & s1 & Hr & H1)%bind_Ok_inv. apply map_err_Ok_inv in Hr.
  apply bind_Ok_inv in H1 as (u & s2 & Hval & H1). injection Hval as Hval <-.
  destruct (_ || _) eqn:E in H1; [discriminate|]. breflect.
  apply bind_Ok_inv in H1 as (u' & s2 & Hact & H1). injection Hact as Hact <-.
  apply bind_Ok_inv in H1 as (u'' & s2 & Hreq & H1). injection H1 as Hnew <-.
  apply NewPrincipal_Ok in Hnew as [-> Hv'].
  split; [done|]. exists state.
  assert (Hs2 : s2 = s1 /\ (required = "" \/ (Permission.known required = true
                         /\ Permission.Has (sec_Permissions state) required = true))).
  { destruct (required =s "") eqn:Er; cbn in Hreq; breflect.
    - injection Hreq as _ <-. auto.
    - unfold Permission.ParsePermission in Hreq. destruct (Permission.known required); [|discriminate].
      destruct (Permission.Has _ _) eqn:Eh; [|discriminate]. injection Hreq as _ <-. auto. }
  destruct Hs2 as [-> Hreq']. split; [done|]. split; [done|]. split; [done|].
  apply validateActiveStatus_Ok in Hact.
  unfold IsValid in Hv'. breflect. split; [done|]. split; [done|]. split; [done|]. congruence.
Qed.

(** C13. A fresh authorisation grants exactly what the authoritative state
    grants: it succeeds if and only if the principal is valid, the state read
    for it names the same user and credential version, a known role and an
    active user, and, when a permission is required, that permission is a
    known one the state holds; the principal it returns carries the role and
    the permissions of the state, never those of the token. *)
Theorem AuthorizeFresh_iff (p p' : Principal) (required : Permission.Permission) (s s' : S) :
  AuthorizeFresh p required s = (Ok p', s') <->
  IsValid p = true
  /\ exists state, GetSecurityState (userID p) s = (Ok state, s')
     /\ sec_UserID state = userID p /\ sec_CredentialVersion state = credentialVersion p
     /\ isKnownRole (sec_Role state) = true /\ sec_Status state = Status.StatusActive
     /\ (required = "" \/ (Permission.known required = true
                           /\ Permission.Has (sec_Permissions state) required = true))
     /\ p' = {| userID := userID p; sessionID := sessionID p;
                credentialVersion := credentialVersion p;
                role := sec_Role state; permissions := sec_Permissions state |}.
Proof.
  split; [apply AuthorizeFresh_Ok|].
  intros (Hv & state & Hr & Hu & Hc & Hrole & Hst & Hreq & ->).
  pose proof Hv as Hv'. unfold IsValid in Hv'. breflect.
  unfold AuthorizeFresh. rewrite Hv. cbn [negb]. unfold bind, map_err. rewrite Hr. cbn.
  unfold validateSecurityState, validateIdentityState. cbn. rewrite Hu, Hc, Hrole, Hst.
  rewrite (eqb_ne_string (userID p) ""), (proj2 (Z.leb_gt _ _)), eqb_refl_string, Z.eqb_refl by done.
  cbn. destruct Hreq as [-> | [Hk Hh]].
  + cbn. unfold of_res. by rewrite NewPrincipal_IsValid.
  + unfold Permission.ParsePermission. rewrite Hk, Hh.
    destruct (required =s ""); cbn; unfold of_res; by rewrite NewPrincipal_IsValid.
Qed.

Lemma AuthorizeFreshIdentity_Ok (p p' : Principal) (s s' : S) :
  AuthorizeFreshIdentity p s = (Ok p', s') ->
  IsValid p = true
  /\ exists state, GetIdentityState (userID p) s = (Ok state, s')
     /\ id_UserID state = userID p /\ id_CredentialVersion state = credentialVersion p
     /\ id_Status state = Status.StatusActive /\ p' = p.
Proof.
  unfold AuthorizeFreshIdentity. destruct (IsValid p) eqn:Hv; [|discriminate]. cbn [negb].
  intros (state & s1 & Hr & H1)%bind_Ok_inv. apply map_err_Ok_inv in Hr.
  apply bind_Ok_inv in H1 as (u & s2 & Hval & H1). injection Hval as Hval <-.
  destruct (_ || _) eqn:E in H1; [discriminate|]. breflect.
  apply bind_Ok_inv in H1 as (u' & s2 & Hact & H1). injection Hact as Hact <-.
  injection H1 as Hnew <-. apply NewPrincipal_Ok in Hnew as [-> _].
  apply validateActiveStatus_Ok in Hact. split; [done|]. exists state.
  split; [done|]. split; [done|]. split; [done|]. split; [done|].
  destruct p; cbn in *; congruence.
Qed.

(** The identity check of a self-service request succeeds if and only if
    the principal is valid and the authoritative user is active and has the
    credential version of the token; so a token issued before a password
    change, or to a user since suspended or deleted, is refused. *)
Theorem AuthorizeFreshIdentity_iff (p p' : Principal) (s s' : S) :
  AuthorizeFreshIdentity p s = (Ok p', s') <->
  IsValid p = true
  /\ exists state, GetIdentityState (userID p) s = (Ok state, s')
     /\ id_UserID state = userID p /\ id_CredentialVersion state = credentialVersion p
     /\ id_Status state = Status.StatusActive /\ p' = p.
Proof.
  split; [apply AuthorizeFreshIdentity_Ok|].
  intros (Hv & state & Hr & Hu & Hc & Hst & ->).
  pose proof Hv as Hv'. unfold IsValid in Hv'. breflect.
  unfold AuthorizeFreshIdentity. rewrite Hv. cbn [negb]. unfold bind, map_err. rewrite Hr. cbn.
  unfold validateIdentityState. rewrite Hu, Hc, Hst.
  rewrite (eqb_ne_string (userID p) ""), (proj2 (Z.leb_gt _ _)), eqb_refl_string, Z.eqb_refl by done.
  cbn. unfold of_res. rewrite NewPrincipal_IsValid by done. by destruct p.
Qed.
End UseCase.

End Authorization.
