(* ===== verification/Authentication.v ===== *)
(** internal/usecase/authentication: sign-up, login, refresh and logout, over
    the user, session, security-state, password and token ports. *)
From S2P Require Export SessionUseCase Authorization.
Import SessionUC.

Module Authentication.

Record UserOutput := {
  uo_ID : string; uo_Email : string; uo_Role : string; uo_Status : string; uo_CreatedAt : Z;
}.
Record RegisterInput := { rg_Email : string; rg_Password : string }.
Record LoginInput := { lg_Email : string; lg_Password : string; lg_IP : string; lg_Device : string }.
Record LoginOutput := {
  lo_AccessToken : string; lo_AccessTokenExpiresAt : Z;
  lo_RefreshToken : string; lo_RefreshTokenExpiresAt : Z;
  lo_User : UserOutput;
}.
Record RefreshInput := { rf_RefreshToken : string; rf_IP : string; rf_Device : string }.
Record RefreshOutput := {
  ro_AccessToken : string; ro_AccessTokenExpiresAt : Z;
  ro_RefreshToken : string; ro_RefreshTokenExpiresAt : Z;
}.

(** The lifetimes of [Dependencies]. *)
Record Lifetimes := { accessTTL : Z; refreshTTL : Z; sessionTTL : Z }.

Definition NewCurrentSessionInvalidError (cause : err) : err := ECurrentSession (Some cause).

Definition authenticationStatusError (status : Z) : option err :=
  if status =? Status.StatusInactive then Some (ESentinel ErrPrincipalInactive)
  else if status =? Status.StatusSuspended then Some (ESentinel ErrAccountSuspended)
  else if status =? Status.StatusActive then None
  else Some (ENew "authoritative user status is invalid").

(** [if err := f(...); err != nil { return err }] *)
Definition check {S} (o : option err) : M S unit :=
  match o with Some e => fail e | None => ret tt end.

Section UseCase.
Context {S : Type} `{UserRepository S} `{StateReaders S} `{SessionRepository S}
  `{PasswordHasher S} `{JWTService S} `{Environment S} `{ULIDParser} `{Unicode}.
Context (ttl : Lifetimes).

Definition Signup (input : RegisterInput) : M S UserOutput :=
  let! password := of_res (Password.NewPlainPassword (rg_Password input)) in
  let! digest := ph_Hash password in
  let! id := uuid_New in
  let! now := time_Now in
  let usr := {| User.ID := id;
                User.Email := rg_Email input;
                User.PasswordDigest := digest;
                User.Status := Status.StatusInactive;
                User.Role := Role.RoleClient;
                User.CredentialVersion := InitialCredentialVersion;
                User.CreatedAt := now;
                User.UpdatedAt := None |} in
  do! ur_Create usr in
  ret {| uo_ID := User.ID usr; uo_Email := User.Email usr;
         uo_Role := Role.String (User.Role usr); uo_Status := Status.String (User.Status usr);
         uo_CreatedAt := User.CreatedAt usr |}.

(** [if errors.Is(err, ErrInvalidStoredPasswordHash)], in both places of [Login]. *)
Definition invalid_credentials_of (e : err) : err :=
  if errors_is e ErrInvalidStoredPasswordHash
  then EWrap "login" [ESentinel ErrInvalidCredentials; e] else e.

Definition blocked_as_suspended (e : err) : err :=
  if errors_is e ErrUserAccessBlocked then ESentinel ErrAccountSuspended else e.

Definition Login (input : LoginInput) : M S LoginOutput :=
  let! found := map_err invalid_credentials_of (ur_FindByEmail (lg_Email input)) in
  match found with
  | None => fail ErrInvalidCredentials
  | Some userEntity =>
      do! check (authenticationStatusError (User.Status userEntity)) in
      let! password := map_err (fun _ => ESentinel ErrInvalidCredentials)
                         (of_res (Password.NewPlainPassword (lg_Password input))) in
      let! passwordMatches :=
        map_err invalid_credentials_of (ph_Verify password (User.PasswordDigest userEntity)) in
      if negb passwordMatches then fail ErrInvalidCredentials else
      let! securityState :=
        map_err (fun e => if errors_is e ErrUserNotFound then ESentinel ErrInvalidCredentials else e)
          (GetSecurityState (User.ID userEntity)) in
      if (sec_UserID securityState <>s User.ID userEntity)
         || negb (sec_CredentialVersion securityState =? User.CredentialVersion userEntity)
      then fail ErrInvalidCredentials else
      do! check (authenticationStatusError (sec_Status securityState)) in
      let! refreshJTI := ULIDGenerator in
      let! sessionID := ULIDGenerator in
      let tokenIdentity := {| Claims.ti_UserID := sec_UserID securityState;
                              Claims.ti_SessionID := sessionID;
                              Claims.ti_JTI := refreshJTI;
                              Claims.ti_CredentialVersion := sec_CredentialVersion securityState |} in
      let! refreshed := GenerateRefreshToken tokenIdentity (refreshTTL ttl) in
      let '(refresh, refreshClaims) := refreshed in
      do! map_err blocked_as_suspended (CreateSession
        {| ci_ID := sessionID;
           ci_UserID := sec_UserID securityState;
           ci_Device := lg_Device input;
           ci_IP := lg_IP input;
           ci_CurrentJTI := refreshJTI;
           ci_CredentialVersion := sec_CredentialVersion securityState;
           ci_SessionTTL := sessionTTL ttl;
           ci_JTITTL := refreshTTL ttl |}) in
      let! accessed := attempt (GenerateAccessToken tokenIdentity
        {| Claims.as_Role := sec_Role securityState;
           Claims.as_Permissions := sec_Permissions securityState |} (accessTTL ttl)) in
      match accessed with
      | Err e =>
          let! _ := attempt (DeleteSessions
            {| di_UserID := User.ID userEntity; di_CurrentSession := "";
               di_TargetSessions := [sessionID]; di_RemoveOthers := false |}) in
          fail e
      | Ok (access, accessClaims) =>
          ret {| lo_AccessToken := access;
                 lo_AccessTokenExpiresAt := Claims.ExpiresAt accessClaims;
                 lo_RefreshToken := refresh;
                 lo_RefreshTokenExpiresAt := Claims.ExpiresAt refreshClaims;
                 lo_User := {| uo_ID := User.ID userEntity;
                               uo_Email := User.Email userEntity;
                               uo_Role := Role.String (sec_Role securityState);
                               uo_Status := Status.String (sec_Status securityState);
                               uo_CreatedAt := User.CreatedAt userEntity |} |}
      end
  end.

Definition Logout (sessionID userID : string) : M S unit :=
  map_err (fun e => if errors_is e ErrNotFound then NewCurrentSessionInvalidError e else e)
    (DeleteSessions {| di_UserID := userID; di_CurrentSession := "";
                       di_TargetSessions := [sessionID]; di_RemoveOthers := false |}).

Definition Refresh (input : RefreshInput) : M S RefreshOutput :=
  let! claims := map_err (fun _ => ESentinel ErrUnauthorized)
                   (ParseAndValidate (rf_RefreshToken input)) in
  if Claims.TokenType_ claims <>s Claims.TokenTypeRefresh then fail ErrUnauthorized else
  let! valid := map_err blocked_as_suspended (ValidateSession
    {| vi_UserID := Claims.UserID claims; vi_SessionID := Claims.SessionID claims;
       vi_JTI := Claims.JTI claims; vi_CredentialVersion := Claims.CredentialVersion claims |}) in
  if negb valid then fail ErrUnauthorized else
  let! securityState := GetSecurityState (Claims.UserID claims) in
  if (sec_UserID securityState <>s Claims.UserID claims)
     || negb (sec_CredentialVersion securityState =? Claims.CredentialVersion claims)
  then fail ErrUnauthorized else
  do! check (authenticationStatusError (sec_Status securityState)) in
  let! refreshJTI := ULIDGenerator in
  let tokenIdentity := {| Claims.ti_UserID := Claims.UserID claims;
                          Claims.ti_SessionID := Claims.SessionID claims;
                          Claims.ti_JTI := refreshJTI;
                          Claims.ti_CredentialVersion := Claims.CredentialVersion claims |} in
  let! refreshed := GenerateRefreshToken tokenIdentity (refreshTTL ttl) in
  let '(refresh, refreshClaims) := refreshed in
  let! accessed := GenerateAccessToken tokenIdentity
    {| Claims.as_Role := sec_Role securityState;
       Claims.as_Permissions := sec_Permissions securityState |} (accessTTL ttl) in
  let '(access, accessClaims) := accessed in
  let! sessionID := map_err blocked_as_suspended (RotateSessionJTI
    {| ri_UserID := Claims.UserID claims; ri_SessionID := Claims.SessionID claims;
       ri_OldJTI := Claims.JTI claims; ri_CurrentJTI := refreshJTI;
       ri_CredentialVersion := Claims.CredentialVersion claims;
       ri_Device := rf_Device input; ri_IP := rf_IP input;
       ri_SessionTTL := sessionTTL ttl; ri_JTITTL := refreshTTL ttl |}) in
  if sessionID <>s Claims.SessionID claims then fail ErrUnauthorized else
  ret {| ro_AccessToken := access;
         ro_AccessTokenExpiresAt := Claims.ExpiresAt accessClaims;
         ro_RefreshToken := refresh;
         ro_RefreshTokenExpiresAt := Claims.ExpiresAt refreshClaims |}.

(** ** What a success went through *)

Lemma check_Ok_inv o (s s' : S) u : check o s = (Ok u, s') -> o = None /\ s' = s.
Proof. destruct o; [discriminate|]. intros [= _ <-]. done. Qed.

Lemma authenticationStatusError_None st : authenticationStatusError st = None -> st = Status.StatusActive.
Proof.
  unfold authenticationStatusError. destruct (st =? Status.StatusInactive); [discriminate|].
  destruct (st =? Status.StatusSuspended); [discriminate|].
  destruct (st =? Status.StatusActive) eqn:E; [by breflect|discriminate].
Qed.

Definition validate_input (claims : Claims.JWTClaims) : ValidateInput :=
  {| vi_UserID := Claims.UserID claims; vi_SessionID := Claims.SessionID claims;
     vi_JTI := Claims.JTI claims; vi_CredentialVersion := Claims.CredentialVersion claims |}.

Definition rotate_input (claims : Claims.JWTClaims) (input : RefreshInput) (newJTI : string) : RotateInput :=
  {| ri_UserID := Claims.UserID claims; ri_SessionID := Claims.SessionID claims;
     ri_OldJTI := Claims.JTI claims; ri_CurrentJTI := newJTI;
     ri_CredentialVersion := Claims.CredentialVersion claims;
     ri_Device := rf_Device input; ri_IP := rf_IP input;
     ri_SessionTTL := sessionTTL ttl; ri_JTITTL := refreshTTL ttl |}.

Lemma Refresh_Ok_inv input s out s' :
  Refresh input s = (Ok out, s') ->
  exists claims state newJTI rc ac s1 s2 s3 s4 s5 s6,
    let identity := {| Claims.ti_UserID := Claims.UserID claims;
                       Claims.ti_SessionID := Claims.SessionID claims;
                       Claims.ti_JTI := newJTI;
                       Claims.ti_CredentialVersion := Claims.CredentialVersion claims |} in
    ParseAndValidate (rf_RefreshToken input) s = (Ok claims, s1)
    /\ Claims.TokenType_ claims = Claims.TokenTypeRefresh
    /\ ValidateSession (validate_input claims) s1 = (Ok true, s2)
    /\ GetSecurityState (Claims.UserID claims) s2 = (Ok state, s3)
    /\ sec_UserID state = Claims.UserID claims
    /\ sec_CredentialVersion state = Claims.CredentialVersion claims
    /\ sec_Status state = Status.StatusActive
    /\ ULIDGenerator s3 = (Ok newJTI, s4)
    /\ GenerateRefreshToken identity (refreshTTL ttl) s4 = (Ok (ro_RefreshToken out, rc), s5)
    /\ GenerateAccessToken identity {| Claims.as_Role := sec_Role state;
          Claims.as_Permissions := sec_Permissions state |} (accessTTL ttl) s5
       = (Ok (ro_AccessToken out, ac), s6)
    /\ RotateSessionJTI (rotate_input claims input newJTI) s6 = (Ok (Claims.SessionID claims), s').
Proof.
  unfold Refresh. intros (claims & s1 & Hp & Hrest)%bind_Ok_inv. apply map_err_Ok_inv in Hp.
  destruct (_ <>s _) eqn:Et in Hrest; [discriminate|]. breflect.
  apply bind_Ok_inv in Hrest as (valid & s2 & Hv & Hrest). apply map_err_Ok_inv in Hv.
  destruct valid; [|discriminate]. cbn [negb] in Hrest.
  apply bind_Ok_inv in Hrest as (state & s3 & Hst & Hrest).
  destruct (_ || _) eqn:E in Hrest; [discriminate|]. breflect.
  apply bind_Ok_inv in Hrest as (u & s3' & Hc & Hrest). apply check_Ok_inv in Hc as [Hc ->].
  apply bind_Ok_inv in Hrest as (newJTI & s4 & Hu & Hrest).
  apply bind_Ok_inv in Hrest as ([refresh rc] & s5 & Hgr & Hrest).
  apply bind_Ok_inv in Hrest as ([access ac] & s6 & Hga & Hrest).
  apply bind_Ok_inv in Hrest as (sid & s7 & Hrot & Hrest). apply map_err_Ok_inv in Hrot.
  destruct (sid <>s _) eqn:Es in Hrest; [discriminate|]. breflect. subst sid.
  injection Hrest as <- <-.
  exists claims, state, newJTI, rc, ac, s1, s2, s3, s4, s5, s6.
  apply authenticationStatusError_None in Hc. repeat (split; [done|]). done.
Qed.

(** A refresh succeeds only for a refresh token whose session the store
    still validates and whose user is active, with the credential version the
    token carries; the tokens it returns are for the same user, session and
    credential version, with a new JTI, and the access token carries the role
    and permissions of the authoritative state. *)
Theorem Refresh_only_current_sessions input s out s' :
  Refresh input s = (Ok out, s') ->
  exists claims state newJTI rc ac sv s2 s3 s4 s5 s6,
    (ParseAndValidate (rf_RefreshToken input) s).1 = Ok claims
    /\ Claims.IsRefresh claims = true
    /\ ValidateSession (validate_input claims) sv = (Ok true, s2)
    /\ GetSecurityState (Claims.UserID claims) s2 = (Ok state, s3)
    /\ sec_Status state = Status.StatusActive
    /\ sec_UserID state = Claims.UserID claims
    /\ sec_CredentialVersion state = Claims.CredentialVersion claims
    /\ GenerateRefreshToken {| Claims.ti_UserID := sec_UserID state;
          Claims.ti_SessionID := Claims.SessionID claims; Claims.ti_JTI := newJTI;
          Claims.ti_CredentialVersion := sec_CredentialVersion state |} (refreshTTL ttl) s4
       = (Ok (ro_RefreshToken out, rc), s5)
    /\ GenerateAccessToken {| Claims.ti_UserID := sec_UserID state;
          Claims.ti_SessionID := Claims.SessionID claims; Claims.ti_JTI := newJTI;
          Claims.ti_CredentialVersion := sec_CredentialVersion state |}
          {| Claims.as_Role := sec_Role state; Claims.as_Permissions := sec_Permissions state |}
          (accessTTL ttl) s5 = (Ok (ro_AccessToken out, ac), s6)
    /\ RotateSessionJTI (rotate_input claims input newJTI) s6 = (Ok (Claims.SessionID claims), s').
Proof.
  intros (claims & state & newJTI & rc & ac & s1 & s2 & s3 & s4 & s5 & s6 & Hp & Ht & Hv & Hst & Hu & Hc
          & Hact & _ & Hgr & Hga & Hrot)%Refresh_Ok_inv.
  exists claims, state, newJTI, rc, ac, s1, s2, s3, s4, s5, s6. rewrite Hp, Hu, Hc.
  unfold Claims.IsRefresh. rewrite Ht. repeat (split; [done|]). done.
Qed.

End UseCase.

(** * With the Redis session store *)

Section Replay.
Context {S : Type} {D : discipline} `{RedisClientLaws S D} `{EmbeddedScripts}.
Context `{UserRepository S} `{StateReaders S} `{PasswordHasher S} `{JWTService S}
  `{Environment S} `{ULIDParser} `{Unicode}.
Context {CL : ClockLaws S D}.
Context (ttl : Lifetimes).

Definition nothing : store_op -> Prop := fun _ => False.

(** The other ports do not touch the session store: while one of their calls
    runs, only other processes change it. *)
Class PortsAside : Prop := {
  aside_parse tok : does D nothing (ParseAndValidate tok);
  aside_state uid : does D nothing (GetSecurityState uid);
  aside_ulid : does D nothing ULIDGenerator;
  aside_refresh i d : does D nothing (GenerateRefreshToken i d);
  aside_access i a d : does D nothing (GenerateAccessToken i a d);
}.
Context {PA : PortsAside}.

Lemma does_trace {A} own (c : M S A) s r s' : does D own c -> c s = (r, s') -> store_trace D own s s'.
Proof. intros Hd Hc. specialize (Hd s). by rewrite Hc in Hd. Qed.

Lemma trace_weaken own s s' : store_trace D nothing s s' -> store_trace D own s s'.
Proof. by apply store_trace_mono. Qed.

Lemma RotateSessionJTI_inv input s sid s' :
  RotateSessionJTI input s = (Ok sid, s') ->
  ri_UserID input <> "" /\ ri_SessionID input <> "" /\ ri_OldJTI input <> ""
  /\ 0 < ri_CredentialVersion input
  /\ exists now s1, time_Now s = (Ok now, s1)
     /\ SessionRepo.RotateJTI (ri_OldJTI input) (ri_CurrentJTI input) (ri_UserID input)
          (ri_SessionID input) (ri_CredentialVersion input) (ri_IP input) (ri_Device input)
          (now + ri_SessionTTL input) (duration_seconds (ri_JTITTL input))
          (duration_seconds (ri_SessionTTL input)) s1 = (Ok sid, s').
Proof.
  unfold RotateSessionJTI. destruct (_ || _) eqn:E; [discriminate|]. breflect.
  intros (now & s1 & Hn & Hrest)%bind_Ok_inv.
  apply bind_Ok_inv in Hrest as (sid' & s2 & Hr & Hrest).
  destruct (sid' =s ""); [discriminate|]. injection Hrest as <- <-.
  repeat (split; [done|]). exists now, s1. split; [done|exact Hr].
Qed.

Lemma long_duration d : 1000000000 <= d -> 0 < duration_seconds d.
Proof. intros Hd. unfold duration_seconds. apply Z.quot_str_pos. lia. Qed.

(** A refresh that succeeds uses its token up: the store forgets the JTI. *)
Lemma Refresh_consumes input s out s1 :
  (forall st j, (ULIDGenerator st).1 = Ok j ->
     forall st' c, (ParseAndValidate (rf_RefreshToken input) st').1 = Ok c -> j <> Claims.JTI c) ->
  1000000000 <= refreshTTL ttl -> 1000000000 <= sessionTTL ttl ->
  wf (rc_view s) ->
  Refresh ttl input s = (Ok out, s1) ->
  exists claims, (ParseAndValidate (rf_RefreshToken input) s).1 = Ok claims
    /\ wf (rc_view s1) /\ ks_entry (rc_view s1) (jtiKey (Claims.JTI claims)) = None.
Proof.
  intros Hfresh Hrt Hst Hwf Href.
  apply Refresh_Ok_inv in Href as (claims & state & new & rc & ac & t1 & t2 & t3 & t4 & t5 & t6
    & Hp & _ & Hv & Hgs & _ & _ & _ & Hul & Hgr & Hga & Hrot).
  exists claims. split; [by rewrite Hp|].
  assert (Hnew : new <> Claims.JTI claims) by (apply (Hfresh t3) with s; [by rewrite Hul|by rewrite Hp]).
  assert (Hwf6 : wf (rc_view t6)).
  { apply ValidateSession_true_inv in Hv as (x & Hfind & _).
    eapply (store_trace_wf (eq (OpFind (Claims.JTI claims) (Claims.UserID claims)
      (Claims.SessionID claims) (Claims.CredentialVersion claims)))); [exact Hwf|].
    eapply store_trace_trans; [apply trace_weaken, (does_trace _ _ _ _ _ (aside_parse _) Hp)|].
    eapply store_trace_trans; [apply (does_trace _ _ _ _ _ (FindByJTI_does _ _ _ _) Hfind)|].
    eapply store_trace_trans; [apply trace_weaken, (does_trace _ _ _ _ _ (aside_state _) Hgs)|].
    eapply store_trace_trans; [apply trace_weaken, (does_trace _ _ _ _ _ aside_ulid Hul)|].
    eapply store_trace_trans; [apply trace_weaken, (does_trace _ _ _ _ _ (aside_refresh _ _) Hgr)|].
    apply trace_weaken, (does_trace _ _ _ _ _ (aside_access _ _ _) Hga). }
  apply RotateSessionJTI_inv in Hrot as (Hu & Hs & Hj & Hc & now & t7 & Hnow & Hrot).
  cbn [rotate_input ri_UserID ri_SessionID ri_OldJTI ri_CredentialVersion ri_CurrentJTI ri_JTITTL
       ri_SessionTTL] in *.
  assert (Hwf7 : wf (rc_view t7)).
  { pose proof (time_Now_view t6) as Hview. rewrite Hnow in Hview. cbn in Hview. by rewrite Hview. }
  exact (RotateJTI_consumes _ _ _ _ _ _ _ _ _ _ _ _ _ Hwf7 Hj Hnew Hu Hs Hc
           (long_duration _ Hrt) (long_duration _ Hst) Hrot).
Qed.

(** A refresh token cannot be replayed.  When a refresh succeeds, a second
    refresh with the same token fails, in any later state, as long as no
    operation issues the used JTI again: the token names its claims (parsing
    is a function of the token), and generated JTIs are not the used one. *)
Theorem refresh_replay_refused input input' s out s1 s2 claims :
  (forall st c, (ParseAndValidate (rf_RefreshToken input) st).1 = Ok c -> c = claims) ->
  (forall st j, (ULIDGenerator st).1 = Ok j -> j <> Claims.JTI claims) ->
  (forall op, interferes D op -> ~ issues op (Claims.JTI claims)) ->
  rf_RefreshToken input' = rf_RefreshToken input ->
  1000000000 <= refreshTTL ttl -> 1000000000 <= sessionTTL ttl ->
  Claims.CredentialVersion claims <= maxInt ->
  wf (rc_view s) ->
  Refresh ttl input s = (Ok out, s1) ->
  store_trace D (fun op => ~ issues op (Claims.JTI claims)) s1 s2 ->
  forall out', (Refresh ttl input' s2).1 <> Ok out'.
Proof.
  intros Hclaims Hfresh Hint Htok Hrt Hst Hcv Hwf Href Htr out' Hout'.
  destruct (Refresh_consumes input s out s1) as (c0 & Hp & Hwf1 & Hgone); try done.
  { intros st j Hj st' c Hc. rewrite (Hclaims st' c Hc). by apply (Hfresh st). }
  assert (c0 = claims) as -> by (by apply (Hclaims s)).
  destruct (Refresh ttl input' s2) as [r s3] eqn:Href2. cbn in Hout'. subst r.
  apply Refresh_Ok_inv in Href2 as (c & state' & new' & rc' & ac' & u1 & u2 & u3 & u4 & u5 & u6
    & Hp' & _ & Hv' & _).
  assert (c = claims) as -> by (apply (Hclaims s2); rewrite <- Htok; by rewrite Hp').
  assert (Htr' : store_trace D (fun op => ~ issues op (Claims.JTI claims)) s1 u1).
  { eapply store_trace_trans; [exact Htr|]. apply trace_weaken, (does_trace _ _ _ _ _ (aside_parse _) Hp'). }
  destruct (store_trace_absent _ _ _ Hint Hwf1 Htr' Hgone) as [Hwfu Hgoneu].
  apply ValidateSession_true_inv in Hv' as (x & Hfind & _). cbn in Hfind.
  eapply (absent_jti_not_found (Claims.JTI claims) u1 _ _ _ x); [exact Hint|done|done|exact Hcv|].
  change (@sr_FindByJTI S _) with (SessionRepo.FindByJTI (S := S)) in Hfind.
  by rewrite Hfind.
Qed.

End Replay.
End Authentication.

(** * A local token service and user state, for the witnesses *)

Module LocalAuth.
Definition claims : Claims.JWTClaims :=
  {| Claims.UserID := "u1"; Claims.SessionID := "s1"; Claims.CredentialVersion := 1;
     Claims.Role := 0; Claims.Permissions := Permission.emptySet;
     Claims.TokenType_ := Claims.TokenTypeRefresh; Claims.JTI := "j1";
     Claims.Issuer := Claims.TokenIssuer; Claims.Subject := Claims.TokenTypeRefresh;
     Claims.Audience := [Claims.TokenAudience];
     Claims.ExpiresAt := 1600000000000; Claims.IssuedAt := 1000000000000;
     Claims.NotBefore := 1000000000000 |}.

(** One token is known; generated tokens are named after their kind. *)
#[global] Instance jwt : JWTService keyspace := {|
  GenerateAccessToken := fun _ _ _ ks => (Ok ("access-token", claims), ks);
  GenerateRefreshToken := fun _ _ ks => (Ok ("refresh-token", claims), ks);
  ParseAndValidate := fun tok ks =>
    (if tok =s "token-j1" then Ok claims else Err (ESentinel ErrTokenInvalid), ks);
|}.

(** Every user is an active client whose credential version is 1. *)
#[global] Instance readers : StateReaders keyspace := {|
  GetSecurityState := fun uid ks =>
    (Ok {| sec_UserID := uid; sec_Status := Status.StatusActive; sec_Role := Role.RoleClient;
           sec_CredentialVersion := 1; sec_Permissions := Permission.emptySet |}, ks);
  GetIdentityState := fun uid ks =>
    (Ok {| id_UserID := uid; id_Status := Status.StatusActive; id_CredentialVersion := 1 |}, ks);
|}.

#[global] Instance ulids : ULIDParser := fun s => (String.length s =? 26)%nat.

Lemma does_pure {A} own (c : M keyspace A) :
  (forall ks, (c ks).2 = ks) -> does undisturbed own c.
Proof. intros Hc ks. exists []. split; [constructor|]. apply Hc. Qed.

#[global] Instance aside : Authentication.PortsAside (S := keyspace) (D := undisturbed).
Proof. split; intros; by apply does_pure. Qed.

Definition lifetimes : Authentication.Lifetimes :=
  {| Authentication.accessTTL := 300000000000; Authentication.refreshTTL := 600000000000;
     Authentication.sessionTTL := 600000000000 |}.
Definition input : Authentication.RefreshInput :=
  {| Authentication.rf_RefreshToken := "token-j1"; Authentication.rf_IP := "192.0.2.1";
     Authentication.rf_Device := "phone" |}.
Definition output : Authentication.RefreshOutput :=
  {| Authentication.ro_AccessToken := "access-token";
     Authentication.ro_AccessTokenExpiresAt := 1600000000000;
     Authentication.ro_RefreshToken := "refresh-token";
     Authentication.ro_RefreshTokenExpiresAt := 1600000000000 |}.
Definition refreshed : keyspace := (Authentication.Refresh lifetimes input Local.store1).2.
End LocalAuth.

Lemma refresh_replay_refused_witness :
  (Authentication.Refresh LocalAuth.lifetimes LocalAuth.input LocalAuth.refreshed).1
  <> Ok LocalAuth.output.
Proof.
  apply (Authentication.refresh_replay_refused (D := undisturbed) LocalAuth.lifetimes LocalAuth.input
    LocalAuth.input Local.store1 LocalAuth.output LocalAuth.refreshed LocalAuth.refreshed LocalAuth.claims).
  - intros st c Hc. by injection Hc.
  - intros st j Hj. injection Hj as <-. done.
  - done.
  - reflexivity.
  - cbn. lia.
  - cbn. lia.
  - unfold maxInt. cbn. lia.
  - apply Local.store1_wf.
  - vm_compute. reflexivity.
  - apply store_trace_refl.
Defined.

Lemma Refresh_only_current_sessions_witness :
  exists claims state newJTI rc ac sv s2 s3 s4 s5 s6,
    (ParseAndValidate "token-j1" Local.store1).1 = Ok claims
    /\ Claims.IsRefresh claims = true
    /\ SessionUC.ValidateSession (Authentication.validate_input claims) sv = (Ok true, s2)
    /\ GetSecurityState (Claims.UserID claims) s2 = (Ok state, s3)
    /\ sec_Status state = Status.StatusActive
    /\ sec_UserID state = Claims.UserID claims
    /\ sec_CredentialVersion state = Claims.CredentialVersion claims
    /\ GenerateRefreshToken {| Claims.ti_UserID := sec_UserID state;
          Claims.ti_SessionID := Claims.SessionID claims; Claims.ti_JTI := newJTI;
          Claims.ti_CredentialVersion := sec_CredentialVersion state |} 600000000000 s4
       = (Ok ("refresh-token", rc), s5)
    /\ GenerateAccessToken {| Claims.ti_UserID := sec_UserID state;
          Claims.ti_SessionID := Claims.SessionID claims; Claims.ti_JTI := newJTI;
          Claims.ti_CredentialVersion := sec_CredentialVersion state |}
          {| Claims.as_Role := sec_Role state; Claims.as_Permissions := sec_Permissions state |}
          300000000000 s5 = (Ok ("access-token", ac), s6)
    /\ SessionUC.RotateSessionJTI (Authentication.rotate_input LocalAuth.lifetimes claims LocalAuth.input newJTI) s6
       = (Ok (Claims.SessionID claims), LocalAuth.refreshed).
Proof.
  apply (Authentication.Refresh_only_current_sessions LocalAuth.lifetimes LocalAuth.input Local.store1
           LocalAuth.output LocalAuth.refreshed).
  vm_compute. reflexivity.
Defined.
