(* ===== verification/Postgres.v ===== *)
(** PostgreSQL as the repositories see it.  The server and its driver are not
    part of the repository: a client is a port ([PgClient]) that executes the
    statements the repositories build, and [PgClientLaws] says what they rely
    on, which is the documented effect of each statement ([documented_sql]) on
    the tables of internal/infra/database/postgres/migrations: keys, UNIQUE
    and CHECK constraints and integer ranges included.  Before a statement
    runs, other connections may have run theirs; where faults are allowed, a
    call may fail before or after its statement ran. *)
From S2P Require Export Domain.

(** * Tables *)

(** user/model.go: the columns of [users]; instants are nanoseconds. *)
Record userRow : Set := {
  ur_id : string;
  ur_email : string;
  ur_password : string;
  ur_status : Z;
  ur_role : Z;
  ur_credential_version : Z;
  ur_created_at : Z;
  ur_updated_at : option Z;
}.

(** permission/model.go *)
Record permissionRow : Set := {
  pm_id : string;
  pm_role : Z;
  pm_action : string;
  pm_created_at : Z;
}.

Record tables : Set := {
  t_users : gmap string userRow;
  t_permissions : gmap string permissionRow;
}.

(** What the server decides and the repositories only rely on: the reading of
    a UUID literal into its canonical text, the precision of TIMESTAMP, ILIKE
    (text, pattern), and the order in which it sorts permissions by descending
    role for a LIMIT and an OFFSET: rows of one role come in any order. *)
Class PgTypes := {
  pg_uuid : string -> option string;
  pg_timestamp : Z -> Z;
  pg_ilike : string -> string -> bool;
  pg_by_role : Z -> Z -> gmap string permissionRow -> list permissionRow;
}.

(** * Statements *)

Inductive set_clause : Set :=
  | SetEmail (e : string)
  | SetPassword (p : string)
  | IncrementCredentialVersion
  | SetRole (r : Z)
  | SetStatus (s : Z)
  | SetUpdatedAt (t : Z).

Inductive condition : Set :=
  | IdEq (id : string)
  | EmailEq (e : string)
  | RoleEq (r : Z)
  | StatusEq (s : Z)
  | RoleAny (rs : list Z)
  | StatusAny (ss : list Z)
  | EmailILike (pattern : string).

Inductive statement : Set :=
  | InsertUser (row : userRow)
  | UpdateUsers (sets : list set_clause) (clauses : list condition)   (* the rows it returns *)
  | DeleteUsers (clauses : list condition)
  | SelectUsers (clauses : list condition)
  | SelectUsersPage (clauses : list condition) (limit offset : Z)
  | CountUsers (clauses : list condition)
  | SelectSecurityState (id : string)
  | InsertPermission (row : permissionRow)
  | DeletePermission (id : string)
  | SelectPermissionsByRole (role : Z)
  | SelectPermissionsPage (limit offset : Z)
  | CountPermissions.

Inductive sql_reply : Set :=
  | Users (rows : list userRow)                 (* rows, and how many were affected *)
  | SecurityStates (rows : list (userRow * list string))
  | Permissions (rows : list permissionRow)
  | Count (n : Z).

(** * Their documented effect *)

Section Documented.
Context `{PgTypes}.

Definition in_smallint (z : Z) : bool := (-2^15 <=? z) && (z <? 2^15).
Definition in_bigint (z : Z) : bool := (-2^63 <=? z) && (z <? 2^63).

Definition out_of_range : err := EPg "22003" "".
Definition invalid_text : err := EPg "22P02" "".

(** Whether the parameters of a WHERE clause can be read. *)
Definition condition_ok (c : condition) : bool :=
  match c with IdEq id => is_some (pg_uuid id) | _ => true end.

Definition eq_opt_string (o : option string) (s : string) : bool :=
  match o with Some t => t =s s | None => false end.

Definition satisfies (row : userRow) (c : condition) : bool :=
  match c with
  | IdEq id => eq_opt_string (pg_uuid id) (ur_id row)
  | EmailEq e => ur_email row =s e
  | RoleEq r => ur_role row =? r
  | StatusEq s => ur_status row =? s
  | RoleAny rs => existsb (Z.eqb (ur_role row)) rs
  | StatusAny ss => existsb (Z.eqb (ur_status row)) ss
  | EmailILike p => pg_ilike (ur_email row) p
  end.

Definition matches (clauses : list condition) (row : userRow) : bool := forallb (satisfies row) clauses.

Definition apply_set (row : userRow) (c : set_clause) : userRow :=
  {| ur_id := ur_id row;
     ur_email := match c with SetEmail e => e | _ => ur_email row end;
     ur_password := match c with SetPassword p => p | _ => ur_password row end;
     ur_status := match c with SetStatus s => s | _ => ur_status row end;
     ur_role := match c with SetRole r => r | _ => ur_role row end;
     ur_credential_version :=
       match c with
       | IncrementCredentialVersion => ur_credential_version row + 1
       | _ => ur_credential_version row
       end;
     ur_created_at := ur_created_at row;
     ur_updated_at := match c with SetUpdatedAt t => Some (pg_timestamp t) | _ => ur_updated_at row end |}.

Definition apply_sets (sets : list set_clause) (row : userRow) : userRow := fold_left apply_set sets row.

(** The rows of a table, in key order. *)
Definition rows {A} (t : gmap string A) : list A := (map_to_list t).*2.

(** The column types and constraints of a row of [users]; UNIQUE apart. *)
Definition row_error (row : userRow) : option err :=
  if negb (in_smallint (ur_status row) && in_smallint (ur_role row)
           && in_bigint (ur_credential_version row)) then Some out_of_range
  else if negb (0 <? ur_credential_version row)
  then Some (EPg "23514" "users_credential_version_check")
  else None.

(** No two rows share an email. *)
Definition emails_unique (t : gmap string userRow) : bool :=
  bool_decide (NoDup (map ur_email (rows t))).

Definition update_rows (sets : list set_clause) (clauses : list condition)
    (t : gmap string userRow) : gmap string userRow :=
  (fun row => if matches clauses row then apply_sets sets row else row) <$> t.

(** ORDER BY created_at DESC, id DESC *)
Definition newer (a b : userRow) : Prop :=
  ur_created_at b < ur_created_at a
  \/ (ur_created_at a = ur_created_at b /\ Permission.string_le (ur_id b) (ur_id a)).
#[global] Instance newer_dec : RelDecision newer.
Proof. intros a b. unfold newer. apply _. Defined.

(** LIMIT limit OFFSET offset *)
Definition page {A} (limit offset : Z) (l : list A) : list A :=
  take (Z.to_nat limit) (drop (Z.to_nat offset) l).

Definition actions_of_role (role : Z) (ps : gmap string permissionRow) : list string :=
  merge_sort Permission.string_le
    (map pm_action (List.filter (fun p => pm_role p =? role) (rows ps))).

Definition with_users (t : tables) (us : gmap string userRow) : tables :=
  {| t_users := us; t_permissions := t_permissions t |}.
Definition with_permissions (t : tables) (ps : gmap string permissionRow) : tables :=
  {| t_users := t_users t; t_permissions := ps |}.

(** A statement that reads the users matching [clauses]. *)
Definition selecting (clauses : list condition) (t : tables) (k : list userRow -> sql_reply)
    : res sql_reply * tables :=
  if forallb condition_ok clauses
  then (Ok (k (List.filter (matches clauses) (rows (t_users t)))), t)
  else (Err invalid_text, t).

Definition documented_sql (st : statement) (t : tables) : res sql_reply * tables :=
  match st with
  | InsertUser row =>
      match pg_uuid (ur_id row) with
      | None => (Err invalid_text, t)
      | Some id =>
          let row := {| ur_id := id; ur_email := ur_email row; ur_password := ur_password row;
                        ur_status := ur_status row; ur_role := ur_role row;
                        ur_credential_version := ur_credential_version row;
                        ur_created_at := pg_timestamp (ur_created_at row);
                        ur_updated_at := pg_timestamp <$> ur_updated_at row |} in
          match row_error row with
          | Some e => (Err e, t)
          | None =>
              if is_some (t_users t !! id) then (Err (EPg "23505" "users_pkey"), t)
              else if existsb (fun r => ur_email r =s ur_email row) (rows (t_users t))
              then (Err (EPg "23505" "users_email_key"), t)
              else (Ok (Users [row]), with_users t (<[id := row]> (t_users t)))
          end
      end
  | UpdateUsers sets clauses =>
      if negb (forallb condition_ok clauses) then (Err invalid_text, t) else
      let updated := map (apply_sets sets) (List.filter (matches clauses) (rows (t_users t))) in
      match first_some row_error updated with
      | Some e => (Err e, t)
      | None =>
          let us := update_rows sets clauses (t_users t) in
          if negb (emails_unique us) && negb (match updated with [] => true | _ => false end)
          then (Err (EPg "23505" "users_email_key"), t)
          else (Ok (Users updated), with_users t us)
      end
  | DeleteUsers clauses =>
      if negb (forallb condition_ok clauses) then (Err invalid_text, t) else
      (Ok (Users (List.filter (matches clauses) (rows (t_users t)))),
       with_users t (filter (fun kv => matches clauses kv.2 = false) (t_users t)))
  | SelectUsers clauses => selecting clauses t Users
  | SelectUsersPage clauses limit offset =>
      if (limit <? 0) || (offset <? 0) then (Err (EPg "2201W" ""), t)
      else selecting clauses t (fun l => Users (page limit offset (merge_sort newer l)))
  | CountUsers clauses => selecting clauses t (fun l => Count (Z.of_nat (List.length l)))
  | SelectSecurityState id =>
      selecting [IdEq id] t
        (fun l => SecurityStates (map (fun u => (u, actions_of_role (ur_role u) (t_permissions t))) l))
  | InsertPermission row =>
      match pg_uuid (pm_id row) with
      | None => (Err invalid_text, t)
      | Some id =>
          let row := {| pm_id := id; pm_role := pm_role row; pm_action := pm_action row;
                        pm_created_at := pg_timestamp (pm_created_at row) |} in
          if negb (in_smallint (pm_role row)) then (Err out_of_range, t)
          else if is_some (t_permissions t !! id) then (Err (EPg "23505" "permissions_pkey"), t)
          else if existsb (fun p => (pm_role p =? pm_role row) && (pm_action p =s pm_action row))
                    (rows (t_permissions t))
          then (Err (EPg "23505" "unique_role_action"), t)
          else (Ok (Permissions [row]), with_permissions t (<[id := row]> (t_permissions t)))
      end
  | DeletePermission id =>
      match pg_uuid id with
      | None => (Err invalid_text, t)
      | Some id =>
          match t_permissions t !! id with
          | Some row => (Ok (Permissions [row]), with_permissions t (delete id (t_permissions t)))
          | None => (Ok (Permissions []), t)
          end
      end
  | SelectPermissionsByRole role =>
      (Ok (Permissions (List.filter (fun p => pm_role p =? role) (rows (t_permissions t)))), t)
  | SelectPermissionsPage limit offset =>
      if (limit <? 0) || (offset <? 0) then (Err (EPg "2201W" ""), t)
      else (Ok (Permissions (page limit offset (pg_by_role limit offset (t_permissions t)))), t)
  | CountPermissions => (Ok (Count (Z.of_nat (size (t_permissions t)))), t)
  end.

End Documented.

(** * Clients *)

Class PgClient (S : Type) := pg_exec : statement -> M S sql_reply.

Record pg_discipline := {
  pg_interferes : statement -> Prop;   (* what other connections may run between calls *)
  pg_faults : Prop;
}.
Definition pg_undisturbed : pg_discipline := {| pg_interferes := fun _ => False; pg_faults := False |}.

Fixpoint run_sql `{PgTypes} (sts : list statement) (t : tables) : tables :=
  match sts with [] => t | st :: sts' => run_sql sts' (documented_sql st t).2 end.

(** An error the driver reports by itself. *)
Definition transport_error (e : err) : Prop :=
  errors_is e SqlErrNoRows = false /\ errors_as_pg e = None.

Class PgClientLaws (S : Type) (D : pg_discipline) `{PgClient S} `{PgTypes} := {
  pg_view : S -> tables;
  pg_exec_law st s :
    exists sts, Forall (pg_interferes D) sts /\
    let t := run_sql sts (pg_view s) in
    (pg_exec st s).1 = (documented_sql st t).1 /\ pg_view (pg_exec st s).2 = (documented_sql st t).2
    \/ (pg_faults D /\ (exists e, (pg_exec st s).1 = Err e /\ transport_error e)
        /\ (pg_view (pg_exec st s).2 = t \/ pg_view (pg_exec st s).2 = (documented_sql st t).2));
}.

(** [GetContext]: the first row, or [sql.ErrNoRows]. *)
Definition first_row (r : sql_reply) : res userRow :=
  match r with
  | Users (row :: _) => Ok row
  | Users [] => Err SqlErrNoRows
  | _ => Err (ENew "sql: unexpected result columns")
  end.

Definition rows_affected (r : sql_reply) : Z :=
  match r with Users l => Z.of_nat (List.length l) | _ => 0 end.
