(* ===== verification/UserStore.v ===== *)
(** internal/infra/database/postgres/user: the PostgreSQL user repository, its
    row mappings and the authoritative state readers. *)
From S2P Require Export Postgres.

Module UserRepo.

Definition uniqueViolationSQLState : string := "23505".
Definition userEmailUniqueConstraint : string := "users_email_key".

(** * Rows (model.go) *)

Definition userRowFromDomain (user : User.t) : userRow :=
  {| ur_id := User.ID user;
     ur_email := User.Email user;
     ur_password := Password.Encoded (User.PasswordDigest user);
     ur_status := int16 (User.Status user);
     ur_role := int16 (User.Role user);
     ur_credential_version := User.CredentialVersion user;
     ur_created_at := User.CreatedAt user;
     ur_updated_at := User.UpdatedAt user |}.

Definition toDomain (row : userRow) : res User.t :=
  letr digest := res_map_err (wrap1 "rehydrate user password digest")
                   (Password.NewPasswordDigest (ur_password row)) in
  Ok {| User.ID := ur_id row;
        User.Email := ur_email row;
        User.PasswordDigest := digest;
        User.Status := uint8 (ur_status row);
        User.Role := uint8 (ur_role row);
        User.CredentialVersion := ur_credential_version row;
        User.CreatedAt := ur_created_at row;
        User.UpdatedAt := ur_updated_at row |}.

Definition toListItem (row : userRow) : UserListItem :=
  {| li_ID := ur_id row; li_Email := ur_email row; li_Role := uint8 (ur_role row);
     li_Status := uint8 (ur_status row); li_CreatedAt := ur_created_at row |}.

Definition toDetail (row : userRow) : UserDetail :=
  {| ud_ID := ur_id row; ud_Email := ur_email row; ud_Role := uint8 (ur_role row);
     ud_Status := uint8 (ur_status row); ud_CreatedAt := ur_created_at row |}.

Definition toStatusSnapshot (row : userRow) : UserStatusSnapshot :=
  {| ss_ID := ur_id row; ss_Role := uint8 (ur_role row); ss_Status := uint8 (ur_status row) |}.

Definition userListRowsToItems (rows : list userRow) : list UserListItem := map toListItem rows.

Definition userRolesToDatabase (roles : list Z) : list Z := map int16 roles.
Definition userStatusesToDatabase (statuses : list Z) : list Z := map int16 statuses.

(** * Errors *)

Definition translateUserFindByIDError (e : err) : err :=
  if errors_is e SqlErrNoRows then EWrap "find user" [ESentinel ErrUserNotFound; e] else e.

Definition translateUserWriteError (e : err) : err :=
  match errors_as_pg e with
  | Some (code, constraint) =>
      if (code =s uniqueViolationSQLState) && (constraint =s userEmailUniqueConstraint)
      then EWrap "write user" [ESentinel ErrEmailAlreadyExists; e] else e
  | None => e
  end.

(** * State rows (authorization.go) *)

Definition toIdentityState (row : userRow) : res IdentityState :=
  if ur_id row =s "" then Err (ENew "identity-state user ID is empty")
  else if ur_credential_version row <=? 0
  then Err (ENew "identity-state credential version must be positive")
  else
    let status := uint8 (ur_status row) in
    if (status =? Status.StatusInactive) || (status =? Status.StatusActive)
       || (status =? Status.StatusSuspended)
    then Ok {| id_UserID := ur_id row; id_Status := status;
               id_CredentialVersion := ur_credential_version row |}
    else Err (ENew "identity-state status is invalid").

Fixpoint parsePermissions (actions : list string) : res (list Permission.Permission) :=
  match actions with
  | [] => Ok []
  | a :: actions' =>
      letr p := res_map_err (wrap1 "security-state permission is invalid")
                  (Permission.ParsePermission a) in
      letr ps := parsePermissions actions' in
      Ok (p :: ps)
  end.

Definition toSecurityState (row : userRow) (actions : list string) : res SecurityState :=
  if ur_id row =s "" then Err (ENew "security-state user ID is empty")
  else if ur_credential_version row <=? 0
  then Err (ENew "security-state credential version must be positive")
  else
    let role := uint8 (ur_role row) in
    if negb ((role =? Role.RoleClient) || (role =? Role.RoleOperator) || (role =? Role.RoleAdmin))
    then Err (ENew "security-state role is invalid")
    else
      let status := uint8 (ur_status row) in
      if negb ((status =? Status.StatusInactive) || (status =? Status.StatusActive)
               || (status =? Status.StatusSuspended))
      then Err (ENew "security-state status is invalid")
      else
        letr permissions := parsePermissions actions in
        letr permissionSet := res_map_err (wrap1 "normalize security-state permissions")
                                (Permission.NewPermissionSet permissions) in
        Ok {| sec_UserID := ur_id row; sec_Status := status; sec_Role := role;
              sec_CredentialVersion := ur_credential_version row;
              sec_Permissions := permissionSet |}.

(** * The repository *)

Section Repository.
Context {S : Type} `{PgClient S} `{Environment S}.

(** [db.GetContext] of one row of [users]. *)
Definition get_row (st : statement) : M S userRow :=
  let! r := pg_exec st in of_res (first_row r).

Definition Create (u : User.t) : M S unit :=
  if User.CredentialVersion u <=? 0 then fail (ENew "credential version must be positive")
  else if Password.IsZero (User.PasswordDigest u) then fail (ENew "user password digest is required")
  else
    do! map_err translateUserWriteError (pg_exec (InsertUser (userRowFromDomain u))) in ret tt.

Definition ExistsByID (id : string) : M S bool :=
  let! r := pg_exec (CountUsers [IdEq id]) in
  match r with
  | Count n => ret (0 <? n)
  | _ => fail (ENew "sql: unexpected result columns")
  end.

Definition FindByID (id : string) : M S (option User.t) :=
  let! row := map_err translateUserFindByIDError (get_row (SelectUsers [IdEq id])) in
  let! u := of_res (toDomain row) in ret (Some u).

Definition FindDetailByID (id : string) : M S UserDetail :=
  let! row := map_err translateUserFindByIDError (get_row (SelectUsers [IdEq id])) in
  ret (toDetail row).

Definition FindStatusSnapshotByID (id : string) : M S UserStatusSnapshot :=
  let! row := map_err translateUserFindByIDError (get_row (SelectUsers [IdEq id])) in
  ret (toStatusSnapshot row).

Definition FindByEmail (email : string) : M S (option User.t) :=
  let! r := attempt (get_row (SelectUsers [EmailEq email])) in
  match r with
  | Err e => if errors_is e SqlErrNoRows then ret None
             else fail (wrap1 "failed to get user by email" e)
  | Ok row => let! u := of_res (toDomain row) in ret (Some u)
  end.

Definition GetCredentialVersion (id : string) : M S Z :=
  let! row := map_err translateUserFindByIDError (get_row (SelectUsers [IdEq id])) in
  let version := ur_credential_version row in
  if version <=? 0 then fail (ENew "user has invalid credential version") else ret version.

Definition UpdatePassword (id : string) (digest : Password.PasswordDigest) : M S Z :=
  if Password.IsZero digest then fail (ENew "user password digest is required")
  else
    let! now := time_Now in
    let! row := map_err translateUserFindByIDError
      (get_row (UpdateUsers [SetPassword (Password.Encoded digest); IncrementCredentialVersion;
                             SetUpdatedAt now] [IdEq id])) in
    ret (ur_credential_version row).

(** The SET clauses [updateUserFields] builds. *)
Definition field_clauses (email : string) (passwordDigest : Password.PasswordDigest) : list set_clause :=
  (if email <>s "" then [SetEmail email] else [])
  ++ (if negb (Password.IsZero passwordDigest)
      then [SetPassword (Password.Encoded passwordDigest); IncrementCredentialVersion] else []).

Definition updateUserFields (userID email : string) (passwordDigest : Password.PasswordDigest) : M S unit :=
  match field_clauses email passwordDigest with
  | [] => fail ErrBadRequest
  | setClauses =>
      let! now := time_Now in
      let! r := map_err translateUserWriteError
        (pg_exec (UpdateUsers (setClauses ++ [SetUpdatedAt now]) [IdEq userID])) in
      if rows_affected r =? 0 then fail ErrUserNotFound else ret tt
  end.

Definition UpdateUser (command : UserUpdateCommand) : M S unit :=
  updateUserFields (uc_UserID command) (uc_Email command) (uc_PasswordDigest command).

Definition UpdateEmail (command : UserEmailUpdateCommand) : M S unit :=
  updateUserFields (ec_UserID command) (ec_Email command) Password.zeroDigest.

Definition classifyRoleUpdateMiss (userID : string) (expectedRole requestedRole : Z)
    : M S UserRoleUpdateResult :=
  let! r := attempt (get_row (SelectUsers [IdEq userID])) in
  match r with
  | Err e =>
      if errors_is e SqlErrNoRows
      then ret {| ru_Outcome := UserRoleUpdateNotFound; ru_CurrentRole := Role.RoleUnknown |}
      else fail (wrap1 "classify user role update" e)
  | Ok row =>
      let current := uint8 (ur_role row) in
      if negb (Role.IsKnown current) then fail (ENew "authoritative user role is invalid")
      else if current =? requestedRole
      then ret {| ru_Outcome := UserRoleUpdateAlreadyApplied; ru_CurrentRole := current |}
      else if current =? expectedRole
      then fail (ENew "compare-and-set user role missed while expected role remains current")
      else ret {| ru_Outcome := UserRoleUpdateConflict; ru_CurrentRole := current |}
  end.

Definition UpdateRole (command : UserRoleUpdateCommand) : M S UserRoleUpdateResult :=
  if negb (Role.IsKnown (rc_ExpectedRole command)) || negb (Role.IsKnown (rc_RequestedRole command))
  then fail ErrBadRequest
  else
    let! now := time_Now in
    let! r := attempt (get_row (UpdateUsers
      [SetRole (int16 (rc_RequestedRole command)); SetUpdatedAt now]
      [IdEq (rc_UserID command); RoleEq (int16 (rc_ExpectedRole command))])) in
    match r with
    | Ok row =>
        let current := uint8 (ur_role row) in
        if negb (Role.IsKnown current) || negb (current =? rc_RequestedRole command)
        then fail (ENew "compare-and-set user role returned an invalid role")
        else ret {| ru_Outcome := UserRoleUpdateApplied; ru_CurrentRole := current |}
    | Err e =>
        if negb (errors_is e SqlErrNoRows)
        then fail (wrap1 "compare-and-set user role" (translateUserWriteError e))
        else classifyRoleUpdateMiss (rc_UserID command) (rc_ExpectedRole command)
               (rc_RequestedRole command)
    end.

Definition classifyStatusUpdateMiss (userID : string) (requested : Z) : M S UserStatusUpdateResult :=
  let! r := attempt (get_row (SelectUsers [IdEq userID])) in
  match r with
  | Err e =>
      if errors_is e SqlErrNoRows
      then ret {| su_Outcome := UserStatusUpdateNotFound; su_CurrentStatus := Status.StatusUnknown |}
      else fail (wrap1 "classify user status update" e)
  | Ok row =>
      let current := uint8 (ur_status row) in
      if negb (Status.IsKnown current) then fail (ENew "authoritative user status is invalid")
      else if current =? requested
      then ret {| su_Outcome := UserStatusUpdateAlreadyApplied; su_CurrentStatus := current |}
      else ret {| su_Outcome := UserStatusUpdateConflict; su_CurrentStatus := current |}
  end.

Definition UpdateStatus (userID : string) (expected requested : Z) : M S UserStatusUpdateResult :=
  if negb (Status.IsKnown expected) then fail (ENew "expected user status is invalid")
  else if negb (Status.IsKnown requested) then fail (ENew "requested user status is invalid")
  else if expected =? requested then fail (ENew "compare-and-set user statuses must differ")
  else
    let! now := time_Now in
    let! r := attempt (get_row (UpdateUsers [SetStatus (int16 requested); SetUpdatedAt now]
                                  [IdEq userID; StatusEq (int16 expected)])) in
    match r with
    | Ok row => ret {| su_Outcome := UserStatusUpdateApplied;
                       su_CurrentStatus := uint8 (ur_status row) |}
    | Err e =>
        if negb (errors_is e SqlErrNoRows) then fail (wrap1 "compare-and-set user status" e)
        else classifyStatusUpdateMiss userID requested
    end.

Definition Delete (userID : string) : M S unit :=
  let! r := pg_exec (DeleteUsers [IdEq userID]) in
  if rows_affected r =? 0 then fail ErrUserNotFound else ret tt.

(** The WHERE clauses [ListUsers] builds. *)
Definition list_clauses (criteria : UserListCriteria) : list condition :=
  (match lc_Roles criteria with [] => [] | rs => [RoleAny (userRolesToDatabase rs)] end)
  ++ (match lc_Statuses criteria with [] => [] | ss => [StatusAny (userStatusesToDatabase ss)] end)
  ++ (if lc_Search criteria <>s "" then [EmailILike ("%" +:+ (lc_Search criteria +:+ "%"))] else []).

Definition ListUsers (offset limit : Z) (criteria : UserListCriteria) : M S UserListResult :=
  let whereClauses := list_clauses criteria in
  let! counted := pg_exec (CountUsers whereClauses) in
  match counted with
  | Count total =>
      if total =? 0 then ret {| lr_Items := []; lr_Total := 0 |}
      else
        let! selected := pg_exec (SelectUsersPage whereClauses limit offset) in
        match selected with
        | Users rows => ret {| lr_Items := userListRowsToItems rows; lr_Total := total |}
        | _ => fail (ENew "sql: unexpected result columns")
        end
  | _ => fail (ENew "sql: unexpected result columns")
  end.

Definition GetIdentityState (userID : string) : M S IdentityState :=
  let! row := map_err translateUserFindByIDError (get_row (SelectUsers [IdEq userID])) in
  of_res (toIdentityState row).

Definition GetSecurityState (userID : string) : M S SecurityState :=
  let! r := map_err translateUserFindByIDError
    (let! r := pg_exec (SelectSecurityState userID) in
     of_res (match r with
             | SecurityStates (x :: _) => Ok x
             | SecurityStates [] => Err SqlErrNoRows
             | _ => Err (ENew "sql: unexpected result columns")
             end)) in
  of_res (toSecurityState r.1 r.2).

#[global] Instance pg_user_repository : UserRepository S :=
  {| ur_Create := Create; ur_ExistsByID := ExistsByID; ur_FindByID := FindByID;
     ur_FindByEmail := FindByEmail; ur_GetCredentialVersion := GetCredentialVersion;
     ur_UpdatePassword := UpdatePassword; ur_UpdateStatus := UpdateStatus; ur_Delete := Delete |}.

#[global] Instance pg_user_ports : UserReadersWriters S :=
  {| Domain.FindDetailByID := FindDetailByID; Domain.ListUsers := ListUsers;
     Domain.FindStatusSnapshotByID := FindStatusSnapshotByID; UpdateUserFields := UpdateUser;
     Domain.UpdateEmail := UpdateEmail; Domain.UpdateRole := UpdateRole |}.

#[global] Instance pg_state_readers : StateReaders S :=
  {| Domain.GetSecurityState := GetSecurityState; Domain.GetIdentityState := GetIdentityState |}.

End Repository.
End UserRepo.
