(* ===== verification/UserTables.v ===== *)
(** The tables of PostgreSQL under the statements of the repositories: the
    invariant every statement keeps ([wf_tables]), what a statement on one
    user does to that user's row and to the others, and how a credential
    version evolves ([version_evolves]). *)
From S2P Require Export UserStore.

(** Reading a UUID gives its canonical text, which reads as itself; sorting
    permissions keeps all of them, by descending role. *)
Class PgTypesLaws `{PgTypes} : Prop := {
  pg_uuid_canonical id c : pg_uuid id = Some c -> pg_uuid c = Some c;
  pg_by_role_rows limit offset ps : pg_by_role limit offset ps ≡ₚ rows ps;
  pg_by_role_sorted limit offset ps :
    Sorted (fun a b => pm_role b <= pm_role a) (pg_by_role limit offset ps);
}.

#[local] Arguments matches : simpl never.
#[local] Arguments apply_sets : simpl never.

Section Tables.
Context `{PgTypesLaws}.

(** * The invariant *)

Definition users_keyed (t : gmap string userRow) : Prop :=
  forall k r, t !! k = Some r -> ur_id r = k.

Record wf_users (t : gmap string userRow) : Prop := {
  wf_keyed : users_keyed t;
  wf_uuid k r : t !! k = Some r -> pg_uuid k = Some k;
  wf_row k r : t !! k = Some r -> row_error r = None;
  wf_emails k1 k2 r1 r2 :
    t !! k1 = Some r1 -> t !! k2 = Some r2 -> ur_email r1 = ur_email r2 -> k1 = k2;
}.

Definition permissions_keyed (t : gmap string permissionRow) : Prop :=
  forall k p, t !! k = Some p -> pm_id p = k.

Record wf_permissions (t : gmap string permissionRow) : Prop := {
  wf_pkeyed : permissions_keyed t;
  wf_actions k1 k2 p1 p2 :
    t !! k1 = Some p1 -> t !! k2 = Some p2 -> pm_role p1 = pm_role p2 ->
    pm_action p1 = pm_action p2 -> k1 = k2;
}.

Definition wf_tables (t : tables) : Prop :=
  wf_users (t_users t) /\ wf_permissions (t_permissions t).

(** * Rows and keys *)

Lemma In_rows {A} (t : gmap string A) r : In r (rows t) <-> exists k, t !! k = Some r.
Proof.
  unfold rows. rewrite <- list_elem_of_In, list_elem_of_fmap. split.
  - intros ([k x] & -> & Hin%elem_of_map_to_list). eauto.
  - intros [k Hk]. exists (k, r). split; [done|]. by apply elem_of_map_to_list.
Qed.

Lemma filter_empty_In {A} (f : A -> bool) l : (forall x, In x l -> f x = false) -> List.filter f l = [].
Proof.
  induction l as [|x l IH]; intros Hl; [done|]. cbn. rewrite Hl by (by left).
  apply IH. intros y Hy. apply Hl. by right.
Qed.

Lemma filter_Permutation {A} (f : A -> bool) l l' : l ≡ₚ l' -> List.filter f l ≡ₚ List.filter f l'.
Proof.
  induction 1; cbn; [done| | |by etrans]; repeat destruct (f _); try done; by constructor.
Qed.

(** The rows a test keeps when only the row of key [k] can pass it. *)
Lemma filter_rows_key {A} (t : gmap string A) (f : A -> bool) k :
  (forall k' r, t !! k' = Some r -> f r = true -> k' = k) ->
  List.filter f (rows t)
  = match t !! k with Some r => if f r then [r] else [] | None => [] end.
Proof.
  intros Hk. destruct (t !! k) as [r|] eqn:Ek.
  - assert (Hp : rows t ≡ₚ r :: rows (delete k t)).
    { unfold rows. rewrite <- (insert_delete_id t k r Ek) at 1.
      rewrite map_to_list_insert by apply lookup_delete_eq. done. }
    apply (filter_Permutation f) in Hp. cbn in Hp.
    rewrite (filter_empty_In f (rows (delete k t))) in Hp.
    + destruct (f r); [by apply Permutation_singleton_r in Hp | by apply Permutation_nil_r in Hp].
    + intros x (k' & Hx)%In_rows. apply lookup_delete_Some in Hx as [Hne Hx].
      destruct (f x) eqn:Ef; [|done]. by destruct Hne; symmetry; apply (Hk _ x).
  - apply filter_empty_In. intros x (k' & Hx)%In_rows.
    destruct (f x) eqn:Ef; [|done]. rewrite (Hk _ x Hx Ef) in Hx. congruence.
Qed.

(** The rows of a statement on one user. *)
Lemma filter_id t id c cs :
  users_keyed t -> pg_uuid id = Some c ->
  List.filter (matches (IdEq id :: cs)) (rows t)
  = match t !! c with Some r => if matches cs r then [r] else [] | None => [] end.
Proof.
  intros Hk Hid. rewrite (filter_rows_key _ _ c).
  - destruct (t !! c) as [r|] eqn:E; [|done]. unfold matches at 1. cbn. rewrite Hid. cbn.
    by rewrite (Hk _ _ E), eqb_refl_string.
  - intros k' r Hr Hm. unfold matches in Hm. cbn in Hm. rewrite Hid in Hm. cbn in Hm. breflect.
    rewrite <- (Hk _ _ Hr). congruence.
Qed.

(** Only the row [c] can match a statement on the user [id]. *)
Lemma matches_id t id c cs k r :
  users_keyed t -> pg_uuid id = Some c -> t !! k = Some r -> k <> c ->
  matches (IdEq id :: cs) r = false.
Proof.
  intros Hk Hid Hr Hne. unfold matches. cbn. rewrite Hid. cbn.
  by rewrite eqb_ne_string by (rewrite (Hk _ _ Hr); congruence).
Qed.

Lemma apply_set_id row c : ur_id (apply_set row c) = ur_id row.
Proof. done. Qed.
Lemma apply_sets_id sets row : ur_id (apply_sets sets row) = ur_id row.
Proof.
  unfold apply_sets. revert row. induction sets as [|c sets IH]; intros row; [done|].
  cbn. by rewrite IH.
Qed.

(** * Updates of one user *)

Lemma update_rows_lookup sets clauses t k :
  update_rows sets clauses t !! k
  = (fun row => if matches clauses row then apply_sets sets row else row) <$> t !! k.
Proof. unfold update_rows. by rewrite lookup_fmap. Qed.

Lemma update_rows_id t id c cs sets r :
  users_keyed t -> pg_uuid id = Some c -> t !! c = Some r -> matches cs r = true ->
  update_rows sets (IdEq id :: cs) t = <[c := apply_sets sets r]> t.
Proof.
  intros Hk Hid Hr Hm. apply map_eq. intros k. rewrite update_rows_lookup.
  destruct (decide (k = c)) as [->|Hne].
  - rewrite Hr, lookup_insert_eq. cbn. unfold matches in *. cbn. rewrite Hid. cbn.
    by rewrite (Hk _ _ Hr), eqb_refl_string, Hm.
  - rewrite lookup_insert_ne by done. destruct (t !! k) as [r'|] eqn:E; [|done]. cbn.
    by rewrite (matches_id t id c cs k r').  
Qed.

Lemma update_rows_miss t id c cs sets :
  users_keyed t -> pg_uuid id = Some c ->
  (forall r, t !! c = Some r -> matches cs r = false) ->
  update_rows sets (IdEq id :: cs) t = t.
Proof.
  intros Hk Hid Hm. apply map_eq. intros k. rewrite update_rows_lookup.
  destruct (t !! k) as [r|] eqn:E; [|done]. cbn. f_equal.
  destruct (decide (k = c)) as [->|Hne].
  - unfold matches. cbn. rewrite Hid. cbn. rewrite (Hk _ _ E), eqb_refl_string. cbn.
    change (forallb (satisfies r) cs) with (matches cs r). by rewrite (Hm r).
  - by rewrite (matches_id t id c cs k r).
Qed.

Lemma emails_unique_keyed t :
  emails_unique t = true <->
  (forall k1 k2 r1 r2, t !! k1 = Some r1 -> t !! k2 = Some r2 ->
                       ur_email r1 = ur_email r2 -> k1 = k2).
Proof.
  unfold emails_unique. rewrite bool_decide_eq_true. unfold rows.
  rewrite <- list_fmap_compose. split.
  - intros Hnd k1 k2 r1 r2 H1 H2 He.
    assert (Hi : forall i j x y, map_to_list t !! i = Some x -> map_to_list t !! j = Some y ->
              ur_email x.2 = ur_email y.2 -> i = j).
    { intros i j x y Hx Hy Hxy. eapply (NoDup_lookup _ _ _ (ur_email x.2) Hnd);
        rewrite list_lookup_fmap; [rewrite Hx|rewrite Hy]; cbn; [done|by rewrite Hxy]. }
    apply elem_of_map_to_list, list_elem_of_lookup in H1 as [i Hi1].
    apply elem_of_map_to_list, list_elem_of_lookup in H2 as [j Hj2].
    assert (i = j) as -> by (by apply (Hi i j (k1, r1) (k2, r2))). congruence.
  - intros Hinj. apply NoDup_fmap_2_strong; [|apply NoDup_map_to_list].
    intros [k1 r1] [k2 r2] H1%elem_of_map_to_list H2%elem_of_map_to_list He. cbn in He.
    assert (k1 = k2) as -> by eauto. congruence.
Qed.

Lemma existsb_rows_false {A} (f : A -> bool) (t : gmap string A) k r :
  existsb f (rows t) = false -> t !! k = Some r -> f r = false.
Proof. intros He Hk. apply (existsb_false_In _ _ _ He), In_rows. eauto. Qed.

Lemma first_some_None {A B} (f : A -> option B) l x : first_some f l = None -> In x l -> f x = None.
Proof.
  induction l as [|y l IH]; [done|]. cbn. destruct (f y) eqn:E; [done|].
  intros Hl [-> | Hin]; [done|by apply IH].
Qed.

(** * Every statement keeps the invariant *)

Lemma wf_users_insert t c r :
  wf_users t -> pg_uuid c = Some c -> ur_id r = c -> row_error r = None ->
  (forall k r', t !! k = Some r' -> k <> c -> ur_email r' <> ur_email r) ->
  wf_users (<[c := r]> t).
Proof.
  intros [Hk Hu Hr He] Hc Hid Hrow Hem. split.
  - intros k x [[<- <-]|[? Hx]]%lookup_insert_Some; eauto.
  - intros k x [[<- <-]|[? Hx]]%lookup_insert_Some; eauto.
  - intros k x [[<- <-]|[? Hx]]%lookup_insert_Some; eauto.
  - intros k1 k2 x1 x2 [[<- <-]|[? Hx1]]%lookup_insert_Some [[<- <-]|[? Hx2]]%lookup_insert_Some E;
      eauto; exfalso; [apply (Hem k2 x2)|apply (Hem k1 x1)]; auto.
Qed.

Lemma wf_users_subset t t' : wf_users t -> t' ⊆ t -> wf_users t'.
Proof.
  intros [Hk Hu Hr He] Hs. split; intros; eauto using lookup_weaken.
  intros k r Hkr. eauto using lookup_weaken.
Qed.

Lemma wf_users_update t sets clauses :
  wf_users t ->
  first_some row_error (map (apply_sets sets) (List.filter (matches clauses) (rows t))) = None ->
  emails_unique (update_rows sets clauses t) = true ->
  wf_users (update_rows sets clauses t).
Proof.
  intros [Hk Hu Hr He] Hrow Hem.
  assert (Hcase : forall k x, update_rows sets clauses t !! k = Some x ->
            exists r, t !! k = Some r /\ x = if matches clauses r then apply_sets sets r else r).
  { intros k x. rewrite update_rows_lookup. intros (r & -> & Hx)%fmap_Some. eauto. }
  split; [| | |by apply emails_unique_keyed].
  - intros k x (r & Hkr & ->)%Hcase. destruct (matches clauses r); rewrite ?apply_sets_id; eauto.
  - intros k x (r & Hkr & ->)%Hcase. eauto.
  - intros k x (r & Hkr & ->)%Hcase. destruct (matches clauses r) eqn:Em; [|eauto].
    apply (first_some_None _ _ _ Hrow), in_map, filter_In. split; [|done]. apply In_rows. eauto.
Qed.

Lemma wf_permissions_subset t t' : wf_permissions t -> t' ⊆ t -> wf_permissions t'.
Proof.
  intros [Hk Ha] Hs. split; intros; eauto using lookup_weaken.
  intros k r Hkr. eauto using lookup_weaken.
Qed.

Lemma selecting_tables clauses t k : (selecting clauses t k).2 = t.
Proof. unfold selecting. by destruct (forallb _ _). Qed.

Lemma insert_user_wf row t : wf_users (t_users t) -> wf_users (t_users (documented_sql (InsertUser row) t).2).
Proof.
  intros Hwf. cbn. destruct (pg_uuid _) as [c|] eqn:Eu; [|done].
  destruct (row_error _) eqn:Er; [done|]. destruct (t_users t !! c) eqn:Ec; [done|]. cbn [is_some].
  destruct (existsb _ _) eqn:Ee; [done|]. apply wf_users_insert; try done.
  - by apply pg_uuid_canonical with (ur_id row).
  - intros k r' Hr' _. apply (existsb_rows_false _ _ _ _ Ee) in Hr'. by breflect.
Qed.

Lemma update_users_wf sets clauses t :
  wf_users (t_users t) -> wf_users (t_users (documented_sql (UpdateUsers sets clauses) t).2).
Proof.
  intros Hwf. cbn. destruct (forallb _ _); [|done]. cbn [negb].
  destruct (first_some _ _) eqn:Er; [done|].
  destruct (emails_unique _) eqn:Ee; [by apply wf_users_update|]. cbn [negb andb].
  destruct (List.filter _ _) as [|r l] eqn:Ef; [|done]. cbn.
  replace (update_rows sets clauses (t_users t)) with (t_users t); [done|].
  apply map_eq. intros k. rewrite update_rows_lookup. destruct (t_users t !! k) as [r|] eqn:E; [|done].
  cbn. destruct (matches clauses r) eqn:Em; [|done].
  assert (Hin : In r (List.filter (matches clauses) (rows (t_users t)))).
  { apply filter_In. split; [|done]. apply In_rows. eauto. }
  by rewrite Ef in Hin.
Qed.

Lemma insert_permission_wf row t :
  wf_permissions (t_permissions t) ->
  wf_permissions (t_permissions (documented_sql (InsertPermission row) t).2).
Proof.
  intros [Hk Ha]. cbn. destruct (pg_uuid _) as [c|] eqn:Eu; [|done].
  destruct (negb _); [done|]. destruct (t_permissions t !! c) eqn:Ec; [done|]. cbn [is_some].
  destruct (existsb _ _) eqn:Ee; [done|]. cbn. split.
  - intros k x [[<- <-]|[? Hx]]%lookup_insert_Some; eauto.
  - intros k1 k2 x1 x2 [[<- <-]|[? Hx1]]%lookup_insert_Some [[<- <-]|[? Hx2]]%lookup_insert_Some R A;
      cbn in *; eauto; exfalso.
    + apply (existsb_rows_false _ _ _ _ Ee) in Hx2. rewrite R, A, Z.eqb_refl, eqb_refl_string in Hx2.
      discriminate.
    + apply (existsb_rows_false _ _ _ _ Ee) in Hx1. rewrite R, A, Z.eqb_refl, eqb_refl_string in Hx1.
      discriminate.
Qed.

(** Keys, canonical identifiers, column ranges, the CHECK constraint and both
    UNIQUE constraints survive every statement. *)
Lemma documented_sql_wf st t : wf_tables t -> wf_tables (documented_sql st t).2.
Proof.
  intros [Hu Hp]. destruct st.
  - split; [by apply insert_user_wf|]. cbn. repeat case_goal; done.
  - split; [by apply update_users_wf|]. cbn. repeat case_goal; done.
  - cbn. destruct (negb _); [done|]. split; [|done]. eapply wf_users_subset; [exact Hu|].
    apply map_filter_subseteq.
  - split; cbn; by rewrite selecting_tables.
  - cbn. destruct (_ || _); [done|]. split; by rewrite selecting_tables.
  - split; cbn; by rewrite selecting_tables.
  - split; cbn; by rewrite selecting_tables.
  - split; [|by apply insert_permission_wf]. cbn. repeat case_goal; done.
  - cbn. repeat case_goal; try done. split; [done|]. eapply wf_permissions_subset; [exact Hp|].
    apply delete_subseteq.
  - done.
  - cbn. by destruct (_ || _).
  - done.
Qed.

Lemma run_sql_wf sts t : wf_tables t -> wf_tables (run_sql sts t).
Proof. revert t. induction sts as [|st sts IH]; intros t Ht; [done|]. by apply IH, documented_sql_wf. Qed.

Lemma run_sql_app sts1 sts2 t : run_sql (sts1 ++ sts2) t = run_sql sts2 (run_sql sts1 t).
Proof. revert t. induction sts1 as [|st sts IH]; intros t; cbn; [done|apply IH]. Qed.

(** * Credential versions only grow *)

Definition inserts (c : string) (st : statement) : bool :=
  match st with InsertUser row => eq_opt_string (pg_uuid (ur_id row)) c | _ => false end.

(** The user [c] is gone, or its credential version is at least [v]. *)
Definition version_at_least (c : string) (v : Z) (t : tables) : Prop :=
  forall r, t_users t !! c = Some r -> v <= ur_credential_version r.

Lemma apply_sets_version sets row :
  ur_credential_version row <= ur_credential_version (apply_sets sets row).
Proof.
  unfold apply_sets. revert row. induction sets as [|c sets IH]; intros row; [cbn; lia|].
  cbn. etrans; [|apply IH]. destruct c; cbn; lia.
Qed.

Lemma documented_sql_version c v st t :
  inserts c st = false -> version_at_least c v t -> version_at_least c v (documented_sql st t).2.
Proof.
  intros Hi Hv. destruct st; try (cbn; repeat case_goal; done); try (cbn; by rewrite selecting_tables).
  - cbn in *. destruct (pg_uuid _) as [c'|] eqn:Eu; [|done]. cbn in Hi. breflect.
    repeat case_goal; try done. intros r. cbn. rewrite lookup_insert_ne by done. apply Hv.
  - cbn. repeat case_goal; try done. intros r. cbn. rewrite update_rows_lookup.
    intros (r0 & E & ->)%fmap_Some. apply Hv in E. destruct (matches clauses r0); [|done].
    pose proof (apply_sets_version sets r0). lia.
  - cbn. repeat case_goal; try done. intros r. cbn. rewrite map_lookup_filter_Some. intros [E _]. by apply Hv.
  - cbn. destruct (_ || _); [done|]. by rewrite selecting_tables.
Qed.

Lemma run_sql_version c v sts t :
  Forall (fun st => inserts c st = false) sts -> version_at_least c v t ->
  version_at_least c v (run_sql sts t).
Proof.
  intros Hs. revert t. induction Hs as [|st sts Hst Hsts IH]; intros t Ht; [done|].
  by apply IH, documented_sql_version.
Qed.

End Tables.
