(* ===== verification/UserGuarantees.v ===== *)
(** What the PostgreSQL user repository guarantees its callers, whatever other
    connections run between its statements ([pg_discipline]): the tables stay
    well formed and a write touches one row; a created user is found again; a
    password change raises the credential version for good, so that older
    tokens are refused from then on; role and status changes are
    compare-and-set; and a listing is a page of the matching users. *)
From S2P Require Export UserTables Authorization.

(** The clock of the process is not part of the database. *)
Class PgClockLaws (S : Type) (D : pg_discipline) `{PgClientLaws S D} `{Environment S} : Prop :=
  pg_time_Now_view s : pg_view (time_Now s).2 = pg_view s.

(** * Methods as sequences of statements *)

Section Does.
Context {S : Type} {D : pg_discipline} {PC : PgClient S} {PT : PgTypes} {PL : PgClientLaws S D}.

(** From [s] to [s'] only other connections' statements, and those of [own],
    run. *)
Definition sql_trace (own : statement -> Prop) (s s' : S) : Prop :=
  exists sts, Forall (fun st => pg_interferes D st \/ own st) sts
              /\ pg_view s' = run_sql sts (pg_view s).

Definition sql_does {A} (own : statement -> Prop) (c : M S A) : Prop :=
  forall s, sql_trace own s (c s).2.

Lemma sql_trace_refl own s : sql_trace own s s.
Proof. exists []. split; [constructor|done]. Qed.

Lemma sql_trace_trans own a b c : sql_trace own a b -> sql_trace own b c -> sql_trace own a c.
Proof.
  intros (o1 & H1 & E1) (o2 & H2 & E2). exists (o1 ++ o2). split; [by apply Forall_app|].
  by rewrite E2, E1, run_sql_app.
Qed.

Lemma sql_does_ret {A} own (a : A) : sql_does own (ret a).
Proof. intros s. apply sql_trace_refl. Qed.
Lemma sql_does_fail {A} own e : sql_does own (fail e : M S A).
Proof. intros s. apply sql_trace_refl. Qed.
Lemma sql_does_of_res {A} own (r : res A) : sql_does own (of_res r : M S A).
Proof. intros s. apply sql_trace_refl. Qed.

Lemma sql_does_bind {A B} own (c : M S A) (f : A -> M S B) :
  sql_does own c -> (forall a, sql_does own (f a)) -> sql_does own (bind c f).
Proof.
  intros Hc Hf s. unfold bind. specialize (Hc s). destruct (c s) as [[a|e] s']; cbn in *; [|done].
  eapply sql_trace_trans; [exact Hc|apply Hf].
Qed.

Lemma sql_does_attempt {A} own (c : M S A) : sql_does own c -> sql_does own (attempt c).
Proof. intros Hc s. specialize (Hc s). unfold attempt. by destruct (c s). Qed.
Lemma sql_does_map_err {A} own f (c : M S A) : sql_does own c -> sql_does own (map_err f c).
Proof. intros Hc s. specialize (Hc s). unfold map_err. by destruct (c s). Qed.

Lemma sql_does_exec (own : statement -> Prop) st : own st -> sql_does own (pg_exec st).
Proof.
  intros Hown s. destruct (pg_exec_law st s) as (sts & Hs & Hl).
  assert (Hsts : Forall (fun st => pg_interferes D st \/ own st) sts)
    by (eapply Forall_impl; [exact Hs|]; cbn; tauto).
  assert (Hcase : pg_view (pg_exec st s).2 = run_sql sts (pg_view s)
                  \/ pg_view (pg_exec st s).2 = (documented_sql st (run_sql sts (pg_view s))).2)
    by (cbn in Hl; tauto).
  destruct Hcase as [Hv|Hv]; unfold sql_trace; rewrite Hv; [by exists sts|].
  exists (sts ++ [st]). split; [|by rewrite run_sql_app].
  apply Forall_app. split; [done|]. constructor; [auto|constructor].
Qed.

(** A statement that answered ran on the tables it found. *)
Lemma exec_ok st s r s' :
  pg_exec st s = (Ok r, s') ->
  exists sts, Forall (pg_interferes D) sts
    /\ documented_sql st (run_sql sts (pg_view s)) = (Ok r, pg_view s').
Proof.
  intros He. destruct (pg_exec_law st s) as (sts & Hs & Hl). rewrite He in Hl. cbn in Hl.
  exists sts. split; [done|].
  destruct Hl as [[H1 H2]|(_ & (e & H1 & _) & _)]; [|discriminate].
  rewrite H1, H2. by destruct (documented_sql _ _).
Qed.

Lemma sql_trace_wf `{!PgTypesLaws} own s s' :
  wf_tables (pg_view s) -> sql_trace own s s' -> wf_tables (pg_view s').
Proof. intros Hwf (sts & _ & ->). by apply run_sql_wf. Qed.

End Does.
Arguments sql_does {S} D {_ _ _} {A} own c.
Arguments sql_trace {S} D {_ _ _} own s s'.

Ltac sql_step :=
  match goal with
  | |- sql_does _ _ (ret _) => apply sql_does_ret
  | |- sql_does _ _ (fail _) => apply sql_does_fail
  | |- sql_does _ _ (of_res _) => apply sql_does_of_res
  | |- sql_does _ _ (bind _ _) => apply sql_does_bind; [|intros]
  | |- sql_does _ _ (attempt _) => apply sql_does_attempt
  | |- sql_does _ _ (map_err _ _) => apply sql_does_map_err
  | |- sql_does _ _ (UserRepo.get_row _) => unfold UserRepo.get_row
  | |- sql_does _ _ (if ?b then _ else _) => destruct b eqn:?
  | |- sql_does _ _ (match ?x with _ => _ end) => destruct x eqn:?
  | |- sql_does _ _ (let _ := _ in _) => cbv zeta
  end.

#[local] Arguments matches : simpl never.
#[local] Arguments apply_sets : simpl never.

(** * Statements on one user *)

Section OnUser.
Context `{PgTypesLaws}.

(** A read, or a write of the row of the user [id] alone. *)
Definition on_user (id : string) (st : statement) : Prop :=
  match st with
  | InsertUser row => ur_id row = id
  | UpdateUsers _ (IdEq id' :: _) | DeleteUsers (IdEq id' :: _) => id' = id
  | UpdateUsers _ _ | DeleteUsers _ | InsertPermission _ | DeletePermission _ => False
  | _ => True
  end.

Lemma on_user_frame id k st t :
  users_keyed (t_users t) -> on_user id st -> pg_uuid id <> Some k ->
  t_users (documented_sql st t).2 !! k = t_users t !! k.
Proof.
  intros Hk Ho Hne.
  assert (Hm : forall cs r, t_users t !! k = Some r -> matches (IdEq id :: cs) r = false).
  { intros cs r Hr. unfold matches. cbn. destruct (pg_uuid id) as [c|]; [|done]. cbn.
    by rewrite eqb_ne_string by (rewrite (Hk _ _ Hr); congruence). }
  destruct st; cbn in Ho; try done; try (cbn; by rewrite selecting_tables).
  - cbn. subst id. destruct (pg_uuid _) as [c|]; [|done].
    repeat case_goal; try done. cbn. apply lookup_insert_ne. congruence.
  - destruct clauses as [|[] cs]; try done. subst. cbn [documented_sql].
    destruct (negb _); [done|]. destruct (first_some _ _); [done|].
    destruct (_ && _); [done|]. cbn. rewrite update_rows_lookup.
    destruct (t_users t !! k) as [r|] eqn:E; [|done]. cbn. by rewrite Hm.
  - destruct clauses as [|[] cs]; try done. subst. cbn [documented_sql].
    destruct (negb _); [done|]. cbn. destruct (t_users t !! k) as [r|] eqn:E.
    + apply map_lookup_filter_Some_2; [done|]. by apply Hm.
    + by apply map_lookup_filter_None_2; left.
  - cbn. destruct (_ || _); [done|]. by rewrite selecting_tables.
  - cbn. by destruct (_ || _).
Qed.

Lemma on_user_permissions id st t :
  on_user id st -> t_permissions (documented_sql st t).2 = t_permissions t.
Proof.
  destruct st; cbn; try done; intros _; unfold selecting; repeat case_goal; done.
Qed.

End OnUser.

Section Repository.
Context {S : Type} {D : pg_discipline} {PC : PgClient S} {PT : PgTypes} {PL : PgClientLaws S D}
  {PTL : PgTypesLaws} {E : Environment S} {CL : PgClockLaws S D}.

Lemma does_time_Now own : sql_does D own time_Now.
Proof. intros s. exists []. split; [constructor|]. apply pg_time_Now_view. Qed.

Ltac sql_walk :=
  repeat (sql_step || apply does_time_Now || (apply sql_does_exec; done)).

Lemma user_Create_does u : sql_does D (on_user (User.ID u)) (UserRepo.Create u).
Proof. unfold UserRepo.Create. sql_walk. Qed.
Lemma UpdatePassword_does id d : sql_does D (on_user id) (UserRepo.UpdatePassword id d).
Proof. unfold UserRepo.UpdatePassword. sql_walk. Qed.
Lemma updateUserFields_does id e d : sql_does D (on_user id) (UserRepo.updateUserFields id e d).
Proof. unfold UserRepo.updateUserFields. sql_walk. Qed.
Lemma UpdateRole_does c : sql_does D (on_user (rc_UserID c)) (UserRepo.UpdateRole c).
Proof. unfold UserRepo.UpdateRole, UserRepo.classifyRoleUpdateMiss. sql_walk. Qed.
Lemma UpdateStatus_does id e r : sql_does D (on_user id) (UserRepo.UpdateStatus id e r).
Proof. unfold UserRepo.UpdateStatus, UserRepo.classifyStatusUpdateMiss. sql_walk. Qed.
Lemma user_Delete_does id : sql_does D (on_user id) (UserRepo.Delete id).
Proof. unfold UserRepo.Delete. sql_walk. Qed.

Lemma sql_trace_frame id k s s' :
  wf_tables (pg_view s) -> pg_uuid id <> Some k ->
  (forall st t, pg_interferes D st -> t_users (documented_sql st t).2 !! k = t_users t !! k) ->
  sql_trace D (on_user id) s s' ->
  t_users (pg_view s') !! k = t_users (pg_view s) !! k.
Proof.
  intros Hwf Hne Hothers (sts & Hsts & ->). revert Hwf. generalize (pg_view s) as t.
  induction Hsts as [|st sts Hst Hsts IH]; intros t Hwf; [done|]. cbn.
  rewrite IH by (by apply documented_sql_wf). destruct Hst as [Hi|Ho]; [by apply Hothers|].
  eapply on_user_frame; [apply Hwf|exact Ho|exact Hne].
Qed.

(** ** What one statement found *)

(** The tables a call finds: those of [s] after statements of others. *)
Definition others (s : S) (t : tables) : Prop :=
  exists sts, Forall (pg_interferes D) sts /\ t = run_sql sts (pg_view s).

Lemma others_refl s : others s (pg_view s).
Proof. exists []. split; [constructor|done]. Qed.

Lemma others_trans s s1 t : others s (pg_view s1) -> others s1 t -> others s t.
Proof.
  intros (o1 & H1 & E1) (o2 & H2 & ->). exists (o1 ++ o2). split; [by apply Forall_app|].
  by rewrite E1, run_sql_app.
Qed.

Lemma others_wf s t : wf_tables (pg_view s) -> others s t -> wf_tables t.
Proof. intros Hwf (sts & _ & ->). by apply run_sql_wf. Qed.

(** The two ways a call ends: the statement ran and its answer came back, or
    the driver failed. *)
Lemma exec_cases st s x s' :
  pg_exec st s = (x, s') ->
  exists t, others s t
    /\ ((x, pg_view s') = documented_sql st t \/ exists e, x = Err e /\ transport_error e).
Proof.
  intros He. destruct (pg_exec_law st s) as (sts & Hs & Hl). rewrite He in Hl. cbn in Hl.
  exists (run_sql sts (pg_view s)). split; [by exists sts|].
  destruct Hl as [[H1 H2]|(_ & H1 & _)]; [left|by right].
  rewrite H1, H2. by destruct (documented_sql _ _).
Qed.

Lemma get_row_cases st s x s' :
  UserRepo.get_row st s = (x, s') ->
  exists t, others s t
    /\ ((x, pg_view s') = (res_bind (documented_sql st t).1 first_row, (documented_sql st t).2)
        \/ exists e, x = Err e /\ transport_error e).
Proof.
  unfold UserRepo.get_row, bind, of_res. destruct (pg_exec st s) as [y s1] eqn:Ee.
  apply exec_cases in Ee as (t & Ht & Hd). intros Hx. exists t. split; [done|].
  destruct Hd as [Hd|(e & -> & Htr)].
  - left. rewrite <- Hd. cbn. destruct y; injection Hx as <- <-; done.
  - right. injection Hx as <- <-. eauto.
Qed.

Lemma select_id_sql t id c :
  wf_tables t -> pg_uuid id = Some c ->
  documented_sql (SelectUsers [IdEq id]) t
  = (Ok (Users match t_users t !! c with Some r => [r] | None => [] end), t).
Proof.
  intros [Hu _] Hc. cbn. unfold selecting. cbn. rewrite Hc. cbn.
  by rewrite (filter_id _ _ c) by (done || apply Hu).
Qed.

Lemma select_id_invalid t id cs :
  pg_uuid id = None -> documented_sql (SelectUsers (IdEq id :: cs)) t = (Err invalid_text, t).
Proof. intros Hc. cbn. unfold selecting. cbn. by rewrite Hc. Qed.

(** A read of the user [id]: the row, the absence of a row, or a failure. *)
Lemma read_user id s x s' :
  wf_tables (pg_view s) -> UserRepo.get_row (SelectUsers [IdEq id]) s = (x, s') ->
  (exists c row, pg_uuid id = Some c /\ x = Ok row /\ others s (pg_view s')
                 /\ t_users (pg_view s') !! c = Some row)
  \/ (exists c, pg_uuid id = Some c /\ x = Err SqlErrNoRows /\ others s (pg_view s')
                /\ t_users (pg_view s') !! c = None)
  \/ (exists e, x = Err e /\ errors_is e SqlErrNoRows = false).
Proof.
  intros Hwf Hg. apply get_row_cases in Hg as (t & Ht & [Hd|(e & -> & Htr & _)]); [|eauto].
  destruct (pg_uuid id) as [c|] eqn:Ec.
  - rewrite (select_id_sql t id c) in Hd by (done || by eapply others_wf). cbn in Hd.
    destruct (t_users t !! c) as [row|] eqn:Er; injection Hd as -> ->.
    + left. by exists c, row.
    + right. left. by exists c.
  - rewrite select_id_invalid in Hd by done. injection Hd as -> _. right. right. by eexists.
Qed.

Definition update_outcome (t t' : tables) (c : string) (cs : list condition) (sets : list set_clause)
    (x : res userRow) : Prop :=
  match x with
  | Ok row => exists r, t_users t !! c = Some r /\ matches cs r = true
      /\ row = apply_sets sets r /\ t' = with_users t (<[c := row]> (t_users t))
      /\ row_error row = None
  | Err e => t' = t /\ (errors_is e SqlErrNoRows = true ->
                        forall r, t_users t !! c = Some r -> matches cs r = false)
  end.

Lemma update_id_sql t id c cs sets :
  wf_tables t -> pg_uuid id = Some c -> forallb condition_ok cs = true ->
  update_outcome t (documented_sql (UpdateUsers sets (IdEq id :: cs)) t).2 c cs sets
    (res_bind (documented_sql (UpdateUsers sets (IdEq id :: cs)) t).1 first_row).
Proof.
  intros [Hu Hp] Hc Hok. cbn [documented_sql forallb condition_ok]. rewrite Hc, Hok. cbn [is_some andb negb].
  rewrite (filter_id _ _ c) by (done || apply Hu).
  destruct (t_users t !! c) as [r|] eqn:Er.
  - destruct (matches cs r) eqn:Em.
    + cbn [map first_some]. destruct (row_error (apply_sets sets r)) as [e|] eqn:Ee.
      * cbn. split; [done|]. intros He. exfalso. unfold row_error in Ee.
        repeat case_match; simplify_eq; discriminate He.
      * destruct (_ && _); cbn; [split; [done|discriminate]|]. exists r.
        rewrite (update_rows_id _ _ c _ _ r) by (done || apply Hu). done.
    + cbn. rewrite andb_false_r. cbn. rewrite (update_rows_miss _ _ c) by (naive_solver || apply Hu).
      split; [by destruct t|]. intros _ r' Hr'. congruence.
  - cbn. rewrite andb_false_r. cbn. rewrite (update_rows_miss _ _ c) by (naive_solver || apply Hu).
    split; [by destruct t|]. intros _ r' Hr'. congruence.
Qed.

(** A write of the user [id] guarded by [cs]: applied, missed, or failed. *)
Lemma write_user id cs sets s x s' :
  wf_tables (pg_view s) -> forallb condition_ok cs = true ->
  UserRepo.get_row (UpdateUsers sets (IdEq id :: cs)) s = (x, s') ->
  (exists c t, pg_uuid id = Some c /\ others s t /\ update_outcome t (pg_view s') c cs sets x)
  \/ (exists e, x = Err e /\ errors_is e SqlErrNoRows = false).
Proof.
  intros Hwf Hok Hg. apply get_row_cases in Hg as (t & Ht & [Hd|(e & -> & Htr & _)]); [|eauto].
  destruct (pg_uuid id) as [c|] eqn:Ec.
  - left. exists c, t. split; [done|]. split; [done|].
    pose proof (update_id_sql t id c cs sets (others_wf _ _ Hwf Ht) Ec Hok) as Hu.
    injection Hd as -> ->. exact Hu.
  - right. cbn in Hd. rewrite Ec in Hd. cbn in Hd. injection Hd as -> _. by eexists.
Qed.

(** ** Writes are local *)

(** [c] keeps the tables well formed and, when other connections leave the row
    [k] of another user alone, leaves it alone as well. *)
Definition local_write {A} (id : string) (c : M S A) : Prop :=
  forall s, wf_tables (pg_view s) ->
    wf_tables (pg_view (c s).2)
    /\ forall k, pg_uuid id <> Some k ->
         (forall st t, pg_interferes D st -> t_users (documented_sql st t).2 !! k = t_users t !! k) ->
         t_users (pg_view (c s).2) !! k = t_users (pg_view s) !! k.

Lemma does_local_write {A} id (c : M S A) : sql_does D (on_user id) c -> local_write id c.
Proof.
  intros Hc s Hwf. split; [by eapply sql_trace_wf|]. intros k Hk Hothers.
  by apply (sql_trace_frame id).
Qed.

(** Every write of the user repository keeps the tables well formed (keys
    are the canonical identifiers, emails are unique, columns are in range and
    credential versions are positive) and touches the row of the user it names
    only, whatever other connections do and also when the driver fails. *)
Theorem user_writes_are_local (u : User.t) (id email : string) (digest : Password.PasswordDigest)
    (rolecmd : UserRoleUpdateCommand) (expected requested : Z) :
  local_write (User.ID u) (UserRepo.Create u)
  /\ local_write id (UserRepo.UpdatePassword id digest)
  /\ local_write id (UserRepo.UpdateUser {| uc_UserID := id; uc_Email := email;
                                            uc_PasswordDigest := digest |})
  /\ local_write id (UserRepo.UpdateEmail {| ec_UserID := id; ec_Email := email |})
  /\ local_write (rc_UserID rolecmd) (UserRepo.UpdateRole rolecmd)
  /\ local_write id (UserRepo.UpdateStatus id expected requested)
  /\ local_write id (UserRepo.Delete id).
Proof.
  split; [apply does_local_write, user_Create_does|].
  split; [apply does_local_write, UpdatePassword_does|].
  split; [apply does_local_write, updateUserFields_does|].
  split; [apply does_local_write, updateUserFields_does|].
  split; [apply does_local_write, UpdateRole_does|].
  split; [apply does_local_write, UpdateStatus_does|].
  apply does_local_write, user_Delete_does.
Qed.

(** ** Compare-and-set *)

Definition with_role (r : userRow) (role now : Z) : userRow :=
  apply_sets [SetRole role; SetUpdatedAt now] r.
Definition with_status (r : userRow) (status now : Z) : userRow :=
  apply_sets [SetStatus status; SetUpdatedAt now] r.

(** The effect of a compare-and-set of the role on the tables it finds. *)
Definition role_cas (c : string) (expected requested : Z) (s s' : S) (r : UserRoleUpdateResult) : Prop :=
  match ru_Outcome r with
  | UserRoleUpdateApplied =>
      exists t row now, others s t /\ t_users t !! c = Some row /\ ur_role row = expected
        /\ pg_view s' = with_users t (<[c := with_role row requested now]> (t_users t))
        /\ ru_CurrentRole r = requested
  | UserRoleUpdateAlreadyApplied =>
      others s (pg_view s') /\ ru_CurrentRole r = requested
      /\ exists row, t_users (pg_view s') !! c = Some row /\ uint8 (ur_role row) = requested
  | UserRoleUpdateConflict =>
      others s (pg_view s') /\ ru_CurrentRole r <> expected /\ ru_CurrentRole r <> requested
      /\ exists row, t_users (pg_view s') !! c = Some row /\ uint8 (ur_role row) = ru_CurrentRole r
  | UserRoleUpdateNotFound => others s (pg_view s') /\ t_users (pg_view s') !! c = None
  | UserRoleUpdateUnknown => False
  end.

Lemma known_int16_role r : Role.IsKnown r = true -> int16 r = r /\ uint8 r = r.
Proof. intros [-> | [-> | ->]]%Role.IsKnown_spec; done. Qed.

Lemma role_cas_from c e q s s1 s' r :
  (forall t, others s1 t -> others s t) -> role_cas c e q s1 s' r -> role_cas c e q s s' r.
Proof. intros Ho. unfold role_cas. destruct (ru_Outcome r); naive_solver. Qed.

Lemma classifyRoleUpdateMiss_Ok id e q s r s' :
  wf_tables (pg_view s) -> UserRepo.classifyRoleUpdateMiss id e q s = (Ok r, s') ->
  exists c, pg_uuid id = Some c /\ role_cas c e q s s' r.
Proof.
  intros Hwf. unfold UserRepo.classifyRoleUpdateMiss. intros (x & s1 & Ha & Hr)%bind_Ok_inv.
  unfold attempt in Ha. destruct (UserRepo.get_row _ s) as [y s2] eqn:Hg. injection Ha as <- <-.
  destruct (read_user _ _ _ _ Hwf Hg) as
    [(c & row & Hc & -> & Ho & Hrow)|[(c & Hc & -> & Ho & Hrow)|(e' & -> & He')]].
  - destruct (negb _) eqn:Ek; [discriminate|]. destruct (_ =? q) eqn:Eq.
    + injection Hr as <- <-. breflect. exists c. split; [done|]. cbn. eauto.
    + destruct (_ =? e) eqn:Ee; [discriminate|]. injection Hr as <- <-. breflect.
      exists c. split; [done|]. cbn. eauto 6.
  - injection Hr as <- <-. exists c. done.
  - rewrite He' in Hr. discriminate.
Qed.

Lemma UpdateRole_refines (cmd : UserRoleUpdateCommand) (s s' : S) (r : UserRoleUpdateResult) :
  wf_tables (pg_view s) -> UserRepo.UpdateRole cmd s = (Ok r, s') ->
  exists c, pg_uuid (rc_UserID cmd) = Some c
    /\ role_cas c (rc_ExpectedRole cmd) (rc_RequestedRole cmd) s s' r.
Proof.
  intros Hwf. unfold UserRepo.UpdateRole. destruct (_ || _) eqn:Ek; [discriminate|]. breflect.
  destruct (known_int16_role (rc_ExpectedRole cmd)) as [-> _]; [done|].
  destruct (known_int16_role (rc_RequestedRole cmd)) as [-> Hu]; [done|].
  intros (now & s1 & Hn & Hr)%bind_Ok_inv. apply bind_Ok_inv in Hr as (x & s2 & Ha & Hr).
  assert (Hv1 : pg_view s1 = pg_view s) by (rewrite <- (pg_time_Now_view s), Hn; done).
  unfold attempt in Ha. destruct (UserRepo.get_row _ s1) as [y s3] eqn:Hg. injection Ha as <- <-.
  assert (Ho1 : forall t, others s1 t -> others s t) by (unfold others; by rewrite Hv1).
  assert (Hwf1 : wf_tables (pg_view s1)) by (by rewrite Hv1).
  destruct (fun Hok => write_user _ _ _ _ _ _ Hwf1 Hok Hg) as
    [(c & t & Hc & Ht & Hout)|(e & -> & He)]; [done| |by rewrite He in Hr].
  destruct y as [row|e].
  - destruct Hout as (r0 & Hr0 & Hm & -> & Hv & _). destruct (_ || _) eqn:Eb; [discriminate|].
    injection Hr as <- <-. exists c. split; [done|]. unfold matches in Hm. cbn in Hm. breflect.
    exists t, r0, now. cbn. eauto 8.
  - destruct (negb _) eqn:Ee; [discriminate|]. breflect. destruct Hout as [Hv Hmiss].
    assert (Hwf3 : wf_tables (pg_view s3)) by (rewrite Hv; eapply others_wf; [|by apply Ho1]; done).
    destruct (classifyRoleUpdateMiss_Ok _ _ _ _ _ _ Hwf3 Hr) as (c' & Hc' & Hcas).
    exists c'. split; [done|]. eapply role_cas_from; [|exact Hcas]. intros t' Ht'.
    eapply others_trans; [|exact Ht']. rewrite Hv. by apply Ho1.
Qed.

(** C26. A role change is a compare-and-set, whatever other connections do: it
    is applied only to a row that has the expected role, and then changes that
    row's role and update time and nothing else; every other outcome writes
    nothing and reports what the row is then (already in the requested role,
    in a third role, or gone). *)
Theorem UpdateRole_cas (cmd : UserRoleUpdateCommand) (s s' : S) (r : UserRoleUpdateResult) :
  wf_tables (pg_view s) -> UserRepo.UpdateRole cmd s = (Ok r, s') ->
  exists c, pg_uuid (rc_UserID cmd) = Some c
    /\ role_cas c (rc_ExpectedRole cmd) (rc_RequestedRole cmd) s s' r.
Proof. apply UpdateRole_refines. Qed.

(** The effect of a compare-and-set of the status on the tables it finds.  A
    conflict may report the expected status again: the row can have changed
    back between the write that missed and the read that classifies it. *)
Definition status_cas (c : string) (expected requested : Z) (s s' : S) (r : UserStatusUpdateResult) : Prop :=
  match su_Outcome r with
  | UserStatusUpdateApplied =>
      exists t row now, others s t /\ t_users t !! c = Some row /\ ur_status row = expected
        /\ pg_view s' = with_users t (<[c := with_status row requested now]> (t_users t))
        /\ su_CurrentStatus r = requested
  | UserStatusUpdateAlreadyApplied =>
      others s (pg_view s') /\ su_CurrentStatus r = requested
      /\ exists row, t_users (pg_view s') !! c = Some row /\ uint8 (ur_status row) = requested
  | UserStatusUpdateConflict =>
      others s (pg_view s') /\ su_CurrentStatus r <> requested
      /\ exists row, t_users (pg_view s') !! c = Some row
                     /\ uint8 (ur_status row) = su_CurrentStatus r
  | UserStatusUpdateNotFound => others s (pg_view s') /\ t_users (pg_view s') !! c = None
  | UserStatusUpdateUnknown => False
  end.

Lemma known_int16_status st : Status.IsKnown st = true -> int16 st = st /\ uint8 st = st.
Proof. intros [-> | [-> | ->]]%Status.status_IsKnown_spec; done. Qed.

Lemma status_cas_from c e q s s1 s' r :
  (forall t, others s1 t -> others s t) -> status_cas c e q s1 s' r -> status_cas c e q s s' r.
Proof. intros Ho. unfold status_cas. destruct (su_Outcome r); naive_solver. Qed.

Lemma classifyStatusUpdateMiss_Ok id e q s r s' :
  wf_tables (pg_view s) -> UserRepo.classifyStatusUpdateMiss id q s = (Ok r, s') ->
  exists c, pg_uuid id = Some c /\ status_cas c e q s s' r.
Proof.
  intros Hwf. unfold UserRepo.classifyStatusUpdateMiss. intros (x & s1 & Ha & Hr)%bind_Ok_inv.
  unfold attempt in Ha. destruct (UserRepo.get_row _ s) as [y s2] eqn:Hg. injection Ha as <- <-.
  destruct (read_user _ _ _ _ Hwf Hg) as
    [(c & row & Hc & -> & Ho & Hrow)|[(c & Hc & -> & Ho & Hrow)|(e' & -> & He')]].
  - destruct (negb _) eqn:Ek; [discriminate|]. exists c. split; [done|].
    destruct (_ =? q) eqn:Eq; injection Hr as <- <-; breflect; cbn; eauto.
  - injection Hr as <- <-. exists c. done.
  - rewrite He' in Hr. discriminate.
Qed.

Lemma UpdateStatus_refines (id : string) (expected requested : Z) (s s' : S) (r : UserStatusUpdateResult) :
  wf_tables (pg_view s) -> UserRepo.UpdateStatus id expected requested s = (Ok r, s') ->
  exists c, pg_uuid id = Some c /\ status_cas c expected requested s s' r.
Proof.
  intros Hwf. unfold UserRepo.UpdateStatus. destruct (negb _) eqn:Ek1; [discriminate|].
  destruct (negb (Status.IsKnown requested)) eqn:Ek2; [discriminate|].
  destruct (expected =? requested); [discriminate|]. breflect.
  destruct (known_int16_status expected) as [-> _]; [done|].
  destruct (known_int16_status requested) as [-> Hu]; [done|].
  intros (now & s1 & Hn & Hr)%bind_Ok_inv. apply bind_Ok_inv in Hr as (x & s2 & Ha & Hr).
  assert (Hv1 : pg_view s1 = pg_view s) by (rewrite <- (pg_time_Now_view s), Hn; done).
  unfold attempt in Ha. destruct (UserRepo.get_row _ s1) as [y s3] eqn:Hg. injection Ha as <- <-.
  assert (Ho1 : forall t, others s1 t -> others s t) by (unfold others; by rewrite Hv1).
  assert (Hwf1 : wf_tables (pg_view s1)) by (by rewrite Hv1).
  destruct (fun Hok => write_user _ _ _ _ _ _ Hwf1 Hok Hg) as
    [(c & t & Hc & Ht & Hout)|(e & -> & He)]; [done| |by rewrite He in Hr].
  destruct y as [row|e].
  - destruct Hout as (r0 & Hr0 & Hm & -> & Hv & _).
    injection Hr as <- <-. exists c. split; [done|]. unfold matches in Hm. cbn in Hm. breflect.
    exists t, r0, now. cbn. eauto 8.
  - destruct (negb _) eqn:Ee; [discriminate|]. breflect. destruct Hout as [Hv Hmiss].
    assert (Hwf3 : wf_tables (pg_view s3)) by (rewrite Hv; eapply others_wf; [|by apply Ho1]; done).
    destruct (classifyStatusUpdateMiss_Ok _ expected _ _ _ _ Hwf3 Hr) as (c' & Hc' & Hcas).
    exists c'. split; [done|]. eapply status_cas_from; [|exact Hcas]. intros t' Ht'.
    eapply others_trans; [|exact Ht']. rewrite Hv. by apply Ho1.
Qed.

(** A status change is a compare-and-set, whatever other connections do:
    it is applied only to a row that has the expected status, and then changes
    that row's status and update time and nothing else; every other outcome
    writes nothing and reports what the row is then. *)
Theorem UpdateStatus_cas (id : string) (expected requested : Z) (s s' : S) (r : UserStatusUpdateResult) :
  wf_tables (pg_view s) -> UserRepo.UpdateStatus id expected requested s = (Ok r, s') ->
  exists c, pg_uuid id = Some c /\ status_cas c expected requested s s' r.
Proof. apply UpdateStatus_refines. Qed.

(** ** Password changes *)

(** What a password change that succeeded did. *)
Lemma UpdatePassword_Ok id d s v s' :
  wf_tables (pg_view s) -> UserRepo.UpdatePassword id d s = (Ok v, s') ->
  exists c t r row, pg_uuid id = Some c /\ others s t /\ t_users t !! c = Some r
    /\ pg_view s' = with_users t (<[c := row]> (t_users t))
    /\ ur_password row = Password.Encoded d /\ ur_credential_version row = v
    /\ v = ur_credential_version r + 1.
Proof.
  intros Hwf. unfold UserRepo.UpdatePassword. destruct (Password.IsZero d); [discriminate|].
  intros (now & s1 & Hn & Hr)%bind_Ok_inv. apply bind_Ok_inv in Hr as (row & s2 & Hg & Hr).
  apply map_err_Ok_inv in Hg. injection Hr as <- <-.
  assert (Hv1 : pg_view s1 = pg_view s) by (rewrite <- (pg_time_Now_view s), Hn; done).
  assert (Hwf1 : wf_tables (pg_view s1)) by (by rewrite Hv1).
  destruct (fun Hok => write_user _ _ _ _ _ _ Hwf1 Hok Hg) as
    [(c & t & Hc & Ht & r0 & Hr0 & _ & -> & Hv & _)|(e & [=] & _)]; [done|].
  exists c, t, r0. eexists. split; [done|]. split; [|by repeat split].
  unfold others in *. by rewrite <- Hv1.
Qed.

(** Every later authoritative read of the user sees at least [v]. *)
Definition at_least (c : string) (v : Z) (s : S) : Prop := version_at_least c v (pg_view s).

Lemma row_at_least c s row :
  t_users (pg_view s) !! c = Some row -> at_least c (ur_credential_version row) s.
Proof. intros Hrow r Hr. assert (r = row) by congruence. subst. lia. Qed.

Lemma others_at_least c v s t :
  (forall st, pg_interferes D st -> inserts c st = false) ->
  at_least c v s -> others s t -> version_at_least c v t.
Proof.
  intros Hi Hv (sts & Hs & ->). apply run_sql_version; [|done].
  eapply Forall_impl; [exact Hs|]. auto.
Qed.

Lemma GetIdentityState_version id c v s state s' :
  wf_tables (pg_view s) -> pg_uuid id = Some c -> at_least c v s ->
  (forall st, pg_interferes D st -> inserts c st = false) ->
  UserRepo.GetIdentityState id s = (Ok state, s') -> v <= id_CredentialVersion state.
Proof.
  intros Hwf Hc Hv Hi. unfold UserRepo.GetIdentityState. intros (row & s1 & Hg & Hr)%bind_Ok_inv.
  apply map_err_Ok_inv in Hg.
  destruct (read_user _ _ _ _ Hwf Hg) as
    [(c' & row' & Hc' & [= <-] & Ho & Hrow)|[(c' & Hc' & [=] & _)|(e' & [=] & _)]].
  assert (c' = c) as -> by congruence.
  assert (Hle : v <= ur_credential_version row) by (by eapply others_at_least).
  injection Hr as Hr <-. unfold UserRepo.toIdentityState in Hr.
  repeat case_match; simplify_eq; done.
Qed.

Lemma security_state_sql t id c :
  wf_tables t -> pg_uuid id = Some c ->
  documented_sql (SelectSecurityState id) t
  = (Ok (SecurityStates match t_users t !! c with
                        | Some u => [(u, actions_of_role (ur_role u) (t_permissions t))]
                        | None => []
                        end), t).
Proof.
  intros [Hu _] Hc. cbn. unfold selecting. cbn. rewrite Hc. cbn.
  rewrite (filter_id _ _ c) by (done || apply Hu). by destruct (t_users t !! c).
Qed.

(** An authoritative security state is that of the row found, with the
    permissions stored for its role. *)
Lemma GetSecurityState_Ok id s state s' :
  wf_tables (pg_view s) -> UserRepo.GetSecurityState id s = (Ok state, s') ->
  exists c row, pg_uuid id = Some c /\ others s (pg_view s')
    /\ t_users (pg_view s') !! c = Some row
    /\ UserRepo.toSecurityState row
         (actions_of_role (ur_role row) (t_permissions (pg_view s'))) = Ok state.
Proof.
  intros Hwf. unfold UserRepo.GetSecurityState. intros ([row acts] & s1 & Hg & Hr)%bind_Ok_inv.
  apply map_err_Ok_inv, bind_Ok_inv in Hg as (reply & s2 & He & Hf).
  apply exec_cases in He as (t & Ht & [Hd|(e & [=] & _)]).
  injection Hf as Hf <-. injection Hr as Hr <-. cbn in Hr.
  destruct (pg_uuid id) as [c|] eqn:Ec.
  - rewrite (security_state_sql t id c) in Hd by (done || by eapply others_wf).
    injection Hd as -> Hv. destruct (t_users t !! c) as [r0|] eqn:Er; [|discriminate].
    injection Hf as -> <-. exists c, row. rewrite Hv. done.
  - cbn in Hd. unfold selecting in Hd. cbn in Hd. rewrite Ec in Hd. discriminate.
Qed.

Lemma toSecurityState_version row acts state :
  UserRepo.toSecurityState row acts = Ok state ->
  sec_CredentialVersion state = ur_credential_version row.
Proof.
  unfold UserRepo.toSecurityState. repeat case_match; try discriminate. intros Hs. by inv_ok.
Qed.

(** A token of a version below one the user has for good is refused. *)
Lemma raised_version_refused c v p p' required s s' :
  wf_tables (pg_view s) -> at_least c v s ->
  (forall st, pg_interferes D st -> inserts c st = false) ->
  pg_uuid (Authorization.userID p) = Some c -> Authorization.credentialVersion p < v ->
  Authorization.AuthorizeFreshIdentity p s <> (Ok p', s')
  /\ Authorization.AuthorizeFresh p required s <> (Ok p', s').
Proof.
  intros Hwf Hv Hi Hc Hlt. split; intros Hauth.
  - apply Authorization.AuthorizeFreshIdentity_Ok in Hauth as (_ & state & Hg & _ & Hcv & _).
    apply (GetIdentityState_version _ c _ _ _ _ Hwf Hc Hv Hi) in Hg. lia.
  - apply Authorization.AuthorizeFresh_Ok in Hauth as (_ & state & Hg & _ & Hcv & _).
    apply GetSecurityState_Ok in Hg as (c' & row2 & Hc2 & Ho2 & Hr2 & Hs2); [|done].
    assert (c' = c) as -> by congruence. apply toSecurityState_version in Hs2.
    assert (v <= ur_credential_version row2) by (by eapply (others_at_least c)). lia.
Qed.

(** Where a password change leaves the versions, for every later state. *)
Lemma UpdatePassword_raises id c d s s1 s2 v v0 :
  wf_tables (pg_view s) -> pg_uuid id = Some c -> at_least c v0 s ->
  (forall st, pg_interferes D st -> inserts c st = false) ->
  UserRepo.UpdatePassword id d s = (Ok v, s1) ->
  sql_trace D (fun st => inserts c st = false) s1 s2 ->
  v0 < v /\ wf_tables (pg_view s2) /\ at_least c v s2.
Proof.
  intros Hwf Hc Hv0 Hi Hup Htr.
  destruct (UpdatePassword_Ok _ _ _ _ _ Hwf Hup) as (c' & t & r & row' & Hc' & Ho & Hr & Hv & _ & Hver & ->).
  assert (c' = c) as -> by congruence.
  assert (Hr' : v0 <= ur_credential_version r) by (by eapply (others_at_least c)).
  split; [lia|]. split.
  { eapply sql_trace_wf; [|exact Htr]. eapply sql_trace_wf; [exact Hwf|].
    pose proof (UpdatePassword_does id d s) as Hd. by rewrite Hup in Hd. }
  destruct Htr as (sts & Hsts & Hv2). unfold at_least. rewrite Hv2. apply run_sql_version.
  - eapply Forall_impl; [exact Hsts|]. intros st [Hst|Hst]; auto.
  - rewrite Hv. intros x Hx. cbn in Hx. rewrite lookup_insert_eq in Hx. injection Hx as <-. lia.
Qed.

(** A password change ends every credential issued before it: once it
    succeeded, no request with a token of a credential version up to the one
    the user had is ever authorised again, by the identity check or by the
    permission check, whatever other connections and later statements do to
    the database short of inserting that user identifier anew. *)
Theorem password_change_revokes_tokens (id c : string) (d : Password.PasswordDigest) (s s1 s2 : S)
    (v : Z) (row : userRow) (p p' : Authorization.Principal) (required : Permission.Permission)
    (s' : S) :
  wf_tables (pg_view s) -> pg_uuid id = Some c -> t_users (pg_view s) !! c = Some row ->
  (forall st, pg_interferes D st -> inserts c st = false) ->
  UserRepo.UpdatePassword id d s = (Ok v, s1) ->
  sql_trace D (fun st => inserts c st = false) s1 s2 ->
  Authorization.userID p = id ->
  Authorization.credentialVersion p <= ur_credential_version row ->
  ur_credential_version row < v
  /\ Authorization.AuthorizeFreshIdentity p s2 <> (Ok p', s')
  /\ Authorization.AuthorizeFresh p required s2 <> (Ok p', s').
Proof.
  intros Hwf Hc Hrow Hi Hup Htr Hp Hle.
  destruct (UpdatePassword_raises _ _ _ _ _ _ _ _ Hwf Hc (row_at_least _ _ _ Hrow) Hi Hup Htr)
    as (Hlt & Hwf2 & Hv).
  split; [done|]. eapply raised_version_refused; try done; [by rewrite Hp|lia].
Qed.

(** ** Creation and lookup *)

(** A client that never loses a call answers with the statement's result. *)
Lemma exec_sure st s :
  ~ pg_faults D ->
  exists t, others s t /\ (pg_exec st s).1 = (documented_sql st t).1
    /\ pg_view (pg_exec st s).2 = (documented_sql st t).2.
Proof.
  intros Hf. destruct (pg_exec_law st s) as (sts & Hs & Hl). exists (run_sql sts (pg_view s)).
  split; [by exists sts|]. cbn in Hl. tauto.
Qed.

(** [st] leaves an existing row [k] as it is. *)
Definition spares (k : string) (st : statement) : Prop :=
  forall t row, t_users t !! k = Some row -> t_users (documented_sql st t).2 !! k = Some row.

Lemma run_sql_spares k sts t row :
  Forall (spares k) sts -> t_users t !! k = Some row -> t_users (run_sql sts t) !! k = Some row.
Proof.
  intros Hs. revert t. induction Hs as [|st sts Hst Hsts IH]; intros t Ht; [done|].
  by apply IH, Hst.
Qed.

(** The row an insertion of [u] leaves: the server keeps its own precision of
    instants. *)
Definition stored_row (c : string) (u : User.t) : userRow :=
  let row := UserRepo.userRowFromDomain u in
  {| ur_id := c; ur_email := ur_email row; ur_password := ur_password row;
     ur_status := ur_status row; ur_role := ur_role row;
     ur_credential_version := ur_credential_version row;
     ur_created_at := pg_timestamp (ur_created_at row);
     ur_updated_at := pg_timestamp <$> ur_updated_at row |}.

Definition stored_user (c : string) (u : User.t) : User.t :=
  {| User.ID := c; User.Email := User.Email u; User.PasswordDigest := User.PasswordDigest u;
     User.Status := User.Status u; User.Role := User.Role u;
     User.CredentialVersion := User.CredentialVersion u;
     User.CreatedAt := pg_timestamp (User.CreatedAt u);
     User.UpdatedAt := pg_timestamp <$> User.UpdatedAt u |}.

Lemma toDomain_stored c u :
  Password.IsZero (User.PasswordDigest u) = false ->
  Role.IsKnown (User.Role u) = true -> Status.IsKnown (User.Status u) = true ->
  UserRepo.toDomain (stored_row c u) = Ok (stored_user c u).
Proof.
  intros Hz Hr Hs. unfold UserRepo.toDomain, stored_row, stored_user. cbn.
  apply known_int16_role in Hr as [Hr1 Hr2]. apply known_int16_status in Hs as [Hs1 Hs2].
  destruct u as [? ? [d] ? ? ? ? ?]. cbn in *.
  unfold Password.NewPasswordDigest, Password.Encoded, Password.IsZero in *. cbn in *.
  rewrite Hz. cbn. by rewrite Hr1, Hr2, Hs1, Hs2.
Qed.

Lemma Create_Ok u s s' :
  UserRepo.Create u s = (Ok tt, s') ->
  Password.IsZero (User.PasswordDigest u) = false
  /\ exists c t, pg_uuid (User.ID u) = Some c /\ others s t /\ t_users t !! c = None
      /\ (forall k r, t_users t !! k = Some r -> ur_email r <> User.Email u)
      /\ pg_view s' = with_users t (<[c := stored_row c u]> (t_users t)).
Proof.
  unfold UserRepo.Create. destruct (_ <=? 0); [discriminate|].
  destruct (Password.IsZero _) eqn:Ez; [discriminate|].
  intros (r & s1 & Hg & Hr)%bind_Ok_inv. apply map_err_Ok_inv in Hg. injection Hr as <-.
  apply exec_cases in Hg as (t & Ht & [Hd|(e & [=] & _)]). split; [done|].
  cbn [documented_sql] in Hd. change (ur_id (UserRepo.userRowFromDomain u)) with (User.ID u) in Hd.
  destruct (pg_uuid (User.ID u)) as [c|] eqn:Ec; [|discriminate]. exists c, t.
  destruct (row_error _); [discriminate|]. destruct (t_users t !! c) eqn:El; [discriminate|].
  cbn [is_some] in Hd. destruct (existsb _ _) eqn:Ee; [discriminate|]. injection Hd as _ Hv.
  repeat split; try done. intros k r' Hk. apply (existsb_rows_false _ _ _ _ Ee) in Hk. by breflect.
Qed.

Lemma others_spares k s t row :
  (forall st, pg_interferes D st -> spares k st) -> others s t ->
  t_users (pg_view s) !! k = Some row -> t_users t !! k = Some row.
Proof.
  intros Hi (sts & Hs & ->). apply run_sql_spares. eapply Forall_impl; [exact Hs|]. auto.
Qed.

Lemma FindByID_present id c s row u :
  ~ pg_faults D -> (forall st, pg_interferes D st -> spares c st) ->
  wf_tables (pg_view s) -> pg_uuid id = Some c -> t_users (pg_view s) !! c = Some row ->
  UserRepo.toDomain row = Ok u ->
  exists s', UserRepo.FindByID id s = (Ok (Some u), s').
Proof.
  intros Hf Hi Hwf Hc Hrow Hu. destruct (exec_sure (SelectUsers [IdEq id]) s Hf) as (t & Ht & H1 & H2).
  rewrite (select_id_sql t id c) in H1 by (done || by eapply others_wf).
  rewrite (others_spares c s t row) in H1 by done. cbn in H1.
  unfold UserRepo.FindByID, UserRepo.get_row, map_err, bind, of_res.
  destruct (pg_exec _ s) as [r s1]. cbn in H1. subst r. cbn. rewrite Hu. by eexists.
Qed.

Lemma FindByEmail_present c s row u :
  ~ pg_faults D -> (forall st, pg_interferes D st -> spares c st) ->
  wf_tables (pg_view s) -> t_users (pg_view s) !! c = Some row ->
  UserRepo.toDomain row = Ok u ->
  exists s', UserRepo.FindByEmail (ur_email row) s = (Ok (Some u), s').
Proof.
  intros Hf Hi Hwf Hrow Hu.
  destruct (exec_sure (SelectUsers [EmailEq (ur_email row)]) s Hf) as (t & Ht & H1 & H2).
  assert (Hr : t_users t !! c = Some row) by (by eapply others_spares).
  assert (Hw : wf_users (t_users t)) by (by eapply others_wf).
  cbn in H1. unfold selecting in H1. cbn in H1. rewrite (filter_rows_key _ _ c) in H1.
  - rewrite Hr in H1. unfold matches in H1. cbn in H1. rewrite eqb_refl_string in H1. cbn in H1.
    unfold UserRepo.FindByEmail, UserRepo.get_row, attempt, map_err, bind, of_res.
    destruct (pg_exec _ s) as [r s1]. cbn in H1. subst r. cbn. rewrite Hu. by eexists.
  - intros k r Hk Hm. unfold matches in Hm. cbn in Hm. breflect. by eapply (wf_emails _ Hw k c r row).
Qed.

(** A user that was created is found again, by its identifier and by its
    email, with every field as it was given (instants at the server's
    precision), as long as nobody writes its row. *)
Theorem user_create_then_find (u : User.t) (c : string) (s s1 s2 : S) :
  ~ pg_faults D -> (forall st, pg_interferes D st -> spares c st) ->
  wf_tables (pg_view s) -> pg_uuid (User.ID u) = Some c ->
  Role.IsKnown (User.Role u) = true -> Status.IsKnown (User.Status u) = true ->
  UserRepo.Create u s = (Ok tt, s1) -> sql_trace D (spares c) s1 s2 ->
  (exists s', UserRepo.FindByID (User.ID u) s2 = (Ok (Some (stored_user c u)), s'))
  /\ (exists s', UserRepo.FindByEmail (User.Email u) s2 = (Ok (Some (stored_user c u)), s')).
Proof.
  intros Hf Hi Hwf Hc Hr Hs Hcr (sts & Hsts & Hv2).
  assert (Hwf2 : wf_tables (pg_view s2)).
  { rewrite Hv2. apply run_sql_wf. eapply sql_trace_wf; [exact Hwf|].
    pose proof (user_Create_does u s) as Hd. by rewrite Hcr in Hd. }
  apply Create_Ok in Hcr as (Hz & c' & t & Hc' & _ & _ & _ & Hv).
  assert (c' = c) as -> by congruence.
  assert (Hrow : t_users (pg_view s2) !! c = Some (stored_row c u)).
  { rewrite Hv2. apply run_sql_spares.
    - eapply Forall_impl; [exact Hsts|]. intros st [Hst|Hst]; auto.
    - rewrite Hv. apply lookup_insert_eq. }
  pose proof (toDomain_stored c u Hz Hr Hs) as Hd. split.
  - by eapply FindByID_present.
  - by eapply (FindByEmail_present c s2 (stored_row c u)).
Qed.

(** Two users never share an email: a creation whose email a row already
    has is refused, with the error the API reports as a conflict, and writes
    nothing. *)
Theorem duplicate_email_refused (u : User.t) (c : string) (s : S) (row : userRow) :
  ~ pg_faults D -> (forall st, pg_interferes D st -> spares c st) ->
  wf_tables (pg_view s) -> t_users (pg_view s) !! c = Some row -> ur_email row = User.Email u ->
  0 < User.CredentialVersion u < 2^63 -> Password.IsZero (User.PasswordDigest u) = false ->
  Role.IsKnown (User.Role u) = true -> Status.IsKnown (User.Status u) = true ->
  (exists k, pg_uuid (User.ID u) = Some k /\ k <> c
             /\ forall t, others s t -> t_users t !! k = None) ->
  exists e s', UserRepo.Create u s = (Err e, s') /\ errors_is e ErrEmailAlreadyExists = true
               /\ others s (pg_view s').
Proof.
  intros Hf Hi Hwf Hrow He Hcv Hz Hr Hs (k & Hk & Hne & Hfree).
  destruct (exec_sure (InsertUser (UserRepo.userRowFromDomain u)) s Hf) as (t & Ht & H1 & H2).
  apply known_int16_role in Hr as Hr'. apply known_int16_status in Hs as Hs'.
  assert (Hins : documented_sql (InsertUser (UserRepo.userRowFromDomain u)) t
                 = (Err (EPg "23505" "users_email_key"), t)).
  { cbn [documented_sql]. change (ur_id (UserRepo.userRowFromDomain u)) with (User.ID u). rewrite Hk.
    destruct (row_error _) as [e|] eqn:Ee.
    { exfalso. unfold row_error in Ee. cbn in Ee. destruct Hr' as [Hr1 _], Hs' as [Hs1 _].
      rewrite Hr1, Hs1 in Ee. unfold in_smallint, in_bigint in Ee.
      apply Role.IsKnown_spec in Hr. apply Status.status_IsKnown_spec in Hs.
      repeat case_match; simplify_eq; breflect;
        repeat match goal with H : _ \/ _ |- _ => destruct H; breflect end; try lia. }
    rewrite (Hfree t Ht). cbn [is_some].
    destruct (existsb _ _) eqn:Ex; [done|].
    apply (existsb_rows_false _ _ c row) in Ex; [|by eapply others_spares]. cbn in Ex. breflect. done. }
  rewrite Hins in H1, H2. unfold UserRepo.Create. rewrite (proj2 (Z.leb_gt _ _)), Hz by lia.
  unfold bind, map_err. destruct (pg_exec _ s) as [r s1]. cbn in H1, H2. subst r. cbn.
  do 2 eexists. split; [done|]. split; [done|]. by rewrite H2.
Qed.

(** ** Listing *)

(** Whether a listing with these criteria wants the row: an empty list of
    roles or statuses, or an empty search, does not restrict. *)
Definition wanted (criteria : UserListCriteria) (row : userRow) : Prop :=
  (lc_Roles criteria = [] \/ In (ur_role row) (lc_Roles criteria))
  /\ (lc_Statuses criteria = [] \/ In (ur_status row) (lc_Statuses criteria))
  /\ (lc_Search criteria = ""
      \/ pg_ilike (ur_email row) ("%" +:+ (lc_Search criteria +:+ "%")) = true).

Definition bytes_values (l : list Z) : Prop := Forall (fun z => 0 <= z < 256) l.

Lemma map_int16_bytes l : bytes_values l -> map int16 l = l.
Proof. induction 1 as [|z l Hz Hl IH]; [done|]. cbn. rewrite IH, int16_id by lia. done. Qed.

Lemma existsb_eqb_In z l : existsb (Z.eqb z) l = true <-> In z l.
Proof.
  rewrite existsb_exists. split.
  - intros (x & Hx & ->%Z.eqb_eq). done.
  - intros Hin. exists z. by rewrite Z.eqb_refl.
Qed.

Lemma matches_app cs cs' row : matches (cs ++ cs') row = matches cs row && matches cs' row.
Proof. apply forallb_app. Qed.

Lemma list_clauses_wanted criteria row :
  bytes_values (lc_Roles criteria) -> bytes_values (lc_Statuses criteria) ->
  matches (UserRepo.list_clauses criteria) row = true <-> wanted criteria row.
Proof.
  intros Hr Hs. unfold UserRepo.list_clauses, wanted. rewrite !matches_app, !andb_true_iff.
  unfold UserRepo.userRolesToDatabase, UserRepo.userStatusesToDatabase.
  destruct criteria as [statuses roles search]. cbn [lc_Roles lc_Statuses lc_Search] in *.
  assert (H1 : matches (match roles with [] => [] | z :: l => [RoleAny (map int16 (z :: l))] end) row = true
               <-> roles = [] \/ In (ur_role row) roles).
  { destruct roles as [|r rs]; [by split; [left|]|]. rewrite map_int16_bytes by done.
    unfold matches. cbn [forallb satisfies]. rewrite andb_true_r, existsb_eqb_In.
    split; [by right|]. by intros [|]. }
  assert (H2 : matches (match statuses with [] => [] | z :: l => [StatusAny (map int16 (z :: l))] end) row = true
               <-> statuses = [] \/ In (ur_status row) statuses).
  { destruct statuses as [|r rs]; [by split; [left|]|]. rewrite map_int16_bytes by done.
    unfold matches. cbn [forallb satisfies]. rewrite andb_true_r, existsb_eqb_In.
    split; [by right|]. by intros [|]. }
  rewrite H1, H2. destruct (search =s "") eqn:Es; breflect; cbn.
  - subst. intuition.
  - unfold matches. cbn. rewrite andb_true_r. intuition congruence.
Qed.

Lemma list_clauses_ok criteria : forallb condition_ok (UserRepo.list_clauses criteria) = true.
Proof. unfold UserRepo.list_clauses. by destruct (lc_Roles _), (lc_Statuses _), (lc_Search _ =s ""). Qed.

#[local] Instance newer_total : Total newer.
Proof.
  intros a b. unfold newer. destruct (Z.lt_total (ur_created_at a) (ur_created_at b)) as [|[E'|]];
    [auto| |auto].
  destruct (Permission.string_leb_total (ur_id a) (ur_id b)); auto.
Qed.

#[local] Instance newer_trans : Transitive newer.
Proof.
  intros a b c. unfold newer. intros [Ha|[Ha Ha']] [Hb|[Hb Hb']]; [left; lia..|].
  right. split; [lia|]. by etrans.
Qed.

(** The matching users of the tables, newest first. *)
Definition listing (criteria : UserListCriteria) (t : tables) : list userRow :=
  merge_sort newer (List.filter (matches (UserRepo.list_clauses criteria)) (rows (t_users t))).

Definition quiet : Prop := ~ pg_faults D /\ forall st, ~ pg_interferes D st.

Lemma others_quiet s t : quiet -> others s t -> t = pg_view s.
Proof. intros [_ Hq] ([|st sts] & Hs & ->); [done|]. inversion Hs. by destruct (Hq st). Qed.

Lemma ListUsers_page offset limit criteria s :
  quiet -> 0 <= offset -> 0 <= limit ->
  (UserRepo.ListUsers offset limit criteria s).1
  = Ok {| lr_Items := map UserRepo.toListItem (page limit offset (listing criteria (pg_view s)));
          lr_Total := Z.of_nat (List.length (listing criteria (pg_view s))) |}.
Proof.
  intros Hq Ho Hl. unfold UserRepo.ListUsers, bind.
  destruct (exec_sure (CountUsers (UserRepo.list_clauses criteria)) s (proj1 Hq)) as (t & Ht & H1 & H2).
  apply others_quiet in Ht as ->; [|done].
  destruct (pg_exec (CountUsers _) s) as [r s1]. cbn in H1, H2. unfold selecting in H1, H2.
  rewrite list_clauses_ok in H1, H2. cbn in H1, H2. subst r.
  set (found := List.filter _ _). assert (Hlen : List.length (listing criteria (pg_view s)) = List.length found).
  { unfold listing. by rewrite (merge_sort_Permutation newer). }
  destruct (Z.of_nat (List.length found) =? 0) eqn:E0; breflect.
  - assert (List.length found = 0%nat) as Hz by lia. rewrite Hz in Hlen.
    apply nil_length_inv in Hlen as ->. unfold page. by rewrite drop_nil, take_nil.
  - destruct (exec_sure (SelectUsersPage (UserRepo.list_clauses criteria) limit offset) s1 (proj1 Hq))
      as (t & Ht & H3 & H4).
    apply others_quiet in Ht as ->; [|done]. destruct (pg_exec (SelectUsersPage _ _ _) s1) as [r s2].
    cbn in H3. rewrite !(proj2 (Z.ltb_ge _ 0)) in H3 by done. cbn in H3. unfold selecting in H3.
    rewrite list_clauses_ok, H2 in H3. cbn in H3. subst r. cbn. unfold listing in *. by rewrite Hlen.
Qed.

Lemma concat_pages {A} (k : nat) (l : list A) a n :
  concat (map (fun i => take k (drop (i * k) l)) (seq a n)) = take (n * k) (drop (a * k) l).
Proof.
  revert a. induction n as [|n IH]; intros a; [done|]. cbn [seq map concat]. rewrite IH.
  replace (drop (Datatypes.S a * k) l) with (drop k (drop (a * k) l))
    by (rewrite drop_drop; f_equal; lia).
  apply take_take_drop.
Qed.

Lemma NoDup_rows (t : gmap string userRow) : users_keyed t -> NoDup (rows t).
Proof.
  intros Hk. apply NoDup_fmap_2_strong; [|apply NoDup_map_to_list].
  intros [k1 r1] [k2 r2] H1%elem_of_map_to_list H2%elem_of_map_to_list He. cbn in He. subst r2.
  by rewrite <- (Hk _ _ H1), <- (Hk _ _ H2).
Qed.

(** The items of page [i] of a listing, read in state [s]. *)
Definition page_items (limit : Z) (criteria : UserListCriteria) (s : S) (i : nat) : list UserListItem :=
  match (UserRepo.ListUsers (Z.of_nat i * limit) limit criteria s).1 with
  | Ok r => lr_Items r
  | Err _ => []
  end.

(** Paging through a listing of unchanged tables shows every user the
    criteria want exactly once, newest first, and every page reports their
    number: the pages, in order, are the items of a permutation of the rows
    wanted, sorted by creation time and identifier, descending. *)
Theorem user_listing_complete (criteria : UserListCriteria) (limit : Z) (n : nat)
    (states : nat -> S) (t : tables) :
  quiet -> wf_tables t -> 0 < limit -> (forall i, pg_view (states i) = t) ->
  bytes_values (lc_Roles criteria) -> bytes_values (lc_Statuses criteria) ->
  Z.of_nat (size (t_users t)) <= Z.of_nat n * limit ->
  exists rs,
    concat (map (fun i => page_items limit criteria (states i) i) (seq 0 n)) = map UserRepo.toListItem rs
    /\ NoDup rs /\ StronglySorted newer rs
    /\ (forall r, In r rs <-> wanted criteria r /\ exists k, t_users t !! k = Some r)
    /\ forall i, res_map lr_Total
         (UserRepo.ListUsers (Z.of_nat i * limit) limit criteria (states i)).1
         = Ok (Z.of_nat (List.length rs)).
Proof.
  intros Hq Hwf Hl Hst Hr Hs Hn. exists (listing criteria t).
  assert (Hperm : listing criteria t ≡ₚ
            List.filter (matches (UserRepo.list_clauses criteria)) (rows (t_users t)))
    by apply (merge_sort_Permutation newer).
  split; [|split; [|split; [|split]]].
  - rewrite (map_ext _ (fun i => take (Z.to_nat limit) (drop (i * Z.to_nat limit)
               (map UserRepo.toListItem (listing criteria t))))).
    + rewrite concat_pages. cbn. apply firstn_all2. rewrite length_map, Hperm.
      etrans; [apply length_filter_le|]. unfold rows. rewrite length_fmap, length_map_to_list. lia.
    + intros i. unfold page_items. rewrite ListUsers_page by (done || lia). cbn. rewrite Hst.
      unfold page. rewrite skipn_map, firstn_map. do 3 f_equal. lia.
  - rewrite Hperm. apply NoDup_ListNoDup, List.NoDup_filter, NoDup_ListNoDup, NoDup_rows, Hwf.
  - apply (StronglySorted_merge_sort _ _).
  - intros r. rewrite <- !list_elem_of_In, Hperm, list_elem_of_In, filter_In, In_rows.
    rewrite list_clauses_wanted by done. tauto.
  - intros i. rewrite ListUsers_page by (done || lia). cbn. by rewrite Hst.
Qed.

End Repository.

(** * A local database, for the witnesses *)

Module LocalPg.

(** ASCII letters in lower case. *)
Definition lower_ascii (a : Ascii.ascii) : Ascii.ascii :=
  let n := Ascii.nat_of_ascii a in
  if ((65 <=? n) && (n <=? 90))%nat%bool then Ascii.ascii_of_nat (n + 32) else a.
Fixpoint lower (s : string) : string :=
  match s with
  | EmptyString => EmptyString
  | String a s' => String (lower_ascii a) (lower s')
  end.

Lemma lower_ascii_idem a : lower_ascii (lower_ascii a) = lower_ascii a.
Proof. by destruct a as [[] [] [] [] [] [] [] []]. Qed.
Lemma lower_idem s : lower (lower s) = lower s.
Proof. induction s as [|a s IH]; [done|]. cbn. by rewrite lower_ascii_idem, IH. Qed.
Lemma length_lower s : String.length (lower s) = String.length s.
Proof. induction s as [|a s IH]; [done|]. cbn. by rewrite IH. Qed.

Definition by_role (a b : permissionRow) : Prop := pm_role b <= pm_role a.
#[global] Instance by_role_dec : RelDecision by_role.
Proof. intros a b. unfold by_role. apply _. Defined.
#[global] Instance by_role_total : Total by_role.
Proof. intros a b. unfold by_role. lia. Qed.

(** Identifiers of 36 characters are read, in either case; instants keep
    microseconds; the patterns of the listing ("%text%") are searched
    case-sensitively. *)
#[global] Instance types : PgTypes := {|
  pg_uuid := fun s => if (String.length s =? 36)%nat then Some (lower s) else None;
  pg_timestamp := fun t => t / 1000 * 1000;
  pg_ilike := fun s p => is_some (String.index 0 (String.substring 1 (String.length p - 2) p) s);
  pg_by_role := fun _ _ ps => merge_sort by_role (rows ps);
|}.
#[global] Instance types_laws : PgTypesLaws.
Proof.
  split.
  - intros id c. cbn. destruct (_ =? _)%nat eqn:E; [|done]. intros [= <-].
    by rewrite length_lower, E, lower_idem.
  - intros. apply merge_sort_Permutation.
  - intros. apply (Sorted_merge_sort by_role).
Qed.

#[global] Instance client : PgClient tables := documented_sql.

#[global] Program Instance laws : PgClientLaws tables pg_undisturbed := {| pg_view := fun t => t |}.
Next Obligation. intros st t. exists []. split; [constructor|]. by left. Qed.

#[global] Instance environment : Environment tables := {|
  time_Now := fun t => (Ok 1700000000000000000, t);
  uuid_New := fun t => (Ok "22222222-2222-4222-8222-222222222222", t);
  ULIDGenerator := fun t => (Ok "01ARZ3NDEKTSV4RRFFQ69G5FAV", t);
|}.
#[global] Instance clock : PgClockLaws tables pg_undisturbed.
Proof. intros t. done. Qed.

Definition id1 : string := "11111111-1111-4111-8111-111111111111".
Definition id2 : string := "22222222-2222-4222-8222-222222222222".
Definition user (id email : string) : User.t :=
  {| User.ID := id; User.Email := email;
     User.PasswordDigest := {| Password.encoded := "digest" |};
     User.Status := Status.StatusActive; User.Role := Role.RoleClient;
     User.CredentialVersion := InitialCredentialVersion;
     User.CreatedAt := 1600000000000000000; User.UpdatedAt := None |}.

Definition empty : tables := {| t_users := ∅; t_permissions := ∅ |}.
(** One user; and after its password changed. *)
Definition one : tables := (UserRepo.Create (user id1 "a@example.com") empty).2.
Definition changed : tables := (UserRepo.UpdatePassword id1 {| Password.encoded := "other" |} one).2.

Lemma empty_wf : wf_tables empty.
Proof.
  split; split; try (intros ? ? ? ? [=]); try (intros ? ? [=]).
Qed.

Lemma one_wf : wf_tables one.
Proof.
  exact (sql_trace_wf (D := pg_undisturbed) _ empty one empty_wf (user_Create_does (user id1 "a@example.com") empty)).
Qed.

Definition row1 : userRow := stored_row id1 (user id1 "a@example.com").
Lemma row1_stored : t_users one !! id1 = Some row1.
Proof. vm_compute. reflexivity. Qed.

Lemma quiet_undisturbed : quiet (D := pg_undisturbed).
Proof. split; [by intros []|]. by intros st []. Qed.

(** A token of the first credential version. *)
Definition principal : Authorization.Principal :=
  {| Authorization.userID := id1; Authorization.sessionID := "s1";
     Authorization.credentialVersion := 1; Authorization.role := Role.RoleClient;
     Authorization.permissions := Permission.emptySet |}.
Definition role_command : UserRoleUpdateCommand :=
  {| rc_UserID := id1; rc_ExpectedRole := Role.RoleClient; rc_RequestedRole := Role.RoleOperator |}.
End LocalPg.

Lemma user_writes_are_local_witness :
  local_write (D := pg_undisturbed) LocalPg.id1 (UserRepo.Delete LocalPg.id1).
Proof.
  apply (user_writes_are_local (D := pg_undisturbed) (LocalPg.user LocalPg.id1 "a@example.com")
           LocalPg.id1 "" Password.zeroDigest LocalPg.role_command 1 2).
Defined.

Lemma UpdateRole_cas_witness :
  exists c, pg_uuid LocalPg.id1 = Some c
    /\ role_cas (D := pg_undisturbed) c Role.RoleClient Role.RoleOperator LocalPg.one
         (UserRepo.UpdateRole LocalPg.role_command LocalPg.one).2
         {| ru_Outcome := UserRoleUpdateApplied; ru_CurrentRole := Role.RoleOperator |}.
Proof.
  apply (UpdateRole_cas (D := pg_undisturbed) LocalPg.role_command LocalPg.one
           (UserRepo.UpdateRole LocalPg.role_command LocalPg.one).2).
  - apply LocalPg.one_wf.
  - vm_compute. reflexivity.
Defined.

Lemma UpdateStatus_cas_witness :
  exists c, pg_uuid LocalPg.id1 = Some c
    /\ status_cas (D := pg_undisturbed) c Status.StatusInactive Status.StatusSuspended LocalPg.one
         (UserRepo.UpdateStatus LocalPg.id1 Status.StatusInactive Status.StatusSuspended LocalPg.one).2
         {| su_Outcome := UserStatusUpdateConflict; su_CurrentStatus := Status.StatusActive |}.
Proof.
  apply (UpdateStatus_cas (D := pg_undisturbed) LocalPg.id1 Status.StatusInactive Status.StatusSuspended
           LocalPg.one
           (UserRepo.UpdateStatus LocalPg.id1 Status.StatusInactive Status.StatusSuspended LocalPg.one).2).
  - apply LocalPg.one_wf.
  - vm_compute. reflexivity.
Defined.

Lemma password_change_revokes_tokens_witness :
  1 < 2
  /\ Authorization.AuthorizeFreshIdentity LocalPg.principal LocalPg.changed
     <> (Ok LocalPg.principal, LocalPg.changed)
  /\ Authorization.AuthorizeFresh LocalPg.principal "" LocalPg.changed
     <> (Ok LocalPg.principal, LocalPg.changed).
Proof.
  apply (password_change_revokes_tokens (D := pg_undisturbed) LocalPg.id1 LocalPg.id1
           {| Password.encoded := "other" |} LocalPg.one LocalPg.changed LocalPg.changed 2 LocalPg.row1
           LocalPg.principal LocalPg.principal "" LocalPg.changed).
  - apply LocalPg.one_wf.
  - reflexivity.
  - apply LocalPg.row1_stored.
  - by intros st [].
  - vm_compute. reflexivity.
  - apply sql_trace_refl.
  - reflexivity.
  - vm_compute. discriminate.
Defined.

Lemma user_create_then_find_witness :
  (exists s', UserRepo.FindByID LocalPg.id1 LocalPg.one
              = (Ok (Some (stored_user LocalPg.id1 (LocalPg.user LocalPg.id1 "a@example.com"))), s'))
  /\ (exists s', UserRepo.FindByEmail "a@example.com" LocalPg.one
              = (Ok (Some (stored_user LocalPg.id1 (LocalPg.user LocalPg.id1 "a@example.com"))), s')).
Proof.
  apply (user_create_then_find (D := pg_undisturbed) (LocalPg.user LocalPg.id1 "a@example.com")
           LocalPg.id1 LocalPg.empty LocalPg.one LocalPg.one).
  - by intros [].
  - by intros st [].
  - apply LocalPg.empty_wf.
  - reflexivity.
  - reflexivity.
  - reflexivity.
  - vm_compute. reflexivity.
  - apply sql_trace_refl.
Defined.

Lemma duplicate_email_refused_witness :
  exists e s', UserRepo.Create (LocalPg.user LocalPg.id2 "a@example.com") LocalPg.one = (Err e, s')
    /\ errors_is e ErrEmailAlreadyExists = true
    /\ others (D := pg_undisturbed) LocalPg.one (pg_view (D := pg_undisturbed) s').
Proof.
  apply (duplicate_email_refused (D := pg_undisturbed) (LocalPg.user LocalPg.id2 "a@example.com")
           LocalPg.id1 LocalPg.one LocalPg.row1).
  - by intros [].
  - by intros st [].
  - apply LocalPg.one_wf.
  - apply LocalPg.row1_stored.
  - reflexivity.
  - split; reflexivity.
  - reflexivity.
  - reflexivity.
  - reflexivity.
  - exists LocalPg.id2. split; [reflexivity|]. split; [discriminate|]. intros t Ht.
    apply (others_quiet _ _ LocalPg.quiet_undisturbed) in Ht as ->. vm_compute. reflexivity.
Defined.

Lemma user_listing_complete_witness :
  exists rs,
    concat (map (fun i => page_items 2 {| lc_Statuses := []; lc_Roles := [1]; lc_Search := "a@" |}
                            LocalPg.one i) (seq 0 1)) = map UserRepo.toListItem rs
    /\ NoDup rs /\ StronglySorted newer rs
    /\ (forall r, In r rs <-> wanted {| lc_Statuses := []; lc_Roles := [1]; lc_Search := "a@" |} r
                              /\ exists k, t_users LocalPg.one !! k = Some r)
    /\ forall i, res_map lr_Total
         (UserRepo.ListUsers (Z.of_nat i * 2) 2 {| lc_Statuses := []; lc_Roles := [1]; lc_Search := "a@" |}
            LocalPg.one).1
         = Ok (Z.of_nat (List.length rs)).
Proof.
  apply (user_listing_complete (D := pg_undisturbed)
           {| lc_Statuses := []; lc_Roles := [1]; lc_Search := "a@" |} 2 1 (fun _ => LocalPg.one) LocalPg.one).
  - apply LocalPg.quiet_undisturbed.
  - apply LocalPg.one_wf.
  - lia.
  - reflexivity.
  - repeat constructor; lia.
  - constructor.
  - vm_compute. discriminate.
Defined.

(** The state readers convert a SMALLINT column to the 8-bit role and status
    types before they validate it: a stored role of 259 is accepted as the
    administrator's (259 = 256 + 3). *)
Example out_of_range_role_accepted :
  res_map sec_Role (UserRepo.toSecurityState
    {| ur_id := LocalPg.id1; ur_email := "a@example.com"; ur_password := "digest"; ur_status := 2;
       ur_role := 259; ur_credential_version := 1; ur_created_at := 0; ur_updated_at := None |} [])
  = Ok Role.RoleAdmin.
Proof. reflexivity. Qed.
