(* ===== verification/PermissionStore.v ===== *)
(** internal/infra/database/postgres/permission and internal/usecase/permission:
    the permissions of the roles, stored as (role, action) pairs, and what a
    grant and a revocation do to the security states the user repository
    reads. *)
From S2P Require Export UserGuarantees.

Module PermissionRepo.

Definition permissionUniqueViolation : string := "23505".
Definition permissionRoleActionUniqueConstraint : string := "unique_role_action".

(** * Rows (model.go) *)

Definition permissionRowFromDomain (permission : PermissionEntity.t) : permissionRow :=
  {| pm_id := PermissionEntity.ID permission;
     pm_role := int16 (PermissionEntity.Role permission);
     pm_action := PermissionEntity.Action permission;
     pm_created_at := PermissionEntity.CreatedAt permission |}.

Definition toDomain (row : permissionRow) : PermissionEntity.t :=
  {| PermissionEntity.ID := pm_id row;
     PermissionEntity.Role := uint8 (pm_role row);
     PermissionEntity.Action := pm_action row;
     PermissionEntity.CreatedAt := pm_created_at row |}.

Definition permissionRowsToDomain (rows : list permissionRow) : list PermissionEntity.t :=
  map toDomain rows.

(** * Errors *)

Definition translatePermissionCreateError (e : err) : err :=
  match errors_as_pg e with
  | Some (code, constraint) =>
      if (code =s permissionUniqueViolation) && (constraint =s permissionRoleActionUniqueConstraint)
      then EWrap "create permission" [ESentinel ErrPermissionAlreadyExists; e] else e
  | None => e
  end.

Definition translatePermissionDeleteError (e : err) : err :=
  if errors_is e SqlErrNoRows
  then EWrap "delete permission" [ESentinel ErrPermissionNotFound; e] else e.

(** * The repository *)

Section Repository.
Context {S : Type} `{PgClient S}.

Definition Create (permission : PermissionEntity.t) : M S unit :=
  do! map_err translatePermissionCreateError
        (pg_exec (InsertPermission (permissionRowFromDomain permission))) in
  ret tt.

Definition unexpected_columns {A} : M S A := fail (ENew "sql: unexpected result columns").

Definition List (offset limit : Z) : M S (list PermissionEntity.t * Z) :=
  let! counted := pg_exec CountPermissions in
  match counted with
  | Count total =>
      let! selected := pg_exec (SelectPermissionsPage limit offset) in
      match selected with
      | Permissions rows => ret (permissionRowsToDomain rows, total)
      | _ => unexpected_columns
      end
  | _ => unexpected_columns
  end.

Definition GetByRoleID (role : Z) : M S (list PermissionEntity.t) :=
  let! selected := pg_exec (SelectPermissionsByRole (int8 role)) in
  match selected with
  | Permissions rows => ret (permissionRowsToDomain rows)
  | _ => unexpected_columns
  end.

(** [Scan(&deletedRole)]: no row, or a role that is no int8, is an error. *)
Definition scan_role (reply : sql_reply) : res unit :=
  match reply with
  | Permissions (row :: _) =>
      if (-128 <=? pm_role row) && (pm_role row <? 128) then Ok tt
      else Err (ENew "converting driver.Value type int64 to a int8: value out of range")
  | Permissions [] => Err SqlErrNoRows
  | _ => Err (ENew "sql: unexpected result columns")
  end.

Definition Delete (permissionID : string) : M S unit :=
  map_err translatePermissionDeleteError
    (let! reply := pg_exec (DeletePermission permissionID) in of_res (scan_role reply)).

#[global] Instance pg_permission_repository : PermissionRepository S :=
  {| pr_Create := Create; pr_List := List; pr_GetByRoleID := GetByRoleID; pr_Delete := Delete |}.

End Repository.
End PermissionRepo.

(** * The use case *)

Module PermissionUC.

Record CreateInput := { cr_Role : Z; cr_Action : Permission.Permission }.
Record PermissionOutput := {
  po_ID : string; po_Role : string; po_Action : string; po_CreatedAt : Z;
}.

(** The literal all three methods build. *)
Definition output_of (perm : PermissionEntity.t) : PermissionOutput :=
  {| po_ID := PermissionEntity.ID perm;
     po_Role := Role.String (PermissionEntity.Role perm);
     po_Action := PermissionEntity.Action perm;
     po_CreatedAt := PermissionEntity.CreatedAt perm |}.

Section UseCase.
Context {S : Type} `{PermissionRepository S} `{Environment S}.

Definition Create (input : CreateInput) : M S PermissionOutput :=
  let! id := uuid_New in
  let! now := time_Now in
  let perm := {| PermissionEntity.ID := id;
                 PermissionEntity.Role := cr_Role input;
                 PermissionEntity.Action := cr_Action input;
                 PermissionEntity.CreatedAt := now |} in
  do! pr_Create perm in
  ret (output_of perm).

Definition GetPermissions (offset limit : Z) : M S (list PermissionOutput * Z) :=
  let! listed := pr_List offset limit in
  let '(perms, total) := listed in
  ret (map output_of perms, total).

Definition GetPermissionsByRole (role : Z) : M S (list PermissionOutput) :=
  let! perms := pr_GetByRoleID role in
  ret (map output_of perms).

Definition Delete (permissionID : string) : M S unit := pr_Delete permissionID.

End UseCase.
End PermissionUC.

#[local] Arguments matches : simpl never.

(** * What grants and revocations do *)

Section Guarantees.
Context {S : Type} {D : pg_discipline} {PC : PgClient S} {PT : PgTypes} {PL : PgClientLaws S D}
  {PTL : PgTypesLaws}.

(** Statements that leave the permission row [c] in place, and statements that
    do not grant [action] to [role]. *)
Definition keeps_permission (c : string) (st : statement) : Prop :=
  match st with DeletePermission id => pg_uuid id <> Some c | _ => True end.
Definition no_grant (role : Z) (action : string) (st : statement) : Prop :=
  match st with
  | InsertPermission row => ~ (pm_role row = role /\ pm_action row = action)
  | _ => True
  end.

(** The pair (role, action) is stored. *)
Definition granted (t : tables) (role : Z) (action : string) : Prop :=
  exists k p, t_permissions t !! k = Some p /\ pm_role p = role /\ pm_action p = action.

(** Stored roles are bytes, as this program writes them. *)
Definition role_bytes (t : tables) : Prop :=
  forall k r, t_users t !! k = Some r -> 0 <= ur_role r < 256.

Lemma keeps_permission_sql c p st t :
  keeps_permission c st -> t_permissions t !! c = Some p ->
  t_permissions (documented_sql st t).2 !! c = Some p.
Proof.
  intros Hk Hp. destruct st; try (cbn; repeat case_goal; done); try (cbn; by rewrite selecting_tables).
  - cbn. destruct (_ || _); [done|]. by rewrite selecting_tables.
  - cbn. destruct (pg_uuid _) as [c'|]; [|done]. destruct (negb _); [done|].
    destruct (is_some _) eqn:Es; [done|]. destruct (existsb _ _); [done|]. cbn.
    rewrite lookup_insert_ne; [done|]. intros ->. by rewrite Hp in Es.
  - cbn in *. destruct (pg_uuid id) as [c'|]; [|done]. destruct (t_permissions t !! c'); [|done]. cbn.
    rewrite lookup_delete_ne; [done|congruence].
Qed.

Lemma keeps_permission_run c p sts t :
  Forall (keeps_permission c) sts -> t_permissions t !! c = Some p ->
  t_permissions (run_sql sts t) !! c = Some p.
Proof.
  intros Hs. revert t. induction Hs as [|st sts Hst _ IH]; intros t Hp; [done|].
  by apply IH, keeps_permission_sql.
Qed.

Lemma no_grant_sql role action st t :
  no_grant role action st -> ~ granted t role action -> ~ granted (documented_sql st t).2 role action.
Proof.
  intros Hn Hg. destruct st; try (cbn; repeat case_goal; done); try (cbn; by rewrite selecting_tables).
  - cbn. destruct (_ || _); [done|]. by rewrite selecting_tables.
  - cbn. destruct (pg_uuid _) as [c'|]; [|done]. destruct (negb _); [done|].
    destruct (is_some _); [done|]. destruct (existsb _ _); [done|].
    intros (k & p & Hp & Hr & Ha). cbn in Hp.
    apply lookup_insert_Some in Hp as [[<- <-]|[_ Hp]]; [by apply Hn|]. apply Hg. by exists k, p.
  - cbn. destruct (pg_uuid id) as [c'|]; [|done]. destruct (t_permissions t !! c'); [|done].
    intros (k & q & Hp & Hr & Ha). cbn in Hp. apply lookup_delete_Some in Hp as [_ Hp].
    apply Hg. by exists k, q.
Qed.

Lemma no_grant_run role action sts t :
  Forall (no_grant role action) sts -> ~ granted t role action -> ~ granted (run_sql sts t) role action.
Proof.
  intros Hs. revert t. induction Hs as [|st sts Hst _ IH]; intros t Hp; [done|].
  by apply IH, no_grant_sql.
Qed.

(** ** The calls *)

Lemma permission_Create_does p :
  sql_does D (fun st => exists row, st = InsertPermission row) (PermissionRepo.Create p).
Proof. unfold PermissionRepo.Create. repeat sql_step. apply sql_does_exec. eauto. Qed.

Lemma permission_Delete_does id :
  sql_does D (fun st => st = DeletePermission id) (PermissionRepo.Delete id).
Proof. unfold PermissionRepo.Delete. repeat sql_step. by apply sql_does_exec. Qed.

Lemma Create_grants p c s s1 :
  pg_uuid (PermissionEntity.ID p) = Some c -> PermissionRepo.Create p s = (Ok tt, s1) ->
  exists row, t_permissions (pg_view s1) !! c = Some row
    /\ pm_role row = int16 (PermissionEntity.Role p) /\ pm_action row = PermissionEntity.Action p.
Proof.
  intros Hc. unfold PermissionRepo.Create. intros (r & s2 & He & Hr)%bind_Ok_inv.
  injection Hr as ->. apply map_err_Ok_inv, exec_ok in He as (sts & _ & Hd).
  cbn in Hd. rewrite Hc in Hd. destruct (negb _); [discriminate|].
  destruct (is_some _); [discriminate|]. destruct (existsb _ _); [discriminate|].
  injection Hd as _ <-. cbn. rewrite lookup_insert_eq. by eexists.
Qed.

Lemma Delete_revokes id s s1 :
  wf_tables (pg_view s) -> PermissionRepo.Delete id s = (Ok tt, s1) ->
  exists c t row, pg_uuid id = Some c /\ others (D := D) s t /\ t_permissions t !! c = Some row
    /\ ~ granted (pg_view s1) (pm_role row) (pm_action row).
Proof.
  intros Hwf. unfold PermissionRepo.Delete. intros Hr%map_err_Ok_inv.
  apply bind_Ok_inv in Hr as (reply & s2 & He & Hr). injection Hr as Hr ->.
  apply exec_ok in He as (sts & Hs & Hd). cbn in Hd.
  destruct (pg_uuid id) as [c|] eqn:Ec; [|discriminate].
  destruct (t_permissions (run_sql sts (pg_view s)) !! c) as [row|] eqn:Er;
    injection Hd as <- Hd; [|discriminate].
  exists c, (run_sql sts (pg_view s)), row. split; [done|]. split; [by exists sts|].
  split; [done|]. rewrite <- Hd. intros (k & p & Hp & Hrole & Ha). cbn in Hp.
  apply lookup_delete_Some in Hp as [Hne Hp].
  destruct (run_sql_wf sts _ Hwf) as [_ [_ Huniq]]. apply Hne. by eapply Huniq.
Qed.

Lemma In_actions t role action :
  In action (actions_of_role role (t_permissions t)) <-> granted t role action.
Proof.
  unfold actions_of_role. rewrite <- list_elem_of_In, (merge_sort_Permutation Permission.string_le).
  rewrite list_elem_of_In, in_map_iff. split.
  - intros (p & <- & [[k Hk]%In_rows Hr]%filter_In). breflect. by exists k, p.
  - intros (k & p & Hk & Hr & Ha). exists p. split; [done|]. apply filter_In.
    split; [apply In_rows; eauto|]. by apply Z.eqb_eq.
Qed.

Lemma parsePermissions_Ok actions ps :
  UserRepo.parsePermissions actions = Ok ps -> ps = actions /\ forallb Permission.known actions = true.
Proof.
  revert ps. induction actions as [|a actions IH]; intros ps; cbn; [by intros [= <-]|].
  intros (p & Hp & Hr)%res_bind_Ok_inv. apply res_bind_Ok_inv in Hr as (ps' & Hps & Hr).
  injection Hr as <-. apply IH in Hps as [-> Hk]. unfold Permission.ParsePermission in Hp.
  destruct (Permission.known a) eqn:Ek; [|discriminate]. injection Hp as <-.
  split; [done|]. change (Permission.known a && forallb Permission.known actions = true).
  by rewrite Ek, Hk.
Qed.

(** The permissions of a security state are those granted to the role of the
    row it was read from, all of them known. *)
Lemma security_state_permissions uid s st s' :
  wf_tables (pg_view s) -> UserRepo.GetSecurityState uid s = (Ok st, s') -> role_bytes (pg_view s') ->
  others (D := D) s (pg_view s')
  /\ (forall a, In a (Permission.Values (sec_Permissions st)) <-> granted (pg_view s') (sec_Role st) a)
  /\ forall a, granted (pg_view s') (sec_Role st) a -> Permission.known a = true.
Proof.
  intros Hwf Hg Hb. apply GetSecurityState_Ok in Hg as (c & row & _ & Ho & Hrow & Hs); [|done].
  specialize (Hb _ _ Hrow). split; [done|]. unfold UserRepo.toSecurityState in Hs.
  repeat (destruct (_ : bool) in Hs; [discriminate|]).
  apply res_bind_Ok_inv in Hs as (ps & [-> Hk]%parsePermissions_Ok & Hs).
  apply res_bind_Ok_inv in Hs as (set & Hset & Hs). injection Hs as <-. cbn [sec_Permissions sec_Role].
  rewrite uint8_id by lia. rewrite forallb_forall in Hk.
  destruct (Permission.NewPermissionSet _) as [set'|] eqn:En in Hset; [|discriminate].
  injection Hset as <-. split; intros a; rewrite <- In_actions; [|apply Hk].
  rewrite <- !list_elem_of_In. exact (Permission.elem_of_values _ _ _ En).
Qed.

Lemma grant_survives p c s s1 s2 s3 :
  0 <= PermissionEntity.Role p < 256 -> pg_uuid (PermissionEntity.ID p) = Some c ->
  (forall x, pg_interferes D x -> keeps_permission c x) ->
  PermissionRepo.Create p s = (Ok tt, s1) -> sql_trace D (keeps_permission c) s1 s2 ->
  others (D := D) s2 (pg_view s3) ->
  granted (pg_view s3) (PermissionEntity.Role p) (PermissionEntity.Action p).
Proof.
  intros Hrole Hc Hd Hcr (sts & Hs & Ev) (sts' & Hs' & Ev').
  destruct (Create_grants _ _ _ _ Hc Hcr) as (row & Hrow & Hr & Ha). exists c, row.
  rewrite int16_id in Hr by lia. split; [|done]. rewrite Ev', Ev.
  apply keeps_permission_run; [by eapply Forall_impl|]. apply keeps_permission_run; [|done].
  eapply Forall_impl; [exact Hs|]. cbn. intros x [Hx|Hx]; auto.
Qed.

(** A grant takes effect: once a permission was created for a role, and as
    long as nobody deletes it, every authoritative security state of a user of
    that role has it, so a fresh authorisation for that action is not denied;
    and if the action is not a known one, no such state can be read at all. *)
Theorem grant_takes_effect (p : PermissionEntity.t) (c uid : string) (s s1 s2 s3 : S) (st : SecurityState) :
  wf_tables (pg_view s2) -> 0 <= PermissionEntity.Role p < 256 ->
  pg_uuid (PermissionEntity.ID p) = Some c ->
  (forall x, pg_interferes D x -> keeps_permission c x) ->
  PermissionRepo.Create p s = (Ok tt, s1) ->
  sql_trace D (keeps_permission c) s1 s2 ->
  UserRepo.GetSecurityState uid s2 = (Ok st, s3) -> role_bytes (pg_view s3) ->
  sec_Role st = PermissionEntity.Role p ->
  Permission.Has (sec_Permissions st) (PermissionEntity.Action p) = true
  /\ Permission.known (PermissionEntity.Action p) = true.
Proof.
  intros Hwf Hrole Hc Hd Hcr Htr Hg Hb Hst.
  apply security_state_permissions in Hg as (Ho & Hin & Hkn); [|done|done].
  pose proof (grant_survives _ _ _ _ _ _ Hrole Hc Hd Hcr Htr Ho) as Hgr. rewrite <- Hst in Hgr.
  pose proof (Hkn _ Hgr) as Hk. split; [|done]. apply Hin in Hgr.
  unfold Permission.Has. rewrite Hk. apply existsb_exists. eexists. split; [exact Hgr|].
  by rewrite String.eqb_refl.
Qed.

(** A revocation takes effect: deleting a permission that answers without
    error removed the one stored pair of its role and action, and as long as
    nobody grants that pair again, no security state of a user of that role
    has the action any more. *)
Theorem revocation_takes_effect (id : string) (s s1 : S) :
  wf_tables (pg_view s) -> PermissionRepo.Delete id s = (Ok tt, s1) ->
  exists c t row, pg_uuid id = Some c /\ others (D := D) s t /\ t_permissions t !! c = Some row
    /\ forall uid s2 s3 st,
         (forall x, pg_interferes D x -> no_grant (pm_role row) (pm_action row) x) ->
         wf_tables (pg_view s2) -> sql_trace D (no_grant (pm_role row) (pm_action row)) s1 s2 ->
         UserRepo.GetSecurityState uid s2 = (Ok st, s3) -> role_bytes (pg_view s3) ->
         sec_Role st = pm_role row ->
         ~ In (pm_action row) (Permission.Values (sec_Permissions st)).
Proof.
  intros Hwf Hdel. destruct (Delete_revokes _ _ _ Hwf Hdel) as (c & t & row & Hc & Ht & Hrow & Hn).
  exists c, t, row. split; [done|]. split; [done|]. split; [done|].
  intros uid s2 s3 st Hd Hwf2 (sts & Hs & Ev) Hg Hb Hrole.
  apply security_state_permissions in Hg as ((sts' & Hs' & Ev') & Hin & _); [|done|done].
  rewrite Hin, Hrole, Ev', Ev. apply no_grant_run; [by eapply Forall_impl|].
  apply no_grant_run; [|done]. eapply Forall_impl; [exact Hs|]. cbn. intros x [Hx|Hx]; auto.
Qed.

(** A permission with an action that is not a known one (the empty action, which
    the HTTP handler lets through) makes every security state of its role
    unreadable, and with it every login, refresh and fresh authorisation of the
    users of the role. *)
Lemma unknown_action_locks_role (p : PermissionEntity.t) (c uid : string) (s s1 s2 s3 : S) (r : res SecurityState) :
  wf_tables (pg_view s2) -> 0 <= PermissionEntity.Role p < 256 ->
  pg_uuid (PermissionEntity.ID p) = Some c ->
  (forall x, pg_interferes D x -> keeps_permission c x) ->
  Permission.known (PermissionEntity.Action p) = false ->
  PermissionRepo.Create p s = (Ok tt, s1) ->
  sql_trace D (keeps_permission c) s1 s2 ->
  UserRepo.GetSecurityState uid s2 = (r, s3) -> role_bytes (pg_view s3) ->
  forall st, r = Ok st -> sec_Role st <> PermissionEntity.Role p.
Proof.
  intros Hwf Hrole Hc Hd Hun Hcr Htr Hg Hb st -> Hst.
  apply security_state_permissions in Hg as (Ho & _ & Hkn); [|done|done].
  pose proof (grant_survives _ _ _ _ _ _ Hrole Hc Hd Hcr Htr Ho) as Hgr. rewrite <- Hst in Hgr.
  apply Hkn in Hgr. congruence.
Qed.

End Guarantees.

(** * A local store, for the witnesses *)

Module LocalPermissions.
Import LocalPg.

Definition reading : PermissionEntity.t :=
  {| PermissionEntity.ID := id2; PermissionEntity.Role := Role.RoleClient;
     PermissionEntity.Action := Permission.PermUserRead; PermissionEntity.CreatedAt := 0 |}.
(** The client of [one], granted to read, and no longer. *)
Definition reader : tables := (PermissionRepo.Create reading one).2.
Definition reader_state : SecurityState :=
  match (UserRepo.GetSecurityState id1 reader).1 with
  | Ok st => st
  | Err _ => {| sec_UserID := ""; sec_Status := 0; sec_Role := 0; sec_CredentialVersion := 0;
                sec_Permissions := Permission.emptySet |}
  end.
Definition revoked_reader : tables := (PermissionRepo.Delete id2 reader).2.

Lemma role_bytes_one t : t_users t = t_users one -> role_bytes t.
Proof.
  intros E k r. rewrite E. vm_compute (t_users one).
  intros Hr. assert (r = row1) as ->; [|by vm_compute].
  destruct (decide (k = id1)) as [->|Hne].
  - vm_compute in Hr. by injection Hr as <-.
  - exfalso. revert Hr. change (t_users one !! k = Some r -> False). unfold one.
    change ((UserRepo.Create (user id1 "a@example.com") empty).2) with
      (with_users empty (<[id1 := row1]> ∅)). cbn. rewrite lookup_insert_ne by done.
    by rewrite lookup_empty.
Qed.

Lemma reader_wf : wf_tables reader.
Proof.
  exact (sql_trace_wf (D := pg_undisturbed) _ one reader one_wf (permission_Create_does reading one)).
Qed.
Lemma revoked_reader_wf : wf_tables revoked_reader.
Proof.
  exact (sql_trace_wf (D := pg_undisturbed) _ reader revoked_reader reader_wf
           (permission_Delete_does id2 reader)).
Qed.
End LocalPermissions.

Lemma grant_takes_effect_witness :
  Permission.Has (sec_Permissions LocalPermissions.reader_state) Permission.PermUserRead = true
  /\ Permission.known Permission.PermUserRead = true.
Proof.
  apply (grant_takes_effect (D := pg_undisturbed) LocalPermissions.reading LocalPg.id2 LocalPg.id1
           LocalPg.one LocalPermissions.reader LocalPermissions.reader LocalPermissions.reader
           LocalPermissions.reader_state).
  - apply LocalPermissions.reader_wf.
  - vm_compute. split; [discriminate|reflexivity].
  - reflexivity.
  - by intros st [].
  - vm_compute. reflexivity.
  - apply sql_trace_refl.
  - vm_compute. reflexivity.
  - by apply LocalPermissions.role_bytes_one.
  - reflexivity.
Defined.

Lemma revocation_takes_effect_witness :
  exists c t row, pg_uuid LocalPg.id2 = Some c
    /\ others (D := pg_undisturbed) LocalPermissions.reader t
    /\ t_permissions t !! c = Some row
    /\ forall uid s2 s3 st,
         (forall x, pg_interferes pg_undisturbed x -> no_grant (pm_role row) (pm_action row) x) ->
         wf_tables (pg_view (D := pg_undisturbed) s2) ->
         sql_trace pg_undisturbed (no_grant (pm_role row) (pm_action row))
           LocalPermissions.revoked_reader s2 ->
         UserRepo.GetSecurityState uid s2 = (Ok st, s3) ->
         role_bytes (pg_view (D := pg_undisturbed) s3) -> sec_Role st = pm_role row ->
         ~ In (pm_action row) (Permission.Values (sec_Permissions st)).
Proof.
  apply (revocation_takes_effect (D := pg_undisturbed) LocalPg.id2 LocalPermissions.reader
           LocalPermissions.revoked_reader).
  - apply LocalPermissions.reader_wf.
  - vm_compute. reflexivity.
Defined.

(** * Paging through permissions of one role *)

Module UnstablePages.
Import LocalPg.

(** A server that sorts the first page from one end of a role and the others
    from the other. *)
#[local] Instance turning : PgTypes := {|
  pg_uuid := @pg_uuid types;
  pg_timestamp := @pg_timestamp types;
  pg_ilike := @pg_ilike types;
  pg_by_role := fun _ offset ps => merge_sort by_role (if offset =? 0 then rows ps else rev (rows ps));
|}.
#[local] Instance turning_laws : PgTypesLaws.
Proof.
  split.
  - exact (@pg_uuid_canonical types types_laws).
  - intros limit offset ps. cbn. rewrite (merge_sort_Permutation by_role).
    destruct (offset =? 0); [done|]. symmetry. apply Permutation_rev.
  - intros. apply (Sorted_merge_sort by_role).
Qed.
#[local] Instance turning_client : PgClient tables := documented_sql.

Definition two : tables :=
  with_permissions empty
    (<[id1 := PermissionRepo.permissionRowFromDomain
                {| PermissionEntity.ID := id1; PermissionEntity.Role := Role.RoleClient;
                   PermissionEntity.Action := Permission.PermUserWrite; PermissionEntity.CreatedAt := 0 |}]>
       {[id2 := PermissionRepo.permissionRowFromDomain LocalPermissions.reading]}).

(** [ORDER BY role DESC] leaves the order inside a role to the server, so two
    pages of one unchanged table may show one permission twice and another one
    never. *)
Example permission_pages_may_repeat :
  exists p, (PermissionRepo.List 0 1 two).1 = Ok ([p], 2) /\ (PermissionRepo.List 1 1 two).1 = Ok ([p], 2).
Proof. eexists. split; vm_compute; reflexivity. Qed.
End UnstablePages.
