(* ===== verification/UserUseCase.v ===== *)
(** internal/usecase/user: user administration over the user, session and
    password ports.  Log calls are left out: no code reads the log.  The
    two-second timeouts are contexts the ports observe; a call that times out
    is a call that returns an error. *)
From S2P Require Export Authentication UserGuarantees.

(** usecase/user/interface.go *)
Class PasswordChangeCleanupMetrics (S : Type) :=
  RecordPasswordChangeCleanupFailure : string -> M S unit.

Module UserUC.

Definition passwordChangeCleanupStageSessionRevocation : string := "session_revocation".

(** ** types.go *)

Record UserOutput := {
  uo_ID : string; uo_Email : string; uo_Role : string; uo_Status : string; uo_CreatedAt : Z;
}.
Record CreateInput := {
  ci_Email : string; ci_Password : string; ci_Status : Z; ci_Role : Z;
}.
Record UpdateInput := { ui_UserID : string; ui_Email : string; ui_Password : string }.
Record UpdateEmailInput := { ue_UserID : string; ue_Email : string }.
Record UpdatePassInput := { up_UserID : string; up_OldPassword : string; up_NewPassword : string }.
Record UpdateRoleInput := {
  ur_UserID : string; ur_ActorID : string; ur_ActorRole : Z; ur_Role : Z;
}.
Record UpdateStatusInput := {
  us_UserID : string; us_ActorID : string; us_ActorRole : Z; us_Status : Z;
}.
Record ListFilter := {
  lf_Statuses : list Z; lf_Roles : list Z; lf_Search : string; lf_MatchNone : bool;
}.
Record GetListInput := {
  gl_ActorID : string; gl_ActorRole : Z; gl_Filter : ListFilter; gl_Offset : Z; gl_Limit : Z;
}.

(** [fmt.Errorf("%w: %s to %s", ErrInvalidUserStatusTransition, current, next)] *)
Definition invalidUserStatusTransition (current next : Z) : err :=
  EWrap (Status.String current +:+ (" to " +:+ Status.String next))
        [ESentinel ErrInvalidUserStatusTransition].

Definition authorizeRoleMutation (actorRole targetRole requestedRole : Z) : option err :=
  if negb (Role.IsKnown targetRole) then Some (ENew "current user role is invalid")
  else if negb (Role.CanModifyTargetRole actorRole targetRole)
          || negb (Role.CanAssignRole actorRole requestedRole)
  then Some (ESentinel ErrForbidden)
  else None.

(** The roles a listing is restricted to: the requested ones the actor may
    see, in the order of the request. *)
Definition effective_roles (allowed requested : list Z) : list Z :=
  List.filter (fun r => existsb (Z.eqb r) allowed) requested.

Definition no_users : UserListResult := {| lr_Items := []; lr_Total := 0 |}.

Section UseCase.
Context {S : Type} `{UserRepository S} `{UserReadersWriters S} `{SessionRepository S}
  `{PasswordHasher S} `{Environment S} `{PasswordChangeCleanupMetrics S} `{Unicode}.

Definition CreateUser (input : CreateInput) : M S UserOutput :=
  if negb (ci_Status input =? Status.StatusInactive)
  then fail (invalidUserStatusTransition Status.StatusUnknown (ci_Status input))
  else
    let! password := of_res (Password.NewPlainPassword (ci_Password input)) in
    let! digest := ph_Hash password in
    let! id := uuid_New in
    let! now := time_Now in
    let usr := {| User.ID := id;
                  User.Email := ci_Email input;
                  User.PasswordDigest := digest;
                  User.Status := ci_Status input;
                  User.Role := ci_Role input;
                  User.CredentialVersion := InitialCredentialVersion;
                  User.CreatedAt := now;
                  User.UpdatedAt := None |} in
    do! ur_Create usr in
    ret {| uo_ID := User.ID usr; uo_Email := User.Email usr;
           uo_Role := Role.String (User.Role usr); uo_Status := Status.String (User.Status usr);
           uo_CreatedAt := User.CreatedAt usr |}.

Definition GetUser (userID : string) : M S UserDetail := FindDetailByID userID.

Definition GetUserslist (input : GetListInput) : M S UserListResult :=
  let allowedRoles := Role.VisibleRoles (gl_ActorRole input) in
  let filter := gl_Filter input in
  let list roles := ListUsers (gl_Offset input) (gl_Limit input)
    {| lc_Statuses := lf_Statuses filter; lc_Roles := roles; lc_Search := lf_Search filter |} in
  match allowedRoles with
  | [] => ret no_users
  | _ =>
      if lf_MatchNone filter then ret no_users
      else match lf_Roles filter with
           | [] => list allowedRoles
           | requested =>
               match effective_roles allowedRoles requested with
               | [] => ret no_users
               | effectiveRoles => list effectiveRoles
               end
           end
  end.

Definition DeleteUser (userID : string) : M S unit :=
  let! exists_ := map_err (wrap1 "verify user before deletion") (ur_ExistsByID userID) in
  if negb exists_ then fail ErrUserNotFound
  else
    do! map_err (wrap1 "revoke sessions before user deletion") (sr_BlockAndDeleteAllByUser userID) in
    ur_Delete userID.

Definition UpdateUser (input : UpdateInput) : M S unit :=
  let! password := of_res (Password.NewPlainPassword (ui_Password input)) in
  let! digest := ph_Hash password in
  UpdateUserFields {| uc_UserID := ui_UserID input; uc_Email := ui_Email input;
                      uc_PasswordDigest := digest |}.

Definition ChangeEmail (input : UpdateEmailInput) : M S unit :=
  UpdateEmail {| ec_UserID := ue_UserID input; ec_Email := ue_Email input |}.

(** The metrics port may be nil in the code; a nil port is one that does
    nothing. *)
Definition observePasswordChangeCleanupFailure (stage : string) : M S unit :=
  RecordPasswordChangeCleanupFailure stage.

Definition ChangePassword (input : UpdatePassInput) : M S unit :=
  if up_OldPassword input =s up_NewPassword input then fail ErrPasswordSameAsCurrent
  else
    let! found := ur_FindByID (up_UserID input) in
    match found with
    | None => fail ErrUserNotFound
    | Some user =>
        let! currentPassword := map_err (fun _ => ESentinel ErrInvalidPassword)
                                  (of_res (Password.NewPlainPassword (up_OldPassword input))) in
        let! passwordMatches := ph_Verify currentPassword (User.PasswordDigest user) in
        if negb passwordMatches then fail ErrInvalidPassword
        else
          let! newPassword := of_res (Password.NewPlainPassword (up_NewPassword input)) in
          let! digest := ph_Hash newPassword in
          let! _ := ur_UpdatePassword (User.ID user) digest in
          let! cleanup := attempt (sr_DeleteAllByUser (User.ID user)) in
          match cleanup with
          | Err _ =>
              (* the metric's result is not an error of the operation *)
              do! attempt (observePasswordChangeCleanupFailure
                             passwordChangeCleanupStageSessionRevocation) in
              ret tt
          | Ok _ => ret tt
          end
    end.

Definition ChangeRole (input : UpdateRoleInput) : M S unit :=
  if negb (Role.IsKnown (ur_Role input)) then fail ErrBadRequest
  else
    let! target := FindStatusSnapshotByID (ur_UserID input) in
    do! Authentication.check
          (authorizeRoleMutation (ur_ActorRole input) (ss_Role target) (ur_Role input)) in
    let! result := UpdateRole {| rc_UserID := ur_UserID input; rc_ExpectedRole := ss_Role target;
                                 rc_RequestedRole := ur_Role input |} in
    match ru_Outcome result with
    | UserRoleUpdateApplied =>
        if negb (ru_CurrentRole result =? ur_Role input)
        then fail (ENew "compare-and-set user role returned an invalid applied result")
        else ret tt
    | UserRoleUpdateAlreadyApplied =>
        if negb (ru_CurrentRole result =? ur_Role input)
        then fail (ENew "compare-and-set user role returned an invalid idempotent result")
        else ret tt
    | UserRoleUpdateNotFound => fail (wrap1 "compare-and-set user role" ErrUserNotFound)
    | UserRoleUpdateConflict =>
        if negb (Role.IsKnown (ru_CurrentRole result)) || (ru_CurrentRole result =? ss_Role target)
           || (ru_CurrentRole result =? ur_Role input)
        then fail (ENew "compare-and-set user role returned an invalid conflict result")
        else fail (wrap1 "compare-and-set user role" ErrConcurrentRoleChange)
    | UserRoleUpdateUnknown => fail (ENew "compare-and-set user role returned an invalid outcome")
    end.

(** The Redis half of a status change, run before the status is stored. *)
Definition enforce_transition (userID : string) (current next : Z) : M S unit :=
  if (current =? Status.StatusInactive) && (next =? Status.StatusActive) then ret tt
  else if (current =? Status.StatusActive) && (next =? Status.StatusSuspended)
  then map_err (wrap1 "block user access before suspension") (sr_BlockAndDeleteAllByUser userID)
  else if (current =? Status.StatusSuspended) && (next =? Status.StatusActive)
  then map_err (wrap1 "unblock user before reactivation") (sr_UnblockUser userID)
  else fail (ENew "allowed user status transition is unsupported").

Definition ChangeStatus (input : UpdateStatusInput) : M S unit :=
  let! target := FindStatusSnapshotByID (us_UserID input) in
  if negb (Role.CanModifyTargetRole (us_ActorRole input) (ss_Role target)) then fail ErrForbidden
  else
    let currentStatus := ss_Status target in
    if negb (Status.IsKnown currentStatus) then fail (ENew "current user status is invalid")
    else if negb (Status.CanTransitionTo currentStatus (us_Status input))
    then fail (invalidUserStatusTransition currentStatus (us_Status input))
    else if currentStatus =? us_Status input then ret tt
    else
      do! enforce_transition (us_UserID input) currentStatus (us_Status input) in
      let! result := ur_UpdateStatus (us_UserID input) currentStatus (us_Status input) in
      match su_Outcome result with
      | UserStatusUpdateApplied =>
          if negb (su_CurrentStatus result =? us_Status input)
          then fail (ENew "compare-and-set user status returned an invalid applied result")
          else ret tt
      | UserStatusUpdateAlreadyApplied =>
          if negb (su_CurrentStatus result =? us_Status input)
          then fail (ENew "compare-and-set user status returned an invalid idempotent result")
          else ret tt
      | UserStatusUpdateNotFound => fail (wrap1 "compare-and-set user status" ErrUserNotFound)
      | UserStatusUpdateConflict =>
          if negb (Status.IsKnown (su_CurrentStatus result))
             || (su_CurrentStatus result =? us_Status input)
          then fail (ENew "compare-and-set user status returned an invalid conflict result")
          else fail (invalidUserStatusTransition (su_CurrentStatus result) (us_Status input))
      | UserStatusUpdateUnknown => fail (ENew "compare-and-set user status returned an invalid outcome")
      end.

End UseCase.
End UserUC.
