(* ===== verification/UserPolicies.v ===== *)
(** What user administration guarantees over both stores, PostgreSQL for users
    and Redis for sessions, which share no transaction: suspensions and
    deletions block the user in Redis before the row changes, so that a failure
    between the two leaves access closed; role changes stay inside the actor's
    role hierarchy; listings show visible roles only; and a password change
    ends the tokens issued before it even when its session cleanup fails. *)
From S2P Require Export UserUseCase.
Import UserUC.

Section Policies.
Context {S : Type} {D : discipline} {PD : pg_discipline}.
Context {RC : RedisClient S} {RL : RedisClientLaws S D} {ES : EmbeddedScripts}.
Context {PC : PgClient S} {PT : PgTypes} {PL : PgClientLaws S PD} {PTL : PgTypesLaws}.
Context {E : Environment S} {CL : ClockLaws S D} {PCL : PgClockLaws S PD}.
Context {PH : PasswordHasher S} {MT : PasswordChangeCleanupMetrics S} {UN : Unicode}.

Definition no_statement : statement -> Prop := fun _ => False.

(** Each store's client, and the ports that are no store, leave the other
    store to the other processes. *)
Class SeparateStores : Prop := {
  redis_not_sql p : sql_does PD no_statement (rc_run p);
  sql_not_redis st : does D Authentication.nothing (pg_exec st);
  hash_not_sql p : sql_does PD no_statement (ph_Hash p);
  verify_not_sql p d : sql_does PD no_statement (ph_Verify p d);
  metrics_not_sql stage : sql_does PD no_statement (RecordPasswordChangeCleanupFailure stage);
}.
Context {SS : SeparateStores}.

(** ** Which store a call reaches *)

Lemma does_time own : does D own time_Now.
Proof. intros s. exists []. split; [constructor|]. apply time_Now_view. Qed.
Lemma does_map_err {A} own f (c : M S A) : does D own c -> does D own (map_err f c).
Proof. intros Hc s. specialize (Hc s). unfold map_err. by destruct (c s). Qed.
Lemma does_nothing {A} own (c : M S A) : does D Authentication.nothing c -> does D own c.
Proof. intros Hc s. eapply store_trace_mono; [|apply Hc]. done. Qed.

Ltac redis_aside :=
  repeat (does_step || apply does_map_err || apply does_time || apply sql_not_redis
          || (unfold UserRepo.get_row)).

Lemma snapshot_redis id : does D Authentication.nothing (UserRepo.FindStatusSnapshotByID id).
Proof. unfold UserRepo.FindStatusSnapshotByID. redis_aside. Qed.
Lemma UpdateStatus_redis id e q : does D Authentication.nothing (UserRepo.UpdateStatus id e q).
Proof. unfold UserRepo.UpdateStatus, UserRepo.classifyStatusUpdateMiss. redis_aside. Qed.
Lemma Delete_redis id : does D Authentication.nothing (UserRepo.Delete id).
Proof. unfold UserRepo.Delete. redis_aside. Qed.
Lemma ExistsByID_redis id : does D Authentication.nothing (UserRepo.ExistsByID id).
Proof. unfold UserRepo.ExistsByID. redis_aside. Qed.

Ltac sql_aside :=
  repeat (sql_step || apply redis_not_sql
          || (unfold SessionRepo.resolve) || (unfold SessionRepo.run_unit)).

Lemma Block_sql id : sql_does PD no_statement (SessionRepo.BlockAndDeleteAllByUser id).
Proof. unfold SessionRepo.BlockAndDeleteAllByUser. sql_aside. Qed.
Lemma Unblock_sql id : sql_does PD no_statement (SessionRepo.UnblockUser id).
Proof. unfold SessionRepo.UnblockUser. sql_aside. Qed.
Lemma DeleteAll_sql id : sql_does PD no_statement (SessionRepo.DeleteAllByUser id).
Proof. unfold SessionRepo.DeleteAllByUser. sql_aside. Qed.

Lemma sql_nothing_others s s' : sql_trace PD no_statement s s' -> others (D := PD) s (pg_view s').
Proof.
  intros (sts & Hs & Hv). exists sts. split; [|done]. eapply Forall_impl; [exact Hs|].
  by intros st [|].
Qed.

Lemma sql_does_others {A} (c : M S A) s r s' :
  sql_does PD no_statement c -> c s = (r, s') -> others (D := PD) s (pg_view s').
Proof. intros Hc Hs. apply sql_nothing_others. specialize (Hc s). by rewrite Hs in Hc. Qed.

Lemma sql_alone s t : (forall st, ~ pg_interferes PD st) -> others (D := PD) s t -> t = pg_view s.
Proof. intros Hq ([|st sts] & Hs & ->); [done|]. inversion Hs. by destruct (Hq st). Qed.

(** Statements that change no table. *)
Definition is_read (st : statement) : Prop := forall t, (documented_sql st t).2 = t.

Lemma select_reads cs : is_read (SelectUsers cs).
Proof. intros t. apply selecting_tables. Qed.
Lemma count_reads cs : is_read (CountUsers cs).
Proof. intros t. apply selecting_tables. Qed.

Lemma snapshot_reads id : sql_does PD is_read (UserRepo.FindStatusSnapshotByID id).
Proof.
  unfold UserRepo.FindStatusSnapshotByID. repeat sql_step. apply sql_does_exec, select_reads.
Qed.

(** Where nobody else writes, a reading call changes nothing. *)
Lemma reads_same {A} (c : M S A) s r s' :
  (forall st, ~ pg_interferes PD st) -> sql_does PD is_read c -> c s = (r, s') ->
  pg_view s' = pg_view s.
Proof.
  intros Hq Hc Hr. specialize (Hc s). rewrite Hr in Hc. destruct Hc as (sts & Hs & Hv).
  cbn in Hv. rewrite Hv. clear Hv. generalize (pg_view s) as t.
  induction Hs as [|st sts Hst Hsts IH]; intros t; [done|]. cbn.
  destruct Hst as [Hst|Hst]; [by destruct (Hq st)|]. by rewrite Hst.
Qed.

(** The snapshot read of a mutation. *)
Lemma FindStatusSnapshotByID_Ok id s snap s' :
  wf_tables (pg_view s) -> UserRepo.FindStatusSnapshotByID id s = (Ok snap, s') ->
  exists c row, pg_uuid id = Some c /\ others (D := PD) s (pg_view s')
    /\ t_users (pg_view s') !! c = Some row /\ snap = UserRepo.toStatusSnapshot row.
Proof.
  intros Hwf. unfold UserRepo.FindStatusSnapshotByID. intros (row & s1 & Hg & Hr)%bind_Ok_inv.
  apply map_err_Ok_inv in Hg. injection Hr as <- <-.
  destruct (read_user _ _ _ _ Hwf Hg) as
    [(c & row' & Hc & [= <-] & Ho & Hrow)|[(c & Hc & [=] & _)|(e & [=] & _)]].
  by exists c, row.
Qed.

(** ** Blocks *)

Definition blocked (uid : string) (s : S) : Prop :=
  uid <> "" /\ wf (rc_view s) /\ exists g, access_is (rc_view s) uid true g.

(** No process but the callers considered unblocks [uid]. *)
Definition stays_blocked (uid : string) : Prop :=
  forall op, interferes D op -> op <> OpUnblock uid.

Lemma blocked_aside {A} uid (c : M S A) s r s' :
  stays_blocked uid -> does D Authentication.nothing c -> c s = (r, s') ->
  blocked uid s -> blocked uid s'.
Proof.
  intros Hst Hc Hr (Hne & Hwf & g & Hg). specialize (Hc s). rewrite Hr in Hc. cbn in Hc.
  split; [done|]. split; [by eapply store_trace_wf|]. exists g.
  eapply blocked_trace; [done|done|done|]. eapply store_trace_mono; [|exact Hc]. done.
Qed.

Lemma blocked_later uid s s2 :
  stays_blocked uid -> blocked uid s -> store_trace D (fun op => op <> OpUnblock uid) s s2 ->
  refused uid s2.
Proof.
  intros Hst (Hne & Hwf & g & Hg) Htr.
  eapply blocked_refused; [done|done|by eapply store_trace_wf|by eapply blocked_trace].
Qed.

Lemma Block_blocked uid s s1 :
  wf (rc_view s) -> SessionRepo.BlockAndDeleteAllByUser uid s = (Ok tt, s1) -> blocked uid s1.
Proof. intros Hwf Hb. by apply block_leaves_blocked with s. Qed.

Lemma wf_aside {A} (c : M S A) s r s' :
  does D Authentication.nothing c -> c s = (r, s') -> wf (rc_view s) -> wf (rc_view s').
Proof. intros Hc Hr Hwf. specialize (Hc s). rewrite Hr in Hc. by eapply store_trace_wf. Qed.

(** ** Status changes *)

(** How far a status change went: it stopped after the read, it failed on the
    Redis side, or it went on to the stored status. *)
Inductive status_run (input : UpdateStatusInput) (s : S) : res unit -> S -> Prop :=
  | stopped x s1 r :
      UserRepo.FindStatusSnapshotByID (us_UserID input) s = (x, s1) ->
      (r = Ok tt -> exists snap, x = Ok snap /\ ss_Status snap = us_Status input) ->
      status_run input s r s1
  | not_enforced snap s1 e s2 :
      UserRepo.FindStatusSnapshotByID (us_UserID input) s = (Ok snap, s1) ->
      enforce_transition (us_UserID input) (ss_Status snap) (us_Status input) s1 = (Err e, s2) ->
      status_run input s (Err e) s2
  | stored snap s1 s2 x s3 r :
      UserRepo.FindStatusSnapshotByID (us_UserID input) s = (Ok snap, s1) ->
      Role.CanModifyTargetRole (us_ActorRole input) (ss_Role snap) = true ->
      Status.CanTransitionTo (ss_Status snap) (us_Status input) = true ->
      enforce_transition (us_UserID input) (ss_Status snap) (us_Status input) s1 = (Ok tt, s2) ->
      UserRepo.UpdateStatus (us_UserID input) (ss_Status snap) (us_Status input) s2 = (x, s3) ->
      (r = Ok tt -> exists res, x = Ok res
         /\ (su_Outcome res = UserStatusUpdateApplied \/ su_Outcome res = UserStatusUpdateAlreadyApplied)) ->
      status_run input s r s3.

Lemma ChangeStatus_run input s r s' : ChangeStatus input s = (r, s') -> status_run input s r s'.
Proof.
  unfold ChangeStatus, bind at 1. cbn [Domain.FindStatusSnapshotByID UserRepo.pg_user_ports].
  destruct (UserRepo.FindStatusSnapshotByID (us_UserID input) s) as [[snap|e] s1] eqn:Hf; cycle 1.
  { intros [= <- <-]. by eapply stopped. }
  assert (Hstop : forall e, (Err e, s1) = (r, s') -> status_run input s r s')
    by (intros e [= <- <-]; by eapply stopped).
  destruct (negb (Role.CanModifyTargetRole _ _)) eqn:Em; [apply Hstop|].
  destruct (negb (Status.IsKnown _)); [apply Hstop|].
  destruct (negb (Status.CanTransitionTo _ _)) eqn:Et; [apply Hstop|].
  destruct (ss_Status snap =? us_Status input) eqn:Es.
  { intros [= <- <-]. breflect. eapply stopped; eauto. }
  unfold bind. destruct (enforce_transition _ _ _ s1) as [[[]|e] s2] eqn:He; cycle 1.
  { intros [= <- <-]. by eapply not_enforced. }
  cbn [Domain.ur_UpdateStatus UserRepo.pg_user_repository].
  destruct (UserRepo.UpdateStatus _ _ _ s2) as [[res|e] s3] eqn:Hu; intros Hr; breflect.
  - assert (Hs : s3 = s')
      by (destruct (su_Outcome res); repeat case_match; injection Hr as <- <-; done).
    subst s3. eapply stored; eauto. intros ->. exists res. split; [done|].
    destruct (su_Outcome res); repeat case_match; try discriminate; auto.
  - injection Hr as <- <-. by eapply stored.
Qed.

Lemma enforce_others id cur next s x s' :
  enforce_transition id cur next s = (x, s') -> others (D := PD) s (pg_view s').
Proof.
  assert (Hd : sql_does PD no_statement (enforce_transition id cur next)).
  { unfold enforce_transition. repeat sql_step; [apply Block_sql|apply Unblock_sql]. }
  by apply sql_does_others.
Qed.

Lemma enforce_suspension id s x s' :
  wf (rc_view s) ->
  enforce_transition id Status.StatusActive Status.StatusSuspended s = (x, s') ->
  x = Ok tt -> blocked id s'.
Proof.
  intros Hwf. unfold enforce_transition. cbn. unfold map_err. intros He.
  destruct (SessionRepo.BlockAndDeleteAllByUser id s) as [[[]|e] s1] eqn:Hb; injection He as <- <-; [|done].
  intros _. by apply Block_blocked with s.
Qed.

Lemma suspendable cur :
  Status.CanTransitionTo cur Status.StatusSuspended = true ->
  cur = Status.StatusActive \/ cur = Status.StatusSuspended.
Proof.
  unfold Status.CanTransitionTo. destruct (_ || _) eqn:Ek; [discriminate|]. breflect.
  destruct (Status.status_known_cases cur) as [-> | [-> | ->]]; [done|discriminate|by left|by right].
Qed.

(** An enforced change to the suspended status was one of an active user. *)
Lemma enforce_suspension_inv id cur s s' :
  enforce_transition id cur Status.StatusSuspended s = (Ok tt, s') -> cur = Status.StatusActive.
Proof.
  unfold enforce_transition. rewrite !andb_false_r.
  destruct (cur =? Status.StatusActive) eqn:Ea; breflect; [done|]. cbn. discriminate.
Qed.

Lemma stored_status c e q s s' res :
  status_cas (D := PD) c e q s s' res ->
  Status.IsKnown q = true ->
  su_Outcome res = UserStatusUpdateApplied \/ su_Outcome res = UserStatusUpdateAlreadyApplied ->
  exists row, t_users (pg_view s') !! c = Some row /\ uint8 (ur_status row) = q.
Proof.
  intros Hcas Hk [Ho|Ho]; unfold status_cas in Hcas; rewrite Ho in Hcas.
  - destruct Hcas as (t & row & now & _ & _ & _ & Hv & _). rewrite Hv.
    eexists. split; [apply lookup_insert_eq|]. by apply known_int16_status.
  - by destruct Hcas as (_ & _ & Hrow).
Qed.

(** A suspension that succeeds stores the status, and leaves the user blocked
    unless the user was suspended already when the request read it. *)
Lemma ChangeStatus_suspends (input : UpdateStatusInput) (c : string) (s s' : S) :
  us_Status input = Status.StatusSuspended -> pg_uuid (us_UserID input) = Some c ->
  wf (rc_view s) -> wf_tables (pg_view s) -> stays_blocked (us_UserID input) ->
  ChangeStatus input s = (Ok tt, s') ->
  (exists row, t_users (pg_view s') !! c = Some row
               /\ uint8 (ur_status row) = Status.StatusSuspended)
  /\ ((exists snap s1, UserRepo.FindStatusSnapshotByID (us_UserID input) s = (Ok snap, s1)
                       /\ ss_Status snap = Status.StatusSuspended)
      \/ blocked (us_UserID input) s').
Proof.
  intros Hsus Hid Hwf Hwft Hst Hrun%ChangeStatus_run. inversion Hrun as
    [x s1 r Hf Hr|snap s1 e s2 Hf He|snap s1 s2 x s3 r Hf _ Htr He Hu Hr]; subst; clear Hrun.
  - destruct (Hr eq_refl) as (snap & -> & Hss). rewrite Hsus in Hss. split; [|by left; eauto].
    destruct (FindStatusSnapshotByID_Ok _ _ _ _ Hwft Hf) as (c' & row & Hc & _ & Hrow & ->).
    assert (c' = c) as -> by congruence. by exists row.
  - destruct (Hr eq_refl) as (res & -> & Hout). rewrite Hsus in *.
    apply enforce_suspension_inv in He as Hcur. rewrite Hcur in *.
    assert (Hwf1 : wf (rc_view s1)) by (eapply wf_aside; [apply snapshot_redis|exact Hf|done]).
    pose proof (enforce_suspension _ _ _ _ Hwf1 He) as Hb. apply enforce_others in He as Ho2.
    destruct (FindStatusSnapshotByID_Ok _ _ _ _ Hwft Hf) as (c0 & row & Hc & Ho1 & Hrow & ->).
    assert (Hwft2 : wf_tables (pg_view s2)) by (do 2 (eapply others_wf; [|done]); done).
    split.
    + destruct (UpdateStatus_refines _ _ _ _ _ _ Hwft2 Hu) as (c' & Hc' & Hcas).
      assert (c' = c) as -> by congruence. by eapply stored_status.
    + right. eapply blocked_aside; [done|apply UpdateStatus_redis|exact Hu|by apply Hb].
Qed.

(** A suspension that succeeds ends the user's access: the stored status
    is suspended, and unless the user was suspended already when the request
    read it, no session of the user is found, rotated or created from then on,
    by any process, until somebody unblocks the user. *)
Theorem suspension_ends_access (input : UpdateStatusInput) (s s' : S) :
  us_Status input = Status.StatusSuspended -> pg_uuid (us_UserID input) = Some (us_UserID input) ->
  wf (rc_view s) -> wf_tables (pg_view s) -> stays_blocked (us_UserID input) ->
  ChangeStatus input s = (Ok tt, s') ->
  (exists row, t_users (pg_view s') !! us_UserID input = Some row
               /\ uint8 (ur_status row) = Status.StatusSuspended)
  /\ ((exists snap s1, UserRepo.FindStatusSnapshotByID (us_UserID input) s = (Ok snap, s1)
                       /\ ss_Status snap = Status.StatusSuspended)
      \/ forall s2, store_trace D (fun op => op <> OpUnblock (us_UserID input)) s' s2 ->
                    refused (us_UserID input) s2).
Proof.
  intros Hsus Hid Hwf Hwft Hst Hrun.
  destruct (ChangeStatus_suspends _ _ _ _ Hsus Hid Hwf Hwft Hst Hrun) as [Hrow [Hsnap|Hb]];
    (split; [done|]); [by left|right]. intros s2 Htr. by apply blocked_later with s'.
Qed.

(** The reading of a call, in the terms of what it did itself. *)
Lemma reads_trace {A} (c : M S A) s r s' : sql_does PD is_read c -> c s = (r, s') -> sql_trace PD is_read s s'.
Proof. intros Hc Hr. specialize (Hc s). by rewrite Hr in Hc. Qed.

Lemma others_reads s s' : others (D := PD) s (pg_view s') -> sql_trace PD is_read s s'.
Proof.
  intros (sts & Hs & Hv). exists sts. split; [|done]. eapply Forall_impl; [exact Hs|]. by left.
Qed.

(** The other connections write no row of user [c]. *)
Definition leave_alone (c : string) : Prop :=
  forall st t, pg_interferes PD st -> t_users (documented_sql st t).2 !! c = t_users t !! c.

Lemma read_trace_row c s s' :
  leave_alone c -> sql_trace PD is_read s s' -> t_users (pg_view s') !! c = t_users (pg_view s) !! c.
Proof.
  intros Hc (sts & Hs & ->). generalize (pg_view s) as t.
  induction Hs as [|st sts Hst Hsts IH]; intros t; [done|]. cbn. rewrite IH.
  destruct Hst as [Hst|Hst]; [by apply Hc|]. by rewrite Hst.
Qed.

(** A suspension only read PostgreSQL, or it blocked the id it was given. *)
Lemma suspension_order (input : UpdateStatusInput) (s s' : S) (r : res unit) :
  us_Status input = Status.StatusSuspended -> wf (rc_view s) -> stays_blocked (us_UserID input) ->
  ChangeStatus input s = (r, s') -> sql_trace PD is_read s s' \/ blocked (us_UserID input) s'.
Proof.
  intros Hsus Hwf Hst Hrun%ChangeStatus_run. inversion Hrun as
    [x s1 r' Hf Hr|snap s1 e s2 Hf He|snap s1 s2 x s3 r' Hf _ Htr He Hu Hr]; subst; clear Hrun.
  - left. by eapply reads_trace; [apply snapshot_reads|].
  - left. eapply sql_trace_trans; [by eapply reads_trace; [apply snapshot_reads|]|].
    apply others_reads. eapply enforce_others; exact He.
  - right. rewrite Hsus in *. apply enforce_suspension_inv in He as Hcur. rewrite Hcur in *.
    assert (Hwf1 : wf (rc_view s1)) by (eapply wf_aside; [apply snapshot_redis|exact Hf|done]).
    pose proof (enforce_suspension _ _ _ _ Hwf1 He) as Hb.
    eapply blocked_aside; [done|apply UpdateStatus_redis|exact Hu|by apply Hb].
Qed.

(** C15. A suspension fails closed.  If the row of a user changed during a
    suspension request while the other connections left that row alone,
    whatever the request answered (a driver failure after its statement ran
    included), then the user id, as the request spells it, is blocked in the
    session store: no session under that id is found, rotated or created until
    somebody unblocks it.  The sessions are stored under the canonical spelling,
    so for a request that uses it these are the user's. *)
Theorem suspension_fails_closed (input : UpdateStatusInput) (c : string) (s s' : S) (r : res unit) :
  us_Status input = Status.StatusSuspended -> wf (rc_view s) -> stays_blocked (us_UserID input) ->
  leave_alone c -> ChangeStatus input s = (r, s') ->
  t_users (pg_view s') !! c <> t_users (pg_view s) !! c ->
  forall s2, store_trace D (fun op => op <> OpUnblock (us_UserID input)) s' s2 ->
             refused (us_UserID input) s2.
Proof.
  intros Hsus Hwf Hst Hc Hrun Hchanged s2 Htr.
  destruct (suspension_order _ _ _ _ Hsus Hwf Hst Hrun) as [Hr|Hb]; [by destruct Hchanged; apply read_trace_row|].
  by eapply blocked_later.
Qed.

(** ** Deletion *)

Lemma Delete_removes id c s s' :
  pg_uuid id = Some c -> wf_tables (pg_view s) -> UserRepo.Delete id s = (Ok tt, s') ->
  t_users (pg_view s') !! c = None.
Proof.
  intros Hc Hwf. unfold UserRepo.Delete. intros (x & s1 & He & Hr)%bind_Ok_inv.
  destruct (_ =? 0); [discriminate|]. injection Hr as <-.
  apply exec_cases in He as (t & Ht & [Hd|(e & [=] & _)]). cbn in Hd. rewrite Hc in Hd. cbn in Hd.
  injection Hd as _ Hv. rewrite Hv. cbn. apply map_lookup_filter_None_2. right.
  intros row Hrow. cbn.
  assert (Hk : ur_id row = c) by (eapply (wf_keyed (t_users t)); [apply (others_wf s t)|]; done).
  by rewrite Hk, eqb_refl_string.
Qed.

(** A deletion that succeeds leaves the user blocked and gone. *)
Lemma DeleteUser_Ok userID c s s' :
  pg_uuid userID = Some c -> wf (rc_view s) -> wf_tables (pg_view s) -> stays_blocked userID ->
  DeleteUser userID s = (Ok tt, s') ->
  blocked userID s' /\ wf_tables (pg_view s') /\ t_users (pg_view s') !! c = None.
Proof.
  intros Hc Hwf Hwft Hst. unfold DeleteUser.
  cbn [Domain.ur_ExistsByID Domain.ur_Delete UserRepo.pg_user_repository
       Domain.sr_BlockAndDeleteAllByUser SessionRepo.redis_session_repository].
  intros (x & s1 & He & Hr)%bind_Ok_inv. apply map_err_Ok_inv in He.
  destruct x; [|discriminate]. cbn [negb] in Hr.
  apply bind_Ok_inv in Hr as ([] & s2 & Hb & Hd). apply map_err_Ok_inv in Hb.
  assert (Hwf1 : wf (rc_view s1)) by (eapply wf_aside; [apply ExistsByID_redis|exact He|done]).
  assert (Hwft1 : wf_tables (pg_view s1)).
  { eapply (sql_trace_wf (fun _ => True)); [exact Hwft|].
    assert (Hx : sql_does PD (fun _ => True) (UserRepo.ExistsByID userID)).
    { unfold UserRepo.ExistsByID. repeat sql_step. by apply sql_does_exec. }
    specialize (Hx s). by rewrite He in Hx. }
  assert (Hwft2 : wf_tables (pg_view s2)).
  { eapply others_wf; [exact Hwft1|]. by eapply sql_does_others; [apply Block_sql|exact Hb]. }
  split; [|split].
  - eapply blocked_aside; [done|apply Delete_redis|exact Hd|]. by apply Block_blocked with s1.
  - eapply (sql_trace_wf (fun _ => True)); [exact Hwft2|].
    assert (Hx : sql_does PD (fun _ => True) (UserRepo.Delete userID)).
    { unfold UserRepo.Delete. repeat sql_step. by apply sql_does_exec. }
    specialize (Hx s2). by rewrite Hd in Hx.
  - by eapply Delete_removes.
Qed.

(** A deletion only read PostgreSQL, or it blocked the id it was given. *)
Lemma deletion_order (userID : string) (s s' : S) (r : res unit) :
  wf (rc_view s) -> stays_blocked userID -> DeleteUser userID s = (r, s') ->
  sql_trace PD is_read s s' \/ blocked userID s'.
Proof.
  intros Hwf Hst. unfold DeleteUser, bind, map_err.
  cbn [Domain.ur_ExistsByID Domain.ur_Delete UserRepo.pg_user_repository].
  destruct (UserRepo.ExistsByID userID s) as [x s1] eqn:He.
  assert (Hr1 : sql_trace PD is_read s s1).
  { eapply reads_trace; [|exact He]. unfold UserRepo.ExistsByID. repeat sql_step. apply sql_does_exec, count_reads. }
  assert (Hwf1 : wf (rc_view s1)) by (eapply wf_aside; [apply ExistsByID_redis|exact He|done]).
  destruct x as [[]|e]; cbn; [|intros [= _ <-]; by left..].
  destruct (SessionRepo.BlockAndDeleteAllByUser userID s1) as [[[]|e] s2] eqn:Hb; cbn.
  - intros Hd. right. apply Block_blocked in Hb as Hbl; [|done].
    eapply blocked_aside; [done|apply Delete_redis|exact Hd|done].
  - intros [= _ <-]. left. eapply sql_trace_trans; [exact Hr1|]. apply others_reads.
    by eapply sql_does_others; [apply Block_sql|exact Hb].
Qed.

(** C16. A deletion fails closed.  If the row of a user changed during a deletion
    request, by going in particular, while the other connections left that row
    alone, whatever the request answered, then the user id, as the request
    spells it, is blocked in the session store: no session under that id is
    found, rotated or created until somebody unblocks it (with the canonical
    spelling, under which sessions are stored, these are the user's).  A
    deletion that succeeds removed the row of the user the id names in any
    spelling, whatever the others do. *)
Theorem deletion_fails_closed (userID : string) (c : string) (s s' : S) (r : res unit) :
  wf (rc_view s) -> wf_tables (pg_view s) -> stays_blocked userID ->
  DeleteUser userID s = (r, s') ->
  (r = Ok tt -> pg_uuid userID = Some c -> t_users (pg_view s') !! c = None)
  /\ (leave_alone c -> t_users (pg_view s') !! c <> t_users (pg_view s) !! c ->
      forall s2, store_trace D (fun op => op <> OpUnblock userID) s' s2 -> refused userID s2).
Proof.
  intros Hwf Hwft Hst Hrun. split.
  - intros -> Hc. by destruct (DeleteUser_Ok _ _ _ _ Hc Hwf Hwft Hst Hrun) as (_ & _ & ?).
  - intros Hc Hchanged s2 Htr. destruct (deletion_order _ _ _ _ Hwf Hst Hrun) as [Hr|Hb];
      [by destruct Hchanged; apply read_trace_row|by eapply blocked_later].
Qed.

(** ** Roles *)

(** The statements of a role change: reads, and the guarded write. *)
Definition role_statement (id : string) (e q : Z) (st : statement) : Prop :=
  is_read st \/ exists now, st = UpdateUsers [SetRole q; SetUpdatedAt now] [IdEq id; RoleEq e].

(** The row of user [c] is as it was, or has moved from role [e] to role [q]. *)
Definition moved_role (id : string) (e q : Z) (t t' : tables) : Prop :=
  t' = t \/ exists c row now, pg_uuid id = Some c /\ t_users t !! c = Some row /\ ur_role row = e
    /\ t' = with_users t (<[c := with_role row q now]> (t_users t)).

Lemma role_statement_moves id e q st t :
  wf_tables t -> role_statement id e q st -> moved_role id e q t (documented_sql st t).2.
Proof.
  intros Hwf [Hr|[now ->]]; [left; apply Hr|]. destruct (pg_uuid id) as [c|] eqn:Hc.
  - pose proof (update_id_sql t id c [RoleEq e] [SetRole q; SetUpdatedAt now] Hwf Hc eq_refl) as Hu.
    destruct (res_bind _ _) as [row|er] in Hu.
    + destruct Hu as (r & Hr & Hm & -> & -> & _). right. exists c, r, now.
      unfold matches in Hm. cbn in Hm. breflect. done.
    + left. apply Hu.
  - left. cbn. by rewrite Hc.
Qed.

Lemma moved_role_trans id e q t t1 t2 :
  moved_role id e q t t1 -> moved_role id e q t1 t2 -> moved_role id e q t t2.
Proof.
  intros [->|(c & row & now & Hc & Hr & He & ->)]; [done|].
  intros [->|(c' & row' & now' & Hc' & Hr' & He' & ->)]; right; [by exists c, row, now|].
  assert (c' = c) as -> by congruence. cbn in Hr'. rewrite lookup_insert_eq in Hr'.
  injection Hr' as <-. exists c, row, now'. repeat split; try done.
  unfold with_users. cbn. by rewrite insert_insert_eq.
Qed.

Lemma role_trace_moves id e q s s' :
  (forall st, ~ pg_interferes PD st) -> wf_tables (pg_view s) ->
  sql_trace PD (role_statement id e q) s s' -> moved_role id e q (pg_view s) (pg_view s').
Proof.
  intros Hq Hwf (sts & Hs & ->). revert Hwf. generalize (pg_view s) as t.
  induction Hs as [|st sts Hst Hsts IH]; intros t Hwf; [by left|]. cbn.
  destruct Hst as [Hst|Hst]; [by destruct (Hq st)|].
  eapply moved_role_trans; [by apply role_statement_moves|]. by apply IH, documented_sql_wf.
Qed.

Lemma UpdateRole_statements cmd :
  Role.IsKnown (rc_ExpectedRole cmd) = true -> Role.IsKnown (rc_RequestedRole cmd) = true ->
  sql_does PD (role_statement (rc_UserID cmd) (rc_ExpectedRole cmd) (rc_RequestedRole cmd))
    (UserRepo.UpdateRole cmd).
Proof.
  intros He Hq. unfold UserRepo.UpdateRole, UserRepo.classifyRoleUpdateMiss.
  destruct (known_int16_role _ He) as [-> _]. destruct (known_int16_role _ Hq) as [-> _].
  repeat (sql_step || apply does_time_Now);
    apply sql_does_exec; [right; by eexists|left; apply select_reads..].
Qed.

(** C17. A role change stays inside the role hierarchy, whatever it answers: at
    most the role of the named user changes, from a role the actor may modify
    to a known role the actor may assign.  So an operator never makes anybody
    an operator or an administrator, and never touches one. *)
Theorem role_change_respects_hierarchy (input : UpdateRoleInput) (s s' : S) (r : res unit) :
  (forall st, ~ pg_interferes PD st) -> wf_tables (pg_view s) ->
  ChangeRole input s = (r, s') ->
  pg_view s' = pg_view s
  \/ exists c row now, pg_uuid (ur_UserID input) = Some c /\ t_users (pg_view s) !! c = Some row
     /\ Role.CanModifyTargetRole (ur_ActorRole input) (ur_role row) = true
     /\ Role.CanAssignRole (ur_ActorRole input) (ur_Role input) = true
     /\ pg_view s' = with_users (pg_view s) (<[c := with_role row (ur_Role input) now]> (t_users (pg_view s))).
Proof.
  intros Hq Hwf. unfold ChangeRole, bind.
  destruct (Role.IsKnown (ur_Role input)) eqn:Ek; [|intros [= _ <-]; by left]. cbn [negb].
  cbn [Domain.FindStatusSnapshotByID Domain.UpdateRole UserRepo.pg_user_ports].
  destruct (UserRepo.FindStatusSnapshotByID (ur_UserID input) s) as [x s1] eqn:Hf.
  assert (Hv1 : pg_view s1 = pg_view s) by (by eapply reads_same; [|apply snapshot_reads|]).
  destruct x as [snap|e]; [|intros [= _ <-]; by left].
  destruct (authorizeRoleMutation _ _ _) as [e|] eqn:Ea; cbn; [intros [= _ <-]; by left|].
  unfold authorizeRoleMutation in Ea. destruct (negb (Role.IsKnown _)) eqn:Ekt; [discriminate|].
  destruct (_ || _) eqn:Eau; [discriminate|]. breflect.
  match goal with |- context [UserRepo.UpdateRole ?cmd s1] =>
    pose proof (UpdateRole_statements cmd Ekt Ek s1) as Htr;
    destruct (UserRepo.UpdateRole cmd s1) as [y s2] end. cbn in Htr.
  intros Hr. assert (s2 = s') as ->
    by (destruct y as [res|e]; [destruct (ru_Outcome res)|]; repeat case_match; by injection Hr).
  apply role_trace_moves in Htr; [|done|by rewrite Hv1]. rewrite Hv1 in Htr.
  destruct Htr as [->|(c & row & now & Hc & Hrow & He & ->)]; [by left|]. right.
  exists c, row, now. rewrite He. done.
Qed.

(** ** Listings *)

Lemma ListUsers_rows offset limit criteria s out s' :
  UserRepo.ListUsers offset limit criteria s = (Ok out, s') ->
  exists rs, lr_Items out = map UserRepo.toListItem rs
    /\ Forall (fun row => matches (UserRepo.list_clauses criteria) row = true) rs.
Proof.
  unfold UserRepo.ListUsers. intros (cnt & s1 & _ & Hr)%bind_Ok_inv.
  destruct cnt; try discriminate. destruct (n =? 0).
  { injection Hr as <- _. by exists []. }
  apply bind_Ok_inv in Hr as (sel & s2 & He & Hr). destruct sel as [rs| | |]; try discriminate.
  injection Hr as <- _. exists rs. split; [done|].
  apply exec_cases in He as (t & _ & [Hd|(e & [=] & _)]).
  cbn [documented_sql] in Hd. destruct (_ || _); [discriminate|]. unfold selecting in Hd.
  destruct (forallb _ _); [|discriminate]. injection Hd as -> _.
  apply Forall_forall. intros row Hin.
  assert (Hin' : row ∈ List.filter (matches (UserRepo.list_clauses criteria)) (rows (t_users t))).
  { rewrite <- (merge_sort_Permutation newer). unfold page in Hin.
    rewrite <- (take_drop (Z.to_nat offset) (merge_sort _ _)), elem_of_app. right.
    rewrite <- (take_drop (Z.to_nat limit) (drop _ _)), elem_of_app. by left. }
  by apply list_elem_of_In, filter_In in Hin' as [_ Hm].
Qed.

Lemma list_clauses_role criteria row :
  lc_Roles criteria <> [] -> bytes_values (lc_Roles criteria) ->
  matches (UserRepo.list_clauses criteria) row = true -> In (ur_role row) (lc_Roles criteria).
Proof.
  intros Hne Hb Hm. unfold UserRepo.list_clauses in Hm. rewrite matches_app in Hm. breflect.
  unfold UserRepo.userRolesToDatabase in *. destruct (lc_Roles criteria) as [|z l]; [done|].
  rewrite map_int16_bytes in * by done. unfold matches in *. cbn [forallb satisfies] in *. breflect.
  by apply existsb_eqb_In.
Qed.

(** A listing shows only users of roles the actor may see, and only of
    roles the request asked for when it asked for some; an actor who sees no
    role gets nothing. *)
Theorem listing_within_visibility (input : GetListInput) (s s' : S) (out : UserListResult) :
  GetUserslist input s = (Ok out, s') ->
  Forall (fun item => In (li_Role item) (Role.VisibleRoles (gl_ActorRole input))
                      /\ (lf_Roles (gl_Filter input) = []
                          \/ In (li_Role item) (lf_Roles (gl_Filter input))))
         (lr_Items out).
Proof.
  unfold GetUserslist.
  assert (Hvis : Forall (fun r => 0 <= r < 256) (Role.VisibleRoles (gl_ActorRole input))).
  { unfold Role.VisibleRoles. repeat case_match; repeat constructor; done. }
  assert (Hgo : forall roles, roles <> [] -> incl roles (Role.VisibleRoles (gl_ActorRole input)) ->
            (lf_Roles (gl_Filter input) = [] \/ incl roles (lf_Roles (gl_Filter input))) ->
            UserRepo.ListUsers (gl_Offset input) (gl_Limit input)
              {| lc_Statuses := lf_Statuses (gl_Filter input); lc_Roles := roles;
                 lc_Search := lf_Search (gl_Filter input) |} s = (Ok out, s') ->
            Forall (fun item => In (li_Role item) (Role.VisibleRoles (gl_ActorRole input))
                      /\ (lf_Roles (gl_Filter input) = []
                          \/ In (li_Role item) (lf_Roles (gl_Filter input)))) (lr_Items out)).
  { intros roles Hne Hincl Hreq (rs & -> & Hrs)%ListUsers_rows. rewrite Forall_forall in Hvis.
    assert (Hb : bytes_values roles).
    { apply Forall_forall. intros z Hz. apply Hvis, list_elem_of_In, Hincl, list_elem_of_In, Hz. }
    apply Forall_map. eapply Forall_impl; [exact Hrs|]. intros row Hm. cbn.
    apply list_clauses_role in Hm; [|done|done]. cbn in Hm.
    assert (Hu : uint8 (ur_role row) = ur_role row).
    { apply uint8_id. apply Hvis, list_elem_of_In, Hincl, Hm. }
    rewrite Hu. destruct Hreq; auto. }
  cbn [Domain.ListUsers UserRepo.pg_user_ports].
  destruct (Role.VisibleRoles (gl_ActorRole input)) as [|v vs] eqn:Ev; [intros [= <- _]; constructor|].
  destruct (lf_MatchNone _); [intros [= <- _]; constructor|].
  destruct (lf_Roles (gl_Filter input)) as [|q qs] eqn:Eq.
  - apply Hgo; auto using incl_refl.
  - destruct (effective_roles (v :: vs) (q :: qs)) as [|r rs] eqn:Ee; [intros [= <- _]; constructor|].
    apply Hgo; [done| |right]; rewrite <- Ee; intros x Hx; apply filter_In in Hx as [Hx1 Hx2]; [|done].
    by apply existsb_eqb_In.
Qed.

(** ** Passwords *)

(** What a password change that succeeded went through. *)
Lemma ChangePassword_Ok input s s' :
  ChangePassword input s = (Ok tt, s') ->
  exists user old s1 s2 new digest s3 v s4,
    UserRepo.FindByID (up_UserID input) s = (Ok (Some user), s1)
    /\ Password.NewPlainPassword (up_OldPassword input) = Ok old
    /\ ph_Verify old (User.PasswordDigest user) s1 = (Ok true, s2)
    /\ ph_Hash new s2 = (Ok digest, s3)
    /\ UserRepo.UpdatePassword (User.ID user) digest s3 = (Ok v, s4)
    /\ sql_trace PD no_statement s4 s'.
Proof.
  unfold ChangePassword. destruct (_ =s _); [discriminate|].
  cbn [Domain.ur_FindByID Domain.ur_UpdatePassword UserRepo.pg_user_repository].
  intros (found & s1 & Hf & Hr)%bind_Ok_inv. destruct found as [user|]; [|discriminate].
  apply bind_Ok_inv in Hr as (old & s1' & Ho & Hr). apply map_err_Ok_inv in Ho. injection Ho as Ho <-.
  apply bind_Ok_inv in Hr as (b & s2 & Hv & Hr). destruct b; [|discriminate]. cbn [negb] in Hr.
  apply bind_Ok_inv in Hr as (new & s2' & Hn & Hr). injection Hn as Hn <-.
  apply bind_Ok_inv in Hr as (digest & s3 & Hh & Hr).
  apply bind_Ok_inv in Hr as (v & s4 & Hu & Hr).
  exists user, old, s1, s2, new, digest, s3, v, s4. repeat (split; [done|]).
  cbn [SessionRepo.redis_session_repository Domain.sr_DeleteAllByUser] in Hr.
  match type of Hr with ?c s4 = _ => assert (Hc : sql_does PD no_statement c) end.
  { repeat sql_step; [apply DeleteAll_sql|apply metrics_not_sql]. }
  specialize (Hc s4). by rewrite Hr in Hc.
Qed.

(** A password change that succeeded was given the current password, and the
    credential version of the user is above the former one ever after. *)
Lemma ChangePassword_raises (input : UpdatePassInput) (c : string) (row : userRow) (s s1 s2 : S) :
  wf_tables (pg_view s) -> pg_uuid (up_UserID input) = Some c ->
  t_users (pg_view s) !! c = Some row ->
  (forall st, pg_interferes PD st -> inserts c st = false) ->
  ChangePassword input s = (Ok tt, s1) ->
  sql_trace PD (fun st => inserts c st = false) s1 s2 ->
  (exists user old sv sv', Password.plaintext old = up_OldPassword input
     /\ ph_Verify old (User.PasswordDigest user) sv = (Ok true, sv')
     /\ exists t found, others (D := PD) s t /\ t_users t !! c = Some found
                        /\ UserRepo.toDomain found = Ok user)
  /\ exists v, ur_credential_version row < v /\ wf_tables (pg_view s2) /\ at_least c v s2.
Proof.
  intros Hwf Hc Hrow Hi Hcp Htr.
  destruct (ChangePassword_Ok _ _ _ Hcp) as
    (user & old & s3 & s4 & new & digest & s5 & v & s6 & Hf & Ho & Hv & Hh & Hu & Htr6).
  assert (Hfound : exists found, others (D := PD) s (pg_view s3) /\ t_users (pg_view s3) !! c = Some found
                                 /\ UserRepo.toDomain found = Ok user /\ User.ID user = c).
  { unfold UserRepo.FindByID in Hf. apply bind_Ok_inv in Hf as (found & s3' & Hg & Hr).
    apply map_err_Ok_inv in Hg. apply bind_Ok_inv in Hr as (u & s3'' & Hd & Hr). injection Hd as Hd <-.
    injection Hr as <- <-.
    destruct (read_user _ _ _ _ Hwf Hg) as
      [(c' & found' & Hc' & [= <-] & Hoth & Hfr)|[(c' & Hc' & [=] & _)|(e & [=] & _)]].
    assert (c' = c) as -> by congruence. exists found. repeat (split; [done|]).
    unfold UserRepo.toDomain in Hd. inv_ok.
    by apply (wf_keyed _ (proj1 (others_wf _ _ Hwf Hoth))). }
  destruct Hfound as (found & Hoth & Hfr & Hdom & Huid).
  split.
  { exists user, old, s3, s4. split; [exact (proj1 (Password.NewPlainPassword_Ok _ _ Ho))|]. eauto 8. }
  assert (Hoth5 : others (D := PD) s (pg_view s5)).
  { eapply others_trans; [|eapply sql_does_others; [apply hash_not_sql|exact Hh]].
    eapply others_trans; [exact Hoth|].
    eapply sql_does_others; [apply verify_not_sql|exact Hv]. }
  assert (Hcan : pg_uuid c = Some c) by exact (pg_uuid_canonical _ _ Hc).
  assert (Hat5 : at_least c (ur_credential_version row) s5)
    by (eapply others_at_least; [exact Hi|by apply row_at_least|exact Hoth5]).
  assert (Htr2 : sql_trace PD (fun st => inserts c st = false) s6 s2).
  { eapply sql_trace_trans; [|exact Htr]. destruct Htr6 as (sts & Hsts & Hv6). exists sts.
    split; [|done]. eapply Forall_impl; [exact Hsts|]. by intros st [|]; left. }
  rewrite Huid in Hu.
  exists v. exact (UpdatePassword_raises _ _ _ _ _ _ _ _ (others_wf _ _ Hwf Hoth5) Hcan Hat5 Hi Hu Htr2).
Qed.

(** A password change that succeeded was given the user's current password
    and ends every credential issued before it: no token of a credential
    version up to the one the user had is authorised again, whatever became of
    the session cleanup and whatever others do to the database short of
    inserting that user identifier anew. *)
Theorem ChangePassword_ends_old_tokens (input : UpdatePassInput) (c : string) (row : userRow)
    (s s1 s2 s' : S) (p p' : Authorization.Principal) (required : Permission.Permission) :
  wf_tables (pg_view s) -> pg_uuid (up_UserID input) = Some c ->
  t_users (pg_view s) !! c = Some row ->
  (forall st, pg_interferes PD st -> inserts c st = false) ->
  ChangePassword input s = (Ok tt, s1) ->
  sql_trace PD (fun st => inserts c st = false) s1 s2 ->
  pg_uuid (Authorization.userID p) = Some c ->
  Authorization.credentialVersion p <= ur_credential_version row ->
  (exists user old sv sv', Password.plaintext old = up_OldPassword input
     /\ ph_Verify old (User.PasswordDigest user) sv = (Ok true, sv')
     /\ exists t found, others (D := PD) s t /\ t_users t !! c = Some found
                        /\ UserRepo.toDomain found = Ok user)
  /\ Authorization.AuthorizeFreshIdentity p s2 <> (Ok p', s')
  /\ Authorization.AuthorizeFresh p required s2 <> (Ok p', s').
Proof.
  intros Hwf Hc Hrow Hi Hcp Htr Hp Hle.
  destruct (ChangePassword_raises _ _ _ _ _ _ Hwf Hc Hrow Hi Hcp Htr) as (Hgiven & v & Hlt & Hwf2 & Hat).
  split; [done|]. eapply raised_version_refused; try done. lia.
Qed.

End Policies.
Arguments SeparateStores S D PD {_ _ _ _ _ _ _}.

(** * A local world, for the witnesses *)

(** One Redis and one PostgreSQL server of the process alone. *)
Record world := { w_redis : keyspace; w_pg : tables }.

Module LocalWorld.

Definition on_redis {A} (c : M keyspace A) : M world A :=
  fun w => let '(r, ks) := c (w_redis w) in (r, {| w_redis := ks; w_pg := w_pg w |}).
Definition on_pg {A} (c : M tables A) : M world A :=
  fun w => let '(r, t) := c (w_pg w) in (r, {| w_redis := w_redis w; w_pg := t |}).

#[global] Instance redis : RedisClient world :=
  {| rc_run := fun p => on_redis (rc_run p); rc_scan := fun p => on_redis (rc_scan p) |}.

#[global] Program Instance redis_laws : RedisClientLaws world undisturbed :=
  {| rc_view := w_redis |}.
Next Obligation.
  intros p w. destruct (rc_run_law (D := undisturbed) p (w_redis w)) as (ops & Ha & Hl).
  exists ops. split; [done|]. cbn [rc_run redis]. unfold on_redis.
  change (rc_view (w_redis w)) with (w_redis w) in Hl.
  destruct (run_script p (run_ops ops (w_redis w))) as [r ks'].
  destruct (rc_run p (w_redis w)) as [x ks]. exact Hl.
Qed.
Next Obligation.
  intros pattern w. destruct (rc_scan_law (D := undisturbed) pattern (w_redis w)) as (ops & Ha & Hl).
  exists ops. split; [done|]. cbn [rc_scan redis]. unfold on_redis.
  change (rc_view (w_redis w)) with (w_redis w) in Hl.
  destruct (rc_scan (pattern +:+ "*") (w_redis w)) as [x ks]. exact Hl.
Qed.

#[global] Instance pg : PgClient world := fun st => on_pg (pg_exec st).
#[global] Program Instance pg_laws : PgClientLaws world pg_undisturbed := {| pg_view := w_pg |}.
Next Obligation.
  intros st w. exists []. split; [constructor|]. left. cbn [run_sql].
  unfold pg_exec, pg, on_pg. change (pg_exec st (w_pg w)) with (documented_sql st (w_pg w)).
  by destruct (documented_sql st (w_pg w)).
Qed.

#[global] Instance environment : Environment world := {|
  time_Now := fun w => (Ok (ks_now (w_redis w) * 1000000), w);
  uuid_New := fun w => (Ok "22222222-2222-4222-8222-222222222222", w);
  ULIDGenerator := fun w => (Ok "01ARZ3NDEKTSV4RRFFQ69G5FAV", w);
|}.
#[global] Instance clock : ClockLaws world undisturbed.
Proof. intros w. done. Qed.
#[global] Instance pg_clock : PgClockLaws world pg_undisturbed.
Proof. intros w. done. Qed.

(** A digest that is the password, marked. *)
#[global] Instance hasher : PasswordHasher world := {|
  ph_Hash := fun p w => (Ok {| Password.encoded := "plain:" +:+ Password.plaintext p |}, w);
  ph_Verify := fun p d w => (Ok (Password.encoded d =s "plain:" +:+ Password.plaintext p), w);
|}.
#[global] Instance metrics : PasswordChangeCleanupMetrics world := fun _ w => (Ok tt, w).

#[global] Instance separate : SeparateStores world undisturbed pg_undisturbed.
Proof.
  split; intros; intros w; exists []; (split; [constructor|]); try done.
  - cbn [rc_run redis]. unfold on_redis. by destruct (rc_run p (w_redis w)).
  - unfold pg_exec, pg, on_pg. by destruct (pg_exec st (w_pg w)).
Qed.

Definition alice : string := "aaaaaaaa-1111-4111-8111-111111111111".
Definition ALICE : string := "AAAAAAAA-1111-4111-8111-111111111111".
Definition user (status : Z) : User.t :=
  {| User.ID := alice; User.Email := "alice@example.com";
     User.PasswordDigest := {| Password.encoded := "plain:Old-passw0rd" |};
     User.Status := status; User.Role := Role.RoleClient;
     User.CredentialVersion := InitialCredentialVersion;
     User.CreatedAt := 1600000000000000000; User.UpdatedAt := None |}.

(** The empty stores; an active user with a session; and the user suspended. *)
Definition empty : world := {| w_redis := Local.store; w_pg := LocalPg.empty |}.
Definition joined : world := (UserRepo.Create (user Status.StatusActive) empty).2.
Definition logged_in : world := (SessionRepo.Create (Local.session "s1" alice "j1") joined).2.

Definition suspend (id : string) : UpdateStatusInput :=
  {| us_UserID := id; us_ActorID := "admin"; us_ActorRole := Role.RoleAdmin;
     us_Status := Status.StatusSuspended |}.
Definition suspended (id : string) : world := (ChangeStatus (suspend id) logged_in).2.
Definition deleted : world := (DeleteUser alice logged_in).2.
Definition row : userRow := stored_row alice (user Status.StatusActive).

Lemma row_stored : t_users (w_pg logged_in) !! alice = Some row.
Proof. vm_compute. reflexivity. Qed.

Lemma logged_in_wf : wf (w_redis logged_in) /\ wf_tables (w_pg logged_in).
Proof.
  split.
  - change (wf (rc_view (D := undisturbed) (SessionRepo.Create (Local.session "s1" alice "j1") joined).2)).
    apply (store_trace_wf (D := undisturbed) (eq (OpCreate (Local.session "s1" alice "j1"))) joined).
    + apply Local.store_wf.
    + apply SessionGuarantees.Create_does.
  - change (w_pg logged_in) with (w_pg joined).
    refine (sql_trace_wf (D := pg_undisturbed) (S := world) _ empty joined LocalPg.empty_wf
              (user_Create_does _ _)).
Qed.
End LocalWorld.

Lemma suspension_ends_access_witness :
  (exists row, t_users (pg_view (D := pg_undisturbed) (LocalWorld.suspended LocalWorld.alice)) !! LocalWorld.alice = Some row
               /\ uint8 (ur_status row) = Status.StatusSuspended)
  /\ ((exists snap s1, UserRepo.FindStatusSnapshotByID LocalWorld.alice LocalWorld.logged_in = (Ok snap, s1)
                       /\ ss_Status snap = Status.StatusSuspended)
      \/ forall s2, store_trace undisturbed (fun op => op <> OpUnblock LocalWorld.alice)
                      (LocalWorld.suspended LocalWorld.alice) s2 ->
                    refused LocalWorld.alice s2).
Proof.
  apply (suspension_ends_access (D := undisturbed) (PD := pg_undisturbed)
           (LocalWorld.suspend LocalWorld.alice) LocalWorld.logged_in
           (LocalWorld.suspended LocalWorld.alice)).
  - reflexivity.
  - reflexivity.
  - apply LocalWorld.logged_in_wf.
  - apply LocalWorld.logged_in_wf.
  - by intros op [].
  - vm_compute. reflexivity.
Defined.

Lemma suspension_fails_closed_witness :
  refused LocalWorld.alice (LocalWorld.suspended LocalWorld.alice).
Proof.
  apply (suspension_fails_closed (D := undisturbed) (PD := pg_undisturbed)
           (LocalWorld.suspend LocalWorld.alice) LocalWorld.alice LocalWorld.logged_in
           (LocalWorld.suspended LocalWorld.alice) (Ok tt)).
  - reflexivity.
  - apply LocalWorld.logged_in_wf.
  - by intros op [].
  - by intros st t [].
  - vm_compute. reflexivity.
  - vm_compute. discriminate.
  - apply store_trace_refl.
Defined.

Lemma deletion_fails_closed_witness :
  t_users (pg_view (D := pg_undisturbed) LocalWorld.deleted) !! LocalWorld.alice = None
  /\ refused LocalWorld.alice LocalWorld.deleted.
Proof.
  destruct (deletion_fails_closed (D := undisturbed) (PD := pg_undisturbed) LocalWorld.alice LocalWorld.alice
              LocalWorld.logged_in LocalWorld.deleted (Ok tt)) as [Hgone Hclosed].
  - apply LocalWorld.logged_in_wf.
  - apply LocalWorld.logged_in_wf.
  - by intros op [].
  - vm_compute. reflexivity.
  - split; [exact (Hgone eq_refl eq_refl)|]. apply Hclosed.
    + by intros st t [].
    + vm_compute. discriminate.
    + apply store_trace_refl.
Defined.

(** An administrator makes the user an operator. *)
Definition promotion : UpdateRoleInput :=
  {| ur_UserID := LocalWorld.alice; ur_ActorID := "admin"; ur_ActorRole := Role.RoleAdmin;
     ur_Role := Role.RoleOperator |}.

Lemma role_change_respects_hierarchy_witness :
  pg_view (D := pg_undisturbed) (ChangeRole promotion LocalWorld.logged_in).2 = pg_view (D := pg_undisturbed) LocalWorld.logged_in
  \/ exists c row now, pg_uuid LocalWorld.alice = Some c
     /\ t_users (pg_view (D := pg_undisturbed) LocalWorld.logged_in) !! c = Some row
     /\ Role.CanModifyTargetRole Role.RoleAdmin (ur_role row) = true
     /\ Role.CanAssignRole Role.RoleAdmin Role.RoleOperator = true
     /\ pg_view (D := pg_undisturbed) (ChangeRole promotion LocalWorld.logged_in).2
        = with_users (pg_view (D := pg_undisturbed) LocalWorld.logged_in)
            (<[c := with_role row Role.RoleOperator now]> (t_users (pg_view (D := pg_undisturbed) LocalWorld.logged_in))).
Proof.
  apply (role_change_respects_hierarchy (PD := pg_undisturbed) promotion LocalWorld.logged_in
           (ChangeRole promotion LocalWorld.logged_in).2 (Ok tt)).
  - by intros st [].
  - apply LocalWorld.logged_in_wf.
  - vm_compute. reflexivity.
Defined.

Definition everybody : GetListInput :=
  {| gl_ActorID := "op"; gl_ActorRole := Role.RoleOperator;
     gl_Filter := {| lf_Statuses := []; lf_Roles := []; lf_Search := ""; lf_MatchNone := false |};
     gl_Offset := 0; gl_Limit := 10 |}.
Definition everybody_out : UserListResult :=
  {| lr_Items := [UserRepo.toListItem LocalWorld.row]; lr_Total := 1 |}.

Lemma listing_within_visibility_witness :
  Forall (fun item => In (li_Role item) (Role.VisibleRoles Role.RoleOperator)
                      /\ (lf_Roles (gl_Filter everybody) = []
                          \/ In (li_Role item) (lf_Roles (gl_Filter everybody))))
         (lr_Items everybody_out).
Proof.
  apply (listing_within_visibility (PD := pg_undisturbed) everybody LocalWorld.logged_in
           LocalWorld.logged_in everybody_out).
  vm_compute. reflexivity.
Defined.

Definition new_password : UpdatePassInput :=
  {| up_UserID := LocalWorld.alice; up_OldPassword := "Old-passw0rd"; up_NewPassword := "New-passw0rd" |}.
Definition password_changed : world := (ChangePassword new_password LocalWorld.logged_in).2.
Definition old_token : Authorization.Principal :=
  {| Authorization.userID := LocalWorld.alice; Authorization.sessionID := "s1";
     Authorization.credentialVersion := 1; Authorization.role := Role.RoleClient;
     Authorization.permissions := Permission.emptySet |}.

Lemma ChangePassword_ends_old_tokens_witness :
  (exists user old sv sv', Password.plaintext old = "Old-passw0rd"
     /\ ph_Verify (S := world) old (User.PasswordDigest user) sv = (Ok true, sv')
     /\ exists t found, others (D := pg_undisturbed) LocalWorld.logged_in t
                        /\ t_users t !! LocalWorld.alice = Some found
                        /\ UserRepo.toDomain found = Ok user)
  /\ Authorization.AuthorizeFreshIdentity old_token password_changed <> (Ok old_token, password_changed)
  /\ Authorization.AuthorizeFresh old_token "" password_changed <> (Ok old_token, password_changed).
Proof.
  apply (ChangePassword_ends_old_tokens (D := undisturbed) (PD := pg_undisturbed) new_password
           LocalWorld.alice LocalWorld.row LocalWorld.logged_in password_changed password_changed
           password_changed old_token old_token "").
  - apply LocalWorld.logged_in_wf.
  - reflexivity.
  - apply LocalWorld.row_stored.
  - by intros st [].
  - vm_compute. reflexivity.
  - apply sql_trace_refl.
  - reflexivity.
  - vm_compute. discriminate.
Defined.

(** * Identifiers in another spelling *)

(** The status handler passes the identifier of the path on as it was
    written, and PostgreSQL reads a UUID in either case, but the session store
    compares strings: a suspension requested with the identifier in upper case
    is stored and reported as a success, and leaves the sessions of the user
    usable. *)
Theorem suspension_by_other_spelling_keeps_sessions :
  (ChangeStatus (LocalWorld.suspend LocalWorld.ALICE) LocalWorld.logged_in).1 = Ok tt
  /\ ur_status <$> (t_users (w_pg (LocalWorld.suspended LocalWorld.ALICE)) !! LocalWorld.alice)
     = Some Status.StatusSuspended
  /\ match (SessionRepo.FindByJTI "j1" LocalWorld.alice "s1" 1
              (LocalWorld.suspended LocalWorld.ALICE)).1 with
     | Ok (Some x) => Session.UserID x = LocalWorld.alice
     | _ => False
     end.
Proof. split; [|split]; vm_compute; reflexivity. Qed.
