(* ===== verification/RateLimit.v ===== *)
(** internal/infra/ratelimiter and the rate-limit middleware: the sliding
    window kept in a Redis sorted set, its admission bound and its retry-after,
    and what the window loses when it is not a whole number of seconds. *)
From S2P Require Export SessionRepository.

Module RateLimitImpl.

(** The script's arguments for a call at instant [now] (nanoseconds). *)
Definition script_args (limit windowDuration now : Z) (member : string) : list string :=
  let windowSeconds := duration_seconds windowDuration in
  let windowSeconds := if windowSeconds =? 0 then 1 else windowSeconds in
  [itoa limit; itoa (duration_micros windowDuration); itoa (unix_micros now); member;
   itoa windowSeconds].

Definition limiter_key (actorType actorID resource : string) : string :=
  RedisKey "rl" actorType (actorID +:+ (":" +:+ resource)).

(** The type assertions of the code panic on another reply, which the script
    never gives; a panic is an error here, as the recovery middleware makes it
    one. *)
Definition decode_reply (r : rreply) : res (bool * Z * Z) :=
  match r with
  | RArr [RInt a; RInt retryAfterMicro; RInt currentCount] =>
      Ok (a =? 1, int64 (retryAfterMicro * 1000), currentCount)
  | _ => Err (ENew "panic: interface conversion")
  end.

Section Limiter.
Context {S : Type} `{RedisClient S} `{EmbeddedScripts} `{Environment S}.

(** allowed, retry-after (nanoseconds), current count *)
Definition Allow (actorType actorID resource : string) (limit windowDuration : Z)
    : M S (bool * Z * Z) :=
  let! now := time_Now in
  let key := limiter_key actorType actorID resource in
  let! member := ULIDGenerator in
  do! of_res (res_map_err (wrap1 "resolve rate-limit script") (GetScript "rate_limit")) in
  let! result := rc_run (rate_limit [key] (script_args limit windowDuration now member)) in
  of_res (decode_reply result).

#[global] Instance redis_rate_limiter : RateLimiter S := {| Domain.Allow := Allow |}.

End Limiter.

(** * One call *)

(** The requests a key remembers; [None] when the key holds something else. *)
Definition bucket (ks : keyspace) (key : string) : option (gmap string Z) :=
  match ks_get ks key with
  | None => Some ∅
  | Some (RZset z) => Some z
  | Some _ => None
  end.

(** The requests younger than the window at [now] (microseconds). *)
Definition recent (now window : Z) (z : gmap string Z) : gmap string Z :=
  filter (fun mv => ~ (0 <= mv.2 <= now - window)) z.

(** The microseconds until the oldest remembered request leaves the window. *)
Definition retry_after (now window : Z) (z : gmap string Z) : Z :=
  Z.max 0 match zsorted z with [] => 0 | (_, sc) :: _ => sc + window - now end.

Lemma script_call c k ks r ks' :
  documented c ks = (r, ks') -> is_error r = false ->
  run_script (SCall c k) ks = run_script (k r) ks'.
Proof.
  intros Hd Hr. cbn [run_script]. change (redis_exec c ks) with (documented c ks). rewrite Hd.
  by destruct r.
Qed.

Lemma bucket_zset_put key z ks : bucket (ks_zset_put key z ks) key = Some z.
Proof.
  unfold bucket, ks_zset_put. case_bool_decide as Hz.
  - subst. unfold ks_get. by rewrite ks_entry_del_eq.
  - by rewrite ks_get_set_value_eq.
Qed.

Lemma bucket_del key ks : bucket (ks_del key ks) key = Some ∅.
Proof. unfold bucket, ks_get. by rewrite ks_entry_del_eq. Qed.

Lemma prune_run key now window z ks :
  bucket ks key = Some z ->
  exists n ks1, documented (ZREMRANGEBYSCORE key 0 (now - window)) ks = (RInt n, ks1)
    /\ bucket ks1 key = Some (recent now window z) /\ ks_now ks1 = ks_now ks
    /\ (forall e, ks_entry ks1 key = Some e ->
          exists e0, ks_entry ks key = Some e0 /\ re_expire e = re_expire e0)
    /\ (forall e, ks_keys ks1 !! key = Some e ->
          re_value e = RZset (recent now window z) \/ ks_keys ks !! key = Some e).
Proof.
  intros Hb. unfold bucket in Hb. cbn [documented].
  destruct (ks_get ks key) as [[s|h|z0|t]|] eqn:Eg; try discriminate; injection Hb as <-.
  - do 2 eexists. split; [done|]. split; [apply bucket_zset_put|].
    split; [unfold ks_zset_put; by case_bool_decide|]. unfold ks_zset_put.
    split; intros e; case_bool_decide.
    + by rewrite ks_entry_del_eq.
    + rewrite ks_entry_set_value. intros [= <-]. cbn.
      unfold ks_get in Eg. destruct (ks_entry ks key) as [e0|]; [|discriminate]. eauto.
    + cbn. by rewrite lookup_delete_eq.
    + cbn. rewrite lookup_insert_eq. intros [= <-]. by left.
  - exists 0, ks. split; [done|]. unfold bucket. rewrite Eg. unfold recent. rewrite map_filter_empty.
    split; [done|]. split; [done|]. split; eauto.
Qed.

Lemma zcard_run key z ks : bucket ks key = Some z ->
  documented (ZCARD key) ks = (RInt (Z.of_nat (size z)), ks).
Proof.
  unfold bucket. cbn. destruct (ks_get ks key) as [[]|]; intros [= <-]; [done|].
  by rewrite map_size_empty.
Qed.

Lemma zadd_run key now m z ks : bucket ks key = Some z ->
  exists n ks1, documented (ZADD key false (itoa now) m) ks = (RInt n, ks1)
    /\ ks_get ks1 key = Some (RZset (<[m := now]> z)) /\ ks_now ks1 = ks_now ks.
Proof.
  unfold bucket. cbn [documented]. rewrite parse_signed_itoa.
  destruct (ks_get ks key) as [[]|]; intros [= <-]; do 2 eexists; (split; [done|]);
    (split; [|done]); rewrite ks_get_set_value_eq; done.
Qed.

Lemma expire_run key z seconds ks :
  0 < seconds -> ks_get ks key = Some (RZset z) ->
  exists ks1, documented (EXPIRE key seconds) ks = (RInt 1, ks1)
    /\ ks_entry ks1 key = Some {| re_value := RZset z;
                                  re_expire := Some (ks_now ks + 1000 * seconds) |}
    /\ ks_now ks1 = ks_now ks.
Proof.
  intros Hs Hg. cbn [documented]. unfold ks_get in Hg.
  destruct (ks_entry ks key) as [e|] eqn:Ee; [|discriminate]. injection Hg as Hg.
  rewrite (proj2 (Z.leb_gt _ _)) by lia. eexists. split; [done|].
  split; [rewrite ks_entry_put_live by lia; by rewrite Hg|done].
Qed.

Lemma first_run key z ks : bucket ks key = Some z ->
  documented (ZRANGE_FIRST key) ks
  = (RArr match zsorted z with [] => [] | (m, sc) :: _ => [RBulk m; RBulk (itoa sc)] end, ks).
Proof.
  unfold bucket. cbn. destruct (ks_get ks key) as [[]|]; intros [= <-]; done.
Qed.

(** What one run of the script does to its key: a request within the limit is
    remembered and the key's life renewed, another changes nothing but the
    forgotten requests. *)
Lemma rate_limit_run key limit window now m seconds z ks :
  bucket ks key = Some z -> 0 < seconds ->
  exists ks1,
    let keep := recent now window z in
    ks_now ks1 = ks_now ks
    /\ if Z.of_nat (size keep) <? limit
       then run_script (rate_limit [key] [itoa limit; itoa window; itoa now; m; itoa seconds]) ks
            = (RArr [RInt 1; RInt 0; RInt (Z.of_nat (size keep) + 1)], ks1)
            /\ ks_entry ks1 key = Some {| re_value := RZset (<[m := now]> keep);
                                          re_expire := Some (ks_now ks + 1000 * seconds) |}
       else run_script (rate_limit [key] [itoa limit; itoa window; itoa now; m; itoa seconds]) ks
            = (RArr [RInt 0; RInt (retry_after now window keep); RInt (Z.of_nat (size keep))], ks1)
            /\ bucket ks1 key = Some keep
            /\ (forall e, ks_entry ks1 key = Some e ->
                  exists e0, ks_entry ks key = Some e0 /\ re_expire e = re_expire e0)
            /\ (forall e, ks_keys ks1 !! key = Some e ->
                  re_value e = RZset keep \/ ks_keys ks !! key = Some e).
Proof.
  intros Hb Hs. unfold rate_limit. cbn [tonumber]. rewrite !parse_signed_itoa.
  destruct (prune_run key now window z ks Hb) as (n & ks1 & Hp & Hb1 & Hn1 & He1 & Hk1).
  rewrite (script_call _ _ _ _ _ Hp eq_refl), (script_call _ _ _ _ _ (zcard_run _ _ _ Hb1) eq_refl).
  cbn [int_of]. destruct (Z.of_nat (size (recent now window z)) <? limit) eqn:El.
  - destruct (zadd_run key now m _ _ Hb1) as (n2 & ks2 & Ha & Hb2 & Hn2).
    destruct (expire_run key _ seconds ks2 Hs Hb2) as (ks3 & Hx & Hb3 & Hn3).
    rewrite (script_call _ _ _ _ _ Ha eq_refl), (script_call _ _ _ _ _ Hx eq_refl).
    exists ks3. split; [lia|]. split; [done|]. rewrite Hb3. do 3 f_equal. lia.
  - rewrite (script_call _ _ _ _ _ (first_run _ _ _ Hb1) eq_refl). exists ks1.
    split; [done|]. split; [|done]. cbn [run_script]. do 5 f_equal. unfold retry_after.
    destruct (zsorted (recent now window z)) as [|[m0 sc] l]; [done|]. cbn [elements_of].
    unfold field. cbn. rewrite parse_signed_itoa.
    destruct (sc + window - now <? 0) eqn:E0; breflect; lia.
Qed.

(** * Sequences of calls *)

(** The store when the server's clock shows [now] (nanoseconds). *)
Definition server_at (now : Z) (ks : keyspace) : keyspace :=
  {| ks_now := now / 1000000; ks_keys := ks_keys ks |}.

Definition allowed_reply (r : rreply) : bool :=
  match r with RArr (RInt a :: _) => a =? 1 | _ => false end.

(** A request is an instant and the member its process generated for it.  The
    requests of all processes for one key, in the order the server runs their
    scripts; the result is the admitted ones, newest first, before [adm]. *)
Fixpoint serve (key : string) (limit window : Z) (reqs : list (Z * string)) (ks : keyspace)
    (adm : list (Z * string)) : list (Z * string) * keyspace :=
  match reqs with
  | [] => (adm, ks)
  | (now, m) :: reqs' =>
      let '(r, ks') := run_script (rate_limit [key] (script_args limit window now m))
                         (server_at now ks) in
      serve key limit window reqs' ks' (if allowed_reply r then (now, m) :: adm else adm)
  end.

Section Window.
Context (key : string) (limit seconds : Z) (Hseconds : 0 < seconds).
Let window : Z := seconds * 1000000000.
Let W : Z := seconds * 1000000.

Lemma whole_window now m :
  script_args limit window now m
  = [itoa limit; itoa W; itoa (unix_micros now); m; itoa seconds].
Proof.
  unfold script_args, duration_seconds, duration_micros.
  replace (Z.quot window 1000000000) with seconds
    by (unfold window; by rewrite Z.quot_mul by lia).
  replace (Z.quot window 1000) with W
    by (unfold window, W; replace (seconds * 1000000000) with (seconds * 1000000 * 1000) by lia;
        by rewrite Z.quot_mul by lia).
  by rewrite (proj2 (Z.eqb_neq _ _)) by lia.
Qed.

(** Inside the window at [now], up to the server's millisecond. *)
Definition inside (now : Z) (x : Z * string) : bool :=
  unix_micros now - W + 1000 <? unix_micros x.1.

(** The store remembers the admitted request [x] for as long as it counts. *)
Definition remembers (ks : keyspace) (x : Z * string) : Prop :=
  exists z E, ks_keys ks !! key = Some {| re_value := RZset z; re_expire := Some E |}
    /\ z !! x.2 = Some (unix_micros x.1) /\ x.1 / 1000000 + 1000 * seconds <= E.

(** Admitted requests, newest first: at most [limit] of them inside the window
    of each. *)
Fixpoint bounded (adm : list (Z * string)) : Prop :=
  match adm with
  | [] => True
  | x :: adm' => Z.of_nat (List.length (List.filter (inside x.1) adm)) <= limit /\ bounded adm'
  end.

Record window_inv (now : Z) (ks : keyspace) (adm : list (Z * string)) : Prop := {
  wi_type e : ks_keys ks !! key = Some e -> exists z, re_value e = RZset z;
  wi_past : Forall (fun x => x.1 <= now) adm;
  wi_members : NoDup adm.*2;
  wi_kept : Forall (fun x => inside now x = true -> remembers ks x) adm;
  wi_sorted : StronglySorted (fun x y => y.1 <= x.1) adm;
  wi_bounded : bounded adm;
}.

Lemma unix_micros_mono a b : a <= b -> unix_micros a <= unix_micros b.
Proof. intros H. unfold unix_micros. apply Z.div_le_mono; lia. Qed.

Lemma bucket_server_at now now0 ks adm :
  window_inv now0 ks adm -> exists z, bucket (server_at now ks) key = Some z.
Proof.
  intros Hi. unfold bucket, ks_get, ks_entry, server_at. cbn.
  destruct (ks_keys ks !! key) as [e|] eqn:Ee; [|eauto].
  destruct (wi_type _ _ _ Hi e Ee) as [z Hz]. destruct (live_entry _ e) as [e'|] eqn:El; [|eauto].
  apply live_entry_live in El as ->. rewrite Hz. eauto.
Qed.

(** A request that counts at [now] is still in the bucket: the key has not
    expired. *)
Lemma remembered_recent now ks x z :
  remembers ks x -> bucket (server_at now ks) key = Some z -> inside now x = true ->
  recent (unix_micros now) W z !! x.2 = Some (unix_micros x.1)
  /\ exists E, ks_entry (server_at now ks) key = Some {| re_value := RZset z; re_expire := Some E |}
               /\ x.1 / 1000000 + 1000 * seconds <= E.
Proof.
  intros (z0 & E & Hk & Hz & HE) Hb Hin. unfold inside in Hin. breflect.
  assert (Hlive : ks_entry (server_at now ks) key
                  = Some {| re_value := RZset z0; re_expire := Some E |}).
  { unfold ks_entry, server_at, live_entry. cbn. rewrite Hk. cbn.
    destruct (E <=? now / 1000000) eqn:Ee; [|done]. exfalso. breflect. unfold unix_micros, W in *.
    pose proof (Z.div_mod now 1000 ltac:(lia)). pose proof (Z.div_mod now 1000000 ltac:(lia)).
    pose proof (Z.div_mod (x.1) 1000 ltac:(lia)). pose proof (Z.div_mod (x.1) 1000000 ltac:(lia)).
    pose proof (Z.mod_pos_bound now 1000 ltac:(lia)). pose proof (Z.mod_pos_bound now 1000000 ltac:(lia)).
    pose proof (Z.mod_pos_bound (x.1) 1000 ltac:(lia)).
    pose proof (Z.mod_pos_bound (x.1) 1000000 ltac:(lia)). lia. }
  assert (z0 = z) as ->.
  { unfold bucket, ks_get in Hb. rewrite Hlive in Hb. cbn in Hb. congruence. }
  split; [|by exists E]. apply map_lookup_filter_Some_2; [done|]. cbn. lia.
Qed.

Lemma keys_size (l : list string) (z : gmap string Z) :
  NoDup l -> (forall m, m ∈ l -> is_Some (z !! m)) -> (List.length l <= size z)%nat.
Proof.
  intros Hnd Hl. rewrite <- (size_list_to_set (C := gset string) l Hnd), <- size_dom.
  apply subseteq_size. intros m Hm. apply elem_of_dom, Hl. by apply elem_of_list_to_set in Hm.
Qed.

Lemma sublist_members (f : Z * string -> bool) (l : list (Z * string)) :
  NoDup l.*2 -> NoDup (List.filter f l).*2.
Proof.
  induction l as [|x l IH]; [done|]. cbn. intros [Hx Hl]%NoDup_cons. destruct (f x); [|by apply IH].
  cbn. apply NoDup_cons. split; [|by apply IH]. intros Hin. apply Hx.
  apply list_elem_of_fmap in Hin as (y & -> & Hy). apply list_elem_of_fmap. exists y. split; [done|].
  by apply list_elem_of_In, filter_In in Hy as [Hy%list_elem_of_In _].
Qed.

(** The requests that count are among those the bucket keeps. *)
Lemma counted_le now now0 ks adm z :
  window_inv now0 ks adm -> now0 <= now -> bucket (server_at now ks) key = Some z ->
  (List.length (List.filter (inside now) adm) <= size (recent (unix_micros now) W z))%nat.
Proof.
  intros Hi Hle Hb. rewrite <- (length_fmap snd). apply keys_size.
  - apply sublist_members, Hi.
  - intros m (x & -> & Hx)%list_elem_of_fmap. apply list_elem_of_In, filter_In in Hx as [Hx Hin].
    pose proof (wi_kept _ _ _ Hi) as Hk. rewrite Forall_forall in Hk.
    assert (Hin0 : inside now0 x = true).
    { unfold inside in *. breflect. apply Z.ltb_lt. pose proof (unix_micros_mono _ _ Hle). lia. }
    assert (Hrem : remembers ks x) by (apply Hk; [by apply list_elem_of_In|done]).
    destruct (remembered_recent now ks x z Hrem Hb Hin) as [Hr _]. by eexists.
Qed.

Lemma ks_entry_keys ks k e : ks_entry ks k = Some e -> ks_keys ks !! k = Some e.
Proof.
  unfold ks_entry. destruct (ks_keys ks !! k) as [e0|]; [|done].
  intros He. by apply live_entry_live in He as ->.
Qed.

Lemma filter_inside_mono now now' l :
  now <= now' ->
  (List.length (List.filter (inside now') l) <= List.length (List.filter (inside now) l))%nat.
Proof.
  intros Hle. induction l as [|x l IH]; [done|]. cbn [List.filter].
  assert (Himp : inside now' x = true -> inside now x = true).
  { unfold inside. rewrite !Z.ltb_lt. pose proof (unix_micros_mono _ _ Hle). lia. }
  destruct (inside now' x), (inside now x); cbn [List.length]; lia || by discriminate Himp.
Qed.

Lemma admitted_inv now now0 ks adm m z ks1 :
  window_inv now0 ks adm -> now0 <= now -> m ∉ adm.*2 ->
  bucket (server_at now ks) key = Some z ->
  Z.of_nat (size (recent (unix_micros now) W z)) < limit ->
  ks_entry ks1 key
  = Some {| re_value := RZset (<[m := unix_micros now]> (recent (unix_micros now) W z));
            re_expire := Some (now / 1000000 + 1000 * seconds) |} ->
  window_inv now ks1 ((now, m) :: adm).
Proof.
  intros Hi Hle Hm Hb Hsize He. apply ks_entry_keys in He as Hk.
  pose proof (counted_le _ _ _ _ _ Hi Hle Hb) as Hcount. destruct Hi as [Hty Hpast Hnd Hkept Hs Hbd]. split.
  - intros e. rewrite Hk. intros [= <-]. by eexists.
  - constructor; [cbn; lia|]. eapply Forall_impl; [exact Hpast|]. cbn. lia.
  - cbn. by apply NoDup_cons.
  - constructor.
    { intros _. do 2 eexists. split; [exact Hk|]. cbn. rewrite lookup_insert_eq. split; [done|lia]. }
    rewrite Forall_forall in *. intros x Hx Hin.
    assert (Hin0 : inside now0 x = true).
    { unfold inside in *. breflect. apply Z.ltb_lt. pose proof (unix_micros_mono _ _ Hle). lia. }
    destruct (remembered_recent now ks x z (Hkept x Hx Hin0) Hb Hin) as [Hr _].
    do 2 eexists. split; [exact Hk|]. split.
    + rewrite lookup_insert_ne; [done|]. intros ->. apply Hm. by apply list_elem_of_fmap_2.
    + specialize (Hpast x Hx). cbn in Hpast.
      assert (x.1 / 1000000 <= now / 1000000) by (apply Z.div_le_mono; lia). lia.
  - constructor; [done|]. eapply Forall_impl; [exact Hpast|]. cbn. lia.
  - split; [|done]. cbn [List.filter]. unfold inside at 1. cbn.
    destruct (_ <? _); cbn; lia.
Qed.

Lemma denied_inv now now0 ks adm z ks1 :
  window_inv now0 ks adm -> now0 <= now -> bucket (server_at now ks) key = Some z ->
  bucket ks1 key = Some (recent (unix_micros now) W z) ->
  (forall e, ks_keys ks1 !! key = Some e ->
     re_value e = RZset (recent (unix_micros now) W z) \/ ks_keys (server_at now ks) !! key = Some e) ->
  (forall e, ks_entry ks1 key = Some e ->
     exists e0, ks_entry (server_at now ks) key = Some e0 /\ re_expire e = re_expire e0) ->
  window_inv now ks1 adm.
Proof.
  intros Hi Hle Hb Hb1 Hraw He. destruct Hi as [Hty Hpast Hnd Hkept Hs Hbd]. split; try done.
  - intros e [Hz|Hk]%Hraw; [by eexists|]. by apply Hty.
  - eapply Forall_impl; [exact Hpast|]. cbn. lia.
  - rewrite Forall_forall in *. intros x Hx Hin.
    assert (Hin0 : inside now0 x = true).
    { unfold inside in *. breflect. apply Z.ltb_lt. pose proof (unix_micros_mono _ _ Hle). lia. }
    destruct (remembered_recent now ks x z (Hkept x Hx Hin0) Hb Hin) as (Hr & E & HE & HEle).
    unfold bucket, ks_get in Hb1. destruct (ks_entry ks1 key) as [e|] eqn:Ee.
    + destruct (He e eq_refl) as (e0 & He0 & Hexp). rewrite HE in He0. injection He0 as <-.
      apply ks_entry_keys in Ee. destruct e as [v ex]. cbn in *. subst ex.
      destruct v; try discriminate. injection Hb1 as ->. by exists (recent (unix_micros now) W z), E.
    + injection Hb1 as Hb1. rewrite <- Hb1 in Hr. by rewrite lookup_empty in Hr.
Qed.

Lemma serve_inv reqs now0 ks adm :
  window_inv now0 ks adm ->
  StronglySorted (fun x y => x.1 <= y.1) ((now0, "") :: reqs) -> NoDup (reqs.*2 ++ adm.*2) ->
  exists now', window_inv now' (serve key limit window reqs ks adm).2
                 (serve key limit window reqs ks adm).1.
Proof.
  revert now0 ks adm. induction reqs as [|[now m] reqs IH]; intros now0 ks adm Hi Hs Hnd.
  { by exists now0. }
  apply StronglySorted_inv in Hs as [Hs Hle]. apply Forall_cons in Hle as [Hle _]. cbn in Hle.
  cbn [fmap list_fmap app] in Hnd. apply NoDup_cons in Hnd as [Hm Hnd].
  assert (Hs' : StronglySorted (fun x y => x.1 <= y.1) ((now, "") :: reqs)).
  { apply StronglySorted_inv in Hs as [Hs Hf]. by constructor. }
  destruct (bucket_server_at now _ _ _ Hi) as [z Hb]. cbn [serve]. rewrite whole_window.
  destruct (rate_limit_run key limit W (unix_micros now) m seconds z (server_at now ks) Hb Hseconds)
    as (ks1 & Hn & Hrun). cbn zeta in Hrun.
  destruct (Z.of_nat (size (recent (unix_micros now) W z)) <? limit) eqn:El; breflect.
  - destruct Hrun as [-> He]. cbn [allowed_reply]. apply (IH now); [|done|].
    + by eapply admitted_inv; try done; set_solver.
    + change (NoDup (reqs.*2 ++ m :: adm.*2)). rewrite <- Permutation_middle.
      by apply NoDup_cons.
  - destruct Hrun as (-> & Hb1 & He & Hk). cbn [allowed_reply]. apply (IH now); [|done|done].
    by eapply denied_inv.
Qed.

Lemma length_filter_andb {A} (f g : A -> bool) (l : list A) :
  (List.length (List.filter (fun x => f x && g x) l) <= List.length (List.filter f l))%nat.
Proof.
  induction l as [|x l IH]; [done|]. cbn. destruct (f x), (g x); cbn; lia.
Qed.

Lemma bounded_any adm tau :
  StronglySorted (fun x y => y.1 <= x.1) adm -> bounded adm -> 0 <= limit ->
  Z.of_nat (List.length (List.filter (fun x => inside tau x && (x.1 <=? tau)) adm)) <= limit.
Proof.
  intros Hs Hb Hl. induction adm as [|x adm IH]; [done|].
  apply StronglySorted_inv in Hs as [Hs Hf]. destruct Hb as [Hx Hb].
  destruct (x.1 <=? tau) eqn:E; breflect.
  - transitivity (Z.of_nat (List.length (List.filter (inside x.1) (x :: adm)))); [|done].
    apply inj_le. etrans; [|by apply filter_inside_mono]. apply length_filter_andb.
  - cbn [List.filter]. rewrite (proj2 (Z.leb_gt _ _)), andb_false_r by done. by apply IH.
Qed.

(** A bucket never remembers more than the limit, nor instants before 1970. *)
Definition tidy (ks : keyspace) : Prop :=
  forall e, ks_keys ks !! key = Some e ->
    exists z, re_value e = RZset z /\ Z.of_nat (size z) <= limit /\ map_Forall (fun _ sc => 0 <= sc) z.

Definition tidy_bucket (z : gmap string Z) : Prop :=
  Z.of_nat (size z) <= limit /\ map_Forall (fun _ sc => 0 <= sc) z.

Lemma tidy_bucket_at now ks z :
  0 <= limit -> tidy ks -> bucket (server_at now ks) key = Some z -> tidy_bucket z.
Proof.
  intros Hl Ht. unfold bucket, ks_get, ks_entry, server_at. cbn.
  assert (H0 : tidy_bucket ∅).
  { split; [by rewrite map_size_empty|]. apply map_Forall_empty. }
  destruct (ks_keys ks !! key) as [e|] eqn:Ee; [|by intros [= <-]].
  destruct (live_entry _ e) as [e'|] eqn:El; [|by intros [= <-]].
  apply live_entry_live in El as ->. destruct (Ht e Ee) as (z0 & -> & Hz). by intros [= <-].
Qed.

Lemma tidy_recent now z : tidy_bucket z -> tidy_bucket (recent now W z).
Proof.
  intros [Hs Hz]. unfold recent. split.
  - etrans; [|exact Hs]. apply inj_le. rewrite <- !size_dom. apply subseteq_size, subseteq_dom.
    apply map_filter_subseteq.
  - intros m sc [Hm _]%map_lookup_filter_Some. by apply (Hz m).
Qed.

(** One more request keeps the bucket tidy; [Some true] is an admission. *)
Lemma serve_one_tidy now m ks :
  0 <= limit -> 0 <= now -> tidy ks ->
  exists z r ks1, bucket (server_at now ks) key = Some z /\ tidy_bucket z /\ tidy ks1
    /\ run_script (rate_limit [key] (script_args limit window now m)) (server_at now ks) = (r, ks1)
    /\ let keep := recent (unix_micros now) W z in
       if Z.of_nat (size keep) <? limit then allowed_reply r = true
       else r = RArr [RInt 0; RInt (retry_after (unix_micros now) W keep); RInt (Z.of_nat (size keep))]
            /\ bucket ks1 key = Some keep.
Proof.
  intros Hl Hnow Ht.
  assert (Hb : exists z, bucket (server_at now ks) key = Some z).
  { unfold bucket, ks_get, ks_entry, server_at. cbn.
    destruct (ks_keys ks !! key) as [e|] eqn:Ee; [|eauto].
    destruct (live_entry _ e) as [e'|] eqn:El; [|eauto].
    apply live_entry_live in El as ->. destruct (Ht e Ee) as (z0 & -> & Hz). eauto. }
  destruct Hb as [z Hb]. pose proof (tidy_bucket_at _ _ _ Hl Ht Hb) as Htz.
  pose proof (tidy_recent (unix_micros now) z Htz) as Htk. rewrite whole_window.
  destruct (rate_limit_run key limit W (unix_micros now) m seconds z (server_at now ks) Hb Hseconds)
    as (ks1 & Hn & Hrun). cbn zeta in Hrun.
  destruct (Z.of_nat (size (recent (unix_micros now) W z)) <? limit) eqn:El; breflect.
  - destruct Hrun as [Hrun He]. exists z. do 2 eexists. split; [done|]. split; [done|].
    split; [|split; [exact Hrun|cbn zeta; by rewrite (proj2 (Z.ltb_lt _ _) El)]].
    apply ks_entry_keys in He. intros e. rewrite He. intros [= <-]. cbn. eexists. split; [done|]. split.
    + pose proof (map_size_insert m (unix_micros now) (recent (unix_micros now) W z)) as Hsz.
      rewrite Hsz. destruct (_ !! m); cbn; lia.
    + apply map_Forall_insert_2; [apply Z.div_pos; lia|apply Htk].
  - destruct Hrun as (Hrun & Hb1 & _ & Hk). exists z. do 2 eexists. split; [done|]. split; [done|].
    split; [|split; [exact Hrun|cbn zeta; by rewrite (proj2 (Z.ltb_ge _ _) El)]].
    intros e [Hz|He]%Hk; [|by apply Ht]. eexists. split; [exact Hz|]. exact Htk.
Qed.

(** From the instant on at which the oldest remembered request leaves the
    window, the bucket is below the limit. *)
Lemma retry_makes_room now later r z z2 ks1 :
  0 < limit -> tidy_bucket z -> now + r * 1000 <= later ->
  r = retry_after (unix_micros now) W (recent (unix_micros now) W z) ->
  limit <= Z.of_nat (size (recent (unix_micros now) W z)) ->
  bucket ks1 key = Some (recent (unix_micros now) W z) ->
  bucket (server_at later ks1) key = Some z2 ->
  Z.of_nat (size (recent (unix_micros later) W z2)) < limit.
Proof.
  intros Hl Hz Hlt Hr Hfull Hb1 Hb2. set (keep := recent (unix_micros now) W z) in *.
  pose proof (tidy_recent (unix_micros now) z Hz) as [Hks Hkz]. fold keep in Hks, Hkz.
  assert (Hlater : unix_micros now + r <= unix_micros later).
  { replace (unix_micros now + r) with (unix_micros (now + r * 1000))
      by (unfold unix_micros; by rewrite Z.div_add by lia). by apply unix_micros_mono. }
  assert (Hz2 : z2 = keep \/ z2 = ∅).
  { unfold bucket, ks_get, ks_entry, server_at in *. cbn in *.
    destruct (ks_keys ks1 !! key) as [e|]; [|simplify_eq; auto].
    destruct (live_entry (_ / 1000000) e) as [e2|] eqn:E2; [|right; congruence].
    apply live_entry_live in E2 as ->. destruct (live_entry (ks_now ks1) e) as [e1|] eqn:E1.
    - apply live_entry_live in E1 as ->. destruct (re_value e); try discriminate; left; congruence.
    - exfalso. assert (Hk0 : keep = ∅) by congruence. rewrite Hk0, map_size_empty in Hfull. lia. }
  destruct Hz2 as [-> | ->]; cycle 1.
  { unfold recent. rewrite map_filter_empty, map_size_empty. lia. }
  destruct (zsorted keep) as [|[m0 sc] l] eqn:Ez.
  { exfalso. assert (Hp : map_to_list keep ≡ₚ []).
    { rewrite <- Ez. unfold zsorted. by rewrite (merge_sort_Permutation zle). }
    apply Permutation_nil_r, map_to_list_empty_iff in Hp. rewrite Hp, map_size_empty in Hfull. lia. }
  assert (Hm0 : keep !! m0 = Some sc).
  { apply elem_of_map_to_list. rewrite <- (merge_sort_Permutation zle). fold (zsorted keep).
    rewrite Ez. by left. }
  assert (Hsc : unix_micros now - W < sc).
  { apply map_lookup_filter_Some in Hm0 as [Hm0 Hn]. cbn in Hn. pose proof (proj2 Hz m0 sc Hm0) as H0. cbn in H0. lia. }
  assert (Hreq : r = sc + W - unix_micros now).
  { rewrite Hr. unfold retry_after. rewrite Ez. lia. }
  assert (Hsub : recent (unix_micros later) W keep ⊆ delete m0 keep).
  { apply map_subseteq_spec. intros k v [Hk Hn]%map_lookup_filter_Some. cbn in Hn.
    apply lookup_delete_Some. split; [|done]. intros <-. rewrite Hm0 in Hk. injection Hk as <-.
    pose proof (Hkz m0 sc Hm0) as Hpos. cbn in Hpos. lia. }
  apply subseteq_dom, subseteq_size in Hsub. rewrite !size_dom in Hsub.
  pose proof (map_size_delete m0 keep) as Hd. rewrite Hm0 in Hd. lia.
Qed.

Lemma serve_tidy reqs ks adm :
  0 <= limit -> Forall (fun x => 0 <= x.1) reqs -> tidy ks ->
  tidy (serve key limit window reqs ks adm).2.
Proof.
  intros Hl Hr. revert ks adm. induction Hr as [|[now m] reqs Hnow Hreqs IH]; intros ks adm Ht; [done|].
  cbn [serve]. destruct (serve_one_tidy now m ks Hl Hnow Ht) as (z & r & ks1 & _ & _ & Ht1 & Hrun & _).
  rewrite Hrun. by apply IH.
Qed.

End Window.

(** C23. The rate limiter admits at most [limit] requests per window.  Of the
    requests of all processes for one key since the key was last absent, however
    many, at most [limit] are admitted in any time as long as the configured
    window less one millisecond (the server's expiry counts milliseconds, and
    may forget that much too early), as long as the window is a whole number of
    seconds, the clocks of the processes and the server agree and the server
    runs the requests in the order of their instants, and every request has its
    own member. *)
Theorem rate_limit_sliding_window (key : string) (limit seconds tau : Z) (reqs : list (Z * string))
    (ks : keyspace) :
  0 < seconds -> 0 <= limit -> ks_keys ks !! key = None ->
  StronglySorted (fun x y => x.1 <= y.1) reqs -> NoDup reqs.*2 ->
  Z.of_nat (List.length (List.filter
    (fun x => (unix_micros tau - seconds * 1000000 + 1000 <? unix_micros x.1) && (x.1 <=? tau))
    (serve key limit (seconds * 1000000000) reqs ks []).1)) <= limit.
Proof.
  intros Hs Hl Hk Hsort Hnd. set (now0 := match reqs with [] => 0 | x :: _ => x.1 end).
  destruct (serve_inv key limit seconds Hs reqs now0 ks []) as [now' Hi].
  - split; try constructor. by rewrite Hk.
  - constructor; [done|]. subst now0. destruct reqs as [|x reqs]; [done|].
    apply StronglySorted_inv in Hsort as [_ Hf]. by constructor.
  - cbn. by rewrite app_nil_r.
  - by apply (bounded_any limit seconds); [apply Hi|apply Hi|].
Qed.

(** C32. The retry-after the limiter answers a denial with is right: when a
    request is denied with a delay of [r] microseconds, a request for the key at
    least that much later is admitted, if none came in between (the clocks of the
    processes agreeing, and the window being a whole number of seconds).  The
    header of the response gives the delay truncated to seconds, which may be too
    early: [retry_after_header_too_early]. *)
Theorem rate_limit_retry_admitted (key : string) (limit seconds now later r count : Z) (m m' : string)
    (reqs : list (Z * string)) (ks ks1 : keyspace) :
  0 < seconds -> 0 < limit -> 0 <= now -> ks_keys ks !! key = None ->
  Forall (fun x => 0 <= x.1) reqs ->
  run_script (rate_limit [key] (script_args limit (seconds * 1000000000) now m))
    (server_at now (serve key limit (seconds * 1000000000) reqs ks []).2)
  = (RArr [RInt 0; RInt r; RInt count], ks1) ->
  now + r * 1000 <= later ->
  allowed_reply (run_script (rate_limit [key] (script_args limit (seconds * 1000000000) later m'))
                   (server_at later ks1)).1 = true.
Proof.
  intros Hs Hl Hnow Hk Hreqs Hrun Hlater.
  assert (Ht0 : tidy key limit ks) by (intros e; by rewrite Hk).
  pose proof (serve_tidy key limit seconds Hs reqs ks [] ltac:(lia) Hreqs Ht0) as Ht.
  destruct (serve_one_tidy key limit seconds Hs now m _ ltac:(lia) Hnow Ht)
    as (z & r0 & ks2 & _ & Hz & Ht1 & Hrun' & Hout).
  rewrite Hrun in Hrun'. injection Hrun' as <- <-. cbn zeta in Hout.
  destruct (_ <? limit) eqn:El; [discriminate Hout|]. destruct Hout as [[= Hr Hc] Hb1]. breflect.
  assert (Hr0 : 0 <= r) by (rewrite Hr; unfold retry_after; lia).
  destruct (serve_one_tidy key limit seconds Hs later m' ks1 ltac:(lia) ltac:(lia) Ht1)
    as (z2 & r2 & ks3 & Hb2 & Hz2 & _ & Hrun2 & Hout2).
  rewrite Hrun2. cbn [fst]. cbn zeta in Hout2.
  pose proof (retry_makes_room key limit seconds now later r z z2 ks1 Hl Hz Hlater Hr El Hb1 Hb2) as Hroom.
  by rewrite (proj2 (Z.ltb_lt _ _) Hroom) in Hout2.
Qed.

End RateLimitImpl.

(** * Witnesses *)

Module LocalLimiter.
Import RateLimitImpl.
Definition requests : list (Z * string) :=
  [(1000000000000, "m1"); (1000300000000, "m2"); (1000600000000, "m3"); (1002500000000, "m4")].
Definition store : keyspace := empty_keyspace 0.
(** Two of the first three requests fit in a limit of two per two seconds. *)
Definition denied : rreply * keyspace :=
  run_script (rate_limit ["rl:ip:192.0.2.1:/login"] (script_args 2 2000000000 1000700000000 "m5"))
    (server_at 1000700000000 (serve "rl:ip:192.0.2.1:/login" 2 2000000000 (take 3 requests) store []).2).
End LocalLimiter.

Lemma rate_limit_sliding_window_witness :
  Z.of_nat (List.length (List.filter
    (fun x => (unix_micros 1002500000000 - 2 * 1000000 + 1000 <? unix_micros x.1) && (x.1 <=? 1002500000000))
    (RateLimitImpl.serve "rl:ip:192.0.2.1:/login" 2 (2 * 1000000000) LocalLimiter.requests
       LocalLimiter.store []).1)) <= 2.
Proof.
  apply (RateLimitImpl.rate_limit_sliding_window "rl:ip:192.0.2.1:/login" 2 2 1002500000000
           LocalLimiter.requests LocalLimiter.store).
  - lia.
  - lia.
  - reflexivity.
  - repeat constructor; cbn; lia.
  - cbn. repeat (apply NoDup_cons; split; [set_solver|]). apply NoDup_nil_2.
Defined.

Lemma rate_limit_retry_admitted_witness :
  RateLimitImpl.allowed_reply
    (run_script (rate_limit ["rl:ip:192.0.2.1:/login"]
                   (RateLimitImpl.script_args 2 (2 * 1000000000) 1002100000000 "m6"))
       (RateLimitImpl.server_at 1002100000000 LocalLimiter.denied.2)).1 = true.
Proof.
  apply (RateLimitImpl.rate_limit_retry_admitted "rl:ip:192.0.2.1:/login" 2 2 1000700000000 1002100000000 1300000 2
           "m5" "m6" (take 3 LocalLimiter.requests) LocalLimiter.store LocalLimiter.denied.2).
  - lia.
  - lia.
  - lia.
  - reflexivity.
  - repeat constructor; cbn; lia.
  - vm_compute. reflexivity.
  - lia.
Defined.

(** The Retry-After header is the delay truncated to seconds: a client that
    waits for as long as it says is denied again.  Here the delay is 1.3 seconds
    and the header says 1. *)
Theorem retry_after_header_too_early :
  LocalLimiter.denied.1 = RArr [RInt 0; RInt 1300000; RInt 2]
  /\ let header := duration_seconds (1300000 * 1000) in
     header = 1
     /\ RateLimitImpl.allowed_reply
          (run_script (rate_limit ["rl:ip:192.0.2.1:/login"]
                         (RateLimitImpl.script_args 2 2000000000 (1000700000000 + header * 1000000000) "m6"))
             (RateLimitImpl.server_at (1000700000000 + header * 1000000000) LocalLimiter.denied.2)).1 = false.
Proof. split; [|split]; vm_compute; reflexivity. Qed.

(** With a window of one and a half seconds the expiry of the key is truncated
    to one second, so the limiter forgets a request that is still inside the
    window: at a limit of one, two requests 1.2 seconds apart are both
    admitted. *)
Theorem fractional_window_over_admits :
  (RateLimitImpl.serve "rl:ip:192.0.2.1:/login" 1 1500000000
     [(1000000000000, "m1"); (1001200000000, "m2")] LocalLimiter.store []).1
  = [(1001200000000, "m2"); (1000000000000, "m1")]
  /\ unix_micros 1001200000000 - duration_micros 1500000000 < unix_micros 1000000000000.
Proof. split; vm_compute; reflexivity. Qed.
