(* ===== verification/Response.v ===== *)
(** internal/delivery/http/response: what the problem documents of the API are
    made of: the translation keys, the descriptors, the mapping of error values
    to descriptors ([MapError]), the lookup of a translation with its fallbacks
    and the headers of a problem response.  Writing them to a response is in
    Gin.v. *)
From S2P Require Export Authorization.
From Stdlib Require Import Ascii.

(** * Descriptors (response.go, localization.go) *)

Module Response.

Definition titleBadRequest : string := "title.bad_request".
Definition titleUnauthorized : string := "title.unauthorized".
Definition titleForbidden : string := "title.forbidden".
Definition titleNotFound : string := "title.not_found".
Definition titleConflict : string := "title.conflict".
Definition titleTooManyRequests : string := "title.too_many_requests".
Definition titleInternalServerError : string := "title.internal_server_error".
Definition detailCurrentSessionNotFound : string := "detail.current_session_not_found".
Definition detailPasswordTooShort : string := "detail.password_too_short".
Definition detailPasswordTooLong : string := "detail.password_too_long".
Definition detailPasswordPolicyViolation : string := "detail.password_policy_violation".
Definition detailCurrentPasswordIncorrect : string := "detail.current_password_incorrect".
Definition detailProcessingError : string := "detail.processing_error".
Definition detailTokenExpired : string := "detail.token_expired".
Definition detailTokenInvalid : string := "detail.token_invalid".
Definition detailInvalidCredentials : string := "detail.invalid_credentials".
Definition detailAccountSuspendedContactSupport : string := "detail.account_suspended_contact_support".
Definition detailResourceNotFound : string := "detail.resource_not_found".
Definition detailEmailAlreadyExists : string := "detail.email_already_exists".
Definition detailPasswordSameAsCurrent : string := "detail.password_same_as_current".
Definition detailConflict : string := "detail.conflict".
Definition detailUnexpected : string := "detail.unexpected".
Definition DetailInvalidRequestPayload : string := "detail.invalid_request_payload".
Definition DetailInvalidPaginationParams : string := "detail.invalid_pagination_params".
Definition DetailAuthenticationContextMissing : string := "detail.authentication_context_missing".
Definition DetailInvalidUserRole : string := "detail.invalid_user_role".
Definition DetailMissingAuthorizationHeader : string := "detail.missing_or_invalid_authorization_header".
Definition DetailAccessTokenRequired : string := "detail.access_token_required".
Definition DetailTokenRevoked : string := "detail.token_revoked".
Definition DetailAccountNotActivated : string := "detail.account_not_activated".
Definition DetailAccountSuspended : string := "detail.account_suspended".
Definition DetailContactSupport : string := "detail.contact_support".
Definition DetailAuthenticationRequired : string := "detail.authentication_required".
Definition DetailInvalidUserContext : string := "detail.invalid_user_context".
Definition DetailInsufficientPermissions : string := "detail.insufficient_permissions".
Definition DetailRateLimitExceeded : string := "detail.rate_limit_exceeded".

Definition translationKeys : list string :=
  [titleBadRequest; titleUnauthorized; titleForbidden; titleNotFound; titleConflict;
   titleTooManyRequests; titleInternalServerError; detailCurrentSessionNotFound;
   detailPasswordTooShort; detailPasswordTooLong; detailPasswordPolicyViolation;
   detailCurrentPasswordIncorrect; detailProcessingError; detailTokenExpired; detailTokenInvalid;
   detailInvalidCredentials; detailAccountSuspendedContactSupport; detailResourceNotFound;
   detailEmailAlreadyExists; detailPasswordSameAsCurrent; detailConflict; detailUnexpected;
   DetailInvalidRequestPayload; DetailInvalidPaginationParams; DetailAuthenticationContextMissing;
   DetailInvalidUserRole; DetailMissingAuthorizationHeader; DetailAccessTokenRequired;
   DetailTokenRevoked; DetailAccountNotActivated; DetailAccountSuspended; DetailContactSupport;
   DetailAuthenticationRequired; DetailInvalidUserContext; DetailInsufficientPermissions;
   DetailRateLimitExceeded].

(** The metadata of a rate-limit problem. *)
Record RateMetadata := { limit : Z; window : string; retry_after : string }.

Record ProblemDescriptor := {
  Type_ : string;
  Status : Z;
  TitleKey : string;
  DetailKey : string;
  Params : gmap string string;
  Metadata : option RateMetadata;
}.

(** [ProblemDescriptor{Type: ..., Status: ..., TitleKey: ..., DetailKey: ...}] *)
Definition problem (type : string) (status : Z) (title detail : string) : ProblemDescriptor :=
  {| Type_ := type; Status := status; TitleKey := title; DetailKey := detail;
     Params := ∅; Metadata := None |}.

Definition StatusOK : Z := 200.
Definition StatusCreated : Z := 201.
Definition StatusBadRequest : Z := 400.
Definition StatusUnauthorized : Z := 401.
Definition StatusForbidden : Z := 403.
Definition StatusNotFound : Z := 404.
Definition StatusConflict : Z := 409.
Definition StatusTooManyRequests : Z := 429.
Definition StatusInternalServerError : Z := 500.
Definition StatusServiceUnavailable : Z := 503.

(** * error_mapping.go *)

Definition MapError (e : err) : ProblemDescriptor :=
  let Is := errors_is e in
  if Is ErrUserAccessBlocked || Is ErrPrincipalSecurityStateChanged
  then problem "/errors/unauthorized" StatusUnauthorized titleUnauthorized DetailTokenRevoked
  else if Is ErrPrincipalInactive
  then problem "/errors/unauthorized" StatusUnauthorized titleUnauthorized DetailAccountNotActivated
  else if Is ErrPrincipalSuspended
  then problem "/errors/unauthorized" StatusUnauthorized titleUnauthorized DetailAccountSuspended
  else if Is ErrPermissionDenied
  then problem "/errors/forbidden" StatusForbidden titleForbidden DetailInsufficientPermissions
  else if errors_as_current_session e
  then problem "/errors/unauthorized" StatusUnauthorized titleUnauthorized detailCurrentSessionNotFound
  else if Is ErrInvalidSessionSelection
  then problem "/errors/validation" StatusBadRequest titleBadRequest DetailInvalidRequestPayload
  else if Is ErrPasswordTooShort
  then problem "/errors/invalid-password" StatusBadRequest titleBadRequest detailPasswordTooShort
  else if Is ErrPasswordTooLong
  then problem "/errors/invalid-password" StatusBadRequest titleBadRequest detailPasswordTooLong
  else if Is ErrPasswordPolicyViolation
  then problem "/errors/invalid-password" StatusBadRequest titleBadRequest detailPasswordPolicyViolation
  else if Is ErrInvalidPassword
  then problem "/errors/validation" StatusBadRequest titleBadRequest detailCurrentPasswordIncorrect
  else if Is ErrBadRequest || Is ErrInvalidInput
  then problem "/errors/internal" StatusBadRequest titleBadRequest detailProcessingError
  else if Is ErrTokenExpired
  then problem "/errors/unauthorized" StatusUnauthorized titleUnauthorized detailTokenExpired
  else if Is ErrTokenInvalid
  then problem "/errors/unauthorized" StatusUnauthorized titleUnauthorized detailTokenInvalid
  else if Is ErrInvalidCredentials
  then problem "/errors/internal" StatusUnauthorized titleUnauthorized detailInvalidCredentials
  else if Is ErrUnauthorized
  then problem "/errors/internal" StatusUnauthorized titleUnauthorized detailProcessingError
  else if Is ErrAccountSuspended
  then problem "/errors/internal" StatusForbidden titleForbidden detailAccountSuspendedContactSupport
  else if Is ErrForbidden
  then problem "/errors/internal" StatusForbidden titleForbidden detailProcessingError
  else if Is ErrPermissionNotFound || Is ErrUserNotFound || Is ErrNotFound
  then problem "/errors/not-found" StatusNotFound titleNotFound detailResourceNotFound
  else if Is ErrEmailAlreadyExists
  then problem "/errors/email-already-exists" StatusConflict titleConflict detailEmailAlreadyExists
  else if Is ErrPasswordSameAsCurrent
  then problem "/errors/internal" StatusConflict titleConflict detailPasswordSameAsCurrent
  else if Is ErrInvalidUserStatusTransition || Is ErrPermissionAlreadyExists
          || Is ErrConcurrentRoleChange || Is ErrConflict
  then problem "/errors/conflict" StatusConflict titleConflict detailConflict
  else if Is ErrRateLimitExceeded
  then problem "/errors/internal" StatusTooManyRequests titleTooManyRequests detailProcessingError
  else problem "/errors/internal" StatusInternalServerError titleInternalServerError detailUnexpected.

(** * Localization: the lookup with its fallbacks *)

Definition localeEnglish : string := "en".
Definition localePersian : string := "fa".

(** A compiled text/template and its execution; golang.org/x/text/language's
    matcher over English and Persian: the index of the tag it selects; and
    [strings.ToLower], which maps with the tables of Go's unicode package. *)
Class TextLibraries := {
  template : Type;
  template_Execute : template -> gmap string string -> option string;
  language_MatchStrings : string -> Z;
  strings_ToLower : string -> string;
}.

Section Localizer.
Context `{TextLibraries}.

Definition resolveLocale (acceptLanguage : string) : string :=
  if language_MatchStrings acceptLanguage =? 1 then localePersian else localeEnglish.

(** [localizer.catalogs] *)
Definition localizer : Type := gmap string (gmap string template).

Definition execute (l : localizer) (catalogLocale key : string) (params : gmap string string) : option string :=
  match l !! catalogLocale with
  | None => None
  | Some catalog =>
      match catalog !! key with
      | None => None
      | Some message => template_Execute message params
      end
  end.

(** The last resort's failure is the empty string. *)
Definition translate (l : localizer) (catalogLocale key : string) (params : gmap string string) : string :=
  match execute l catalogLocale key params with
  | Some translated => translated
  | None =>
      let english := if catalogLocale <>s localeEnglish then execute l localeEnglish key params else None in
      match english with
      | Some translated => translated
      | None => default "" (execute l localeEnglish detailUnexpected ∅)
      end
  end.

(** ** Headers *)

(** [http.Header]: the values of a canonical field name. *)
Definition header : Type := gmap string (list string).
Definition header_Set (h : header) (name value : string) : header := <[name := [value]]> h.
Definition header_Values (h : header) (name : string) : list string := default [] (h !! name).

(** The values of one line; [None] when it has the value "*". *)
Fixpoint vary_values (requiredKey requiredValue : string) (raw : list string)
    (seen values : list string) : option (list string * list string) :=
  match raw with
  | [] => Some (seen, values)
  | rawValue :: raw' =>
      let value := TrimSpace rawValue in
      if value =s "" then vary_values requiredKey requiredValue raw' seen values
      else if value =s "*" then None
      else
        let key := strings_ToLower value in
        if bool_decide (key ∈ seen) then vary_values requiredKey requiredValue raw' seen values
        else
          let value := if key =s requiredKey then requiredValue else value in
          vary_values requiredKey requiredValue raw' (key :: seen) (values ++ [value])
  end.

Definition mergeVary (h : header) (requiredValue : string) : header :=
  let requiredKey := strings_ToLower requiredValue in
  match vary_values requiredKey requiredValue
          (mjoin (map (split_on ","%char) (header_Values h "Vary"))) [] [] with
  | None => header_Set h "Vary" "*"
  | Some (seen, values) =>
      let values := if bool_decide (requiredKey ∈ seen) then values else values ++ [requiredValue] in
      header_Set h "Vary" (Join values ", ")
  end.

Definition problemContentType : string := "application/problem+json".
Definition acceptLanguageHeader : string := "Accept-Language".

Definition setProblemHeaders (h : header) (responseLocale : string) : header :=
  mergeVary (header_Set (header_Set h "Content-Type" problemContentType)
               "Content-Language" responseLocale)
    acceptLanguageHeader.

End Localizer.

(** The JSON document of a problem. *)
Record Problem := {
  pb_Type : string; pb_Title : string; pb_Status : Z; pb_Detail : string;
  pb_Instance : string; pb_Metadata : option RateMetadata;
}.

(** ** The mapping of errors *)

(** The error values a response tells apart. *)
Definition classified : list sentinel :=
  [ErrUserAccessBlocked; ErrPrincipalSecurityStateChanged; ErrPrincipalInactive; ErrPrincipalSuspended;
   ErrPermissionDenied; ErrInvalidSessionSelection; ErrPasswordTooShort; ErrPasswordTooLong;
   ErrPasswordPolicyViolation; ErrInvalidPassword; ErrBadRequest; ErrInvalidInput; ErrTokenExpired;
   ErrTokenInvalid; ErrInvalidCredentials; ErrUnauthorized; ErrAccountSuspended; ErrForbidden;
   ErrPermissionNotFound; ErrUserNotFound; ErrNotFound; ErrEmailAlreadyExists; ErrPasswordSameAsCurrent;
   ErrInvalidUserStatusTransition; ErrPermissionAlreadyExists; ErrConcurrentRoleChange; ErrConflict;
   ErrRateLimitExceeded].

Definition recognised (e : err) : bool :=
  existsb (errors_is e) classified || errors_as_current_session e.

(** The title of a status. *)
Definition title_of (status : Z) : string :=
  if status =? StatusBadRequest then titleBadRequest
  else if status =? StatusUnauthorized then titleUnauthorized
  else if status =? StatusForbidden then titleForbidden
  else if status =? StatusNotFound then titleNotFound
  else if status =? StatusConflict then titleConflict
  else if status =? StatusTooManyRequests then titleTooManyRequests
  else titleInternalServerError.

(** What the branches of [MapError] have in common. *)
Definition coherent (d : ProblemDescriptor) : bool :=
  (TitleKey d =s title_of (Status d)) && existsb (String.eqb (TitleKey d)) translationKeys
  && existsb (String.eqb (DetailKey d)) translationKeys && bool_decide (Params d = ∅)
  && match Metadata d with None => true | Some _ => false end.

(** Decides the tests of [MapError] in their order. *)
Ltac classify e :=
  repeat (match goal with
  | |- context [if ?b then _ else _] =>
      match b with
      | context [errors_is e ?t] => destruct (errors_is e t)
      | context [errors_as_current_session e] => destruct (errors_as_current_session e)
      end
  end; cbn [orb]; try solve [rewrite ?orb_true_r; first [reflexivity | split; discriminate]]).

Lemma MapError_is_coherent e : coherent (MapError e) = true.
Proof. unfold MapError. cbn zeta. classify e. Qed.

Lemma MapError_500 e : Status (MapError e) = StatusInternalServerError <-> recognised e = false.
Proof.
  unfold recognised, classified. cbn [existsb]. rewrite orb_false_r. unfold MapError. cbn zeta.
  classify e. done.
Qed.

Lemma MapError_unrecognised e : recognised e = false -> MapError e = MapError ErrInternal.
Proof.
  unfold recognised, classified. cbn [existsb]. intros H. breflect.
  unfold MapError at 1. cbn zeta.
  repeat match goal with H : errors_is e _ = false |- _ => rewrite H; clear H end.
  match goal with H : errors_as_current_session e = false |- _ => rewrite H end. reflexivity.
Qed.

(** C40. The mapping of errors to problems is total, coherent and discloses
    nothing: wrapping an error with context does not change its problem; every
    problem has the title of its status and translated keys, without parameters
    or metadata; and an error that wraps none of the values a client may be
    told about is, whatever it contains, the one internal error of status
    500, and only such an error is. *)
Theorem MapError_coherent (e : err) :
  (forall msg, MapError (wrap1 msg e) = MapError e)
  /\ coherent (MapError e) = true
  /\ (Status (MapError e) = StatusInternalServerError <-> recognised e = false)
  /\ (recognised e = false -> MapError e = MapError ErrInternal).
Proof.
  split; [|split; [apply MapError_is_coherent|split; [apply MapError_500|apply MapError_unrecognised]]].
  intros msg. unfold MapError. rewrite !errors_is_wrap1. cbn [wrap1 errors_as_current_session existsb].
  by rewrite orb_false_r.
Qed.

End Response.
