(* ===== verification/Base64.v ===== *)
(** encoding/base64's [RawStdEncoding], as the password hash uses it: the
    standard alphabet without padding, the strict decoder (unused trailing bits
    are zero), and its round trip.  Bytes are integers from 0 to 255. *)
From S2P Require Export ValueObjects.
From Stdlib Require Import Ascii.

Definition bytes (l : list Z) : Prop := Forall (fun b => 0 <= b < 256) l.

Module Base64.

Definition alphabet : string :=
  "ABCDEFGHIJKLMNOPQRSTUVWXYZabcdefghijklmnopqrstuvwxyz0123456789+/".

(** The character of a 6-bit digit, and back. *)
Definition char_of (d : Z) : ascii :=
  match String.get (Z.to_nat d) alphabet with Some a => a | None => "A"%char end.

Fixpoint index_of (a : ascii) (s : string) (i : Z) : option Z :=
  match s with
  | EmptyString => None
  | String b s' => if Ascii.eqb a b then Some i else index_of a s' (i + 1)
  end.
Definition digit_of (a : ascii) : option Z := index_of a alphabet 0.

Fixpoint EncodeToString (l : list Z) : string :=
  match l with
  | [] => ""
  | [a] => String (char_of (a / 4)) (String (char_of (a mod 4 * 16)) "")
  | [a; b] =>
      String (char_of (a / 4))
        (String (char_of (a mod 4 * 16 + b / 16)) (String (char_of (b mod 16 * 4)) ""))
  | a :: (b :: (c :: l')) =>
      String (char_of (a / 4))
        (String (char_of (a mod 4 * 16 + b / 16))
           (String (char_of (b mod 16 * 4 + c / 64))
              (String (char_of (c mod 64)) (EncodeToString l'))))
  end.

(** [Strict().DecodeString].  Go's decoder also skips line breaks, which the
    caller has refused before. *)
Fixpoint DecodeString (s : string) : option (list Z) :=
  match s with
  | EmptyString => Some []
  | String a (String b EmptyString) =>
      match digit_of a, digit_of b with
      | Some x, Some y => if y mod 16 =? 0 then Some [x * 4 + y / 16] else None
      | _, _ => None
      end
  | String a (String b (String c EmptyString)) =>
      match digit_of a, digit_of b, digit_of c with
      | Some x, Some y, Some z =>
          if z mod 4 =? 0 then Some [x * 4 + y / 16; y mod 16 * 16 + z / 4] else None
      | _, _, _ => None
      end
  | String a (String b (String c (String d s'))) =>
      match digit_of a, digit_of b, digit_of c, digit_of d, DecodeString s' with
      | Some x, Some y, Some z, Some w, Some l =>
          Some (x * 4 + y / 16 :: y mod 16 * 16 + z / 4 :: z mod 4 * 64 + w :: l)
      | _, _, _, _, _ => None
      end
  | String _ EmptyString => None
  end.

(** [RawStdEncoding.EncodedLen(n)] *)
Definition EncodedLen (n : Z) : Z := n / 3 * 4 + (n mod 3 * 8 + 5) / 6.

(** ** Round trip *)

Lemma digit_range (P : Z -> bool) :
  forallb P (map Z.of_nat (seq 0 64)) = true -> forall d, 0 <= d < 64 -> P d = true.
Proof.
  intros H d Hd. rewrite forallb_forall in H. apply H. apply in_map_iff. exists (Z.to_nat d).
  split; [lia|]. apply in_seq. lia.
Qed.

Lemma digit_of_char d : 0 <= d < 64 -> digit_of (char_of d) = Some d.
Proof.
  intros Hd. apply (digit_range (fun d => match digit_of (char_of d) with
                                          | Some e => e =? d | None => false end)) in Hd;
    [|reflexivity].
  destruct (digit_of (char_of d)); [|done]. by breflect; subst.
Qed.

(** Characters of the alphabet, as the code tests them. *)
Definition is_char (a : ascii) : bool := is_some (digit_of a).

Lemma is_char_of d : 0 <= d < 64 -> is_char (char_of d) = true.
Proof. intros Hd. unfold is_char. by rewrite digit_of_char. Qed.

(** Induction three bytes at a time. *)
Lemma list_ind3 {A} (P : list A -> Prop) :
  P [] -> (forall a, P [a]) -> (forall a b, P [a; b]) ->
  (forall a b c l, P l -> P (a :: b :: c :: l)) -> forall l, P l.
Proof.
  intros H0 H1 H2 H3. fix IH 1. intros [|a [|b [|c l]]]; [exact H0|apply H1|apply H2|apply H3, IH].
Qed.

Ltac digit_bounds :=
  unfold bytes in *;
  repeat match goal with H : Forall _ (_ :: _) |- _ => apply Forall_cons in H as [? H] end;
  cbn beta in *;
  repeat match goal with
  | H : 0 <= ?a < 256 |- _ =>
      lazymatch goal with
      | _ : a = 4 * (a / 4) + a mod 4 |- _ => fail
      | _ => pose proof (Z.div_mod a 4 ltac:(lia)); pose proof (Z.mod_pos_bound a 4 ltac:(lia));
             pose proof (Z.div_mod a 16 ltac:(lia)); pose proof (Z.mod_pos_bound a 16 ltac:(lia));
             pose proof (Z.div_mod a 64 ltac:(lia)); pose proof (Z.mod_pos_bound a 64 ltac:(lia))
      end
  end.

(** [x * k + y], with [0 <= y < k], as a quotient and a remainder. *)
Lemma pair_div k x y : 0 <= y < k -> (x * k + y) / k = x.
Proof. intros H. rewrite Z.div_add_l by lia. rewrite Z.div_small by lia. lia. Qed.
Lemma pair_mod k x y : 0 <= y < k -> (x * k + y) mod k = y.
Proof. intros H. rewrite Z.add_comm, Z.mod_add by lia. by apply Z.mod_small. Qed.

Lemma decode_encode l : bytes l -> DecodeString (EncodeToString l) = Some l.
Proof.
  induction l as [|a|a b|a b c l IH] using list_ind3; intros Hb; [done|..];
    digit_bounds; cbn [EncodeToString DecodeString].
  - rewrite !digit_of_char by lia. rewrite Z.mod_mul, Z.div_mul by lia. cbn. do 2 f_equal. lia.
  - rewrite !digit_of_char by lia. rewrite Z.mod_mul by lia. cbn.
    rewrite pair_div, pair_mod, Z.div_mul by lia. do 2 f_equal; [lia|f_equal; lia].
  - rewrite !digit_of_char by lia. rewrite IH by done.
    rewrite !pair_div, !pair_mod by lia. do 2 f_equal; [lia|]. do 2 f_equal; lia.
Qed.

Lemma length_encode l : len (EncodeToString l) = EncodedLen (Z.of_nat (List.length l)).
Proof.
  unfold len, EncodedLen. induction l as [|a|a b|a b c l IH] using list_ind3; [done|done|done|].
  cbn [EncodeToString String.length List.length].
  replace (Z.of_nat (S (S (S (List.length l))))) with (1 * 3 + Z.of_nat (List.length l)) by lia.
  rewrite Z.div_add_l, Z.add_comm with (n := 1 * 3), Z.mod_add by lia. lia.
Qed.

Lemma encode_chars l : bytes l -> string_forallb is_char (EncodeToString l) = true.
Proof.
  induction l as [|a|a b|a b c l IH] using list_ind3; intros Hb; [done|..];
    digit_bounds; cbn [EncodeToString string_forallb];
    rewrite !is_char_of by lia; cbn; auto.
Qed.

(** What the strict decoder accepts is a byte string of the expected length. *)
Lemma digit_of_range a d : digit_of a = Some d -> 0 <= d < 64.
Proof.
  unfold digit_of. assert (H : forall s i, index_of a s i = Some d -> i <= d < i + len s).
  { unfold len. induction s as [|b s IH]; [done|]. intros i. cbn [index_of String.length].
    destruct (Ascii.eqb a b); [intros [= <-]; lia|]. intros Hd%IH. lia. }
  intros Hd%H. exact Hd.
Qed.

End Base64.
