(* ===== verification/PasswordHash.v ===== *)
(** internal/infra/auth, the password adapter: the encoded argon2id hash and its
    parser, hashing and verification, and the slots that bound how many
    derivations run at once.  The key derivation itself (golang.org/x/crypto)
    and the random source are parameters. *)
From S2P Require Export Domain Base64.
From Stdlib Require Import Ascii.

(** [argon2.IDKey(password, salt, time, memory, threads, keyLen)] *)
Class Argon2 := argon2_IDKey : list Z -> list Z -> Z -> Z -> Z -> Z -> list Z.

(** A key of the length asked for. *)
Class Argon2Laws `{Argon2} : Prop :=
  argon2_key password salt time memory threads keyLen :
    0 <= keyLen ->
    bytes (argon2_IDKey password salt time memory threads keyLen)
    /\ Z.of_nat (List.length (argon2_IDKey password salt time memory threads keyLen)) = keyLen.

(** What [ctx.Err] and [context.Cause] answer at one moment; [None] is a nil
    context. *)
Record contextState := { ctx_Err : option err; ctx_Cause : option err }.

(** The caller's context, the random source, and the channel of slots:
    [select_slot] is the [select] between sending to the channel (true) and
    the context's end (false). *)
Class PasswordPorts (S : Type) := {
  ctx_state : M S (option contextState);
  readSalt : Z -> M S (list Z);
  select_slot : M S bool;
  receive_slot : M S unit;
}.

Module PasswordHash.

Definition argonAlgorithm : string := "argon2id".
Definition argonVersion : Z := 19.
Definition maxEncodedPasswordHashLength : Z := 128.
Definition argonTime : Z := 3.
Definition argonMemory : Z := 64 * 1024.
Definition argonThreads : Z := 4.
Definition argonKeyLen : Z := 32.
Definition saltLen : Z := 32.

(** * The stored form (password_hash.go) *)

Record parsedArgon2idHash := {
  pa_memory : Z; pa_time : Z; pa_threads : Z; pa_salt : list Z; pa_derivedKey : list Z;
}.

Definition invalidStoredPasswordHash (reason : string) : err :=
  EWrap reason [ESentinel ErrInvalidStoredPasswordHash].
Definition invalid {A} (reason : string) : res A := Err (invalidStoredPasswordHash reason).

Definition isRawBase64Character (a : ascii) : bool :=
  between 65 (byte_of a) 90 || between 97 (byte_of a) 122 || between 48 (byte_of a) 57
  || (byte_of a =? 43) || (byte_of a =? 47).

Definition parseNamedUint (field name : string) (bitSize : Z) : res Z :=
  let prefix := name +:+ "=" in
  if negb (HasPrefix field prefix) || (len field =? len prefix)
  then invalid "numeric field is malformed"
  else
    let raw := drop_bytes (String.length prefix) field in
    if negb (all_digits raw) then invalid "numeric field is malformed"
    else match ParseUint raw bitSize with
         | Err _ => invalid "numeric field is out of range"
         | Ok value => Ok value
         end.

(** The values of the parameters seen so far. *)
Record parameters := { p_memory : option Z; p_time : option Z; p_threads : option Z }.
Definition no_parameters : parameters := {| p_memory := None; p_time := None; p_threads := None |}.

(** [value, err := parseNamedUint(...); if err != nil || value < min || value > max] *)
Definition parse_bounded (field name : string) (bitSize minimum maximum : Z) (reason : string) : res Z :=
  match parseNamedUint field name bitSize with
  | Err _ => invalid reason
  | Ok value => if (value <? minimum) || (value >? maximum) then invalid reason else Ok value
  end.

(** One iteration of the loop over the parameters. *)
Definition parse_parameter (p : parameters) (field : string) : res parameters :=
  match cut_before "="%char field with
  | None => invalid "parameter is malformed"
  | Some name =>
      if name =s "m" then
        match p_memory p with
        | Some _ => invalid "memory parameter is duplicated"
        | None =>
            letr value := parse_bounded field "m" 32 argonMemory argonMemory "memory cost is unsupported" in
            Ok {| p_memory := Some (uint32 value); p_time := p_time p; p_threads := p_threads p |}
        end
      else if name =s "t" then
        match p_time p with
        | Some _ => invalid "time parameter is duplicated"
        | None =>
            letr value := parse_bounded field "t" 32 argonTime argonTime "time cost is unsupported" in
            Ok {| p_memory := p_memory p; p_time := Some (uint32 value); p_threads := p_threads p |}
        end
      else if name =s "p" then
        match p_threads p with
        | Some _ => invalid "parallelism parameter is duplicated"
        | None =>
            letr value := parse_bounded field "p" 8 argonThreads argonThreads "parallelism is unsupported" in
            Ok {| p_memory := p_memory p; p_time := p_time p; p_threads := Some (uint8 value) |}
        end
      else invalid "parameter is unknown"
  end.

Fixpoint parse_parameters (p : parameters) (fields : list string) : res parameters :=
  match fields with
  | [] => Ok p
  | field :: fields' => letr p' := parse_parameter p field in parse_parameters p' fields'
  end.

Definition parseArgon2idParameters (encoded : string) : res (Z * Z * Z) :=
  let fields := split_on ","%char encoded in
  if negb (Nat.eqb (List.length fields) 3) then invalid "parameter set is incomplete"
  else
    letr p := parse_parameters no_parameters fields in
    match p_memory p, p_time p, p_threads p with
    | Some memory, Some timeCost, Some threads => Ok (memory, timeCost, threads)
    | _, _, _ => invalid "parameter set is incomplete"
    end.

Definition decodeFixedRawBase64 (encoded : string) (minimumLength maximumLength : Z) (field : string)
    : res (list Z) :=
  if (len encoded <? Base64.EncodedLen minimumLength) || (len encoded >? Base64.EncodedLen maximumLength)
  then invalid (field +:+ " length is unsupported")
  else if negb (string_forallb isRawBase64Character encoded)
  then invalid (field +:+ " encoding is invalid")
  else match Base64.DecodeString encoded with
       | None => invalid (field +:+ " encoding is invalid")
       | Some decoded =>
           let n := Z.of_nat (List.length decoded) in
           if (n <? minimumLength) || (n >? maximumLength)
           then invalid (field +:+ " length is unsupported")
           else Ok decoded
       end.

Definition parseArgon2idHash (encoded : string) : res parsedArgon2idHash :=
  if len encoded =? 0 then invalid "encoded value is empty"
  else if len encoded >? maxEncodedPasswordHashLength
  then invalid "encoded value exceeds the supported length"
  else
    match split_on "$"%char encoded with
    | [part0; part1; part2; part3; part4; part5] =>
        if part0 <>s "" then invalid "encoded structure is invalid"
        else if part1 <>s argonAlgorithm then invalid "algorithm is unsupported"
        else
          let version_ok := match parseNamedUint part2 "v" 32 with
                            | Ok version => version =? argonVersion
                            | Err _ => false
                            end in
          if negb version_ok then invalid "version is unsupported"
          else
            letr parameters := parseArgon2idParameters part3 in
            let '(memory, timeCost, threads) := parameters in
            letr salt := decodeFixedRawBase64 part4 saltLen saltLen "salt" in
            letr derivedKey := decodeFixedRawBase64 part5 argonKeyLen argonKeyLen "derived key" in
            Ok {| pa_memory := memory; pa_time := timeCost; pa_threads := threads;
                  pa_salt := salt; pa_derivedKey := derivedKey |}
    | _ => invalid "encoded structure is invalid"
    end.

(** The [Sprintf] of [Hash]. *)
Definition encode_hash (salt hash : list Z) : string :=
  "$" +:+ (argonAlgorithm +:+ ("$v=" +:+ (itoa argonVersion +:+ ("$m=" +:+ (itoa argonMemory
  +:+ (",t=" +:+ (itoa argonTime +:+ (",p=" +:+ (itoa argonThreads +:+ ("$"
  +:+ (Base64.EncodeToString salt +:+ ("$" +:+ Base64.EncodeToString hash)))))))))))).

(** * The service (password_service_impl.go) *)

Record PasswordHasherConfig := { cfg_Pepper : string; cfg_MaxConcurrency : Z }.
Definition maximumPasswordHashConcurrency : Z := 4.

(** The pepper and the capacity of the channel. *)
Record PasswordService := { pepper : string; capacity : Z }.

Definition newPasswordService (cfg : PasswordHasherConfig) : res PasswordService :=
  if is_blank (cfg_Pepper cfg) then Err (ENew "password hasher pepper is required")
  else if cfg_MaxConcurrency cfg <=? 0
  then Err (ENew "password hasher max concurrency must be positive")
  else if cfg_MaxConcurrency cfg >? maximumPasswordHashConcurrency
  then Err (ENew "password hasher max concurrency must not exceed 4")
  else Ok {| pepper := cfg_Pepper cfg; capacity := cfg_MaxConcurrency cfg |}.

Section Service.
Context {S : Type} `{PasswordPorts S} `{Argon2} `{Unicode}.
Context (service : PasswordService).

Definition callerContextError : M S unit :=
  let! ctx := ctx_state in
  match ctx with
  | None => fail ErrPasswordHashingContextRequired
  | Some st =>
      match ctx_Err st, ctx_Cause st with
      | None, _ => ret tt
      | Some ctxErr, None => fail ctxErr
      | Some ctxErr, Some cause =>
          let same := match cause with ESentinel c => errors_is ctxErr c | _ => false end in
          if same then fail ctxErr else fail (EJoin [ctxErr; cause])
      end
  end.

Definition release : M S unit := receive_slot.

Definition acquire : M S unit :=
  do! callerContextError in
  let! sent := select_slot in
  if sent then
    let! checked := attempt callerContextError in
    match checked with
    | Err e => do! release in fail e
    | Ok _ => ret tt
    end
  else callerContextError.

(** [defer cleanup()] before [body]. *)
Definition deferred {A} (cleanup : M S unit) (body : M S A) : M S A :=
  fun s => let '(r, s1) := body s in (r, (cleanup s1).2).

(** [append(password.Bytes(), []byte(s.pepper)...)] *)
Definition derive_input (password : Password.PlainPassword) : list Z :=
  bytes_of (Password.Bytes password) ++ bytes_of (pepper service).

Definition Hash (password : Password.PlainPassword) : M S Password.PasswordDigest :=
  do! callerContextError in
  do! of_res (Password.Validate password) in
  do! acquire in
  deferred release
    (let! salt := map_err (fun _ => ESentinel ErrPasswordHashingFailed) (readSalt saltLen) in
     do! callerContextError in
     let hash := argon2_IDKey (derive_input password) salt argonTime argonMemory argonThreads argonKeyLen in
     of_res (res_map_err (wrap1 "construct generated password digest")
               (Password.NewPasswordDigest (encode_hash salt hash)))).

(** [subtle.ConstantTimeCompare(x, y) == 1]: equal contents, whatever the
    lengths. *)
Definition ConstantTimeCompare (x y : list Z) : bool := bool_decide (x = y).

Definition Verify (password : Password.PlainPassword) (digest : Password.PasswordDigest) : M S bool :=
  do! callerContextError in
  do! of_res (Password.Validate password) in
  let! parsed := of_res (parseArgon2idHash (Password.Encoded digest)) in
  do! acquire in
  deferred release
    (do! callerContextError in
     let hash := argon2_IDKey (derive_input password) (pa_salt parsed) (pa_time parsed)
                   (pa_memory parsed) (pa_threads parsed)
                   (uint32 (Z.of_nat (List.length (pa_derivedKey parsed)))) in
     ret (ConstantTimeCompare hash (pa_derivedKey parsed))).

#[global] Instance argon2_hasher : PasswordHasher S := {| ph_Hash := Hash; ph_Verify := Verify |}.

End Service.
(** * The stored form, proved *)

Lemma isRawBase64Character_is_char a : isRawBase64Character a = Base64.is_char a.
Proof. by destruct a as [[] [] [] [] [] [] [] []]. Qed.

Lemma string_forallb_ext p q s : (forall a, p a = q a) -> string_forallb p s = string_forallb q s.
Proof. intros H. induction s as [|a s IH]; [done|]. cbn. by rewrite H, IH. Qed.

Lemma string_forallb_impl (p q : ascii -> bool) s :
  (forall a, p a = true -> q a = true) -> string_forallb p s = true -> string_forallb q s = true.
Proof.
  intros H. induction s as [|a s IH]; [done|]. cbn. intros [Ha Hs]%andb_true_iff.
  by rewrite (H a Ha), IH.
Qed.

Definition free_of (sep : ascii) (s : string) : Prop :=
  string_forallb (fun a => negb (Ascii.eqb a sep)) s = true.

Lemma split_on_last sep s : free_of sep s -> split_on sep s = [s].
Proof.
  unfold free_of. induction s as [|a s IH]; [done|]. cbn. intros [Ha Hs]%andb_true_iff.
  apply negb_true_iff in Ha. by rewrite Ha, (IH Hs).
Qed.

Lemma split_on_first sep s t :
  free_of sep s -> split_on sep (s +:+ String sep t) = s :: split_on sep t.
Proof.
  unfold free_of. induction s as [|a s IH].
  - intros _. change ("" +:+ String sep t) with (String sep t). cbn. by rewrite Ascii.eqb_refl.
  - cbn [string_forallb]. intros [Ha Hs]%andb_true_iff. apply negb_true_iff in Ha.
    change (String a s +:+ String sep t) with (String a (s +:+ String sep t)). cbn.
    by rewrite Ha, (IH Hs).
Qed.

Lemma encode_free l : bytes l -> free_of "$" (Base64.EncodeToString l).
Proof.
  intros Hl%Base64.encode_chars. eapply string_forallb_impl; [|exact Hl].
  intros a Ha. by destruct a as [[] [] [] [] [] [] [] []].
Qed.

Lemma encode_hash_split salt hash :
  bytes salt -> bytes hash ->
  split_on "$" (encode_hash salt hash)
  = [""; argonAlgorithm; "v=19"; "m=65536,t=3,p=4"; Base64.EncodeToString salt;
     Base64.EncodeToString hash].
Proof.
  intros Hs Hh.
  change (encode_hash salt hash) with
    ("" +:+ String "$" ("argon2id" +:+ String "$" ("v=19" +:+ String "$" ("m=65536,t=3,p=4"
       +:+ String "$" (Base64.EncodeToString salt +:+ String "$" (Base64.EncodeToString hash)))))).
  rewrite 5 split_on_first; try done; [|by apply encode_free].
  by rewrite split_on_last by (by apply encode_free).
Qed.

Lemma len_append a b : len (a +:+ b) = len a + len b.
Proof.
  unfold len. induction a as [|x a IH]; [done|].
  change (String x a +:+ b) with (String x (a +:+ b)). cbn [String.length]. lia.
Qed.

Lemma decode_fixed l n field :
  bytes l -> Z.of_nat (List.length l) = n ->
  decodeFixedRawBase64 (Base64.EncodeToString l) n n field = Ok l.
Proof.
  intros Hl Hn. unfold decodeFixedRawBase64. rewrite Base64.length_encode, Hn.
  rewrite Z.ltb_irrefl, Z.gtb_ltb, Z.ltb_irrefl. cbn [orb].
  rewrite (string_forallb_ext _ Base64.is_char) by apply isRawBase64Character_is_char.
  rewrite Base64.encode_chars, Base64.decode_encode by done. cbn [negb].
  rewrite Hn, Z.ltb_irrefl, Z.gtb_ltb, Z.ltb_irrefl. done.
Qed.

Definition parsed_of (salt hash : list Z) : parsedArgon2idHash :=
  {| pa_memory := argonMemory; pa_time := argonTime; pa_threads := argonThreads;
     pa_salt := salt; pa_derivedKey := hash |}.

Lemma parse_encode salt hash :
  bytes salt -> bytes hash ->
  Z.of_nat (List.length salt) = saltLen -> Z.of_nat (List.length hash) = argonKeyLen ->
  parseArgon2idHash (encode_hash salt hash) = Ok (parsed_of salt hash).
Proof.
  intros Hs Hh Hsl Hhl. unfold parseArgon2idHash. rewrite encode_hash_split by done.
  assert (Hlen : len (encode_hash salt hash) = 118).
  { change (encode_hash salt hash) with
      ("$argon2id$v=19$m=65536,t=3,p=4$" +:+ (Base64.EncodeToString salt +:+ ("$" +:+ Base64.EncodeToString hash))).
    rewrite !len_append, !Base64.length_encode, Hsl, Hhl. reflexivity. }
  rewrite Hlen. cbn [Z.eqb Z.gtb Z.compare].
  change (118 >? maxEncodedPasswordHashLength) with false. cbn iota.
  change (parseArgon2idParameters "m=65536,t=3,p=4") with
    (Ok (argonMemory, argonTime, argonThreads) : res (Z * Z * Z)).
  cbn [res_bind]. rewrite !decode_fixed by done. reflexivity.
Qed.

(** C29. A generated password hash is read back as it was: parsing the stored
    form of any 32-byte salt and 32-byte key gives the salt, the key and the
    parameters it was made with. *)
Theorem stored_hash_roundtrip (salt hash : list Z) :
  bytes salt -> bytes hash ->
  Z.of_nat (List.length salt) = saltLen -> Z.of_nat (List.length hash) = argonKeyLen ->
  parseArgon2idHash (encode_hash salt hash) = Ok (parsed_of salt hash).
Proof. apply parse_encode. Qed.

Lemma decode_fixed_Ok encoded n field l :
  decodeFixedRawBase64 encoded n n field = Ok l -> Z.of_nat (List.length l) = n.
Proof.
  unfold decodeFixedRawBase64. repeat case_goal; try discriminate. intros [= <-].
  breflect. lia.
Qed.

Lemma parse_bounded_Ok field name bits n reason v :
  parse_bounded field name bits n n reason = Ok v -> v = n.
Proof. unfold parse_bounded. repeat case_goal; try discriminate. intros [= <-]. breflect. lia. Qed.

(** The parameters seen are the supported ones. *)
Definition supported (p : parameters) : Prop :=
  (forall m, p_memory p = Some m -> m = argonMemory)
  /\ (forall t, p_time p = Some t -> t = argonTime)
  /\ (forall n, p_threads p = Some n -> n = argonThreads).

Lemma parse_parameter_supported p field p' :
  supported p -> parse_parameter p field = Ok p' -> supported p'.
Proof.
  intros (Hm & Ht & Hp). unfold parse_parameter. repeat case_goal; try discriminate; intros Hr; inv_ok;
    match goal with H : parse_bounded _ _ _ _ _ _ = Ok _ |- _ => apply parse_bounded_Ok in H; subst end;
    repeat split; cbn; intros x Hx; auto; by injection Hx as <-.
Qed.

Lemma parse_parameters_supported fields p p' :
  supported p -> parse_parameters p fields = Ok p' -> supported p'.
Proof.
  revert p. induction fields as [|f fields IH]; intros p Hp Hr; cbn in Hr; inv_ok; [done|].
  eapply IH; [|done]. by eapply parse_parameter_supported.
Qed.

(** Every failure to parse is one of an invalid stored hash. *)
Definition invalid_err {A} (r : res A) : Prop :=
  forall e, r = Err e -> errors_is e ErrInvalidStoredPasswordHash = true.

Lemma invalid_err_ok {A} (a : A) : invalid_err (Ok a).
Proof. intros e [=]. Qed.
Lemma invalid_err_invalid {A} reason : invalid_err (invalid reason : res A).
Proof. by intros e [= <-]. Qed.
Lemma invalid_err_bind {A B} (r : res A) (f : A -> res B) :
  invalid_err r -> (forall a, invalid_err (f a)) -> invalid_err (res_bind r f).
Proof. intros Hr Hf e. destruct r as [a|e']; cbn; [apply Hf|]. intros [= <-]. by apply Hr. Qed.

Ltac invalid_walk :=
  repeat match goal with
  | |- invalid_err (Ok _) => apply invalid_err_ok
  | |- invalid_err (invalid _) => apply invalid_err_invalid
  | |- invalid_err (res_bind _ _) => apply invalid_err_bind; [|intros]
  | |- invalid_err (parse_bounded _ _ _ _ _ _) => unfold parse_bounded
  | |- invalid_err (decodeFixedRawBase64 _ _ _ _) => unfold decodeFixedRawBase64
  | |- invalid_err (if ?b then _ else _) => destruct b
  | |- invalid_err (match ?x with _ => _ end) => destruct x
  | |- invalid_err (let _ := _ in _) => cbv zeta
  end.

Lemma parse_parameters_invalid fields p : invalid_err (parse_parameters p fields).
Proof.
  revert p. induction fields as [|f fields IH]; intros p; cbn; [apply invalid_err_ok|].
  apply invalid_err_bind; [|intros; apply IH]. unfold parse_parameter. invalid_walk.
Qed.

Lemma parse_error_invalid encoded : invalid_err (parseArgon2idHash encoded).
Proof.
  unfold parseArgon2idHash, parseArgon2idParameters. invalid_walk. apply parse_parameters_invalid.
Qed.

(** No stored hash makes the server do more work than a generated one: a
    hash that parses has the version, memory, time and parallelism costs the
    service uses, a salt and a key of its lengths, and at most 128
    characters; everything else is refused before any derivation, as an
    invalid stored hash. *)
Theorem stored_hash_bounds (encoded : string) :
  match parseArgon2idHash encoded with
  | Ok p => pa_memory p = argonMemory /\ pa_time p = argonTime /\ pa_threads p = argonThreads
            /\ Z.of_nat (List.length (pa_salt p)) = saltLen
            /\ Z.of_nat (List.length (pa_derivedKey p)) = argonKeyLen
            /\ len encoded <= 128
  | Err e => errors_is e ErrInvalidStoredPasswordHash = true
  end.
Proof.
  destruct (parseArgon2idHash encoded) as [p|e] eqn:Hp.
  - unfold parseArgon2idHash in Hp. destruct (len encoded =? 0); [discriminate|].
    destruct (len encoded >? _) eqn:El; [discriminate|].
    destruct (split_on _ encoded) as [|p0 [|p1 [|p2 [|p3 [|p4 [|p5 [|]]]]]]]; try discriminate.
    destruct (p0 <>s ""); [discriminate|]. destruct (p1 <>s _); [discriminate|].
    cbn zeta in Hp. destruct (negb _) in Hp; [discriminate|].
    apply res_bind_Ok_inv in Hp as ([[m t] n] & Hpar & Hp).
    apply res_bind_Ok_inv in Hp as (salt & Hsalt%decode_fixed_Ok & Hp).
    apply res_bind_Ok_inv in Hp as (key & Hkey%decode_fixed_Ok & Hp). injection Hp as <-. cbn.
    unfold parseArgon2idParameters in Hpar. destruct (negb _) in Hpar; [discriminate|].
    apply res_bind_Ok_inv in Hpar as (ps & Hps & Hpar).
    apply parse_parameters_supported in Hps as (Hm & Ht & Hn); [|by repeat split].
    repeat case_hyp Hpar; try discriminate. injection Hpar as <- <- <-.
    breflect. unfold maxEncodedPasswordHashLength in *. repeat split; auto; lia.
  - by eapply parse_error_invalid.
Qed.

(** * The service, proved *)

(** What the code relies on of the random source, of a context and of the
    channel: [held] is the number of slots the caller holds.  A [select] that
    saw the context's end leaves a context whose error is set. *)
Class PasswordPortsLaws (S : Type) `{PasswordPorts S} := {
  held : S -> Z;
  ctx_state_law s : exists st, (ctx_state s).1 = Ok st /\ held (ctx_state s).2 = held s;
  readSalt_law n s : held (readSalt n s).2 = held s
    /\ forall salt, 0 <= n -> (readSalt n s).1 = Ok salt -> bytes salt /\ Z.of_nat (List.length salt) = n;
  select_slot_law s :
    ((select_slot s).1 = Ok true /\ held (select_slot s).2 = held s + 1)
    \/ ((select_slot s).1 = Ok false /\ held (select_slot s).2 = held s
        /\ exists st e, (ctx_state (select_slot s).2).1 = Ok (Some st) /\ ctx_Err st = Some e);
  receive_slot_law s : held (receive_slot s).2 = held s - 1;
}.

Section ServiceLaws.
Context {S : Type} `{PasswordPortsLaws S} `{Argon2Laws} `{Unicode}.
Context (service : PasswordService).

(** A call that changes the number of slots held by [d]. *)
Definition takes {A} (d : Z) (c : M S A) : Prop := forall s, held (c s).2 = held s + d.

Lemma takes_ret {A} (a : A) : takes 0 (ret a).
Proof. intros s. cbn. lia. Qed.
Lemma takes_fail {A} e : takes 0 (fail e : M S A).
Proof. intros s. cbn. lia. Qed.
Lemma takes_of_res {A} (r : res A) : takes 0 (of_res r : M S A).
Proof. intros s. cbn. lia. Qed.
Lemma takes_bind {A B} (c : M S A) (f : A -> M S B) :
  takes 0 c -> (forall a, takes 0 (f a)) -> takes 0 (bind c f).
Proof.
  intros Hc Hf s. unfold bind. specialize (Hc s). destruct (c s) as [[a|e] s']; cbn in *; [|done].
  rewrite Hf. lia.
Qed.
Lemma takes_map_err {A} f (c : M S A) : takes 0 c -> takes 0 (map_err f c).
Proof. intros Hc s. specialize (Hc s). unfold map_err. by destruct (c s). Qed.
Lemma takes_ctx_state : takes 0 ctx_state.
Proof. intros s. destruct (ctx_state_law s) as (st & _ & ->). lia. Qed.
Lemma takes_readSalt n : takes 0 (readSalt n).
Proof. intros s. destruct (readSalt_law n s) as [-> _]. lia. Qed.

Ltac takes_walk :=
  repeat match goal with
  | |- takes 0 (ret _) => apply takes_ret
  | |- takes 0 (fail _) => apply takes_fail
  | |- takes 0 (of_res _) => apply takes_of_res
  | |- takes 0 (bind _ _) => apply takes_bind; [|intros]
  | |- takes 0 (map_err _ _) => apply takes_map_err
  | |- takes 0 ctx_state => apply takes_ctx_state
  | |- takes 0 (readSalt _) => apply takes_readSalt
  | |- takes 0 (match ?x with _ => _ end) => destruct x
  | |- takes 0 (let _ := _ in _) => cbv zeta
  end.

Lemma callerContextError_takes : takes 0 callerContextError.
Proof. unfold callerContextError. takes_walk. Qed.

(** A slot is held after [acquire] exactly when it succeeded. *)
Lemma acquire_held s :
  held (acquire s).2 = held s + match (acquire s).1 with Ok _ => 1 | Err _ => 0 end.
Proof.
  destruct (acquire s) as [r s'] eqn:Ha. cbn [fst snd]. revert Ha. unfold acquire, bind at 1.
  pose proof (callerContextError_takes s) as Hc.
  destruct (callerContextError s) as [[[]|e] s1]; cbn [snd] in Hc; [|intros [= <- <-]; lia].
  unfold bind at 1. pose proof (select_slot_law s1) as Hsel.
  destruct (select_slot s1) as [x s2]. cbn [fst snd] in Hsel.
  pose proof (callerContextError_takes s2) as Hc2.
  destruct Hsel as [[-> Hh]|(-> & Hh & st & e & Hst & He)].
  - unfold bind at 1, attempt.
    destruct (callerContextError s2) as [[[]|e] s3]; cbn [snd] in Hc2; [intros [= <- <-]; lia|].
    unfold bind, release. pose proof (receive_slot_law s3) as Hr.
    destruct (receive_slot s3) as [[] s4]; cbn [snd] in Hr; intros [= <- <-]; lia.
  - assert (Herr : exists e', (callerContextError s2).1 = Err e').
    { unfold callerContextError, bind. destruct (ctx_state s2) as [y s3]. cbn in Hst. subst y.
      rewrite He. repeat case_goal; cbn; eauto. }
    destruct Herr as [e' Herr]. intros Hr. rewrite Hr in Herr, Hc2. cbn in Herr, Hc2. subst r. lia.
Qed.

Lemma deferred_release {A} (body : M S A) : takes 0 body -> takes (-1) (deferred release body).
Proof.
  intros Hb s. unfold deferred, release. specialize (Hb s). destruct (body s) as [r s1]. cbn in *.
  rewrite receive_slot_law. lia.
Qed.

Lemma acquire_then {A} (body : M S A) : takes 0 body -> takes 0 (do! acquire in deferred release body).
Proof.
  intros Hb s. unfold bind. pose proof (acquire_held s) as Ha.
  destruct (acquire s) as [[[]|e] s1]; cbn [fst snd] in *; [|lia].
  rewrite (deferred_release body Hb s1). lia.
Qed.

(** C30. No slot leaks: whatever a hashing or a verification answers (a
    cancelled context at any point, a failing random source, an invalid
    stored hash), it leaves exactly the slots that were held before, so the
    capacity for derivations is never used up by failed calls. *)
Theorem slots_balanced (password : Password.PlainPassword) (digest : Password.PasswordDigest) (s : S) :
  held (Hash service password s).2 = held s /\ held (Verify service password digest s).2 = held s.
Proof.
  assert (Hh : takes 0 (Hash service password)).
  { unfold Hash. apply takes_bind; [apply callerContextError_takes|intros].
    apply takes_bind; [apply takes_of_res|intros]. apply acquire_then. takes_walk.
    apply callerContextError_takes. }
  assert (Hv : takes 0 (Verify service password digest)).
  { unfold Verify. apply takes_bind; [apply callerContextError_takes|intros].
    apply takes_bind; [apply takes_of_res|intros]. apply takes_bind; [apply takes_of_res|intros].
    apply acquire_then. takes_walk. apply callerContextError_takes. }
  rewrite Hh, Hv. lia.
Qed.

Lemma deferred_Ok_inv {A} (cleanup : M S unit) (body : M S A) s a s' :
  deferred cleanup body s = (Ok a, s') -> exists s1, body s = (Ok a, s1).
Proof. unfold deferred. destruct (body s) as [r s1]. intros [= -> _]. eauto. Qed.

Lemma Hash_Ok password s d s' :
  Hash service password s = (Ok d, s') ->
  exists salt, bytes salt /\ Z.of_nat (List.length salt) = saltLen
    /\ Password.Encoded d = encode_hash salt
         (argon2_IDKey (derive_input service password) salt argonTime argonMemory argonThreads argonKeyLen).
Proof.
  unfold Hash. intros (u & s1 & _ & Hr)%bind_Ok_inv.
  apply bind_Ok_inv in Hr as (u1 & s2 & _ & Hr). apply bind_Ok_inv in Hr as (u2 & s3 & _ & Hr).
  apply deferred_Ok_inv in Hr as (s4 & Hr). apply bind_Ok_inv in Hr as (salt & s5 & Hs & Hr).
  apply map_err_Ok_inv in Hs. apply bind_Ok_inv in Hr as (u3 & s6 & _ & Hr).
  destruct (readSalt_law saltLen s3) as [_ Hsalt]. rewrite Hs in Hsalt.
  destruct (Hsalt salt ltac:(done) eq_refl) as [Hb Hl]. exists salt. split; [done|]. split; [done|].
  unfold of_res, Password.NewPasswordDigest in Hr. destruct (_ =s ""); [discriminate|].
  by injection Hr as <- _.
Qed.

Lemma Hash_validated password s d s' :
  Hash service password s = (Ok d, s') -> Password.Validate password = Ok tt.
Proof.
  unfold Hash. intros (u & s1 & _ & Hr)%bind_Ok_inv. apply bind_Ok_inv in Hr as ([] & s2 & Hv & _).
  by injection Hv as ->.
Qed.

(** What a verification computes from a generated digest. *)
Lemma Verify_generated pw salt key s b s' d :
  bytes salt -> bytes key ->
  Z.of_nat (List.length salt) = saltLen -> Z.of_nat (List.length key) = argonKeyLen ->
  Password.Encoded d = encode_hash salt key ->
  Verify service pw d s = (Ok b, s') ->
  b = bool_decide (argon2_IDKey (derive_input service pw) salt argonTime argonMemory argonThreads
                     argonKeyLen = key).
Proof.
  intros Hs Hk Hsl Hkl Hd. unfold Verify. rewrite Hd, parse_encode by done.
  intros (u & s1 & _ & Hr)%bind_Ok_inv. apply bind_Ok_inv in Hr as (u1 & s2 & _ & Hr).
  apply bind_Ok_inv in Hr as (parsed & s3 & [= <- <-] & Hr).
  apply bind_Ok_inv in Hr as (u2 & s4 & _ & Hr). apply deferred_Ok_inv in Hr as (s5 & Hr).
  apply bind_Ok_inv in Hr as (u3 & s6 & _ & Hr). cbv zeta in Hr. cbn in Hr.
  rewrite Hkl in Hr. by injection Hr as <- _.
Qed.

(** The context lives and a slot is always given; then a verification answers. *)
Definition lively : Prop :=
  (forall st, exists c, (ctx_state st).1 = Ok (Some c) /\ ctx_Err c = None)
  /\ forall st, (select_slot st).1 = Ok true.

Lemma verify_answers pw d s :
  lively ->
  Password.Validate pw = Ok tt -> is_ok (parseArgon2idHash (Password.Encoded d)) = true ->
  exists b s', Verify service pw d s = (Ok b, s').
Proof.
  intros [Hctx Hslot] Hpw Hparse.
  assert (Hcc : forall st, exists st', callerContextError st = (Ok tt, st')).
  { intros st. unfold callerContextError, bind. destruct (Hctx st) as (c & Hc & He).
    destruct (ctx_state st) as [x st']. cbn in Hc. subst x. rewrite He. eauto. }
  unfold Verify, acquire, bind, attempt, deferred. destruct (Hcc s) as [s1 ->]. rewrite Hpw. cbn [of_res].
  unfold of_res. destruct (parseArgon2idHash _) as [p|]; [|discriminate].
  destruct (Hcc s1) as [s2 ->]. pose proof (Hslot s2) as Hsl.
  destruct (select_slot s2) as [x s3]. cbn in Hsl. subst x.
  destruct (Hcc s3) as [s4 Hs4]. rewrite Hs4. cbn. destruct (Hcc s4) as [s5 ->]. eauto.
Qed.

(** C28. A password verifies against its own digest, and another one only if it
    derives the same key: a verification of a generated digest that answers
    compares the keys derived with the salt and the parameters of the digest;
    for the password the digest was made of it never answers no, and answers
    yes when the context lives and a slot is free. *)
Theorem hash_then_verify (pw : Password.PlainPassword) (d : Password.PasswordDigest) (s s1 : S) :
  Hash service pw s = (Ok d, s1) ->
  (forall s2 s3 b, Verify service pw d s2 = (Ok b, s3) -> b = true)
  /\ (exists salt, forall pw' s2 s3 b, Verify service pw' d s2 = (Ok b, s3) ->
       b = true <->
       argon2_IDKey (derive_input service pw') salt argonTime argonMemory argonThreads argonKeyLen
       = argon2_IDKey (derive_input service pw) salt argonTime argonMemory argonThreads argonKeyLen)
  /\ (lively -> forall s2, exists s3, Verify service pw d s2 = (Ok true, s3)).
Proof.
  intros Hhash. pose proof (Hash_validated _ _ _ _ Hhash) as Hpw.
  destruct (Hash_Ok _ _ _ _ Hhash) as (salt & Hs & Hl & He).
  destruct (argon2_key (derive_input service pw) salt argonTime argonMemory argonThreads argonKeyLen
              ltac:(done)) as [Hk Hkl].
  assert (Hv : forall pw' s2 s3 b, Verify service pw' d s2 = (Ok b, s3) ->
       b = true <->
       argon2_IDKey (derive_input service pw') salt argonTime argonMemory argonThreads argonKeyLen
       = argon2_IDKey (derive_input service pw) salt argonTime argonMemory argonThreads argonKeyLen).
  { intros pw' s2 s3 b Hb. apply (Verify_generated pw' salt _ _ _ _ _ Hs Hk Hl Hkl He) in Hb as ->.
    apply bool_decide_eq_true. }
  assert (Hyes : forall s2 s3 b, Verify service pw d s2 = (Ok b, s3) -> b = true)
    by (intros s2 s3 b Hb; by apply Hv in Hb as [_ Hb]; apply Hb).
  split; [done|]. split; [by exists salt|]. intros Hlive s2.
  destruct (verify_answers pw d s2 Hlive Hpw) as (b & s3 & Hb).
  { by rewrite He, parse_encode. }
  exists s3. by rewrite (Hyes _ _ _ Hb) in Hb.
Qed.

End ServiceLaws.
End PasswordHash.

(** * A local service, for the witnesses *)

Module LocalPassword.
Import PasswordHash.

(** A derivation that pads or cuts the password to the length asked for, and
    a channel of capacity two in a process of its own. *)
#[global] Instance argon2 : Argon2 := fun password _ _ _ _ keyLen =>
  take (Z.to_nat keyLen) (map (fun b => b mod 256) password ++ replicate (Z.to_nat keyLen) 0).

#[global] Instance argon2_laws : Argon2Laws.
Proof.
  intros password salt t m n keyLen Hk. unfold argon2_IDKey, argon2. split.
  - apply Forall_take, Forall_app. split.
    + apply Forall_map, Forall_forall. intros b _. cbn. apply Z.mod_pos_bound. lia.
    + apply Forall_replicate. lia.
  - rewrite length_take, length_app, length_map, length_replicate. lia.
Qed.

#[global] Instance ports : PasswordPorts Z := {|
  ctx_state := fun held => (Ok (Some {| ctx_Err := None; ctx_Cause := None |}), held);
  readSalt := fun n held => (Ok (replicate (Z.to_nat n) 7), held);
  select_slot := fun held => (Ok true, held + 1);
  receive_slot := fun held => (Ok tt, held - 1);
|}.
#[global] Program Instance ports_laws : PasswordPortsLaws Z := {| held := fun held => held |}.
Next Obligation. intros s. by eexists. Qed.
Next Obligation.
  intros n s. split; [done|]. intros salt Hn [= <-]. split; [apply Forall_replicate; lia|].
  rewrite length_replicate. lia.
Qed.
Next Obligation. intros s. by left. Qed.
Next Obligation. done. Qed.
Definition service : PasswordService := {| pepper := "pepper"; capacity := 2 |}.
Definition password : Password.PlainPassword := {| Password.plaintext := "Correct-h0rse" |}.
Definition digest : Password.PasswordDigest :=
  match (Hash service password 0).1 with Ok d => d | Err _ => Password.zeroDigest end.

(** The service verifies the right password and refuses another. *)
Example verifies :
  (Verify service password digest 0).1 = Ok true
  /\ (Verify service {| Password.plaintext := "Wrong-h0rse!" |} digest 0).1 = Ok false.
Proof. split; vm_compute; reflexivity. Qed.
End LocalPassword.

Lemma stored_hash_roundtrip_witness :
  PasswordHash.parseArgon2idHash (PasswordHash.encode_hash (replicate 32 7) (replicate 32 200))
  = Ok (PasswordHash.parsed_of (replicate 32 7) (replicate 32 200)).
Proof.
  apply (PasswordHash.stored_hash_roundtrip (replicate 32 7) (replicate 32 200)).
  - apply Forall_replicate. lia.
  - apply Forall_replicate. lia.
  - reflexivity.
  - reflexivity.
Defined.

Lemma slots_balanced_witness :
  PasswordHash.held (PasswordHash.Hash LocalPassword.service LocalPassword.password 1).2
  = PasswordHash.held 1
  /\ PasswordHash.held (PasswordHash.Verify LocalPassword.service LocalPassword.password
                          LocalPassword.digest 1).2 = PasswordHash.held 1.
Proof.
  apply (PasswordHash.slots_balanced (S := Z) LocalPassword.service LocalPassword.password
           LocalPassword.digest 1).
Defined.

Lemma hash_then_verify_witness :
  (forall s2 s3 b, PasswordHash.Verify LocalPassword.service LocalPassword.password
                     LocalPassword.digest s2 = (Ok b, s3) -> b = true)
  /\ (exists salt, forall pw' s2 s3 b,
       PasswordHash.Verify LocalPassword.service pw' LocalPassword.digest s2 = (Ok b, s3) ->
       b = true <->
       argon2_IDKey (PasswordHash.derive_input LocalPassword.service pw') salt
         PasswordHash.argonTime PasswordHash.argonMemory PasswordHash.argonThreads PasswordHash.argonKeyLen
       = argon2_IDKey (PasswordHash.derive_input LocalPassword.service LocalPassword.password) salt
           PasswordHash.argonTime PasswordHash.argonMemory PasswordHash.argonThreads PasswordHash.argonKeyLen)
  /\ (PasswordHash.lively (S := Z) ->
      forall s2, exists s3, PasswordHash.Verify LocalPassword.service LocalPassword.password
                              LocalPassword.digest s2 = (Ok true, s3)).
Proof.
  apply (PasswordHash.hash_then_verify (S := Z) LocalPassword.service LocalPassword.password
           LocalPassword.digest 0 0).
  vm_compute. reflexivity.
Defined.
