(* ===== verification/Jwt.v ===== *)
(** internal/infra/auth/jwt_manager.go: the claims of a token, their wire form
    and back, and the validation of a presented token.  Signing, verification
    and the JSON form are github.com/golang-jwt/jwt's, a parameter ([JWTLib])
    with its documented behaviour ([JWTLibLaws]). *)
From S2P Require Export Domain.

Module JWTManager.

(** The claims as they are encoded; instants that may be missing are options. *)
Record tokenClaims := {
  tc_UserID : string;
  tc_SessionID : string;
  tc_CredentialVersion : Z;
  tc_TokenType : string;
  tc_Role : string;
  tc_Permissions : list string;
  tc_Issuer : string;
  tc_Subject : string;
  tc_Audience : list string;
  tc_ExpiresAt : option Z;
  tc_NotBefore : option Z;
  tc_IssuedAt : option Z;
  tc_ID : string;
}.

(** [jwt.NewNumericDate]: whole seconds. *)
Definition NewNumericDate (t : Z) : Z := from_unix (unix_seconds t).

Definition tokenClaimsFromDomain (claims : Claims.JWTClaims) : tokenClaims :=
  {| tc_UserID := Claims.UserID claims;
     tc_SessionID := Claims.SessionID claims;
     tc_CredentialVersion := Claims.CredentialVersion claims;
     tc_TokenType := Claims.TokenType_ claims;
     tc_Role := if Claims.IsAccess claims then Role.String (Claims.Role claims) else "";
     tc_Permissions := Permission.Values (Claims.Permissions claims);
     tc_Issuer := Claims.Issuer claims;
     tc_Subject := Claims.Subject claims;
     tc_Audience := Claims.Audience claims;
     tc_ExpiresAt := Some (NewNumericDate (Claims.ExpiresAt claims));
     tc_NotBefore := Some (NewNumericDate (Claims.NotBefore claims));
     tc_IssuedAt := Some (NewNumericDate (Claims.IssuedAt claims));
     tc_ID := Claims.JTI claims |}.

Definition tokenInvalid {A} : res A := Err ErrTokenInvalid.

(** The permissions of an access token. *)
Fixpoint parse_permissions (l : list string) : res (list Permission.Permission) :=
  match l with
  | [] => Ok []
  | p :: l' =>
      match Permission.ParsePermission p with
      | Err _ => tokenInvalid
      | Ok permission => letr permissions := parse_permissions l' in Ok (permission :: permissions)
      end
  end.

Definition snapshot_of (claims : tokenClaims) : res Claims.AuthorizationSnapshot :=
  if tc_TokenType claims =s Claims.TokenTypeAccess then
    letr role := res_map_err (fun _ => ESentinel ErrTokenInvalid) (Role.ParseUserRole (tc_Role claims)) in
    letr permissions := parse_permissions (tc_Permissions claims) in
    letr permissionSet := res_map_err (fun _ => ESentinel ErrTokenInvalid)
                            (Permission.NewPermissionSet permissions) in
    Ok {| Claims.as_Role := role; Claims.as_Permissions := permissionSet |}
  else if (tc_Role claims <>s "") || negb (Nat.eqb (List.length (tc_Permissions claims)) 0)
  then tokenInvalid
  else Ok Claims.zeroSnapshot.

Definition toDomain (claims : tokenClaims) : res Claims.JWTClaims :=
  let tokenType := tc_TokenType claims in
  if (tc_Subject claims <>s tc_TokenType claims)
     || ((tokenType <>s Claims.TokenTypeAccess) && (tokenType <>s Claims.TokenTypeRefresh))
  then tokenInvalid
  else
    match tc_ExpiresAt claims, tc_IssuedAt claims, tc_NotBefore claims with
    | Some expiresAt, Some issuedAt, Some _ =>
        letr snapshot := snapshot_of claims in
        Claims.NewJWTClaims
          {| Claims.ti_UserID := tc_UserID claims; Claims.ti_SessionID := tc_SessionID claims;
             Claims.ti_JTI := tc_ID claims;
             Claims.ti_CredentialVersion := tc_CredentialVersion claims |}
          tokenType expiresAt issuedAt snapshot
    | _, _, _ => tokenInvalid
    end.

Definition classifyTokenError (e : err) : err :=
  if errors_is e JwtErrTokenExpired then ErrTokenExpired
  else if errors_is e JwtErrTokenMalformed || errors_is e JwtErrSignatureInvalid
          || errors_is e JwtErrTokenNotValidYet
  then ErrTokenInvalid
  else ErrTokenInvalid.

(** The library: [SignedString] with HS256, and [ParseWithClaims] with the
    manager's options (HS256 only, its issuer, its audience) at an instant of
    its clock: the claims and [token.Valid]. *)
Class JWTLib := {
  SignedString : tokenClaims -> string -> res string;
  ParseWithClaims : string -> string -> Z -> res (tokenClaims * bool);
}.

Section Manager.
Context {S : Type} `{JWTLib} `{Environment S}.
Context (secret : string).

Definition ValidateClaims (claims : Claims.JWTClaims) : M S unit :=
  let! now := time_Now in
  if now <? Claims.NotBefore claims then fail ErrTokenInvalid
  else if negb (now <? Claims.ExpiresAt claims) then fail ErrTokenExpired
  else if (Claims.UserID claims =s "") || (Claims.SessionID claims =s "") || (Claims.JTI claims =s "")
          || (Claims.CredentialVersion claims <=? 0)
  then fail ErrTokenInvalid
  else if Claims.IsAccess claims && (Claims.Role claims =? Role.RoleUnknown) then fail ErrTokenInvalid
  else if negb (Claims.IsAccess claims) && negb (Claims.IsRefresh claims) then fail ErrTokenInvalid
  else ret tt.

Definition generateToken (identity : Claims.TokenIdentity) (tokenType : string)
    (snapshot : Claims.AuthorizationSnapshot) (duration : Z) : M S (string * Claims.JWTClaims) :=
  let! now := time_Now in
  let! claimsVO := of_res (Claims.NewJWTClaims identity tokenType (now + duration) now snapshot) in
  let claims := tokenClaimsFromDomain claimsVO in
  let! signed := map_err (fun _ => ESentinel ErrInternal) (of_res (SignedString claims secret)) in
  ret (signed, claimsVO).

Definition GenerateAccessToken (identity : Claims.TokenIdentity)
    (snapshot : Claims.AuthorizationSnapshot) (duration : Z) : M S (string * Claims.JWTClaims) :=
  generateToken identity Claims.TokenTypeAccess snapshot duration.

Definition GenerateRefreshToken (identity : Claims.TokenIdentity) (duration : Z)
    : M S (string * Claims.JWTClaims) :=
  generateToken identity Claims.TokenTypeRefresh Claims.zeroSnapshot duration.

(** The library reads the manager's clock once. *)
Definition ParseAndValidate (tokenString : string) : M S Claims.JWTClaims :=
  let! now := time_Now in
  let! parsed := map_err classifyTokenError (of_res (ParseWithClaims tokenString secret now)) in
  let '(claims, valid) := parsed in
  if negb valid then fail ErrTokenInvalid
  else
    let! claimsVO := map_err (fun _ => ESentinel ErrTokenInvalid) (of_res (toDomain claims)) in
    do! ValidateClaims claimsVO in
    ret claimsVO.

#[global] Instance jwt_manager : JWTService S := {|
  Domain.GenerateAccessToken := GenerateAccessToken;
  Domain.GenerateRefreshToken := GenerateRefreshToken;
  Domain.ParseAndValidate := ParseAndValidate |}.

End Manager.

(** * What the library documents *)

(** The validator's check of the registered claims at [now] (v5: exp, nbf,
    audience and issuer; a missing date is not checked). *)
Definition documented_errors (c : tokenClaims) (now : Z) : list err :=
  (match tc_ExpiresAt c with
   | Some t => if now <? t then [] else [ESentinel JwtErrTokenExpired] | None => [] end)
  ++ (match tc_NotBefore c with
      | Some t => if now <? t then [ESentinel JwtErrTokenNotValidYet] else [] | None => [] end)
  ++ (if existsb (String.eqb Claims.TokenAudience) (tc_Audience c) then []
      else [ENew "token has invalid audience"])
  ++ (if tc_Issuer c =s Claims.TokenIssuer then [] else [ENew "token has invalid issuer"]).

Definition documented_parse (c : tokenClaims) (now : Z) : res (tokenClaims * bool) :=
  match documented_errors c now with
  | [] => Ok (c, true)
  | es => Err (EWrap "token has invalid claims" es)
  end.

(** The text of a claim survives JSON: it is ASCII. *)
Definition ascii_text (s : string) : Prop := Forall (fun b => 0 <= b < 128) (bytes_of s).
Lemma ascii_text_dec (s : string) :
  forallb (fun b => (0 <=? b) && (b <? 128)) (bytes_of s) = true -> ascii_text s.
Proof.
  unfold ascii_text. intros H. apply Forall_forall. intros b Hb.
  apply list_elem_of_In in Hb. pose proof (proj1 (forallb_forall _ _) H b Hb) as E. cbn beta in E. lia.
Qed.
Definition ascii_claims (c : tokenClaims) : Prop :=
  ascii_text (tc_UserID c) /\ ascii_text (tc_SessionID c) /\ ascii_text (tc_ID c).

(** Dates are whole seconds, as [NewNumericDate] makes them. *)
Class JWTLibLaws `{JWTLib} : Prop := {
  sign_parse c secret token now :
    ascii_claims c -> SignedString c secret = Ok token ->
    ParseWithClaims token secret now = documented_parse c now;
}.

(** * Claims and their wire form *)

(** Claims at whole seconds, as they come back from a token. *)
Definition whole_seconds (c : Claims.JWTClaims) : Claims.JWTClaims :=
  {| Claims.UserID := Claims.UserID c; Claims.SessionID := Claims.SessionID c;
     Claims.CredentialVersion := Claims.CredentialVersion c; Claims.Role := Claims.Role c;
     Claims.Permissions := Claims.Permissions c; Claims.TokenType_ := Claims.TokenType_ c;
     Claims.JTI := Claims.JTI c; Claims.Issuer := Claims.Issuer c; Claims.Subject := Claims.Subject c;
     Claims.Audience := Claims.Audience c;
     Claims.ExpiresAt := NewNumericDate (Claims.ExpiresAt c);
     Claims.IssuedAt := NewNumericDate (Claims.IssuedAt c);
     Claims.NotBefore := NewNumericDate (Claims.IssuedAt c) |}.

(** A snapshot as the use cases build it. *)
Definition proper_snapshot (tokenType : string) (s : Claims.AuthorizationSnapshot) : Prop :=
  if tokenType =s Claims.TokenTypeAccess
  then Role.IsKnown (Claims.as_Role s) = true
       /\ exists ps, Permission.NewPermissionSet ps = Ok (Claims.as_Permissions s)
  else s = Claims.zeroSnapshot.

Lemma parse_permissions_known l : forallb Permission.known l = true -> parse_permissions l = Ok l.
Proof.
  induction l as [|p l IH]; [done|]. cbn [forallb parse_permissions]. intros [Hp Hl]%andb_true_iff.
  unfold Permission.ParsePermission. rewrite Hp. cbn [res_bind]. by rewrite IH.
Qed.

Lemma NewPermissionSet_again ps s :
  Permission.NewPermissionSet ps = Ok s ->
  forallb Permission.known (Permission.Values s) = true
  /\ Permission.NewPermissionSet (Permission.Values s) = Ok s.
Proof.
  intros Hs. pose proof (Permission.NewPermissionSet_known _ _ Hs) as Hk.
  assert (Hmem : forall p, p ∈ Permission.values s <-> p ∈ ps)
    by (intros p; by apply Permission.elem_of_values).
  assert (Hkv : forallb Permission.known (Permission.Values s) = true).
  { apply forallb_forall. intros p Hp. rewrite forallb_forall in Hk. apply Hk.
    apply list_elem_of_In, Hmem, list_elem_of_In, Hp. }
  split; [done|]. rewrite <- Hs. by apply Permission.NewPermissionSet_canonical.
Qed.

Lemma snapshot_roundtrip identity tokenType e i s c :
  proper_snapshot tokenType s -> Claims.NewJWTClaims identity tokenType e i s = Ok c ->
  snapshot_of (tokenClaimsFromDomain c) = Ok s.
Proof.
  intros Hp Hc. destruct (Claims.NewJWTClaims_Ok _ _ _ _ _ _ Hc)
    as (_ & _ & _ & _ & Ht & Hr & Hps & _ & _ & _ & _ & _ & _ & _ & _ & Htt & _).
  unfold snapshot_of, tokenClaimsFromDomain, Claims.IsAccess, proper_snapshot in *.
  cbn [tc_TokenType tc_Role tc_Permissions]. rewrite Ht, Hr, Hps.
  destruct (tokenType =s Claims.TokenTypeAccess) eqn:Ea.
  - destruct Hp as [Hk [ps Hset]]. rewrite Role.ParseUserRole_String by done. cbn [res_map_err res_bind].
    destruct (NewPermissionSet_again _ _ Hset) as [Hkn Hagain].
    rewrite parse_permissions_known by done. cbn [res_bind]. rewrite Hagain. cbn. by destruct s.
  - by subst s.
Qed.

Lemma NewNumericDate_mono a b : a <= b -> NewNumericDate a <= NewNumericDate b.
Proof. intros Hab. unfold NewNumericDate, from_unix, unix_seconds.
  pose proof (Z.div_le_mono a b 1000000000 ltac:(lia) Hab). lia. Qed.

(** The wire form of fresh claims reads back as the claims at whole seconds,
    when those still leave the token a lifetime. *)
Lemma toDomain_fromDomain identity tokenType e i s c :
  proper_snapshot tokenType s -> Claims.NewJWTClaims identity tokenType e i s = Ok c ->
  NewNumericDate i < NewNumericDate e ->
  toDomain (tokenClaimsFromDomain c) = Ok (whole_seconds c).
Proof.
  intros Hp Hc Hlt. pose proof (snapshot_roundtrip _ _ _ _ _ _ Hp Hc) as Hsnap.
  unfold toDomain. rewrite Hsnap. clear Hsnap Hp. revert Hc. unfold Claims.NewJWTClaims.
  destruct (_ || (Claims.ti_CredentialVersion identity <=? 0)) eqn:E1; [done|].
  destruct ((tokenType <>s _) && _) eqn:E2; [done|]. destruct (negb (i <? e)) eqn:E3; [done|].
  destruct ((tokenType =s Claims.TokenTypeAccess) && (_ =? _)) eqn:E4; [done|]. intros [= <-].
  cbn [tokenClaimsFromDomain tc_Subject tc_TokenType tc_ExpiresAt tc_IssuedAt tc_NotBefore tc_UserID
       tc_SessionID tc_ID tc_CredentialVersion Claims.Subject Claims.TokenType_ Claims.UserID
       Claims.SessionID Claims.JTI Claims.CredentialVersion Claims.ExpiresAt Claims.IssuedAt res_bind
       Claims.ti_UserID Claims.ti_SessionID Claims.ti_JTI Claims.ti_CredentialVersion].
  rewrite eqb_refl_string, E1, E2, E4. cbn [negb orb].
  by rewrite (proj2 (Z.ltb_lt _ _) Hlt).
Qed.

(** * Tokens *)

Section Tokens.
Context {S : Type} `{JWTLib} `{Environment S}.
Context (secret : string).

Lemma generateToken_Ok identity tokenType snapshot duration s token c s' :
  generateToken secret identity tokenType snapshot duration s = (Ok (token, c), s') ->
  exists now, Claims.NewJWTClaims identity tokenType (now + duration) now snapshot = Ok c
    /\ SignedString (tokenClaimsFromDomain c) secret = Ok token.
Proof.
  unfold generateToken. intros (now & s1 & _ & Hr)%bind_Ok_inv.
  apply bind_Ok_inv in Hr as (c' & s2 & Hc & Hr). apply bind_Ok_inv in Hr as (tok & s3 & Ht & Hr).
  apply map_err_Ok_inv in Ht. injection Hc as Hc <-. injection Ht as Ht <-. injection Hr as -> -> _.
  eauto.
Qed.

(** The registered claims of a generated token pass the library at [now]
    exactly inside its lifetime. *)
Lemma documented_parse_generated identity tokenType e i s c now :
  Claims.NewJWTClaims identity tokenType e i s = Ok c ->
  documented_parse (tokenClaimsFromDomain c) now
  = if now <? NewNumericDate e
    then if now <? NewNumericDate i
         then Err (EWrap "token has invalid claims" [ESentinel JwtErrTokenNotValidYet])
         else Ok (tokenClaimsFromDomain c, true)
    else Err (EWrap "token has invalid claims"
                (ESentinel JwtErrTokenExpired
                 :: if now <? NewNumericDate i then [ESentinel JwtErrTokenNotValidYet] else [])).
Proof.
  unfold Claims.NewJWTClaims. repeat case_goal; try discriminate; intros [= <-];
    unfold documented_parse, documented_errors; cbn;
    repeat match goal with H : (_ <? _) = _ |- _ => rewrite H; clear H end; done.
Qed.

Lemma ValidateClaims_whole c t s s' :
  time_Now s = (Ok t, s') ->
  Claims.UserID c <> "" -> Claims.SessionID c <> "" -> Claims.JTI c <> "" ->
  0 < Claims.CredentialVersion c ->
  (Claims.TokenType_ c = Claims.TokenTypeAccess \/ Claims.TokenType_ c = Claims.TokenTypeRefresh) ->
  (Claims.TokenType_ c = Claims.TokenTypeAccess -> Claims.Role c <> Role.RoleUnknown) ->
  NewNumericDate (Claims.IssuedAt c) <= t < NewNumericDate (Claims.ExpiresAt c) ->
  ValidateClaims (whole_seconds c) s = (Ok tt, s').
Proof.
  intros Ht Hu Hs Hj Hv Htt Hr Hin. unfold ValidateClaims, bind. rewrite Ht.
  unfold Claims.IsAccess, Claims.IsRefresh. cbn [whole_seconds Claims.NotBefore Claims.ExpiresAt Claims.UserID Claims.SessionID
    Claims.JTI Claims.CredentialVersion Claims.Role Claims.TokenType_].
  rewrite (proj2 (Z.ltb_ge _ _)), (proj2 (Z.ltb_lt _ _)) by lia.
  rewrite (eqb_ne_string (Claims.UserID c)), (eqb_ne_string (Claims.SessionID c)),
    (eqb_ne_string (Claims.JTI c)), (proj2 (Z.leb_gt _ _)) by done. cbn [negb orb].
  destruct Htt as [Htt|Htt]; rewrite Htt; cbn; [|done].
  by rewrite (proj2 (Z.eqb_neq _ _)) by (by apply Hr).
Qed.

Lemma generated_lifetime {LL : JWTLibLaws} (identity : Claims.TokenIdentity) (tokenType token : string)
    (snapshot : Claims.AuthorizationSnapshot) (duration : Z) (c : Claims.JWTClaims) (s s1 : S) :
  ascii_text (Claims.ti_UserID identity) -> ascii_text (Claims.ti_SessionID identity) ->
  ascii_text (Claims.ti_JTI identity) -> proper_snapshot tokenType snapshot ->
  generateToken secret identity tokenType snapshot duration s = (Ok (token, c), s1) ->
  NewNumericDate (Claims.IssuedAt c) < NewNumericDate (Claims.ExpiresAt c) ->
  (forall s2 s3 s4 t t', time_Now s2 = (Ok t, s3) -> time_Now s3 = (Ok t', s4) ->
     NewNumericDate (Claims.IssuedAt c) <= t < NewNumericDate (Claims.ExpiresAt c) ->
     NewNumericDate (Claims.IssuedAt c) <= t' < NewNumericDate (Claims.ExpiresAt c) ->
     ParseAndValidate secret token s2 = (Ok (whole_seconds c), s4))
  /\ (forall s2 s3 t, time_Now s2 = (Ok t, s3) -> NewNumericDate (Claims.ExpiresAt c) <= t ->
        ParseAndValidate secret token s2 = (Err ErrTokenExpired, s3)).
Proof.
  intros Hu Hs Hj Hsnap Hgen Hlife. apply generateToken_Ok in Hgen as (now & Hc & Hsign).
  destruct (Claims.NewJWTClaims_Ok _ _ _ _ _ _ Hc)
    as (Eu & Es & Ej & Ev & Et & Er & Eps & Ee & Ei & _ & _ & Hv & Hune & Hsne & Hjne & Htt & Hrole).
  assert (Hparse : forall t, ParseWithClaims token secret t = documented_parse (tokenClaimsFromDomain c) t).
  { intros t. apply sign_parse; [|done]. repeat split; cbn; by rewrite ?Eu, ?Es, ?Ej. }
  assert (Hdoc := fun t => documented_parse_generated _ _ _ _ _ _ t Hc). rewrite Ee, Ei in *. split.
  - intros s2 s3 s4 t t' Ht Ht' Hin Hin'. unfold ParseAndValidate, bind at 1. rewrite Ht, Hparse, Hdoc.
    rewrite (proj2 (Z.ltb_lt _ _)), (proj2 (Z.ltb_ge _ _)) by lia. cbn [res_map_err map_err of_res bind negb].
    rewrite (toDomain_fromDomain _ _ _ _ _ _ Hsnap Hc Hlife). unfold of_res, map_err, bind. cbn [res_map_err].
    rewrite (ValidateClaims_whole c t' s3 s4); try done; rewrite ?Eu, ?Es, ?Ej, ?Ev, ?Er, ?Et, ?Ee, ?Ei; done.
  - intros s2 s3 t Ht Hge. unfold ParseAndValidate, bind at 1. rewrite Ht, Hparse, Hdoc.
    rewrite (proj2 (Z.ltb_ge _ _)) by done. done.
Qed.

(** C31. A generated token is accepted with the claims it was generated for, at
    whole seconds, during its lifetime, and refused as expired afterwards. *)
Theorem token_lifetime {LL : JWTLibLaws} (identity : Claims.TokenIdentity) (tokenType token : string)
    (snapshot : Claims.AuthorizationSnapshot) (duration : Z) (c : Claims.JWTClaims) (s s1 : S) :
  ascii_text (Claims.ti_UserID identity) -> ascii_text (Claims.ti_SessionID identity) ->
  ascii_text (Claims.ti_JTI identity) -> proper_snapshot tokenType snapshot ->
  generateToken secret identity tokenType snapshot duration s = (Ok (token, c), s1) ->
  NewNumericDate (Claims.IssuedAt c) < NewNumericDate (Claims.ExpiresAt c) ->
  (forall s2 s3 s4 t t', time_Now s2 = (Ok t, s3) -> time_Now s3 = (Ok t', s4) ->
     NewNumericDate (Claims.IssuedAt c) <= t < NewNumericDate (Claims.ExpiresAt c) ->
     NewNumericDate (Claims.IssuedAt c) <= t' < NewNumericDate (Claims.ExpiresAt c) ->
     ParseAndValidate secret token s2 = (Ok (whole_seconds c), s4))
  /\ (forall s2 s3 t, time_Now s2 = (Ok t, s3) -> NewNumericDate (Claims.ExpiresAt c) <= t ->
        ParseAndValidate secret token s2 = (Err ErrTokenExpired, s3)).
Proof. apply generated_lifetime. Qed.

(** What an accepted token says. *)
Definition sound_claims (c : Claims.JWTClaims) : Prop :=
  Claims.UserID c <> "" /\ Claims.SessionID c <> "" /\ Claims.JTI c <> ""
  /\ 0 < Claims.CredentialVersion c
  /\ Claims.IssuedAt c < Claims.ExpiresAt c
  /\ ((Claims.TokenType_ c = Claims.TokenTypeAccess /\ Role.IsKnown (Claims.Role c) = true
       /\ Forall (fun p => Permission.known p = true) (Permission.Values (Claims.Permissions c)))
      \/ (Claims.TokenType_ c = Claims.TokenTypeRefresh /\ Claims.Role c = Role.RoleUnknown
          /\ Claims.Permissions c = Permission.emptySet)).

Lemma NewPermissionSet_values_known ps s :
  Permission.NewPermissionSet ps = Ok s ->
  Forall (fun p => Permission.known p = true) (Permission.Values s).
Proof.
  intros [Hk _]%NewPermissionSet_again. apply Forall_forall. intros p Hp%list_elem_of_In.
  rewrite forallb_forall in Hk. by apply Hk.
Qed.

Lemma toDomain_sound claims c : toDomain claims = Ok c -> sound_claims c.
Proof.
  unfold toDomain. destruct (_ || _) eqn:Et; [discriminate|].
  destruct (tc_ExpiresAt claims) as [e|]; [|discriminate].
  destruct (tc_IssuedAt claims) as [i|]; [|discriminate].
  destruct (tc_NotBefore claims); [|discriminate].
  intros (snap & Hsnap & Hc)%res_bind_Ok_inv.
  destruct (Claims.NewJWTClaims_Ok _ _ _ _ _ _ Hc)
    as (Eu & Es & Ej & Ev & Ett & Er & Eps & Ee & Ei & _ & Hlt & Hv & Hu & Hs & Hj & Htt & _).
  unfold sound_claims. rewrite Eu, Es, Ej, Ev, Ett, Er, Eps, Ee, Ei. repeat (split; [done|]).
  unfold snapshot_of in Hsnap. destruct (_ =s Claims.TokenTypeAccess) eqn:Ea; breflect.
  - left. split; [done|]. apply res_bind_Ok_inv in Hsnap as (r & Hr & Hsnap).
    apply res_bind_Ok_inv in Hsnap as (ps & _ & Hsnap). apply res_bind_Ok_inv in Hsnap as (set & Hset & Hsnap).
    injection Hsnap as <-. cbn. split.
    + destruct (Role.ParseUserRole _) as [r'|] eqn:Ep; [|discriminate]. injection Hr as <-.
      exact (proj1 (Role.ParseUserRole_Ok _ _ Ep)).
    + destruct (Permission.NewPermissionSet ps) as [s'|] eqn:En; [|discriminate]. injection Hset as <-.
      by eapply NewPermissionSet_values_known.
  - right. destruct (_ || _) in Hsnap; [discriminate|]. injection Hsnap as <-. cbn.
    destruct Htt as [Htt|Htt]; [done|]. done.
Qed.

(** C24. A token is accepted only with sound claims inside its lifetime,
    whatever the library lets through: an identity without empty parts, a
    positive credential version, and either an access token with a known role
    and known permissions or a refresh token without any; so a refresh token
    never passes for an access token with rights, nor an unknown role for a
    known one. *)
Theorem accepted_tokens_sound (token : string) (s s' : S) (c : Claims.JWTClaims) :
  ParseAndValidate secret token s = (Ok c, s') ->
  sound_claims c
  /\ exists t st, time_Now st = (Ok t, s') /\ Claims.NotBefore c <= t < Claims.ExpiresAt c.
Proof.
  unfold ParseAndValidate. intros (now & s1 & _ & Hr)%bind_Ok_inv.
  apply bind_Ok_inv in Hr as ([claims valid] & s2 & _ & Hr). destruct valid; [|discriminate]. cbn [negb] in Hr.
  apply bind_Ok_inv in Hr as (c' & s3 & Hd & Hr). apply map_err_Ok_inv in Hd. injection Hd as Hd <-.
  apply bind_Ok_inv in Hr as ([] & s4 & Hv & Hr). injection Hr as -> ->.
  split; [by eapply toDomain_sound|].
  unfold ValidateClaims in Hv. apply bind_Ok_inv in Hv as (t & s5 & Ht & Hv).
  destruct (t <? _) eqn:E1; [discriminate|]. destruct (negb (t <? _)) eqn:E2; [discriminate|]. breflect.
  repeat (destruct (_ : bool) in Hv; [discriminate|]). injection Hv as <-. eauto.
Qed.

End Tokens.
End JWTManager.

(** * A local library, for the witnesses *)

Module LocalJwt.
Import JWTManager.

Definition identity : Claims.TokenIdentity :=
  {| Claims.ti_UserID := "u1"; Claims.ti_SessionID := "s1"; Claims.ti_JTI := "j1";
     Claims.ti_CredentialVersion := 1 |}.
Definition permissions : Permission.PermissionSet :=
  {| Permission.values := [Permission.PermUserChangeStatus; Permission.PermUserRead] |}.
Definition snapshot : Claims.AuthorizationSnapshot :=
  {| Claims.as_Role := Role.RoleOperator; Claims.as_Permissions := permissions |}.

(** The claims of a five-minute access token issued at second 1000 and a half. *)
Definition issued : Z := 1000500000000.
Definition claims : Claims.JWTClaims :=
  match Claims.NewJWTClaims identity Claims.TokenTypeAccess (issued + 300000000000) issued snapshot with
  | Ok c => c
  | Err _ => {| Claims.UserID := ""; Claims.SessionID := ""; Claims.CredentialVersion := 0;
                Claims.Role := 0; Claims.Permissions := Permission.emptySet;
                Claims.TokenType_ := ""; Claims.JTI := ""; Claims.Issuer := ""; Claims.Subject := "";
                Claims.Audience := []; Claims.ExpiresAt := 0; Claims.IssuedAt := 0;
                Claims.NotBefore := 0 |}
  end.

#[global] Instance tokenClaims_eq_dec : EqDecision tokenClaims.
Proof. solve_decision. Defined.

(** A library that signs these claims only, with one secret. *)
#[global] Instance lib : JWTLib := {|
  SignedString := fun c k =>
    if bool_decide (c = tokenClaimsFromDomain claims) && (k =s "secret")
    then Ok "signed-token" else Err (ENew "unsupported claims");
  ParseWithClaims := fun token k now =>
    if (token =s "signed-token") && (k =s "secret")
    then documented_parse (tokenClaimsFromDomain claims) now
    else Err (ESentinel JwtErrSignatureInvalid);
|}.
#[global] Instance lib_laws : JWTLibLaws.
Proof.
  split. intros c k token now _. cbn. destruct (bool_decide _ && _) eqn:E; [|discriminate].
  intros [= <-]. breflect. subst. done.
Qed.

(** A clock that shows the state. *)
#[global] Instance environment : Environment Z := {|
  time_Now := fun t => (Ok t, t); uuid_New := fun t => (Ok "", t); ULIDGenerator := fun t => (Ok "", t) |}.
End LocalJwt.

Lemma token_lifetime_witness :
  (forall s2 s3 s4 t t', time_Now (S := Z) s2 = (Ok t, s3) -> time_Now (S := Z) s3 = (Ok t', s4) ->
     JWTManager.NewNumericDate (Claims.IssuedAt LocalJwt.claims) <= t
       < JWTManager.NewNumericDate (Claims.ExpiresAt LocalJwt.claims) ->
     JWTManager.NewNumericDate (Claims.IssuedAt LocalJwt.claims) <= t'
       < JWTManager.NewNumericDate (Claims.ExpiresAt LocalJwt.claims) ->
     JWTManager.ParseAndValidate "secret" "signed-token" s2
     = (Ok (JWTManager.whole_seconds LocalJwt.claims), s4))
  /\ (forall s2 s3 t, time_Now (S := Z) s2 = (Ok t, s3) ->
        JWTManager.NewNumericDate (Claims.ExpiresAt LocalJwt.claims) <= t ->
        JWTManager.ParseAndValidate "secret" "signed-token" s2 = (Err ErrTokenExpired, s3)).
Proof.
  apply (JWTManager.token_lifetime (S := Z) "secret" LocalJwt.identity Claims.TokenTypeAccess "signed-token"
           LocalJwt.snapshot 300000000000 LocalJwt.claims LocalJwt.issued LocalJwt.issued).
  - apply JWTManager.ascii_text_dec. vm_compute. reflexivity.
  - apply JWTManager.ascii_text_dec. vm_compute. reflexivity.
  - apply JWTManager.ascii_text_dec. vm_compute. reflexivity.
  - split; [reflexivity|]. exists [Permission.PermUserRead; Permission.PermUserChangeStatus]. reflexivity.
  - vm_compute. reflexivity.
  - vm_compute. reflexivity.
Defined.

Lemma accepted_tokens_sound_witness :
  JWTManager.sound_claims (JWTManager.whole_seconds LocalJwt.claims)
  /\ exists t st, time_Now (S := Z) st = (Ok t, 1100000000000)
     /\ Claims.NotBefore (JWTManager.whole_seconds LocalJwt.claims) <= t
        < Claims.ExpiresAt (JWTManager.whole_seconds LocalJwt.claims).
Proof.
  apply (JWTManager.accepted_tokens_sound (S := Z) "secret" "signed-token" 1100000000000 1100000000000).
  vm_compute. reflexivity.
Defined.
