(* ===== verification/Dto.v ===== *)
(** internal/delivery/http/handlers/*_dto.go and helper/pagination.go: the
    request and response documents of the handlers, their conversions to and
    from the use cases' values, and pagination.  Decoding a request body is
    gin's (see Gin.v); a raw JSON value inside a request is decoded here, as
    encoding/json decodes it into a string. *)
From S2P Require Export UserUseCase PermissionStore Response.
From Stdlib Require Import Ascii.

(** * encoding/json: a JSON value into a Go string *)

Module Json.

Definition hex_value (r : Z) : option Z :=
  if between 48 r 57 then Some (r - 48)
  else if between 97 r 102 then Some (r - 87)
  else if between 65 r 70 then Some (r - 55)
  else None.

Definition hex4 (a b c d : Z) : option Z :=
  match hex_value a, hex_value b, hex_value c, hex_value d with
  | Some a, Some b, Some c, Some d => Some (((a * 16 + b) * 16 + c) * 16 + d)
  | _, _, _, _ => None
  end.

Definition simple_escape (r : Z) : option Z :=
  if r =? 34 then Some 34 else if r =? 92 then Some 92 else if r =? 47 then Some 47
  else if r =? 98 then Some 8 else if r =? 102 then Some 12 else if r =? 110 then Some 10
  else if r =? 114 then Some 13 else if r =? 116 then Some 9 else None.

(** A \u escape that is half of a surrogate pair stands for [RuneError] when
    the other half does not follow it. *)
Definition surrogate (r : Z) : bool := between 55296 r 57343.
Definition surrogate_pair (hi lo : Z) : option Z :=
  if between 55296 hi 56319 && between 56320 lo 57343
  then Some ((hi - 55296) * 1024 + (lo - 56320) + 65536) else None.

(** The runes of a string literal after its opening quote. *)
Fixpoint unquote (l : list Z) : option (list Z) :=
  match l with
  | [] => None
  | c :: l1 =>
      if c =? 34 then (match l1 with [] => Some [] | _ => None end)
      else if c <? 32 then None
      else if negb (c =? 92) then (c ::.) <$> unquote l1
      else
        match l1 with
        | [] => None
        | e :: l2 =>
            if negb (e =? 117) then
              match simple_escape e with
              | Some r => (r ::.) <$> unquote l2
              | None => None
              end
            else
              match l2 with
              | h1 :: (h2 :: (h3 :: (h4 :: l3))) =>
                  match hex4 h1 h2 h3 h4 with
                  | None => None
                  | Some r =>
                      if negb (surrogate r) then (r ::.) <$> unquote l3
                      else
                        let alone := (RuneError ::.) <$> unquote l3 in
                        match l3 with
                        | b :: (u :: (g1 :: (g2 :: (g3 :: (g4 :: l4))))) =>
                            if (b =? 92) && (u =? 117) then
                              match hex4 g1 g2 g3 g4 with
                              | Some low =>
                                  match surrogate_pair r low with
                                  | Some p => (p ::.) <$> unquote l4
                                  | None => alone
                                  end
                              | None => alone
                              end
                            else alone
                        | _ => alone
                        end
                  end
              | _ => None
              end
        end
  end.

(** [utf8.AppendRune] *)
Definition encode_rune (r : Z) : list Z :=
  if r <? 128 then [r]
  else if r <? 2048 then [192 + r / 64; 128 + r mod 64]
  else if r <? 65536 then [224 + r / 4096; 128 + r / 64 mod 64; 128 + r mod 64]
  else [240 + r / 262144; 128 + r / 4096 mod 64; 128 + r / 64 mod 64; 128 + r mod 64].

Definition string_of_bytes (l : list Z) : string :=
  String.string_of_list_ascii (map (fun z => ascii_of_N (Z.to_N z)) l).

Definition json_space (r : Z) : bool := (r =? 32) || (r =? 9) || (r =? 10) || (r =? 13).

Fixpoint trim_left (l : list Z) : list Z :=
  match l with r :: l' => if json_space r then trim_left l' else l | [] => [] end.

(** [json.Unmarshal(raw, &value)] with a string [value]: null leaves it empty,
    and every other JSON value than a string is refused. *)
Definition Unmarshal_string (raw : string) : res string :=
  let l := rev (trim_left (rev (trim_left (runes (bytes_of raw))))) in
  match l with
  | c :: l' =>
      if c =? 34 then
        match unquote l' with
        | Some rs => Ok (string_of_bytes (mjoin (map encode_rune rs)))
        | None => Err (ENew "invalid character in JSON string")
        end
      else if bool_decide (l = [110; 117; 108; 108]) then Ok ""
      else Err (ENew "json: cannot unmarshal value into Go value of type string")
  | [] => Err (ENew "unexpected end of JSON input")
  end.

(** A Rocq string literal cannot hold a quote here: it is byte 34. *)
Definition quoted (s : string) : string := String "034" (s +:+ String "034" "").

Example unmarshal_plain : Unmarshal_string (quoted "admin") = Ok "admin".
Proof. reflexivity. Qed.
Example unmarshal_escape : Unmarshal_string (" " +:+ quoted "\u0061dmin") = Ok "admin".
Proof. reflexivity. Qed.
Example unmarshal_pair : Unmarshal_string (quoted "\ud83d\ude00") = Ok "😀".
Proof. reflexivity. Qed.
Example unmarshal_alone : Unmarshal_string (quoted "\ud83dx") = Ok "�x".
Proof. reflexivity. Qed.
Example unmarshal_null : Unmarshal_string "null" = Ok "".
Proof. reflexivity. Qed.
Example unmarshal_number : is_ok (Unmarshal_string "3") = false.
Proof. reflexivity. Qed.

End Json.

(** * helper/pagination.go *)

Module Pagination.

Record PaginationInput := { Page : Z; Limit : Z }.

Definition Validate (p : PaginationInput) : PaginationInput :=
  let page := if Page p <? 1 then 1 else Page p in
  let limit := if Limit p <? 1 then 10 else Limit p in
  let limit := if 100 <? limit then 100 else limit in
  {| Page := page; Limit := limit |}.

Definition Offset (p : PaginationInput) : Z :=
  if (Page p <=? 1) || (Limit p <=? 0) then 0
  else
    let pageOffset := int64 (Page p - 1) in
    if Z.quot maxInt (Limit p) <? pageOffset then maxInt
    else int64 (pageOffset * Limit p).

Record PaginationMeta := {
  pm_Page : Z; pm_Limit : Z; pm_Total : Z; pm_TotalPages : Z;
}.

(** The division panics on a zero limit. *)
Definition NewPaginationMeta (total : Z) (input : PaginationInput) : res PaginationMeta :=
  if Limit input =? 0 then Err (ENew "runtime error: integer divide by zero")
  else Ok {| pm_Page := Page input; pm_Limit := Limit input; pm_Total := total;
             pm_TotalPages := int64 (Z.quot (int64 (int64 (total + Limit input) - 1)) (Limit input)) |}.

(** ** Correctness *)

(** What pagination means: the rows before the page. *)
Definition rows_before (p : PaginationInput) : Z := (Page p - 1) * Limit p.

Definition valid (p : PaginationInput) : Prop :=
  1 <= Page p < 2^63 /\ 1 <= Limit p <= 100.

Lemma Validate_valid p : in_int64 (Page p) -> in_int64 (Limit p) -> valid (Validate p).
Proof.
  unfold in_int64, valid, Validate. cbn. intros HP HL.
  destruct (Page p <? 1) eqn:E1, (Limit p <? 1) eqn:E2; cbn;
    [|destruct (100 <? Limit p) eqn:E3| |destruct (100 <? Limit p) eqn:E3]; breflect; lia.
Qed.

Lemma Validate_id p : valid p -> Validate p = p.
Proof.
  destruct p as [pg lm]. unfold valid, Validate. cbn. intros [HP HL].
  rewrite (proj2 (Z.ltb_ge pg 1)), (proj2 (Z.ltb_ge lm 1)), (proj2 (Z.ltb_ge 100 lm)) by lia. done.
Qed.

(** The offset of a page is the number of rows before it, capped at the
    largest int: for every page and limit the query can hold, after Validate
    the 64-bit arithmetic never wraps around, so that a page number beyond the
    table selects nothing instead of an earlier page. *)
Theorem offset_is_rows_before (p : PaginationInput) :
  in_int64 (Page p) -> in_int64 (Limit p) ->
  let v := Validate p in
  Offset v = Z.min maxInt (rows_before v)
  /\ 1 <= Limit v <= 100 /\ Validate v = v
  /\ (in_int64 (rows_before v) -> Offset v = rows_before v).
Proof.
  intros HP HL v. pose proof (Validate_valid p HP HL) as Hv. fold v in Hv.
  assert (Ho : Offset v = Z.min maxInt (rows_before v)).
  { unfold Offset, rows_before. destruct Hv as [Hp Hl].
    destruct ((Page v <=? 1) || (Limit v <=? 0)) eqn:E.
    - apply orb_true_iff in E as [E|E]; breflect; [|lia].
      replace (Page v - 1) with 0 by lia. unfold maxInt. lia.
    - breflect. rewrite (int64_id (Page v - 1)) by (unfold in_int64; lia).
      rewrite Z.quot_div_nonneg by (unfold maxInt; lia).
      destruct (maxInt / Limit v <? Page v - 1) eqn:Ec; breflect.
      + assert (maxInt < (Page v - 1) * Limit v).
        { apply Z.lt_le_trans with (Limit v * Z.succ (maxInt / Limit v)).
          - apply Z.mul_succ_div_gt. lia.
          - rewrite Z.mul_comm. apply Z.mul_le_mono_nonneg_r; lia. }
        lia.
      + assert ((Page v - 1) * Limit v <= maxInt).
        { transitivity (Limit v * (maxInt / Limit v)).
          - rewrite Z.mul_comm. apply Z.mul_le_mono_nonneg_l; lia.
          - apply Z.mul_div_le. lia. }
        rewrite int64_id by (unfold in_int64; unfold maxInt in *; nia). lia. }
  split; [exact Ho|]. split; [apply Hv|]. split; [by apply Validate_id|].
  intros Hr. rewrite Ho. unfold in_int64, maxInt in *. lia.
Qed.

Lemma offset_is_rows_before_witness :
  Offset (Validate {| Page := maxInt; Limit := 500 |}) = maxInt
  /\ Offset (Validate {| Page := 3; Limit := 0 |}) = 20.
Proof.
  split.
  - exact (proj1 (offset_is_rows_before {| Page := maxInt; Limit := 500 |}
             ltac:(unfold in_int64, maxInt; cbn; lia) ltac:(unfold in_int64; cbn; lia))).
  - exact (proj1 (offset_is_rows_before {| Page := 3; Limit := 0 |}
             ltac:(unfold in_int64; cbn; lia) ltac:(unfold in_int64; cbn; lia))).
Defined.

(** The pages cover the rows exactly: the last one has a row, and the one
    after it none. *)
Lemma total_pages_cover total p m :
  valid p -> 0 <= total < 2^63 - 100 -> NewPaginationMeta total p = Ok m ->
  (pm_TotalPages m - 1) * Limit p < total <= pm_TotalPages m * Limit p.
Proof.
  intros [Hp Hl] Ht. unfold NewPaginationMeta.
  destruct (Limit p =? 0) eqn:E; [discriminate|]. intros [= <-]. cbn.
  rewrite !(int64_id (_ + _)), !(int64_id (_ - _)) by (unfold in_int64; rewrite ?int64_id; unfold in_int64; lia).
  rewrite Z.quot_div_nonneg by lia.
  set (q := (total + Limit p - 1) / Limit p).
  assert (Hq : Limit p * q <= total + Limit p - 1) by (apply Z.mul_div_le; lia).
  assert (Hq' : total + Limit p - 1 < Limit p * Z.succ q) by (apply Z.mul_succ_div_gt; lia).
  assert (0 <= q) by (apply Z.div_pos; lia).
  rewrite int64_id by (unfold in_int64; nia). nia.
Qed.

End Pagination.

(** * Requests and responses *)

Module Dto.
Import Json.

(** ** Requests.  A raw message holds the bytes of a JSON value. *)
Record loginRequest := { lq_Email : string; lq_Password : string }.
Record registerRequest := { rq_Email : string; rq_Password : string }.
Record refreshRequest := { fq_RefreshToken : string }.
Record createPermissionRequest := { pq_Role : string; pq_Action : string }.
Record deleteSessionsRequest := { dq_SessionIDs : list string; dq_Others : bool }.
Record listUsersFilterQuery := { qf_Roles : list string; qf_Statuses : list string; qf_Search : string }.
Record listUsersQuery := {
  lu_PaginationInput : Pagination.PaginationInput; lu_Filter : listUsersFilterQuery;
}.
Record createUserRequest := {
  cq_Email : string; cq_Password : string; cq_Status : string; cq_Role : string;
}.
Record updateUserRequest := { uq_Email : string; uq_Password : string }.
Record updateUserEmailRequest := { eq_Email : string }.
Record updateUserPasswordRequest := { wq_CurrentPassword : string; wq_NewPassword : string }.
Record updateUserRoleRequest := { oq_Role : string }.
Record updateUserStatusRequest := { sq_Status : string }.

(** ** Responses *)
Record userResponse := {
  us_ID : string; us_Email : string; us_Role : string; us_Status : string; us_CreatedAt : Z;
}.
(** [authUserResponse] has the same fields. *)
Definition authUserResponse : Type := userResponse.
Record loginResponse := {
  lr_AccessToken : string; lr_AccessTokenExpiresAt : Z;
  lr_RefreshToken : string; lr_RefreshTokenExpiresAt : Z;
  lr_User : authUserResponse;
}.
Record refreshResponse := {
  fr_AccessToken : string; fr_AccessTokenExpiresAt : Z;
  fr_RefreshToken : string; fr_RefreshTokenExpiresAt : Z;
}.
Record permissionResponse := {
  pr_ID : string; pr_Role : string; pr_Action : string; pr_CreatedAt : Z;
}.
Record sessionResponse := {
  sr_ID : string; sr_Device : string; sr_IP : string;
  sr_CreatedAt : Z; sr_UpdatedAt : Z; sr_Current : bool;
}.

(** The documents a handler writes: a message or a value under "data", a page
    of values with its meta, a status word, a problem. *)
Inductive data :=
  | DText (s : string)
  | DLogin (r : loginResponse)
  | DRefresh (r : refreshResponse)
  | DUser (r : userResponse)
  | DPermission (r : permissionResponse)
  | DPermissions (rs : list permissionResponse)
  | DPermissionPage (rs : list permissionResponse) (meta : Pagination.PaginationMeta)
  | DSessionPage (rs : list sessionResponse) (meta : Pagination.PaginationMeta)
  | DUserPage (rs : list userResponse) (meta : Pagination.PaginationMeta).

Inductive document :=
  | Data (d : data)
  | StatusWord (s : string)
  | ProblemDocument (p : Response.Problem).

(** ** Conversions *)

Definition newAuthUserResponse (output : Authentication.UserOutput) : authUserResponse :=
  {| us_ID := Authentication.uo_ID output; us_Email := Authentication.uo_Email output;
     us_Role := Authentication.uo_Role output; us_Status := Authentication.uo_Status output;
     us_CreatedAt := Authentication.uo_CreatedAt output |}.

Definition newLoginResponse (output : Authentication.LoginOutput) : loginResponse :=
  {| lr_AccessToken := Authentication.lo_AccessToken output;
     lr_AccessTokenExpiresAt := Authentication.lo_AccessTokenExpiresAt output;
     lr_RefreshToken := Authentication.lo_RefreshToken output;
     lr_RefreshTokenExpiresAt := Authentication.lo_RefreshTokenExpiresAt output;
     lr_User := newAuthUserResponse (Authentication.lo_User output) |}.

Definition newRefreshResponse (output : Authentication.RefreshOutput) : refreshResponse :=
  {| fr_AccessToken := Authentication.ro_AccessToken output;
     fr_AccessTokenExpiresAt := Authentication.ro_AccessTokenExpiresAt output;
     fr_RefreshToken := Authentication.ro_RefreshToken output;
     fr_RefreshTokenExpiresAt := Authentication.ro_RefreshTokenExpiresAt output |}.

Definition newPermissionResponse (output : PermissionUC.PermissionOutput) : permissionResponse :=
  {| pr_ID := PermissionUC.po_ID output; pr_Role := PermissionUC.po_Role output;
     pr_Action := PermissionUC.po_Action output; pr_CreatedAt := PermissionUC.po_CreatedAt output |}.

Definition newPermissionResponses (outputs : list PermissionUC.PermissionOutput)
    : list permissionResponse :=
  map newPermissionResponse outputs.

Definition newSessionResponses (output : list SessionUC.SessionOutput) : list sessionResponse :=
  map (fun item =>
    {| sr_ID := SessionUC.so_ID item; sr_Device := SessionUC.so_Device item;
       sr_IP := SessionUC.so_IP item; sr_CreatedAt := SessionUC.so_CreatedAt item;
       sr_UpdatedAt := SessionUC.so_UpdatedAt item; sr_Current := SessionUC.so_Current item |}) output.

Definition newUserResponse (output : UserUC.UserOutput) : userResponse :=
  {| us_ID := UserUC.uo_ID output; us_Email := UserUC.uo_Email output;
     us_Role := UserUC.uo_Role output; us_Status := UserUC.uo_Status output;
     us_CreatedAt := UserUC.uo_CreatedAt output |}.

Definition newUserDetailResponse (detail : UserDetail) : userResponse :=
  {| us_ID := ud_ID detail; us_Email := ud_Email detail;
     us_Role := Role.String (ud_Role detail); us_Status := Status.String (ud_Status detail);
     us_CreatedAt := ud_CreatedAt detail |}.

Definition newUserListResponses (items : list UserListItem) : list userResponse :=
  map (fun item =>
    {| us_ID := li_ID item; us_Email := li_Email item;
       us_Role := Role.String (li_Role item); us_Status := Status.String (li_Status item);
       us_CreatedAt := li_CreatedAt item |}) items.

Definition parseUserRoleRequest (raw : string) : res Z :=
  if raw =s "" then Err (ENew "user role is required")
  else
    letr value := res_map_err (wrap1 "user role must be a string") (Unmarshal_string raw) in
    Role.ParseUserRole value.

Definition parseUserStatusRequest (raw : string) : res Z :=
  if raw =s "" then Err (ENew "user status is required")
  else
    letr value := res_map_err (wrap1 "user status must be a string") (Unmarshal_string raw) in
    Status.ParseUserStatus value.

Definition createUser_toInput (request : createUserRequest) : res UserUC.CreateInput :=
  letr status := parseUserStatusRequest (cq_Status request) in
  letr role := parseUserRoleRequest (cq_Role request) in
  Ok {| UserUC.ci_Email := cq_Email request; UserUC.ci_Password := cq_Password request;
        UserUC.ci_Status := status; UserUC.ci_Role := role |}.

Definition updateUser_toInput (request : updateUserRequest) (userID : string) : res UserUC.UpdateInput :=
  Ok {| UserUC.ui_UserID := userID; UserUC.ui_Email := uq_Email request;
        UserUC.ui_Password := uq_Password request |}.

(** The actor's fields are zero until the handler sets them. *)
Definition updateUserRole_toInput (request : updateUserRoleRequest) (userID : string)
    : res UserUC.UpdateRoleInput :=
  letr role := parseUserRoleRequest (oq_Role request) in
  Ok {| UserUC.ur_UserID := userID; UserUC.ur_ActorID := ""; UserUC.ur_ActorRole := 0;
        UserUC.ur_Role := role |}.

Definition updateUserStatus_toInput (request : updateUserStatusRequest) (userID actorID : string)
    : res UserUC.UpdateStatusInput :=
  letr status := parseUserStatusRequest (sq_Status request) in
  Ok {| UserUC.us_UserID := userID; UserUC.us_ActorID := actorID; UserUC.us_ActorRole := 0;
        UserUC.us_Status := status |}.

(** The values of a filter that parse. *)
Definition parsed {A} (parse : string -> res A) (raw : list string) : list A :=
  omap (fun s => match parse s with Ok a => Some a | Err _ => None end) raw.

Definition none_left {A B} (raw : list A) (kept : list B) : bool :=
  match raw, kept with _ :: _, [] => true | _, _ => false end.

(** The actor's role is zero until the handler sets it. *)
Definition listUsers_toInput (query : listUsersQuery) (actorID : string) : UserUC.GetListInput :=
  let filter := lu_Filter query in
  let roles := parsed Role.ParseUserRole (qf_Roles filter) in
  let statuses := parsed Status.ParseUserStatus (qf_Statuses filter) in
  {| UserUC.gl_ActorID := actorID;
     UserUC.gl_ActorRole := 0;
     UserUC.gl_Filter := {| UserUC.lf_Statuses := statuses; UserUC.lf_Roles := roles;
                            UserUC.lf_Search := qf_Search filter;
                            UserUC.lf_MatchNone := none_left (qf_Roles filter) roles
                                                   || none_left (qf_Statuses filter) statuses |};
     UserUC.gl_Offset := Pagination.Offset (lu_PaginationInput query);
     UserUC.gl_Limit := Pagination.Limit (lu_PaginationInput query) |}.

End Dto.
