(* ===== verification/Gin.v ===== *)
(** github.com/gin-gonic/gin as the delivery layer uses it, and the response
    functions of internal/delivery/http/response/response.go.

    A handler runs in a state [C * S]: the request in progress, [C], with the
    operations of [GinContext], and the state [S] of the ports; an error of the
    computation is a panic.  gin is a parameter: [GinContext] and [GinEngine]
    are its operations, [GinLaws] and [GinEngineLaws] their documented
    behaviour. *)
From S2P Require Export Dto.
Import Response Dto.

(** * The request in progress: the methods of [*gin.Context] *)

Class GinContext (C : Type) := {
  (** the request *)
  c_GetHeader : C -> string -> string;
  c_ClientIP : C -> string;
  c_Method : C -> string;
  c_FullPath : C -> string;
  c_URLPath : C -> string;
  c_Param : C -> string -> string;
  c_HasBody : C -> bool;
  c_LimitBody : Z -> C -> C;
  (** [c.Get] and [c.Set]: a principal is the only value the program sets *)
  c_Get : C -> string -> option Authorization.Principal;
  c_Set : string -> Authorization.Principal -> C -> C;
  c_Abort : C -> C;
  c_IsAborted : C -> bool;
  (** the response: its header, [c.JSON], and what has been written *)
  c_ResponseHeader : C -> header;
  c_SetResponseHeader : header -> C -> C;
  c_JSON : Z -> document -> C -> C;
  c_Status : C -> Z;
  c_Written : C -> list document;
  (** [c.ShouldBindJSON] and [c.ShouldBindQuery] into the program's requests *)
  bind_login : C -> res loginRequest;
  bind_register : C -> res registerRequest;
  bind_refresh : C -> res refreshRequest;
  bind_createPermission : C -> res createPermissionRequest;
  bind_deleteSessions : C -> res deleteSessionsRequest;
  bind_createUser : C -> res createUserRequest;
  bind_updateUser : C -> res updateUserRequest;
  bind_updateUserEmail : C -> res updateUserEmailRequest;
  bind_updateUserPassword : C -> res updateUserPasswordRequest;
  bind_updateUserRole : C -> res updateUserRoleRequest;
  bind_updateUserStatus : C -> res updateUserStatusRequest;
  bind_pagination : C -> res Pagination.PaginationInput;
  bind_listUsers : C -> res listUsersQuery;
}.

(** The part of the request the guards of a route and the metrics read. *)
Definition same_request {C} `{GinContext C} (c c' : C) : Prop :=
  (forall name, c_GetHeader c' name = c_GetHeader c name)
  /\ c_ClientIP c' = c_ClientIP c /\ c_FullPath c' = c_FullPath c /\ c_URLPath c' = c_URLPath c
  /\ (forall name, c_Param c' name = c_Param c name) /\ c_Method c' = c_Method c.

Class GinLaws (C : Type) `{GinContext C} : Prop := {
  get_set : forall c k p, c_Get (c_Set k p c) k = Some p;
  get_header : forall c h k, c_Get (c_SetResponseHeader h c) k = c_Get c k;
  aborted_abort : forall c, c_IsAborted (c_Abort c) = true;
  aborted_JSON : forall c st d, c_IsAborted (c_JSON st d c) = c_IsAborted c;
  aborted_set : forall c k p, c_IsAborted (c_Set k p c) = c_IsAborted c;
  aborted_header : forall c h, c_IsAborted (c_SetResponseHeader h c) = c_IsAborted c;
  written_JSON : forall c st d, c_Written (c_JSON st d c) = c_Written c ++ [d];
  (** the status is sent with the first document *)
  status_JSON : forall c st d, c_Written c = [] -> c_Status (c_JSON st d c) = st;
  written_abort : forall c, c_Written (c_Abort c) = c_Written c;
  written_set : forall c k p, c_Written (c_Set k p c) = c_Written c;
  written_header : forall c h, c_Written (c_SetResponseHeader h c) = c_Written c;
  written_limit : forall c n, c_Written (c_LimitBody n c) = c_Written c;
  aborted_limit : forall c n, c_IsAborted (c_LimitBody n c) = c_IsAborted c;
  status_abort : forall c, c_Status (c_Abort c) = c_Status c;
  request_set : forall c k p, same_request c (c_Set k p c);
  request_header : forall c h, same_request c (c_SetResponseHeader h c);
  request_JSON : forall c st d, same_request c (c_JSON st d c);
  request_abort : forall c, same_request c (c_Abort c);
  request_limit : forall c n, same_request c (c_LimitBody n c);
}.

#[export] Hint Rewrite @get_set @get_header @aborted_abort @aborted_JSON @aborted_set @aborted_header
  @written_JSON @written_abort @written_set @written_header @written_limit
  @aborted_limit @status_abort using typeclasses eauto : gin.

#[export] Instance same_request_preorder {C} `{GinContext C} : PreOrder same_request.
Proof.
  split.
  - intros c. repeat split.
  - intros a b c (H1 & H2 & H3 & H4 & H5 & H6) (G1 & G2 & G3 & G4 & G5 & G6). unfold same_request.
    rewrite G2, G3, G4, G6. repeat split; intros; rewrite ?G1, ?G5; auto.
Qed.

(** * Handlers *)

Section Handlers.
Context {C S : Type} `{GinContext C}.

(** The handlers of this program call [c.Next] at most once.  A handler is what
    it does up to that call and, when it makes it, what it does after the
    pending handlers have returned or panicked: [None] is a return without the
    call. *)
Definition HandlerFunc : Type := M (C * S) (option (res unit -> M (C * S) unit)).

(** [c.Next()] with nothing behind it: a panic goes on. *)
Definition then_return : res unit -> M (C * S) unit := of_res.
Definition Next : HandlerFunc := ret (Some then_return).
Definition return_ : HandlerFunc := ret None.

(** A handler that ends a chain. *)
Definition endpoint (h : M (C * S) unit) : HandlerFunc := do! h in return_.

(** [c.Next()] has the pending handlers run inside the calling handler; a
    handler that does not call it has them run when it returns; after
    [c.Abort()] the pending handlers are not run. *)
Fixpoint documented_chain (hs : list HandlerFunc) : M (C * S) unit :=
  match hs with
  | [] => ret tt
  | h :: hs' => fun st =>
      let pending := fun '(c, s) => if c_IsAborted c then (Ok tt, (c, s)) else documented_chain hs' (c, s) in
      match h st with
      | (Ok (Some after), st') => let '(r, st'') := pending st' in after r st''
      | (Ok None, st') => pending st'
      | (Err p, st') => (Err p, st')
      end
  end.

(** ** Statements of a handler *)

(** A use case or a port called from a handler; its result is inspected. *)
Definition call {A} (m : M S A) : M (C * S) (res A) :=
  fun '(c, s) => let '(r, s') := m s in (Ok r, (c, s')).
Definition ctx : M (C * S) C := fun '(c, s) => (Ok c, (c, s)).
Definition update (f : C -> C) : M (C * S) unit := fun '(c, s) => (Ok tt, (f c, s)).

(** [c.Header(name, value)] *)
Definition Header (name value : string) : M (C * S) unit :=
  update (fun c => c_SetResponseHeader (header_Set (c_ResponseHeader c) name value) c).

Definition JSON (status : Z) (d : document) : M (C * S) unit := update (c_JSON status d).

(** [c.AbortWithStatusJSON] *)
Definition AbortWithStatusJSON (status : Z) (d : document) : M (C * S) unit :=
  update (fun c => c_JSON status d (c_Abort c)).

Definition Abort : M (C * S) unit := update c_Abort.

(** * response.go *)

Context `{TextLibraries} (problemLocalizer : localizer).

Definition OK (d : data) : M (C * S) unit := JSON StatusOK (Data d).
Definition Created (d : data) : M (C * S) unit := JSON StatusCreated (Data d).

Definition problem_of (c : C) (descriptor : ProblemDescriptor) : Problem :=
  let requestLocale := resolveLocale (c_GetHeader c acceptLanguageHeader) in
  {| pb_Type := Type_ descriptor;
     pb_Title := translate problemLocalizer requestLocale (TitleKey descriptor) (Params descriptor);
     pb_Status := Status descriptor;
     pb_Detail := translate problemLocalizer requestLocale (DetailKey descriptor) (Params descriptor);
     pb_Instance := c_URLPath c;
     pb_Metadata := Metadata descriptor |}.

Definition WriteProblem (descriptor : ProblemDescriptor) : M (C * S) unit :=
  let! c := ctx in
  let requestLocale := resolveLocale (c_GetHeader c acceptLanguageHeader) in
  do! update (fun c => c_SetResponseHeader (setProblemHeaders (c_ResponseHeader c) requestLocale) c) in
  let problem := problem_of c descriptor in
  AbortWithStatusJSON (pb_Status problem) (ProblemDocument problem).

Definition BadRequest (detailKey : string) : M (C * S) unit :=
  WriteProblem (problem "/errors/validation" StatusBadRequest titleBadRequest detailKey).

Definition BadRequestWithParams (detailKey : string) (params : gmap string string) : M (C * S) unit :=
  WriteProblem {| Type_ := "/errors/validation"; Status := StatusBadRequest;
                  TitleKey := titleBadRequest; DetailKey := detailKey;
                  Params := params; Metadata := None |}.

Definition Unauthorized (detailKey : string) : M (C * S) unit :=
  WriteProblem (problem "/errors/unauthorized" StatusUnauthorized titleUnauthorized detailKey).

Definition NotFound : M (C * S) unit := WriteProblem (MapError ErrNotFound).
Definition Internal : M (C * S) unit := WriteProblem (MapError ErrInternal).

Definition Forbidden (detailKey : string) : M (C * S) unit :=
  WriteProblem (problem "/errors/forbidden" StatusForbidden titleForbidden detailKey).

Definition TooManyRequests (detailKey : string) (params : gmap string string)
    (metadata : RateMetadata) : M (C * S) unit :=
  WriteProblem {| Type_ := "/errors/rate-limit"; Status := StatusTooManyRequests;
                  TitleKey := titleTooManyRequests; DetailKey := detailKey;
                  Params := params; Metadata := Some metadata |}.

(** [if err != nil { WriteProblem(c, MapError(err)); return }] *)
Definition or_problem {A} (m : M S A) (k : A -> M (C * S) unit) : M (C * S) unit :=
  let! r := call m in
  match r with Err e => WriteProblem (MapError e) | Ok a => k a end.

(** ** Lemmas: running a handler a statement at a time *)

Lemma bind_ctx {B} (k : C -> M (C * S) B) c s : bind ctx k (c, s) = k c (c, s).
Proof. done. Qed.
Lemma bind_update {B} f (k : unit -> M (C * S) B) c s : bind (update f) k (c, s) = k tt (f c, s).
Proof. done. Qed.
Lemma bind_call {A B} (m : M S A) (k : res A -> M (C * S) B) c s r s' :
  m s = (r, s') -> bind (call m) k (c, s) = k r (c, s').
Proof. intros Hm. unfold bind, call. by rewrite Hm. Qed.
Lemma bind_Ok {T A B} (m : M T A) (k : A -> M T B) st a st' :
  m st = (Ok a, st') -> bind m k st = k a st'.
Proof. intros Hm. unfold bind. by rewrite Hm. Qed.
Lemma bind_of_res {A B} (a : A) (k : A -> M (C * S) B) st : bind (of_res (Ok a)) k st = k a st.
Proof. done. Qed.

(** A problem is written once, with its status, and ends the chain. *)
Lemma WriteProblem_run descriptor c s : GinLaws C ->
  exists c', WriteProblem descriptor (c, s) = (Ok tt, (c', s))
    /\ c_IsAborted c' = true
    /\ c_Written c' = c_Written c ++ [ProblemDocument (problem_of c descriptor)]
    /\ (c_Written c = [] -> c_Status c' = Status descriptor)
    /\ same_request c c'.
Proof.
  intros HL. unfold WriteProblem, bind, ctx, update, AbortWithStatusJSON. cbn beta iota.
  eexists. split; [reflexivity|].
  autorewrite with gin. split; [done|]. split; [done|]. split.
  - intros Hw. rewrite status_JSON; [done|]. by autorewrite with gin.
  - match goal with |- same_request c (c_JSON _ _ ?x) => transitivity x; [|apply request_JSON] end.
    match goal with |- same_request c (c_Abort ?x) => transitivity x; [|apply request_abort] end.
    repeat match goal with |- same_request c (c_SetResponseHeader _ ?x) => transitivity x; [|apply request_header] end.
    done.
Qed.

End Handlers.
Arguments HandlerFunc : clear implicits.

(** [gin.Engine]: runs the chain of a matched route. *)
Class GinEngine (C S : Type) := gin_Run : list (HandlerFunc C S) -> M (C * S) unit.
Class GinEngineLaws (C S : Type) `{GinContext C} `{GinEngine C S} : Prop :=
  gin_Run_documented : forall hs st, gin_Run hs st = documented_chain hs st.

(** * Chains of guards *)

Section Guards.
Context {C S : Type} `{GinContext C}.

(** A guard calls [c.Next] and nothing after it, or aborts: it never returns
    leaving the request to the handlers behind it unchecked, and never
    panics. *)
Inductive guard_result : res (option (res unit -> M (C * S) unit)) * (C * S) -> Prop :=
  | passes c s : c_IsAborted c = false -> guard_result (Ok (Some then_return), (c, s))
  | refuses c s : c_IsAborted c = true -> guard_result (Ok None, (c, s)).

Definition is_guard (h : HandlerFunc C S) : Prop :=
  forall st, c_IsAborted st.1 = false -> guard_result (h st).

(** The guards in their order, up to the first that refuses. *)
Fixpoint run_guards (gs : list (HandlerFunc C S)) (st : C * S) : bool * (C * S) :=
  match gs with
  | [] => (true, st)
  | g :: gs' =>
      match g st with
      | (Ok (Some _), st') => run_guards gs' st'
      | (_, st') => (false, st')
      end
  end.

(** A chain of guards before an endpoint is the guards, then the endpoint when
    all of them passed. *)
Lemma guarded_chain gs h st :
  Forall is_guard gs -> c_IsAborted st.1 = false ->
  documented_chain (gs ++ [endpoint h]) st
  = match run_guards gs st with
    | (true, st') => h st'
    | (false, st') => (Ok tt, st')
    end.
Proof.
  intros Hgs. revert st. induction Hgs as [|g gs Hg _ IH]; intros st Hst.
  - cbn. unfold endpoint, bind. destruct (h st) as [[[]|p] [c' s']]; cbn; [|done].
    by destruct (c_IsAborted c').
  - cbn [run_guards app documented_chain].
    destruct (Hg st Hst) as [c' s' Hc|c' s' Hc]; rewrite Hc; [|done].
    rewrite IH by done. destruct (run_guards gs (c', s')) as [[] st'']; [|done].
    by destruct (h st'') as [[[]|] ?].
Qed.

Lemma run_guards_app gs1 gs2 st :
  run_guards (gs1 ++ gs2) st
  = match run_guards gs1 st with (true, st') => run_guards gs2 st' | r => r end.
Proof.
  revert st. induction gs1 as [|g gs1 IH]; intros st; [done|]. cbn.
  destruct (g st) as [[[]|] st']; [apply IH|done|done].
Qed.

(** The guards that passed left the request unaborted. *)
Lemma run_guards_not_aborted gs st st' :
  Forall is_guard gs -> c_IsAborted st.1 = false ->
  run_guards gs st = (true, st') -> c_IsAborted st'.1 = false.
Proof.
  intros Hgs. revert st. induction Hgs as [|g gs Hg _ IH]; intros st Hst; cbn.
  - by intros [= <-].
  - destruct (Hg st Hst) as [c' s' Hc|c' s' Hc]; [by apply IH|discriminate].
Qed.

End Guards.
