(* ===== verification/Middleware.v ===== *)
(** internal/delivery/http/middleware: authentication, fresh authorization,
    rate limits, recovery, the body limit and the request metrics, on the ports
    of the use cases. *)
From S2P Require Export Gin.
Import Response Dto.

(** * The ports of the delivery layer (usecase/*/interface.go) *)

Class AuthenticationUseCase (S : Type) := {
  uc_Signup : Authentication.RegisterInput -> M S Authentication.UserOutput;
  uc_Login : Authentication.LoginInput -> M S Authentication.LoginOutput;
  uc_Logout : string -> string -> M S unit;
  uc_Refresh : Authentication.RefreshInput -> M S Authentication.RefreshOutput;
}.

Class AuthorizationUseCase (S : Type) := {
  uc_AuthorizeFresh : Authorization.Principal -> Permission.Permission -> M S Authorization.Principal;
  uc_AuthorizeFreshIdentity : Authorization.Principal -> M S Authorization.Principal;
}.

Class SessionUseCase (S : Type) := {
  uc_ValidateSession : SessionUC.ValidateInput -> M S bool;
  uc_GetSessionsByUser : string -> string -> Z -> Z -> M S (list SessionUC.SessionOutput * Z);
  uc_DeleteSessions : SessionUC.DeleteSessionsInput -> M S unit;
}.

Class UserUseCase (S : Type) := {
  uc_CreateUser : UserUC.CreateInput -> M S UserUC.UserOutput;
  uc_GetUser : string -> M S UserDetail;
  uc_GetUserslist : UserUC.GetListInput -> M S UserListResult;
  uc_DeleteUser : string -> M S unit;
  uc_UpdateUser : UserUC.UpdateInput -> M S unit;
  uc_ChangeEmail : UserUC.UpdateEmailInput -> M S unit;
  uc_ChangePassword : UserUC.UpdatePassInput -> M S unit;
  uc_ChangeRole : UserUC.UpdateRoleInput -> M S unit;
  uc_ChangeStatus : UserUC.UpdateStatusInput -> M S unit;
}.

Class PermissionUseCase (S : Type) := {
  uc_CreatePermission : PermissionUC.CreateInput -> M S PermissionUC.PermissionOutput;
  uc_GetPermissions : Z -> Z -> M S (list PermissionUC.PermissionOutput * Z);
  uc_GetPermissionsByRole : Z -> M S (list PermissionUC.PermissionOutput);
  uc_DeletePermission : string -> M S unit;
}.

(** The part of service.MetricsService the middleware uses; a duration is in
    nanoseconds. *)
Class HTTPMetrics (S : Type) := {
  RecordHTTPActiveRequests : bool -> M S unit;
  RecordHTTPRequest : Z -> string -> string -> string -> M S unit;
}.

Module Middleware.

Record RateLimit := { Limit : Z; Window : Z }.
Record RateLimitConfig := {
  Auth : RateLimit; Public : RateLimit; ProtectedIP : RateLimit; Private : RateLimit;
}.

Definition principalKey : string := "verified_principal".

Section Handlers.
Context {C S : Type} `{GinContext C} `{TextLibraries} (problemLocalizer : localizer).
Context `{JWTService S} `{SessionUseCase S} `{AuthorizationUseCase S} `{RateLimiter S}
  `{Environment S} `{HTTPMetrics S}.

#[local] Notation WriteProblem := (WriteProblem problemLocalizer).
#[local] Notation Unauthorized := (Unauthorized problemLocalizer).

(** ** context_keys.go *)

Definition SetPrincipal (principal : Authorization.Principal) : M (C * S) unit :=
  update (c_Set principalKey principal).

Definition principal_in (c : C) : option Authorization.Principal :=
  match c_Get c principalKey with
  | Some principal => if Authorization.IsValid principal then Some principal else None
  | None => None
  end.
Definition PrincipalFrom : M (C * S) (option Authorization.Principal) :=
  let! c := ctx in ret (principal_in c).

(** ** auth.go *)

(** [...; c.Abort(); return] *)
Definition refuse (p : M (C * S) unit) : HandlerFunc C S := do! p in do! Abort in return_.

Definition Required : HandlerFunc C S :=
  let! c := ctx in
  let auth := c_GetHeader c "Authorization" in
  if (auth =s "") || negb (HasPrefix auth "Bearer ")
  then refuse (Unauthorized DetailMissingAuthorizationHeader)
  else
    let token := TrimPrefix auth "Bearer " in
    let! parsed := call (ParseAndValidate token) in
    match parsed with
    | Err e => refuse (WriteProblem (MapError e))
    | Ok claims =>
        if negb (Claims.IsAccess claims) then refuse (Unauthorized DetailAccessTokenRequired)
        else
          let! validated := call (uc_ValidateSession
            {| SessionUC.vi_UserID := Claims.UserID claims;
               SessionUC.vi_SessionID := Claims.SessionID claims;
               SessionUC.vi_JTI := Claims.JTI claims;
               SessionUC.vi_CredentialVersion := Claims.CredentialVersion claims |}) in
          match validated with
          | Err e => refuse (WriteProblem (MapError e))
          | Ok false => refuse (Unauthorized DetailTokenRevoked)
          | Ok true =>
              match Authorization.NewPrincipal (Claims.UserID claims) (Claims.SessionID claims)
                      (Claims.CredentialVersion claims) (Claims.Role claims)
                      (Claims.Permissions claims) with
              | Err _ => refuse (WriteProblem (MapError ErrTokenInvalid))
              | Ok principal => do! SetPrincipal principal in Next
              end
          end
    end.

(** ** permissions.go *)

Definition with_principal (k : Authorization.Principal -> HandlerFunc C S) : HandlerFunc C S :=
  let! found := PrincipalFrom in
  match found with
  | None => refuse (Unauthorized DetailAuthenticationRequired)
  | Some principal => k principal
  end.

Definition RequireSnapshot (required : Permission.Permission) : HandlerFunc C S :=
  with_principal (fun principal =>
    if negb (Permission.Has (Authorization.permissions principal) required)
    then refuse (WriteProblem (MapError ErrPermissionDenied))
    else Next).

Definition FreshIdentity : HandlerFunc C S :=
  with_principal (fun principal =>
    let! checked := call (uc_AuthorizeFreshIdentity principal) in
    match checked with
    | Err e => refuse (WriteProblem (MapError e))
    | Ok fresh => do! SetPrincipal fresh in Next
    end).

Definition RequireFreshAuthorization (required : Permission.Permission) : HandlerFunc C S :=
  with_principal (fun principal =>
    let! checked := call (uc_AuthorizeFresh principal required) in
    match checked with
    | Err e => refuse (WriteProblem (MapError e))
    | Ok fresh => do! SetPrincipal fresh in Next
    end).

(** ** rate_limit.go *)

Definition second : Z := 1000000000.

Definition allow (actorType actorID : string) (config : RateLimit) : M (C * S) bool :=
  let! c := ctx in
  let! answered := call (Allow actorType actorID (c_FullPath c) (Limit config) (Window config)) in
  match answered with
  | Err e => do! WriteProblem (MapError e) in ret false
  | Ok (allowed, retryAfter, currentCount) =>
      let remaining := int64 (Limit config - currentCount) in
      let remaining := if remaining <? 0 then 0 else remaining in
      do! Header "X-RateLimit-Limit" (itoa (Limit config)) in
      do! Header "X-RateLimit-Remaining" (itoa remaining) in
      let! clock := call time_Now in
      let! now := of_res clock in
      let resetTimestamp := unix_seconds (now + retryAfter) in
      do! Header "X-RateLimit-Reset" (itoa resetTimestamp) in
      let rounded := duration_String (duration_round retryAfter second) in
      let meta := {| limit := Limit config; window := duration_String (Window config);
                     retry_after := rounded |} in
      if negb allowed then
        do! Header "Retry-After" (itoa (duration_seconds retryAfter)) in
        do! TooManyRequests problemLocalizer DetailRateLimitExceeded {["RetryAfter" := rounded]} meta in
        ret false
      else ret true
  end.

Definition Handler (config : RateLimit) : HandlerFunc C S :=
  let! c := ctx in
  let! allowed := allow "ip" (c_ClientIP c) config in
  if allowed then Next else return_.

Definition Authenticated (config : RateLimit) : HandlerFunc C S :=
  let! found := PrincipalFrom in
  match found with
  | None => do! Unauthorized DetailAuthenticationRequired in return_
  | Some principal =>
      let! allowed := allow "user" (Authorization.userID principal) config in
      if allowed then Next else return_
  end.

(** ** recovery.go, request_body_limit.go, metrics.go *)

Definition Recovery : HandlerFunc C S :=
  ret (Some (fun r =>
    match r with
    | Err _ => do! Internal problemLocalizer in Abort
    | Ok _ => ret tt
    end)).

Definition RequestBodyLimit (maxBytes : Z) : HandlerFunc C S :=
  do! update (fun c => if c_HasBody c then c_LimitBody maxBytes c else c) in Next.

(** The path label: the pattern of the route, or the path of the request where
    no route matched. *)
Definition request_path (c : C) : string :=
  if c_FullPath c =s "" then c_URLPath c else c_FullPath c.

Definition MetricsHandler : HandlerFunc C S :=
  let! clock := call time_Now in
  let! start := of_res clock in
  let! recorded := call (RecordHTTPActiveRequests true) in
  do! of_res recorded in
  ret (Some (fun r =>
    match r with
    | Err p => fail p
    | Ok _ =>
        let! recorded := call (RecordHTTPActiveRequests false) in
        do! of_res recorded in
        let! clock := call time_Now in
        let! now := of_res clock in
        let! c := ctx in
        let! recorded := call (RecordHTTPRequest (now - start) (c_Method c) (request_path c) (itoa (c_Status c))) in
        of_res recorded
    end)).

End Handlers.
End Middleware.
