(* ===== verification/Guards.v ===== *)
(** What the guards of a route decide, as a plain computation on the ports
    ([admission]), and that the middleware implements it: the chain of a
    protected route runs its endpoint with the admitted principal, or writes
    one problem and nothing else runs. *)
From S2P Require Export Middleware.
Import Response Dto Middleware.

(** * Admission: the abstract specification *)

(** A decision: a value, or the problem the request is refused with. *)
Definition decision (S A : Type) : Type := S -> (A + ProblemDescriptor) * S.

Definition decide_bind {S A B} (d : decision S A) (k : A -> decision S B) : decision S B :=
  fun s => match d s with (inl a, s') => k a s' | (inr p, s') => (inr p, s') end.

Definition admit_result {S A} (m : M S A) : decision S A :=
  fun s => match m s with (Ok a, s') => (inl a, s') | (Err e, s') => (inr (MapError e), s') end.

Definition unauthorized (detail : string) : ProblemDescriptor :=
  problem "/errors/unauthorized" StatusUnauthorized titleUnauthorized detail.

Section Spec.
Context {S : Type} `{JWTService S} `{SessionUseCase S} `{AuthorizationUseCase S} `{RateLimiter S}
  `{Environment S}.

Definition over_limit (config : RateLimit) (retryAfter : Z) : ProblemDescriptor :=
  let rounded := duration_String (duration_round retryAfter second) in
  {| Type_ := "/errors/rate-limit"; Status := StatusTooManyRequests;
     TitleKey := titleTooManyRequests; DetailKey := DetailRateLimitExceeded;
     Params := {["RetryAfter" := rounded]};
     Metadata := Some {| limit := Limit config; window := duration_String (Window config);
                         retry_after := rounded |} |}.

(** The limiter admits; the clock is read for the reset header. *)
Definition limited (actorType actorID path : string) (config : RateLimit) : decision S unit :=
  fun s =>
    match Allow actorType actorID path (Limit config) (Window config) s with
    | (Err e, s1) => (inr (MapError e), s1)
    | (Ok (allowed, retryAfter, _), s1) =>
        let s2 := (time_Now s1).2 in
        (if (allowed : bool) then inl tt else inr (over_limit config retryAfter), s2)
    end.

(** The session the claims name is the user's and current. *)
Definition live_session (claims : Claims.JWTClaims) : decision S unit :=
  decide_bind (admit_result (uc_ValidateSession
    {| SessionUC.vi_UserID := Claims.UserID claims;
       SessionUC.vi_SessionID := Claims.SessionID claims;
       SessionUC.vi_JTI := Claims.JTI claims;
       SessionUC.vi_CredentialVersion := Claims.CredentialVersion claims |}))
    (fun live s => (if (live : bool) then inl tt else inr (unauthorized DetailTokenRevoked), s)).

(** A valid access token of a live session. *)
Definition authenticated (auth : string) : decision S Authorization.Principal :=
  if (auth =s "") || negb (HasPrefix auth "Bearer ")
  then fun s => (inr (unauthorized DetailMissingAuthorizationHeader), s)
  else
    decide_bind (admit_result (ParseAndValidate (TrimPrefix auth "Bearer "))) (fun claims =>
      if negb (Claims.IsAccess claims) then fun s => (inr (unauthorized DetailAccessTokenRequired), s)
      else
        decide_bind (live_session claims) (fun _ s =>
          match Authorization.NewPrincipal (Claims.UserID claims) (Claims.SessionID claims)
                  (Claims.CredentialVersion claims) (Claims.Role claims) (Claims.Permissions claims) with
          | Ok principal => (inl principal, s)
          | Err _ => (inr (MapError ErrTokenInvalid), s)
          end)).

(** The authoritative check of a route, after authentication. *)
Inductive check :=
  | NoCheck
  | CheckIdentity
  | CheckPermission (required : Permission.Permission).

Definition checked (k : check) (p : Authorization.Principal) : decision S Authorization.Principal :=
  match k with
  | NoCheck => fun s => (inl p, s)
  | CheckIdentity => admit_result (uc_AuthorizeFreshIdentity p)
  | CheckPermission required => admit_result (uc_AuthorizeFresh p required)
  end.

(** Whom a protected route admits. *)
Definition admission (rl : RateLimitConfig) (k : check) (ip path auth : string)
    : decision S Authorization.Principal :=
  decide_bind (limited "ip" ip path (ProtectedIP rl)) (fun _ =>
  decide_bind (authenticated auth) (fun p =>
  decide_bind (limited "user" (Authorization.userID p) path (Private rl)) (fun _ =>
  checked k p))).

End Spec.

(** * The middleware implements it *)

Section Implementation.
Context {C S : Type} `{GinContext C} {GL : GinLaws C} `{TextLibraries} (problemLocalizer : localizer).
Context `{JWTService S} `{SessionUseCase S} `{AuthorizationUseCase S} `{RateLimiter S}
  `{Environment S}.

(** The clock can be read. *)
Definition clock_total : Prop := forall s : S, exists t s', time_Now s = (Ok t, s').
Context (Hclock : clock_total).

(** What a guard that passes leaves as it was. *)
Record passed (c c' : C) : Prop := {
  passed_request : same_request c c';
  passed_aborted : c_IsAborted c' = c_IsAborted c;
  passed_written : c_Written c' = c_Written c;
}.

(** The response of a refusal: the problem, once, with its status. *)
Record refused (c : C) (d : ProblemDescriptor) (c' : C) : Prop := {
  refused_aborted : c_IsAborted c' = true;
  refused_written : c_Written c' = c_Written c ++ [ProblemDocument (problem_of problemLocalizer c d)];
  refused_status : c_Written c = [] -> c_Status c' = Status d;
  refused_request : same_request c c';
}.

#[export] Instance passed_preorder : PreOrder passed.
Proof.
  split.
  - intros c. by split.
  - intros a b c [R1 A1 W1] [R2 A2 W2]. split; [by transitivity b|congruence|congruence].
Qed.

Lemma passed_header c h : passed c (c_SetResponseHeader h c).
Proof. split; [apply request_header|by autorewrite with gin|by autorewrite with gin]. Qed.

Lemma passed_set c p : passed c (c_Set principalKey p c).
Proof. split; [apply request_set|by autorewrite with gin|by autorewrite with gin]. Qed.

Lemma problem_of_same c c' d :
  same_request c c' -> problem_of problemLocalizer c' d = problem_of problemLocalizer c d.
Proof. intros (Hh & _ & _ & Hu & _). unfold problem_of. by rewrite Hh, Hu. Qed.

Lemma passed_refused c c1 d c' : passed c c1 -> refused c1 d c' -> refused c d c'.
Proof.
  intros [R _ W] [Ra Rw Rs Rr]. split; [done| | |].
  - by rewrite Rw, W, (problem_of_same _ _ _ R).
  - rewrite <- W. exact Rs.
  - by transitivity c1.
Qed.

Lemma WriteProblem_refuses d c (s : S) :
  exists c', WriteProblem (S := S) problemLocalizer d (c, s) = (Ok tt, (c', s)) /\ refused c d c'.
Proof.
  destruct (WriteProblem_run (S := S) problemLocalizer d c s GL) as (c' & Hr & Ha & Hw & Hs & Hq).
  exists c'. split; [exact Hr|]. by split.
Qed.

Lemma refuse_refuses d c (s : S) :
  exists c', refuse (WriteProblem problemLocalizer d) (c, s) = (Ok None, (c', s)) /\ refused c d c'.
Proof.
  destruct (WriteProblem_refuses d c s) as (c1 & Hr & [Ha Hw Hs Hq]).
  exists (c_Abort c1). split.
  - unfold refuse, bind. by rewrite Hr.
  - split; autorewrite with gin; auto. transitivity c1; [done|apply request_abort].
Qed.

(** A guard decides as a specification on the request says, and sets the
    principal it decides. *)
Definition decides (g : HandlerFunc C S) (spec : C -> decision S (option Authorization.Principal)) : Prop :=
  forall c s, c_IsAborted c = false ->
  match spec c s with
  | (inl o, s') => exists c', g (c, s) = (Ok (Some then_return), (c', s')) /\ passed c c'
      /\ c_Get c' principalKey = match o with Some p => Some p | None => c_Get c principalKey end
  | (inr d, s') => exists c', g (c, s) = (Ok None, (c', s')) /\ refused c d c'
  end.

Lemma decides_is_guard g spec : decides g spec -> is_guard g.
Proof.
  intros Hg [c s] Hc. cbn in Hc. specialize (Hg c s Hc). destruct (spec c s) as [[o|d] s'].
  - destruct Hg as (c' & -> & Hp & _). constructor. by rewrite (passed_aborted _ _ Hp).
  - destruct Hg as (c' & -> & Hr). constructor. by destruct Hr.
Qed.

(** ** Each guard *)

Lemma allow_decides actorType actorID config c s :
  match limited actorType actorID (c_FullPath c) config s with
  | (inl _, s') => exists c', allow problemLocalizer actorType actorID config (c, s) = (Ok true, (c', s'))
      /\ passed c c' /\ c_Get c' principalKey = c_Get c principalKey
  | (inr d, s') => exists c', allow problemLocalizer actorType actorID config (c, s) = (Ok false, (c', s'))
      /\ refused c d c'
  end.
Proof.
  unfold limited, allow. rewrite bind_ctx.
  destruct (Allow actorType actorID (c_FullPath c) (Limit config) (Window config) s)
    as [[[[allowed ra] n]|e] s1] eqn:HA; rewrite (bind_call _ _ _ _ _ _ HA).
  2:{ destruct (WriteProblem_refuses (MapError e) c s1) as (c' & Hr & Hrf).
      rewrite (bind_Ok _ _ _ _ _ Hr). by exists c'. }
  unfold Header. rewrite !bind_update.
  destruct (Hclock s1) as (t & s2 & Ht). rewrite (bind_call _ _ _ _ _ _ Ht), bind_of_res, bind_update.
  rewrite Ht. cbn [snd].
  match goal with |- context [c_SetResponseHeader ?h ?x] => set (c3 := c_SetResponseHeader h x) end.
  assert (Hp : passed c c3).
  { subst c3. do 2 (etransitivity; [|apply passed_header]). apply passed_header. }
  assert (Hget : c_Get c3 principalKey = c_Get c principalKey) by (subst c3; by autorewrite with gin).
  clearbody c3. destruct allowed; cbn [negb].
  - exists c3. split; [reflexivity|]. by split.
  - rewrite bind_update.
    match goal with |- context [TooManyRequests _ _ _ _] =>
      destruct (WriteProblem_refuses (over_limit config ra)
                  (c_SetResponseHeader (header_Set (c_ResponseHeader c3) "Retry-After"
                                          (itoa (duration_seconds ra))) c3) s2) as (c' & Hr & Hrf) end.
    rewrite (bind_Ok _ _ _ _ _ Hr). exists c'. split; [reflexivity|].
    eapply passed_refused; [|exact Hrf]. etransitivity; [exact Hp|apply passed_header].
Qed.

(** The specification of each guard. *)
Definition spec_ip (rl : RateLimit) (c : C) : decision S (option Authorization.Principal) :=
  decide_bind (limited "ip" (c_ClientIP c) (c_FullPath c) rl) (fun _ s => (inl None, s)).

Definition spec_token (c : C) : decision S (option Authorization.Principal) :=
  decide_bind (authenticated (c_GetHeader c "Authorization")) (fun p s => (inl (Some p), s)).

Definition spec_principal {A} (c : C) (k : Authorization.Principal -> decision S A) : decision S A :=
  match principal_in c with
  | Some p => k p
  | None => fun s => (inr (unauthorized DetailAuthenticationRequired), s)
  end.

Definition spec_user (rl : RateLimit) (c : C) : decision S (option Authorization.Principal) :=
  spec_principal c (fun p =>
    decide_bind (limited "user" (Authorization.userID p) (c_FullPath c) rl) (fun _ s => (inl None, s))).

Definition spec_check (k : check) (c : C) : decision S (option Authorization.Principal) :=
  spec_principal c (fun p => decide_bind (checked k p) (fun p s => (inl (Some p), s))).

Lemma Handler_decides rl : decides (Handler problemLocalizer rl) (spec_ip rl).
Proof.
  intros c s Hc. unfold Handler, spec_ip, decide_bind. rewrite bind_ctx.
  pose proof (allow_decides "ip" (c_ClientIP c) rl c s) as Ha.
  destruct (limited _ _ _ _ s) as [[[]|d] s']; destruct Ha as (c' & Hr & Ha);
    rewrite (bind_Ok _ _ _ _ _ Hr); exists c'; (split; [reflexivity|exact Ha]).
Qed.

Lemma decides_refuse d c (s : S) :
  exists c', refuse (WriteProblem problemLocalizer d) (c, s) = (Ok None, (c', s)) /\ refused c d c'.
Proof. apply refuse_refuses. Qed.

Lemma set_and_pass p c (s : S) :
  exists c', bind (SetPrincipal p) (fun _ => Next) (c, s) = (Ok (Some then_return), (c', s))
    /\ passed c c' /\ c_Get c' principalKey = Some p.
Proof.
  exists (c_Set principalKey p c). split; [reflexivity|]. split; [apply passed_set|].
  by autorewrite with gin.
Qed.

Lemma Required_decides : decides (Required problemLocalizer) spec_token.
Proof.
  intros c s Hc. unfold Required, spec_token, authenticated. rewrite bind_ctx. cbn zeta.
  destruct (_ || _); [apply refuse_refuses|]. unfold decide_bind at 1 2, admit_result at 1.
  destruct (ParseAndValidate _ s) as [[claims|e] s1] eqn:HP; rewrite (bind_call _ _ _ _ _ _ HP);
    [|apply refuse_refuses].
  destruct (negb (Claims.IsAccess claims)); [apply refuse_refuses|].
  unfold decide_bind at 1, live_session, decide_bind at 1, admit_result.
  destruct (uc_ValidateSession _ s1) as [[[]|e] s2] eqn:HV; rewrite (bind_call _ _ _ _ _ _ HV);
    try apply refuse_refuses.
  destruct (Authorization.NewPrincipal _ _ _ _ _) as [p|e] eqn:HN; [apply set_and_pass|apply refuse_refuses].
Qed.

Lemma Authenticated_decides rl : decides (Authenticated problemLocalizer rl) (spec_user rl).
Proof.
  intros c s Hc. unfold Authenticated, spec_user, spec_principal, PrincipalFrom.
  rewrite bind_assoc, bind_ctx, bind_ret_l. destruct (principal_in c) as [p|].
  - unfold decide_bind. pose proof (allow_decides "user" (Authorization.userID p) rl c s) as Ha.
    destruct (limited _ _ _ _ s) as [[[]|d] s']; destruct Ha as (c' & Hr & Ha);
      rewrite (bind_Ok _ _ _ _ _ Hr); exists c'; (split; [reflexivity|exact Ha]).
  - destruct (WriteProblem_refuses (unauthorized DetailAuthenticationRequired) c s) as (c' & Hr & Hrf).
    change (Unauthorized problemLocalizer DetailAuthenticationRequired)
      with (WriteProblem (C := C) (S := S) problemLocalizer (unauthorized DetailAuthenticationRequired)).
    rewrite (bind_Ok _ _ _ _ _ Hr). by exists c'.
Qed.

(** A guard on the principal, then an authoritative check. *)
Definition check_guard (k : check) : option (HandlerFunc C S) :=
  match k with
  | NoCheck => None
  | CheckIdentity => Some (FreshIdentity problemLocalizer)
  | CheckPermission required => Some (RequireFreshAuthorization problemLocalizer required)
  end.

Lemma check_guard_decides k g : check_guard k = Some g -> decides g (spec_check k).
Proof.
  intros Hk c s Hc. unfold spec_check, spec_principal.
  destruct k; cbn in Hk; [discriminate| |]; injection Hk as <-;
    unfold FreshIdentity, RequireFreshAuthorization, with_principal, PrincipalFrom;
    rewrite bind_assoc, bind_ctx, bind_ret_l;
    (destruct (principal_in c) as [p|]; [|apply refuse_refuses]);
    unfold decide_bind, checked, admit_result;
    match goal with |- context [bind (call ?m) _ (c, s)] =>
      destruct (m s) as [[fresh|e] s1] eqn:HF end; rewrite (bind_call _ _ _ _ _ _ HF);
    [apply set_and_pass|apply refuse_refuses|apply set_and_pass|apply refuse_refuses].
Qed.

(** ** The chain of a protected route *)

Definition check_guards (k : check) : list (HandlerFunc C S) :=
  match check_guard k with Some g => [g] | None => [] end.

Definition protected_guards (rl : RateLimitConfig) (k : check) : list (HandlerFunc C S) :=
  [Handler problemLocalizer (ProtectedIP rl); Required problemLocalizer;
   Authenticated problemLocalizer (Private rl)] ++ check_guards k.

(** One guard of a chain. *)
Lemma run_guards_decides g spec gs c s :
  decides g spec -> c_IsAborted c = false ->
  match spec c s with
  | (inl o, s') => exists c', run_guards (g :: gs) (c, s) = run_guards gs (c', s') /\ passed c c'
      /\ c_IsAborted c' = false
      /\ c_Get c' principalKey = match o with Some p => Some p | None => c_Get c principalKey end
  | (inr d, s') => exists c', run_guards (g :: gs) (c, s) = (false, (c', s')) /\ refused c d c'
  end.
Proof.
  intros Hg Hc. specialize (Hg c s Hc). cbn [run_guards]. destruct (spec c s) as [[o|d] s'].
  - destruct Hg as (c' & -> & Hp & Hget). exists c'. rewrite (passed_aborted _ _ Hp). auto.
  - destruct Hg as (c' & -> & Hr). eauto.
Qed.

Lemma protected_guards_are_guards rl k : Forall is_guard (protected_guards rl k).
Proof.
  unfold protected_guards, check_guards. apply Forall_app. split.
  - repeat constructor; eapply decides_is_guard;
      [apply Handler_decides|apply Required_decides|apply Authenticated_decides].
  - destruct (check_guard k) eqn:Hk; repeat constructor.
    eapply decides_is_guard, check_guard_decides, Hk.
Qed.

Lemma authenticated_valid auth s p s' :
  authenticated auth s = (inl p, s') -> Authorization.IsValid p = true.
Proof.
  unfold authenticated. destruct (_ || _); [discriminate|]. unfold decide_bind at 1, admit_result.
  destruct (ParseAndValidate _ s) as [[claims|e] s1]; [|discriminate].
  destruct (negb _); [discriminate|]. unfold decide_bind.
  destruct (live_session claims s1) as [[[]|d] s2]; [|discriminate].
  destruct (Authorization.NewPrincipal _ _ _ _ _) as [q|e] eqn:HN; [|discriminate].
  intros [= <- _]. exact (proj2 (Authorization.NewPrincipal_Ok _ _ _ _ _ _ HN)).
Qed.

(** What the guards do, in the terms of the specification. *)
Lemma protected_guards_run rl k c s :
  c_IsAborted c = false ->
  match admission rl k (c_ClientIP c) (c_FullPath c) (c_GetHeader c "Authorization") s with
  | (inl p, s') => exists c', run_guards (protected_guards rl k) (c, s) = (true, (c', s'))
      /\ passed c c' /\ c_Get c' principalKey = Some p
  | (inr d, s') => exists c', run_guards (protected_guards rl k) (c, s) = (false, (c', s'))
      /\ refused c d c'
  end.
Proof.
  intros Hc. unfold admission, protected_guards. cbn [app].
  pose proof (run_guards_decides _ _ ([Required problemLocalizer; Authenticated problemLocalizer (Private rl)]
                ++ check_guards k) c s (Handler_decides (ProtectedIP rl)) Hc) as E1.
  unfold spec_ip, decide_bind in E1. cbn [app] in E1. unfold decide_bind at 1.
  destruct (limited "ip" _ _ _ s) as [[[]|d] s1].
  2:{ destruct E1 as (c1 & -> & Hr). eauto. }
  destruct E1 as (c1 & -> & P1 & A1 & _). destruct (passed_request _ _ P1) as (Q1 & _ & Q2 & _).
  pose proof (run_guards_decides _ _ (Authenticated problemLocalizer (Private rl) :: check_guards k)
                c1 s1 Required_decides A1) as E2.
  unfold spec_token, decide_bind in E2. rewrite Q1 in E2. unfold decide_bind at 1. cbn [app].
  destruct (authenticated _ s1) as [[p|d] s2] eqn:HA.
  2:{ destruct E2 as (c2 & -> & Hr). eauto using passed_refused. }
  destruct E2 as (c2 & -> & P2 & A2 & G2). destruct (passed_request _ _ P2) as (_ & _ & Q3 & _).
  apply authenticated_valid in HA.
  assert (Hin : principal_in c2 = Some p) by (unfold principal_in; by rewrite G2, HA).
  pose proof (run_guards_decides _ _ (check_guards k) c2 s2 (Authenticated_decides (Private rl)) A2) as E3.
  unfold spec_user, spec_principal, decide_bind in E3. rewrite Hin, Q3, Q2 in E3. unfold decide_bind.
  assert (P02 : passed c c2) by by transitivity c1.
  destruct (limited "user" _ _ _ s2) as [[[]|d] s3].
  2:{ destruct E3 as (c3 & -> & Hr). eauto using passed_refused. }
  destruct E3 as (c3 & -> & P3 & A3 & G3). rewrite G2 in G3.
  assert (P03 : passed c c3) by by transitivity c2.
  unfold check_guards. destruct (check_guard k) as [g|] eqn:Hk.
  - pose proof (run_guards_decides _ _ [] c3 s3 (check_guard_decides k g Hk) A3) as E4.
    unfold spec_check, spec_principal, principal_in, decide_bind in E4. rewrite G3, HA in E4.
    destruct (checked k p s3) as [[q|d] s4].
    + destruct E4 as (c4 & -> & P4 & A4 & G4). exists c4. split; [done|]. split; [by transitivity c3|done].
    + destruct E4 as (c4 & -> & Hr). eauto using passed_refused.
  - destruct k; cbn in Hk; [|discriminate|discriminate]. cbn. eauto.
Qed.

(** C6. The middleware of a protected route implements the admission
    specification, for every request, state, limiter, token and session port
    and every handler behind it: gin's chain of the rate limit by address, the
    token and session check, the rate limit by user and the authoritative
    check runs the handler exactly when the specification admits a principal,
    on the state the specification leaves and with that principal set; in
    every other case the handler does not run, and the response is one problem
    document, the one the specification refuses with, with its status. *)
Theorem protected_chain_refines_admission rl k (h : M (C * S) unit) c s :
  c_IsAborted c = false ->
  match admission rl k (c_ClientIP c) (c_FullPath c) (c_GetHeader c "Authorization") s with
  | (inl p, s') => exists c', documented_chain (protected_guards rl k ++ [endpoint h]) (c, s) = h (c', s')
      /\ passed c c' /\ c_Get c' principalKey = Some p
  | (inr d, s') => exists c', documented_chain (protected_guards rl k ++ [endpoint h]) (c, s) = (Ok tt, (c', s'))
      /\ refused c d c'
  end.
Proof.
  intros Hc. rewrite guarded_chain; [|apply protected_guards_are_guards|exact Hc].
  pose proof (protected_guards_run rl k c s Hc) as Hr.
  destruct (admission _ _ _ _ _ s) as [[p|d] s']; destruct Hr as (c' & -> & Hr); eauto.
Qed.

End Implementation.
