(* ===== verification/Handlers.v ===== *)
(** internal/delivery/http/handlers: the endpoints, on the ports of the use
    cases.  The request log is left out: no code reads it. *)
From S2P Require Export Guards.
Import Response Dto Middleware.

(** [uuid.Parse] of github.com/google/uuid: whether it accepts. *)
Class UUIDParser := uuid_Parse : string -> bool.

Module Handlers.
Section Endpoints.
Context {C S : Type} `{GinContext C} `{TextLibraries} (problemLocalizer : localizer).
Context `{AuthenticationUseCase S} `{SessionUseCase S} `{UserUseCase S} `{PermissionUseCase S}
  `{UUIDParser}.

#[local] Notation BadRequest := (BadRequest problemLocalizer).
#[local] Notation BadRequestWithParams := (BadRequestWithParams problemLocalizer).
#[local] Notation Unauthorized := (Unauthorized problemLocalizer).
#[local] Notation or_problem := (or_problem problemLocalizer).

(** [if err := c.ShouldBind...(&request); err != nil { BadRequest(...); return }] *)
Definition bound {A} (bind_ : C -> res A) (detail : string) (k : A -> M (C * S) unit) : M (C * S) unit :=
  let! c := ctx in
  match bind_ c with Err _ => BadRequest detail | Ok request => k request end.

(** [principal, ok := PrincipalFrom(c); if !ok { Unauthorized(...); return }] *)
Definition with_authenticated (k : Authorization.Principal -> M (C * S) unit) : M (C * S) unit :=
  let! found := PrincipalFrom in
  match found with
  | None => Unauthorized DetailAuthenticationContextMissing
  | Some principal => k principal
  end.

(** [NewPaginationMeta], whose division may panic. *)
Definition paged (total : Z) (input : Pagination.PaginationInput)
    (k : Pagination.PaginationMeta -> data) : M (C * S) unit :=
  let! meta := of_res (Pagination.NewPaginationMeta total input) in OK (k meta).

(** ** auth_handler.go *)

Definition Login : M (C * S) unit :=
  bound bind_login DetailInvalidRequestPayload (fun request =>
    let! c := ctx in
    or_problem (uc_Login {| Authentication.lg_Email := lq_Email request;
                            Authentication.lg_Password := lq_Password request;
                            Authentication.lg_IP := c_ClientIP c;
                            Authentication.lg_Device := c_GetHeader c "User-Agent" |})
      (fun output => OK (DLogin (newLoginResponse output)))).

Definition Register : M (C * S) unit :=
  bound bind_register DetailInvalidRequestPayload (fun request =>
    or_problem (uc_Signup {| Authentication.rg_Email := rq_Email request;
                             Authentication.rg_Password := rq_Password request |})
      (fun output => Created (DUser (newAuthUserResponse output)))).

Definition Refresh : M (C * S) unit :=
  bound bind_refresh DetailInvalidRequestPayload (fun request =>
    let! c := ctx in
    or_problem (uc_Refresh {| Authentication.rf_RefreshToken := fq_RefreshToken request;
                              Authentication.rf_IP := c_ClientIP c;
                              Authentication.rf_Device := c_GetHeader c "User-Agent" |})
      (fun output => OK (DRefresh (newRefreshResponse output)))).

Definition Logout : M (C * S) unit :=
  with_authenticated (fun principal =>
    or_problem (uc_Logout (Authorization.sessionID principal) (Authorization.userID principal))
      (fun _ => OK (DText "logout successful"))).

(** ** session_handler.go *)

Definition GetAllUserSessions : M (C * S) unit :=
  bound bind_pagination DetailInvalidPaginationParams (fun input =>
    let input := Pagination.Validate input in
    with_authenticated (fun principal =>
      or_problem (uc_GetSessionsByUser (Authorization.userID principal) (Authorization.sessionID principal)
                    (Pagination.Offset input) (Pagination.Limit input))
        (fun '(output, total) =>
           paged total input (DSessionPage (newSessionResponses output))))).

Definition DeleteSessions : M (C * S) unit :=
  bound bind_deleteSessions DetailInvalidRequestPayload (fun request =>
    if negb (dq_Others request) && match dq_SessionIDs request with [] => true | _ => false end
    then BadRequest DetailInvalidRequestPayload
    else
      with_authenticated (fun principal =>
        or_problem (uc_DeleteSessions
                      {| SessionUC.di_UserID := Authorization.userID principal;
                         SessionUC.di_CurrentSession := Authorization.sessionID principal;
                         SessionUC.di_TargetSessions := dq_SessionIDs request;
                         SessionUC.di_RemoveOthers := dq_Others request |})
          (fun _ => OK (DText "Revoked")))).

(** ** permission_handler.go *)

Definition GetPermissions : M (C * S) unit :=
  bound bind_pagination DetailInvalidRequestPayload (fun input =>
    let input := Pagination.Validate input in
    or_problem (uc_GetPermissions (Pagination.Offset input) (Pagination.Limit input))
      (fun '(output, total) => paged total input (DPermissionPage (newPermissionResponses output)))).

Definition GetPermissionsByRole : M (C * S) unit :=
  let! c := ctx in
  let roleInput := c_Param c "role" in
  if roleInput =s "" then BadRequest DetailInvalidRequestPayload
  else
    match Role.ParseUserRole roleInput with
    | Err _ => BadRequestWithParams DetailInvalidUserRole {["Role" := roleInput]}
    | Ok role => or_problem (uc_GetPermissionsByRole role)
                   (fun output => OK (DPermissions (newPermissionResponses output)))
    end.

Definition CreatePermissin : M (C * S) unit :=
  bound bind_createPermission DetailInvalidRequestPayload (fun request =>
    match Role.ParseUserRole (pq_Role request) with
    | Err _ => BadRequest DetailInvalidRequestPayload
    | Ok role =>
        match (if pq_Action request <>s "" then Permission.ParsePermission (pq_Action request) else Ok "") with
        | Err _ => BadRequest DetailInvalidRequestPayload
        | Ok action =>
            or_problem (uc_CreatePermission {| PermissionUC.cr_Role := role; PermissionUC.cr_Action := action |})
              (fun output => Created (DPermission (newPermissionResponse output)))
        end
    end).

Definition DeletePermissin : M (C * S) unit :=
  let! c := ctx in
  let permissionID := c_Param c "id" in
  if permissionID =s "" then BadRequest DetailInvalidRequestPayload
  else or_problem (uc_DeletePermission permissionID) (fun _ => OK (DText "Deleted")).

(** ** user_handler.go *)

Definition CreateUser : M (C * S) unit :=
  bound bind_createUser DetailInvalidRequestPayload (fun request =>
    match createUser_toInput request with
    | Err _ => BadRequest DetailInvalidRequestPayload
    | Ok input => or_problem (uc_CreateUser input)
                    (fun output => Created (DUser (newUserResponse output)))
    end).

(** The user of the path, or the authenticated one; [missing] is the answer
    when there is neither. *)
Definition target_user (missing : M (C * S) unit) (k : string -> M (C * S) unit) : M (C * S) unit :=
  let! c := ctx in
  let targetUserID := c_Param c "id" in
  if targetUserID =s "" then
    let! found := PrincipalFrom in
    match found with
    | None => missing
    | Some principal => k (Authorization.userID principal)
    end
  else k targetUserID.

Definition GetUser : M (C * S) unit :=
  target_user (Unauthorized DetailAuthenticationContextMissing) (fun targetUserID =>
    or_problem (uc_GetUser targetUserID) (fun output => OK (DUser (newUserDetailResponse output)))).

Definition GetUserList : M (C * S) unit :=
  bound bind_listUsers DetailInvalidPaginationParams (fun input =>
    let input := {| lu_PaginationInput := Pagination.Validate (lu_PaginationInput input);
                    lu_Filter := lu_Filter input |} in
    with_authenticated (fun principal =>
      let usecaseInput := listUsers_toInput input (Authorization.userID principal) in
      or_problem (uc_GetUserslist {| UserUC.gl_ActorID := UserUC.gl_ActorID usecaseInput;
                                     UserUC.gl_ActorRole := Authorization.role principal;
                                     UserUC.gl_Filter := UserUC.gl_Filter usecaseInput;
                                     UserUC.gl_Offset := UserUC.gl_Offset usecaseInput;
                                     UserUC.gl_Limit := UserUC.gl_Limit usecaseInput |})
        (fun result => paged (lr_Total result) (lu_PaginationInput input)
                         (DUserPage (newUserListResponses (lr_Items result)))))).

Definition DeleteUser : M (C * S) unit :=
  target_user (Internal problemLocalizer) (fun targetUserID =>
    or_problem (uc_DeleteUser targetUserID) (fun _ => OK (DText "Deleted"))).

(** [uuid.Parse(targetUserID)] and [ShouldBindJSON], then the request's
    [toInput]: any failure is the same bad request. *)
Definition bound_for_user {A B} (bind_ : C -> res A) (toInput : A -> string -> res B)
    (k : B -> M (C * S) unit) : M (C * S) unit :=
  let! c := ctx in
  let targetUserID := c_Param c "id" in
  match bind_ c with
  | Err _ => BadRequest DetailInvalidRequestPayload
  | Ok request =>
      if negb (uuid_Parse targetUserID) then BadRequest DetailInvalidRequestPayload
      else
        match toInput request targetUserID with
        | Err _ => BadRequest DetailInvalidRequestPayload
        | Ok input => k input
        end
  end.

Definition UpdateUser : M (C * S) unit :=
  bound_for_user bind_updateUser updateUser_toInput (fun input =>
    or_problem (uc_UpdateUser input) (fun _ => OK (DText "user updated successfully"))).

Definition ChangeEmail : M (C * S) unit :=
  bound bind_updateUserEmail DetailInvalidRequestPayload (fun request =>
    with_authenticated (fun principal =>
      or_problem (uc_ChangeEmail {| UserUC.ue_UserID := Authorization.userID principal;
                                    UserUC.ue_Email := eq_Email request |})
        (fun _ => OK (DText "user email updated successfully")))).

Definition ChangePassword : M (C * S) unit :=
  with_authenticated (fun principal =>
    bound bind_updateUserPassword DetailInvalidRequestPayload (fun request =>
      or_problem (uc_ChangePassword {| UserUC.up_UserID := Authorization.userID principal;
                                       UserUC.up_OldPassword := wq_CurrentPassword request;
                                       UserUC.up_NewPassword := wq_NewPassword request |})
        (fun _ => OK (DText "password updated successfully")))).

Definition ChangeRole : M (C * S) unit :=
  bound_for_user bind_updateUserRole updateUserRole_toInput (fun input =>
    with_authenticated (fun principal =>
      or_problem (uc_ChangeRole {| UserUC.ur_UserID := UserUC.ur_UserID input;
                                   UserUC.ur_ActorID := Authorization.userID principal;
                                   UserUC.ur_ActorRole := Authorization.role principal;
                                   UserUC.ur_Role := UserUC.ur_Role input |})
        (fun _ => OK (DText "role updated successfully")))).

Definition ChangeStatus : M (C * S) unit :=
  bound_for_user bind_updateUserStatus (fun request userID => updateUserStatus_toInput request userID "")
    (fun input =>
      with_authenticated (fun principal =>
        or_problem (uc_ChangeStatus {| UserUC.us_UserID := UserUC.us_UserID input;
                                       UserUC.us_ActorID := Authorization.userID principal;
                                       UserUC.us_ActorRole := Authorization.role principal;
                                       UserUC.us_Status := UserUC.us_Status input |})
          (fun _ => OK (DText "status updated successfully")))).

End Endpoints.
End Handlers.
