(* ===== verification/Routes.v ===== *)
(** internal/delivery/http/routes and the routing of server.go: every route is
    registered once, with its authorization class, and the handlers registered
    for it are the ones its class promises.  Routing a request to its chain is
    gin's. *)
From S2P Require Export Handlers.
From Stdlib Require Import Ascii.
Import Response Dto Middleware.

(** * [gin.RouterGroup] *)

(** [joinPaths a b] is the absolute path of [b] in a group at [a]. *)
Class GinRouter (C S : Type) := {
  RouterGroup : Type;
  gr_BasePath : RouterGroup -> string;
  gr_Handlers : RouterGroup -> list (HandlerFunc C S);
  gr_Group : RouterGroup -> string -> list (HandlerFunc C S) -> RouterGroup;
  gr_joinPaths : string -> string -> string;
}.

(** A path that starts with one slash, without an empty or a dotted element,
    and so is already clean; the last element may be empty ([trailing]). *)
Fixpoint clean_elements (trailing : bool) (l : list string) : bool :=
  match l with
  | [] => true
  | [""] => trailing
  | e :: l' => (e <>s "") && string_forallb (fun a => negb (Ascii.eqb a "."%char)) e
               && clean_elements trailing l'
  end.
Definition clean_path (trailing : bool) (p : string) : bool :=
  match split_on "/"%char p with
  | "" :: (e :: l) => clean_elements trailing (e :: l)
  | _ => false
  end.

Class GinRouterLaws (C S : Type) `{GinRouter C S} : Prop := {
  group_path : forall g p hs, gr_BasePath (gr_Group g p hs) = gr_joinPaths (gr_BasePath g) p;
  group_handlers : forall g p hs, gr_Handlers (gr_Group g p hs) = gr_Handlers g ++ hs;
  join_root : forall p, clean_path true p = true -> gr_joinPaths "/" p = p;
  join_clean : forall a p, clean_path false a = true -> clean_path true p = true ->
               gr_joinPaths a p = a +:+ p;
}.

Module Routes.

(** * classification.go *)

Definition AuthorizationClass : Type := string.
Definition AuthorizationPublic : AuthorizationClass := "public".
Definition AuthorizationSnapshot : AuthorizationClass := "authenticated_snapshot".
Definition AuthorizationFreshIdentity : AuthorizationClass := "authenticated_fresh_identity".
Definition AuthorizationFreshAuthorization : AuthorizationClass := "authenticated_fresh_authorization".

Record RouteClassification := {
  Method : string; Path : string; Class_ : AuthorizationClass; Permission_ : Permission.Permission;
}.

Record ClassificationRegistry := {
  entries : list RouteClassification;
  seen : gset string;
}.
Definition NewClassificationRegistry : ClassificationRegistry := {| entries := []; seen := ∅ |}.

Definition MethodGet : string := "GET".
Definition MethodPost : string := "POST".
Definition MethodPut : string := "PUT".
Definition MethodPatch : string := "PATCH".
Definition MethodDelete : string := "DELETE".

Section Registration.
Context {C S : Type} `{GinContext C} `{GinRouter C S}.

(** A route gin serves: [router.Handle(method, path, handlers...)] registers
    the group's handlers before the route's. *)
Record route := {
  rt_Method : string; rt_Path : string; rt_Handlers : list (HandlerFunc C S);
}.

(** The registry and the routes of the engine; a registration may panic. *)
Definition setup : Type := ClassificationRegistry * list route.

Definition register (router : RouterGroup) (method path : string) (class : AuthorizationClass)
    (required : Permission.Permission) (handlers : list (HandlerFunc C S)) : M setup unit :=
  fun '(r, engine) =>
    let method := if method =s "" then MethodGet else method in
    let key := method +:+ (" " +:+ (gr_BasePath router +:+ path)) in
    if bool_decide (key ∈ seen r)
    then (Err (ENew ("duplicate route authorization classification: " +:+ key)), (r, engine))
    else
      (Ok tt,
       ({| entries := entries r ++ [{| Method := method; Path := gr_BasePath router +:+ path;
                                       Class_ := class; Permission_ := required |}];
           seen := {[key]} ∪ seen r |},
        engine ++ [{| rt_Method := method; rt_Path := gr_joinPaths (gr_BasePath router) path;
                      rt_Handlers := gr_Handlers router ++ handlers |}])).

Definition Public router method path handlers : M setup unit :=
  register router method path AuthorizationPublic "" handlers.
Definition Snapshot router method path required handlers : M setup unit :=
  register router method path AuthorizationSnapshot required handlers.
Definition FreshIdentity router method path handlers : M setup unit :=
  register router method path AuthorizationFreshIdentity "" handlers.
Definition FreshAuthorization router method path required handlers : M setup unit :=
  register router method path AuthorizationFreshAuthorization required handlers.

Definition Entries (r : ClassificationRegistry) : list RouteClassification := entries r.

End Registration.
Arguments route : clear implicits.
Arguments setup : clear implicits.

(** * The routes *)

Section Tables.
Context {C S : Type} `{GinContext C} `{GinRouter C S} `{TextLibraries} (problemLocalizer : localizer).
Context `{AuthenticationUseCase S} `{AuthorizationUseCase S} `{SessionUseCase S} `{UserUseCase S}
  `{PermissionUseCase S} `{JWTService S} `{RateLimiter S} `{Environment S} `{UUIDParser}.
(** The handler of [promhttp], the one of readiness, and the rate limits. *)
Context (metricsExport readiness : M (C * S) unit) (rlConfig : RateLimitConfig).

#[local] Notation Handler := (Handler problemLocalizer).
#[local] Notation Required := (Required problemLocalizer).
#[local] Notation Authenticated := (Authenticated problemLocalizer).
#[local] Notation RequireFresh p := (RequireFreshAuthorization problemLocalizer p).
#[local] Notation FreshId := (Middleware.FreshIdentity problemLocalizer).

Definition private_group (router : RouterGroup) (path : string) : RouterGroup :=
  gr_Group router path [Handler (ProtectedIP rlConfig); Required; Authenticated (Private rlConfig)].

Definition RegisterMetricsRoutes (r : RouterGroup) : M (setup C S) unit :=
  Public r MethodGet "/metrics" [endpoint metricsExport].

Definition RegisterAuthRoutes (router : RouterGroup) : M (setup C S) unit :=
  let public := gr_Group router "/auth" [] in
  do! Public public MethodPost "/login"
        [Handler (Auth rlConfig); endpoint (Handlers.Login problemLocalizer)] in
  do! Public public MethodPost "/signup"
        [Handler (Auth rlConfig); endpoint (Handlers.Register problemLocalizer)] in
  do! Public public MethodPost "/refresh"
        [Handler (Private rlConfig); endpoint (Handlers.Refresh problemLocalizer)] in
  let private := private_group router "/auth" in
  FreshIdentity private MethodPost "/logout" [FreshId; endpoint (Handlers.Logout problemLocalizer)].

Definition RegisterPermissionRoutes (router : RouterGroup) : M (setup C S) unit :=
  let private := private_group router "/permission" in
  do! FreshAuthorization private MethodGet "/" Permission.PermFullAccess
        [RequireFresh Permission.PermFullAccess; endpoint (Handlers.GetPermissions problemLocalizer)] in
  do! FreshAuthorization private MethodGet "/:role" Permission.PermFullAccess
        [RequireFresh Permission.PermFullAccess; endpoint (Handlers.GetPermissionsByRole problemLocalizer)] in
  do! FreshAuthorization private MethodPost "/" Permission.PermFullAccess
        [RequireFresh Permission.PermFullAccess; endpoint (Handlers.CreatePermissin problemLocalizer)] in
  FreshAuthorization private MethodDelete "/:id" Permission.PermFullAccess
    [RequireFresh Permission.PermFullAccess; endpoint (Handlers.DeletePermissin problemLocalizer)].

Definition RegisterUserRoutes (router : RouterGroup) : M (setup C S) unit :=
  let private := private_group router "/user" in
  do! FreshAuthorization private MethodPost "/" Permission.PermFullAccess
        [RequireFresh Permission.PermFullAccess; endpoint (Handlers.CreateUser problemLocalizer)] in
  do! Snapshot private MethodGet "/" "" [endpoint (Handlers.GetUser problemLocalizer)] in
  do! FreshAuthorization private MethodGet "/:id" Permission.PermUserRead
        [RequireFresh Permission.PermUserRead; endpoint (Handlers.GetUser problemLocalizer)] in
  do! FreshAuthorization private MethodGet "/list" Permission.PermUserRead
        [RequireFresh Permission.PermUserRead; endpoint (Handlers.GetUserList problemLocalizer)] in
  do! FreshIdentity private MethodDelete "/" [FreshId; endpoint (Handlers.DeleteUser problemLocalizer)] in
  do! FreshAuthorization private MethodDelete "/:id" Permission.PermUserDelete
        [RequireFresh Permission.PermUserDelete; endpoint (Handlers.DeleteUser problemLocalizer)] in
  do! FreshAuthorization private MethodPut "/:id" Permission.PermFullAccess
        [RequireFresh Permission.PermFullAccess; endpoint (Handlers.UpdateUser problemLocalizer)] in
  do! FreshIdentity private MethodPatch "/change-email"
        [FreshId; endpoint (Handlers.ChangeEmail problemLocalizer)] in
  do! FreshIdentity private MethodPatch "/change-password"
        [FreshId; endpoint (Handlers.ChangePassword problemLocalizer)] in
  do! FreshAuthorization private MethodPatch "/:id/change-role" Permission.PermUserChangeRole
        [RequireFresh Permission.PermUserChangeRole; endpoint (Handlers.ChangeRole problemLocalizer)] in
  do! FreshAuthorization private MethodPatch "/:id/change-status" Permission.PermUserChangeStatus
        [RequireFresh Permission.PermUserChangeStatus; endpoint (Handlers.ChangeStatus problemLocalizer)] in
  do! FreshIdentity private MethodGet "/sessions"
        [FreshId; endpoint (Handlers.GetAllUserSessions problemLocalizer)] in
  FreshIdentity private MethodDelete "/sessions"
    [FreshId; endpoint (Handlers.DeleteSessions problemLocalizer)].

(** ** server.go *)

Definition health : M (C * S) unit := JSON 200 (StatusWord "ok").

(** On an engine whose root group is [engine]. *)
Definition setupRoutes (engine : RouterGroup) : res (setup C S) :=
  let api := gr_Group engine "/api" [] in
  let v1 := gr_Group api "/v1" [] in
  let register_all : M (setup C S) unit :=
    do! RegisterMetricsRoutes api in
    do! RegisterUserRoutes v1 in
    do! RegisterAuthRoutes v1 in
    do! RegisterPermissionRoutes v1 in
    do! Public api MethodGet "/health" [endpoint health] in
    Public api MethodGet "/ready" [endpoint readiness] in
  match register_all (NewClassificationRegistry, []) with
  | (Ok _, st) => Ok st
  | (Err p, _) => Err p
  end.

(** ** Every route enforces the class it is registered under *)

(** The authoritative check a class promises; a public route has none. *)
Definition check_of (class : AuthorizationClass) (required : Permission.Permission) : option check :=
  if class =s AuthorizationSnapshot then (if required =s "" then Some NoCheck else None)
  else if class =s AuthorizationFreshIdentity then Some CheckIdentity
  else if class =s AuthorizationFreshAuthorization then Some (CheckPermission required)
  else None.

(** The handlers behind the guards. *)
Definition endpoints : list (M (C * S) unit) :=
  [metricsExport; readiness; health;
   Handlers.Login problemLocalizer; Handlers.Register problemLocalizer;
   Handlers.Refresh problemLocalizer; Handlers.Logout problemLocalizer;
   Handlers.GetAllUserSessions problemLocalizer; Handlers.DeleteSessions problemLocalizer;
   Handlers.GetPermissions problemLocalizer; Handlers.GetPermissionsByRole problemLocalizer;
   Handlers.CreatePermissin problemLocalizer; Handlers.DeletePermissin problemLocalizer;
   Handlers.CreateUser problemLocalizer; Handlers.GetUser problemLocalizer;
   Handlers.GetUserList problemLocalizer; Handlers.DeleteUser problemLocalizer;
   Handlers.UpdateUser problemLocalizer; Handlers.ChangeEmail problemLocalizer;
   Handlers.ChangePassword problemLocalizer; Handlers.ChangeRole problemLocalizer;
   Handlers.ChangeStatus problemLocalizer].

(** The route serves what its entry says: the engine's handlers, the guards of
    the class and the endpoint; a public route has at most a rate limit. *)
Definition enforced (globals : list (HandlerFunc C S)) (e : RouteClassification) (r : route C S) : Prop :=
  rt_Method r = Method e /\ rt_Path r = Path e /\ exists h, In h endpoints /\
  match check_of (Class_ e) (Permission_ e) with
  | Some k => rt_Handlers r = globals ++ protected_guards problemLocalizer rlConfig k ++ [endpoint h]
  | None => Class_ e = AuthorizationPublic
            /\ (rt_Handlers r = globals ++ [endpoint h]
                \/ exists rl, rt_Handlers r = globals ++ [Handler rl; endpoint h])
  end.

Definition key_of (e : RouteClassification) : string := Method e +:+ (" " +:+ Path e).

(** The registry's set is that of its entries, each registered once. *)
Definition registered_once (r : ClassificationRegistry) : Prop :=
  NoDup (map key_of (entries r)) /\ forall k, k ∈ seen r <-> k ∈ map key_of (entries r).

Context {GR : GinRouterLaws C S}.

Lemma register_run router method path class required hs base r engine :
  gr_BasePath router = base -> method <> "" ->
  bool_decide (method +:+ (" " +:+ (base +:+ path)) ∈ seen r) = false ->
  clean_path false base = true -> clean_path true path = true ->
  register router method path class required hs (r, engine)
  = (Ok tt, ({| entries := entries r ++ [{| Method := method; Path := base +:+ path; Class_ := class;
                                            Permission_ := required |}];
                seen := {[method +:+ (" " +:+ (base +:+ path))]} ∪ seen r |},
             engine ++ [{| rt_Method := method; rt_Path := base +:+ path;
                           rt_Handlers := gr_Handlers router ++ hs |}])).
Proof.
  intros Hb Hm Hk Hc Hp. unfold register. rewrite Hb, (eqb_ne_string method "" Hm). cbn zeta.
  rewrite Hk, (join_clean base path Hc Hp). done.
Qed.

Lemma register_keeps_once router method path class required hs r engine st' u :
  register router method path class required hs (r, engine) = (Ok u, st') ->
  registered_once r -> registered_once st'.1.
Proof.
  unfold register. cbn zeta. destruct (bool_decide _) eqn:Hb; [discriminate|].
  apply bool_decide_eq_false_1 in Hb. intros [= _ <-] [Hnd Hs]. split; cbn.
  - rewrite map_app. apply NoDup_app. split; [done|]. split; [|cbn; apply NoDup_singleton].
    intros k Hk Hin. cbn in Hin. apply list_elem_of_singleton in Hin. subst k. apply Hb, Hs, Hk.
  - intros k. rewrite map_app. cbn [map]. unfold key_of at 2. cbn [Method Path].
    rewrite elem_of_union, elem_of_singleton, elem_of_app, list_elem_of_singleton, Hs.
    tauto.
Qed.

Definition is_public (e : RouteClassification) : bool := Class_ e =s AuthorizationPublic.

(** ** Registration, a route at a time *)

Lemma group_base g p hs base :
  gr_BasePath g = base -> clean_path false base = true -> clean_path true p = true ->
  gr_BasePath (gr_Group g p hs) = base +:+ p.
Proof. intros Hb Hc Hp. by rewrite group_path, Hb, join_clean. Qed.

Lemma root_base g p hs :
  gr_BasePath g = "/" -> clean_path true p = true -> gr_BasePath (gr_Group g p hs) = p.
Proof. intros Hb Hp. by rewrite group_path, Hb, join_root. Qed.

(** What a sequence of registrations has established so far: [keys] are
    registered, the public ones are [publics]. *)
Record registered (globals : list (HandlerFunc C S)) (publics : list (string * string))
    (keys : list string) (st : setup C S) : Prop := {
  reg_once : registered_once st.1;
  reg_keys : map key_of (entries st.1) = keys;
  reg_enforced : Forall2 (enforced globals) (entries st.1) st.2;
  reg_public : map (fun e => (Method e, Path e)) (List.filter is_public (entries st.1)) = publics;
}.

Definition triple (P : setup C S -> Prop) (m : M (setup C S) unit) (Q : setup C S -> Prop) : Prop :=
  forall st, P st -> exists st', m st = (Ok tt, st') /\ Q st'.

Lemma triple_bind P m Q k R : triple P m Q -> triple Q k R -> triple P (do! m in k) R.
Proof.
  intros Hm Hk st HP. destruct (Hm st HP) as (st1 & Hr1 & HQ).
  destruct (Hk st1 HQ) as (st2 & Hr2 & HR). exists st2. split; [|done]. by rewrite (bind_Ok _ _ _ _ _ Hr1).
Qed.

Lemma register_triple globals publics publics' keys router method path class required hs base :
  gr_BasePath router = base -> method <> "" -> clean_path false base = true -> clean_path true path = true ->
  let e := {| Method := method; Path := base +:+ path; Class_ := class; Permission_ := required |} in
  bool_decide (key_of e ∈ keys) = false ->
  enforced globals e {| rt_Method := method; rt_Path := base +:+ path;
                        rt_Handlers := gr_Handlers router ++ hs |} ->
  publics' = publics ++ (if is_public e then [(method, base +:+ path)] else []) ->
  triple (registered globals publics keys) (register router method path class required hs)
         (registered globals publics' (keys ++ [key_of e])).
Proof.
  intros Hb Hm Hc Hpc e Hk He Hpub [r routes] [Ho Hkeys Hf Hp]. cbn in Hkeys, Hf, Hp.
  assert (Hfresh : bool_decide (key_of e ∈ seen r) = false).
  { apply bool_decide_eq_false_2. rewrite (proj2 Ho). cbn. rewrite Hkeys.
    by apply bool_decide_eq_false_1 in Hk. }
  pose proof (register_run router method path class required hs base r routes Hb Hm Hfresh Hc Hpc) as Hr.
  eexists. split; [exact Hr|]. split; cbn.
  - exact (register_keeps_once _ _ _ _ _ _ _ _ _ _ Hr Ho).
  - by rewrite map_app, Hkeys.
  - apply Forall2_app; [done|]. by constructor.
  - rewrite List.filter_app, map_app, Hp, Hpub. subst e. unfold is_public. cbn.
    by destruct (class =s _).
Qed.

Lemma protected_triple globals publics keys router method path class required hs base k h :
  gr_BasePath router = base -> method <> "" -> clean_path false base = true -> clean_path true path = true ->
  bool_decide ((method +:+ (" " +:+ (base +:+ path))) ∈ keys) = false ->
  check_of class required = Some k ->
  gr_Handlers router = globals ++ protected_guards problemLocalizer rlConfig NoCheck ->
  hs = check_guards problemLocalizer k ++ [endpoint h] -> In h endpoints ->
  triple (registered globals publics keys) (register router method path class required hs)
         (registered globals publics (keys ++ [method +:+ (" " +:+ (base +:+ path))])).
Proof.
  intros Hb Hm Hc Hpc Hk Hcheck Hg -> Hin.
  eapply (register_triple globals publics publics keys router method path class required _ base); try done.
  - unfold enforced. cbn. split; [done|]. split; [done|].
    exists h. split; [done|]. rewrite Hcheck, Hg. unfold protected_guards. cbn. by rewrite <- !app_assoc.
  - unfold is_public. cbn. rewrite (eqb_ne_string class AuthorizationPublic); [by rewrite app_nil_r|].
    by intros ->.
Qed.

Lemma public_triple globals publics keys router method path hs base h :
  gr_BasePath router = base -> method <> "" -> clean_path false base = true -> clean_path true path = true ->
  bool_decide ((method +:+ (" " +:+ (base +:+ path))) ∈ keys) = false ->
  gr_Handlers router = globals -> (hs = [endpoint h] \/ exists rl, hs = [Handler rl; endpoint h]) ->
  In h endpoints ->
  triple (registered globals publics keys) (Public router method path hs)
         (registered globals (publics ++ [(method, base +:+ path)])
            (keys ++ [method +:+ (" " +:+ (base +:+ path))])).
Proof.
  intros Hb Hm Hc Hpc Hk Hg Hhs Hin.
  eapply (register_triple globals publics _ keys router method path AuthorizationPublic "" _ base); try done.
  unfold enforced. cbn. split; [done|]. split; [done|].
  exists h. split; [done|]. rewrite Hg. split; [done|]. destruct Hhs as [-> | [rl ->]]; eauto.
Qed.

(** Finds a handler in [endpoints] by its name. *)
Ltac an_endpoint :=
  unfold endpoints;
  repeat match goal with
  | |- In ?h (?x :: _) => first [constr_eq h x; left; reflexivity|right]
  end.

(** Closes the side conditions of one registration. *)
Ltac registration Hbase Hhandlers :=
  first
    [ eapply public_triple with (1 := Hbase);
        [discriminate|reflexivity|reflexivity|reflexivity|exact Hhandlers
        |first [left; reflexivity|right; eexists; reflexivity]|an_endpoint]
    | eapply protected_triple with (1 := Hbase);
        [discriminate|reflexivity|reflexivity|reflexivity|reflexivity|exact Hhandlers|reflexivity|an_endpoint] ].
Ltac registrations Hbase Hhandlers :=
  repeat (eapply triple_bind; [registration Hbase Hhandlers|]); registration Hbase Hhandlers.

Lemma private_group_base router base path :
  gr_BasePath router = base -> clean_path false base = true -> clean_path true path = true ->
  gr_BasePath (private_group router path) = base +:+ path.
Proof. apply group_base. Qed.

Lemma private_group_handlers globals router path :
  gr_Handlers router = globals ->
  gr_Handlers (private_group router path) = globals ++ protected_guards problemLocalizer rlConfig NoCheck.
Proof. intros <-. unfold private_group. by rewrite group_handlers. Qed.

Definition public_table : list (string * string) :=
  [("GET", "/api/metrics"); ("POST", "/api/v1/auth/login"); ("POST", "/api/v1/auth/signup");
   ("POST", "/api/v1/auth/refresh"); ("GET", "/api/health"); ("GET", "/api/ready")].

Lemma setup_enforced (engine : RouterGroup) :
  gr_BasePath engine = "/" ->
  exists r routes keys, setupRoutes engine = Ok (r, routes)
    /\ registered (gr_Handlers engine) public_table keys (r, routes).
Proof.
  intros Hroot. unfold setupRoutes.
  set (api := gr_Group engine "/api" []). set (v1 := gr_Group api "/v1" []).
  assert (Hapi : gr_BasePath api = "/api") by (by apply root_base).
  assert (Hv1 : gr_BasePath v1 = "/api/v1") by (by eapply (group_base api "/v1" [] "/api")).
  assert (Gapi : gr_Handlers api = gr_Handlers engine) by (unfold api; by rewrite group_handlers, app_nil_r).
  assert (Gv1 : gr_Handlers v1 = gr_Handlers engine) by (unfold v1; by rewrite group_handlers, app_nil_r).
  clearbody api v1.
  assert (Hauth : gr_BasePath (gr_Group v1 "/auth" []) = "/api/v1/auth") by (by eapply (group_base v1 "/auth" [] "/api/v1")).
  assert (Gauth : gr_Handlers (gr_Group v1 "/auth" []) = gr_Handlers engine) by (by rewrite group_handlers, app_nil_r).
  pose proof (private_group_base v1 _ "/user" Hv1 eq_refl eq_refl) as Hu.
  pose proof (private_group_handlers _ v1 "/user" Gv1) as Gu.
  pose proof (private_group_base v1 _ "/auth" Hv1 eq_refl eq_refl) as Ha.
  pose proof (private_group_handlers _ v1 "/auth" Gv1) as Ga.
  pose proof (private_group_base v1 _ "/permission" Hv1 eq_refl eq_refl) as Hp.
  pose proof (private_group_handlers _ v1 "/permission" Gv1) as Gp.
  cbn zeta.
  match goal with |- context [bind ?m ?k (NewClassificationRegistry, [])] =>
    assert (Ht : exists publics keys, publics = public_table
                 /\ triple (registered (gr_Handlers engine) [] []) (bind m k)
                      (registered (gr_Handlers engine) publics keys)) end.
  { eexists _, _. split; cycle 1.
    { eapply triple_bind; [unfold RegisterMetricsRoutes; registrations Hapi Gapi|].
      eapply triple_bind; [unfold RegisterUserRoutes; cbn zeta; registrations Hu Gu|].
      eapply triple_bind; [unfold RegisterAuthRoutes; cbn zeta|].
      { do 3 (eapply triple_bind; [registration Hauth Gauth|]). registrations Ha Ga. }
      eapply triple_bind; [unfold RegisterPermissionRoutes; cbn zeta; registrations Hp Gp|].
      registrations Hapi Gapi. }
    reflexivity. }
  destruct Ht as (publics & keys & -> & Ht).
  destruct (Ht (NewClassificationRegistry, [])) as ([r routes] & Hrun & Hreg).
  { split; [split; [constructor|set_solver]|done|constructor|done]. }
  exists r, routes, keys. by rewrite Hrun.
Qed.

(** C10. Every route is classified once and enforces its class: setting up the
    routes never panics on a duplicate, and for each entry of the registry, in
    order, gin serves the same method and path with the engine's handlers, the
    rate limits, the token and session check and the authoritative check the
    entry's class and permission promise, before one endpoint; only the six
    routes listed are public. *)
Theorem routes_enforce_their_class (engine : RouterGroup) :
  gr_BasePath engine = "/" ->
  exists r routes, setupRoutes engine = Ok (r, routes)
    /\ NoDup (map key_of (entries r))
    /\ Forall2 (enforced (gr_Handlers engine)) (Entries r) routes
    /\ map (fun e => (Method e, Path e)) (List.filter is_public (Entries r)) = public_table.
Proof.
  intros Hroot. destruct (setup_enforced engine Hroot) as (r & routes & keys & Hrun & [Ho _ He Hp]).
  exists r, routes. split; [done|]. split; [apply Ho|]. by split.
Qed.

End Tables.

End Routes.
