(* ===== verification/HttpGuarantees.v ===== *)
(** What the delivery layer guarantees of every request: each endpoint answers
    with exactly one document and never panics; a panic behind the recovery
    middleware is answered; a request to any route is answered exactly once. *)
From S2P Require Export Routes.
Import Response Dto Middleware.

(** * Endpoints answer once *)

Section Answers.
Context {C S : Type} `{GinContext C} {GL : GinLaws C} `{TextLibraries} (problemLocalizer : localizer).

(** Returns, having written one document and kept the request. *)
Definition answers (h : M (C * S) unit) : Prop :=
  forall c s, exists c' s' d, h (c, s) = (Ok tt, (c', s')) /\ c_Written c' = c_Written c ++ [d]
                             /\ same_request c c'.

Lemma answers_JSON st d : answers (JSON st d).
Proof. intros c s. exists (c_JSON st d c), s, d. split; [done|].
  split; [by autorewrite with gin|apply request_JSON]. Qed.

Lemma answers_WriteProblem d : answers (WriteProblem problemLocalizer d).
Proof.
  intros c s. destruct (WriteProblem_run (S := S) problemLocalizer d c s GL) as (c' & Hr & _ & Hw & _ & Hq).
  eauto 8.
Qed.

Lemma answers_ctx k : (forall c, answers (k c)) -> answers (bind ctx k).
Proof. intros Hk c s. exact (Hk c c s). Qed.

Lemma answers_or_problem {A} (m : M S A) k :
  (forall a, answers (k a)) -> answers (or_problem problemLocalizer m k).
Proof.
  intros Hk c s. unfold or_problem. destruct (m s) as [[a|e] s1] eqn:Hm; rewrite (bind_call _ _ _ _ _ _ Hm).
  - apply Hk.
  - apply answers_WriteProblem.
Qed.

Lemma answers_bound {A} (bind_ : C -> res A) detail k :
  (forall a, answers (k a)) -> answers (Handlers.bound problemLocalizer bind_ detail k).
Proof.
  intros Hk. apply answers_ctx. intros c. destruct (bind_ c); [apply Hk|apply answers_WriteProblem].
Qed.

Lemma answers_PrincipalFrom k : (forall o, answers (k o)) -> answers (bind PrincipalFrom k).
Proof. intros Hk c s. unfold PrincipalFrom. rewrite bind_assoc, bind_ctx, bind_ret_l. apply Hk. Qed.

Lemma answers_with_authenticated k :
  (forall p, answers (k p)) -> answers (Handlers.with_authenticated problemLocalizer k).
Proof.
  intros Hk. apply answers_PrincipalFrom. intros [p|]; [apply Hk|apply answers_WriteProblem].
Qed.

Lemma answers_target_user missing k :
  answers missing -> (forall u, answers (k u)) -> answers (Handlers.target_user missing k).
Proof.
  intros Hm Hk. apply answers_ctx. intros c. cbn zeta. destruct (c_Param c "id" =s ""); [|apply Hk].
  apply answers_PrincipalFrom. intros [p|]; [apply Hk|exact Hm].
Qed.

Lemma answers_bound_for_user `{UUIDParser} {A B} (bind_ : C -> res A) (toInput : A -> string -> res B) k :
  (forall b, answers (k b)) -> answers (Handlers.bound_for_user problemLocalizer bind_ toInput k).
Proof.
  intros Hk. apply answers_ctx. intros c. cbn zeta. destruct (bind_ c) as [a|e]; [|apply answers_WriteProblem].
  destruct (uuid_Parse _); cbn [negb]; [|apply answers_WriteProblem].
  destruct (toInput a _); [apply Hk|apply answers_WriteProblem].
Qed.

(** The meta of a validated page divides by a positive limit. *)
Lemma answers_paged total input k :
  answers (Handlers.paged total (Pagination.Validate input) k).
Proof.
  unfold Handlers.paged, Pagination.NewPaginationMeta.
  assert ((Pagination.Limit (Pagination.Validate input) =? 0) = false) as ->.
  { apply Z.eqb_neq. unfold Pagination.Validate. cbn.
    destruct (Pagination.Limit input <? 1) eqn:E; [done|]. destruct (100 <? _); [done|]. breflect. lia. }
  intros c s. rewrite bind_of_res. apply answers_JSON.
Qed.

End Answers.

Ltac answer :=
  intros;
  repeat (cbn zeta; match goal with
  | |- answers (OK _) => apply answers_JSON
  | |- answers (Created _) => apply answers_JSON
  | |- answers (BadRequest _ _) => apply answers_WriteProblem
  | |- answers (BadRequestWithParams _ _ _) => apply answers_WriteProblem
  | |- answers (Unauthorized _ _) => apply answers_WriteProblem
  | |- answers (Internal _) => apply answers_WriteProblem
  | |- answers (Handlers.paged _ (Pagination.Validate _) _) => apply answers_paged
  | |- answers (Handlers.paged _ _ _) => cbn [lu_PaginationInput]
  | |- answers (Handlers.bound _ _ _ _) => apply answers_bound; intros ?
  | |- answers (Handlers.bound_for_user _ _ _ _) => apply answers_bound_for_user; intros ?
  | |- answers (Handlers.with_authenticated _ _) => apply answers_with_authenticated; intros ?
  | |- answers (Handlers.target_user _ _) => apply answers_target_user; [|intros ?]
  | |- answers (or_problem _ _ _) => apply answers_or_problem; intros ?
  | |- answers (bind ctx _) => apply answers_ctx; intros ?
  | |- answers (match ?x with _ => _ end) => destruct x
  end).

Section Requests.
Context {C S : Type} `{GinContext C} {GL : GinLaws C} `{GinEngine C S} {GE : GinEngineLaws C S}.
Context `{GinRouter C S} {GR : GinRouterLaws C S} `{TextLibraries} (problemLocalizer : localizer).
Context `{AuthenticationUseCase S} `{AuthorizationUseCase S} `{SessionUseCase S} `{UserUseCase S}
  `{PermissionUseCase S} `{JWTService S} `{RateLimiter S} `{Environment S} `{UUIDParser} `{HTTPMetrics S}.
Context (metricsExport readiness : M (C * S) unit) (rlConfig : RateLimitConfig) (maxBytes : Z).

(** The handlers [NewServer] installs on the engine. *)
Definition global_handlers : list (HandlerFunc C S) :=
  [Recovery problemLocalizer; RequestBodyLimit maxBytes; MetricsHandler].

(** Neither the clock nor a metric panics; the labels of a series are UTF-8. *)
Record ports_return : Prop := {
  clock_returns : clock_total (S := S);
  active_returns : forall b s, exists s', RecordHTTPActiveRequests b s = (Ok tt, s');
  request_returns : forall d m p st s,
    ValidString m = true -> ValidString p = true -> ValidString st = true ->
    exists s', RecordHTTPRequest d m p st s = (Ok tt, s');
}.

(** The labels of a request are UTF-8: its method, and the pattern of its route
    or, where no route matched, its path. *)
Definition labelled (c : C) : Prop :=
  ValidString (c_Method c) = true /\ ValidString (request_path c) = true.

Lemma labelled_same c c' : same_request c c' -> labelled c -> labelled c'.
Proof.
  unfold labelled, request_path. intros (_ & _ & Hf & Hu & _ & Hm). by rewrite Hf, Hu, Hm.
Qed.

(** ** Endpoints *)

Lemma endpoints_answer :
  answers metricsExport -> answers readiness ->
  Forall answers (Routes.endpoints problemLocalizer metricsExport readiness).
Proof.
  intros Hm Hr. unfold Routes.endpoints.
  apply Forall_cons. split; [exact Hm|]. apply Forall_cons. split; [exact Hr|].
  apply Forall_cons. split; [apply answers_JSON|].
  repeat (apply Forall_cons; split);
    [unfold Handlers.Login|unfold Handlers.Register|unfold Handlers.Refresh|unfold Handlers.Logout
    |unfold Handlers.GetAllUserSessions|unfold Handlers.DeleteSessions|unfold Handlers.GetPermissions
    |unfold Handlers.GetPermissionsByRole|unfold Handlers.CreatePermissin|unfold Handlers.DeletePermissin
    |unfold Handlers.CreateUser|unfold Handlers.GetUser|unfold Handlers.GetUserList
    |unfold Handlers.DeleteUser|unfold Handlers.UpdateUser|unfold Handlers.ChangeEmail
    |unfold Handlers.ChangePassword|unfold Handlers.ChangeRole|unfold Handlers.ChangeStatus
    |constructor]; answer.
Qed.

(** ** Chains *)

(** A chain that returns, having written one document and kept the request. *)
Definition chain_answers (hs : list (HandlerFunc C S)) : Prop :=
  forall c s, c_IsAborted c = false -> labelled c ->
  exists c' s' d, documented_chain hs (c, s) = (Ok tt, (c', s')) /\ c_Written c' = c_Written c ++ [d]
                 /\ same_request c c'.

Lemma protected_answers k h :
  ports_return -> answers h ->
  chain_answers (protected_guards problemLocalizer rlConfig k ++ [endpoint h]).
Proof.
  intros [Hclock _ _] Hh c s Hc _.
  rewrite guarded_chain; [|by apply protected_guards_are_guards|done].
  pose proof (protected_guards_run problemLocalizer Hclock rlConfig k c s Hc) as Hr.
  destruct (admission _ _ _ _ _ s) as [[p|d] s1]; destruct Hr as (c1 & -> & Hr).
  - destruct Hr as [[Hq _ Hw] _]. destruct (Hh c1 s1) as (c' & s' & d & -> & Hw' & Hq').
    exists c', s', d. rewrite Hw', Hw. split; [done|]. split; [done|by transitivity c1].
  - exists c1, s1, (ProblemDocument (problem_of problemLocalizer c d)). split; [done|].
    split; [apply (refused_written _ _ _ _ Hr)|apply (refused_request _ _ _ _ Hr)].
Qed.

Lemma public_answers h : answers h -> chain_answers [endpoint h].
Proof.
  intros Hh c s Hc _. pose proof (guarded_chain [] h (c, s) ltac:(constructor) Hc) as Hg. cbn [app] in Hg.
  rewrite Hg. apply Hh.
Qed.

Lemma limited_answers rl h :
  ports_return -> answers h -> chain_answers [Handler problemLocalizer rl; endpoint h].
Proof.
  intros [Hclock _ _] Hh c s Hc _.
  pose proof (Handler_decides problemLocalizer Hclock rl) as Hd.
  assert (Hgs : Forall is_guard [Handler (S := S) problemLocalizer rl])
    by (repeat constructor; by eapply decides_is_guard).
  pose proof (guarded_chain [Handler problemLocalizer rl] h (c, s) Hgs Hc) as Hg. cbn [app] in Hg.
  rewrite Hg. pose proof (run_guards_decides problemLocalizer _ _ [] c s Hd Hc) as Hr.
  destruct (spec_ip rl c s) as [[o|d] s1].
  - destruct Hr as (c1 & -> & [Hq _ Hw] & _). destruct (Hh c1 s1) as (c' & s' & d & Hrun & Hw' & Hq').
    exists c', s', d. cbn [run_guards]. rewrite Hrun, Hw', Hw. split; [done|]. split; [done|by transitivity c1].
  - destruct Hr as (c1 & -> & Hr). eexists c1, s1, _. split; [done|].
    split; [apply (refused_written _ _ _ _ Hr)|apply (refused_request _ _ _ _ Hr)].
Qed.

(** ** The handlers of the engine *)

Lemma metrics_answers hs : ports_return -> chain_answers hs -> chain_answers (MetricsHandler :: hs).
Proof.
  intros [Hclock Hactive Hrequest] Hhs c s Hc Hl. cbn [documented_chain]. unfold MetricsHandler.
  destruct (Hclock s) as (t0 & s0 & Ht0). rewrite (bind_call _ _ _ _ _ _ Ht0), bind_of_res.
  destruct (Hactive true s0) as (s1 & Ha1). rewrite (bind_call _ _ _ _ _ _ Ha1), bind_of_res.
  cbn [ret]. rewrite Hc. destruct (Hhs c s1 Hc Hl) as (c2 & s2 & d & -> & Hw2 & Hq2).
  destruct (labelled_same _ _ Hq2 Hl) as [Hm2 Hp2].
  destruct (Hactive false s2) as (s3 & Ha3). rewrite (bind_call _ _ _ _ _ _ Ha3), bind_of_res.
  destruct (Hclock s3) as (t4 & s4 & Ht4). rewrite (bind_call _ _ _ _ _ _ Ht4), bind_of_res, bind_ctx.
  match goal with |- context [RecordHTTPRequest ?x ?y ?z ?w] =>
    destruct (Hrequest x y z w s4 Hm2 Hp2 (ValidString_itoa _)) as (s5 & Hr5) end.
  rewrite (bind_call _ _ _ _ _ _ Hr5). by exists c2, s5, d.
Qed.

Lemma body_limit_answers hs : chain_answers hs -> chain_answers (RequestBodyLimit maxBytes :: hs).
Proof.
  intros Hhs c s Hc Hl. cbn [documented_chain]. unfold RequestBodyLimit, Next. rewrite bind_update. cbn [ret].
  set (c1 := if c_HasBody c then c_LimitBody maxBytes c else c).
  assert (Hc1 : c_IsAborted c1 = false) by (subst c1; destruct (c_HasBody c); by autorewrite with gin).
  assert (Hw1 : c_Written c1 = c_Written c) by (subst c1; destruct (c_HasBody c); by autorewrite with gin).
  assert (Hq1 : same_request c c1) by (subst c1; destruct (c_HasBody c); [apply request_limit|done]).
  rewrite Hc1. destruct (Hhs c1 s Hc1 (labelled_same _ _ Hq1 Hl)) as (c2 & s2 & d & -> & Hw2 & Hq2).
  exists c2, s2, d. rewrite Hw2, Hw1. split; [done|]. split; [done|by transitivity c1].
Qed.

Lemma recovery_answers hs : chain_answers hs -> chain_answers (Recovery problemLocalizer :: hs).
Proof.
  intros Hhs c s Hc Hl. cbn [documented_chain]. unfold Recovery. cbn [ret]. rewrite Hc.
  destruct (Hhs c s Hc Hl) as (c2 & s2 & d & -> & Hw2 & Hq2). by exists c2, s2, d.
Qed.

Lemma route_answers e r :
  ports_return -> answers metricsExport -> answers readiness ->
  Routes.enforced problemLocalizer metricsExport readiness rlConfig global_handlers e r ->
  chain_answers (Routes.rt_Handlers r).
Proof.
  intros Hports Hm Hr (_ & _ & h & Hin & He).
  pose proof (proj1 (List.Forall_forall _ _) (endpoints_answer Hm Hr) h Hin) as Hh. cbn in Hh.
  assert (Hg : forall hs, chain_answers hs -> chain_answers (global_handlers ++ hs)).
  { intros hs Hhs. apply recovery_answers, body_limit_answers, metrics_answers; done. }
  destruct (Routes.check_of _ _) as [k|].
  - rewrite He. by apply Hg, protected_answers.
  - destruct He as [_ [-> | [rl ->]]]; apply Hg; [by apply public_answers|by apply limited_answers].
Qed.

(** C20. Every request is answered exactly once and without a panic: whatever
    the use cases, the stores and the limiter return, for a request whose
    method and route are UTF-8, gin's run of the chain of any route the server registers returns, and has written exactly one
    document: the endpoint's or the problem a guard refused with. *)
Theorem every_request_answered_once (engine : RouterGroup) r routes (rt : Routes.route C S) c s :
  gr_BasePath engine = "/" -> gr_Handlers engine = global_handlers ->
  ports_return -> answers metricsExport -> answers readiness ->
  Routes.setupRoutes problemLocalizer metricsExport readiness rlConfig engine = Ok (r, routes) ->
  In rt routes -> c_IsAborted c = false -> c_Written c = [] -> labelled c ->
  exists c' s' d, gin_Run (Routes.rt_Handlers rt) (c, s) = (Ok tt, (c', s')) /\ c_Written c' = [d].
Proof.
  intros Hroot Hglobals Hports Hm Hr Hsetup Hin Hc Hw Hl.
  destruct (Routes.setup_enforced problemLocalizer metricsExport readiness rlConfig engine Hroot)
    as (r' & routes' & keys & Hs' & [_ _ He _]).
  rewrite Hsetup in Hs'. injection Hs' as <- <-.
  assert (exists e, Routes.enforced problemLocalizer metricsExport readiness rlConfig (gr_Handlers engine) e rt)
    as (e & Hert).
  { cbn in He. clear -He Hin. induction He as [|e x l k Hex _ IH]; [done|].
    destruct Hin as [<- | Hin]; [by exists e|by apply IH]. }
  rewrite Hglobals in Hert. rewrite gin_Run_documented.
  destruct (route_answers e rt Hports Hm Hr Hert c s Hc Hl) as (c' & s' & d & Hrun & Hw' & _).
  rewrite Hw in Hw'. by exists c', s', d.
Qed.

(** C37. A panic behind the recovery middleware is answered and contained: the
    chain returns with the pending handlers not run, and the internal-error
    problem is written after what was written before the panic; where that is
    nothing, it is the whole response, with status 500. *)
Theorem recovery_contains_panics hs c s p c1 s1 :
  c_IsAborted c = false -> documented_chain hs (c, s) = (Err p, (c1, s1)) ->
  exists c', gin_Run (Recovery problemLocalizer :: hs) (c, s) = (Ok tt, (c', s1))
    /\ c_IsAborted c' = true
    /\ c_Written c' = c_Written c1 ++ [ProblemDocument (problem_of problemLocalizer c1 (MapError ErrInternal))]
    /\ (c_Written c1 = [] -> c_Status c' = StatusInternalServerError).
Proof.
  intros Hc Hpanic. rewrite gin_Run_documented. cbn [documented_chain]. unfold Recovery. cbn [ret].
  rewrite Hc, Hpanic.
  destruct (WriteProblem_run (S := S) problemLocalizer (MapError ErrInternal) c1 s1 GL) as (c2 & Hr & Ha & Hw2 & Hst & _).
  unfold Internal. rewrite (bind_Ok _ _ _ _ _ Hr). exists (c_Abort c2). split; [done|].
  autorewrite with gin. split; [done|]. split; [done|]. intros Hw. by rewrite (Hst Hw).
Qed.

(** A panic also skips what the metrics middleware does after [c.Next()]: the
    gauge of active requests keeps the request that panicked. *)
Lemma panic_keeps_active_gauge hs c s t s0 s1 p c2 s2 :
  c_IsAborted c = false -> time_Now s = (Ok t, s0) ->
  RecordHTTPActiveRequests true s0 = (Ok tt, s1) ->
  documented_chain hs (c, s1) = (Err p, (c2, s2)) ->
  documented_chain (MetricsHandler :: hs) (c, s) = (Err p, (c2, s2)).
Proof.
  intros Hc Ht Ha Hpanic. cbn [documented_chain]. unfold MetricsHandler.
  rewrite (bind_call _ _ _ _ _ _ Ht), bind_of_res, (bind_call _ _ _ _ _ _ Ha), bind_of_res.
  cbn [ret]. by rewrite Hc, Hpanic.
Qed.

End Requests.
