(* ===== verification/Runtime.v ===== *)
(** cmd/app: the composition of the use cases behind the delivery layer
    ([buildRuntime]), and what the composition guarantees of the requests it
    admits. *)
From S2P Require Export HttpGuarantees RateLimit.
Import Response Dto Middleware.

(** * buildRuntime: the use cases behind the ports of the delivery layer *)

Section Composition.
Context {S : Type} `{UserRepository S} `{UserReadersWriters S} `{StateReaders S} `{SessionRepository S}
  `{PermissionRepository S} `{PasswordHasher S} `{JWTService S} `{Environment S} `{ULIDParser} `{Unicode}
  `{PasswordChangeCleanupMetrics S}.

#[global] Instance sessionUseCase : SessionUseCase S := {|
  uc_ValidateSession := SessionUC.ValidateSession;
  uc_GetSessionsByUser := SessionUC.GetSessionsByUser;
  uc_DeleteSessions := SessionUC.DeleteSessions |}.

#[global] Instance authorizationUseCase : AuthorizationUseCase S := {|
  uc_AuthorizeFresh := Authorization.AuthorizeFresh;
  uc_AuthorizeFreshIdentity := Authorization.AuthorizeFreshIdentity |}.

Definition authenticationUseCase (ttl : Authentication.Lifetimes) : AuthenticationUseCase S := {|
  uc_Signup := Authentication.Signup;
  uc_Login := Authentication.Login ttl;
  uc_Logout := Authentication.Logout;
  uc_Refresh := Authentication.Refresh ttl |}.

#[global] Instance userUseCase : UserUseCase S := {|
  uc_CreateUser := UserUC.CreateUser;
  uc_GetUser := UserUC.GetUser;
  uc_GetUserslist := UserUC.GetUserslist;
  uc_DeleteUser := UserUC.DeleteUser;
  uc_UpdateUser := UserUC.UpdateUser;
  uc_ChangeEmail := UserUC.ChangeEmail;
  uc_ChangePassword := UserUC.ChangePassword;
  uc_ChangeRole := UserUC.ChangeRole;
  uc_ChangeStatus := UserUC.ChangeStatus |}.

#[global] Instance permissionUseCase : PermissionUseCase S := {|
  uc_CreatePermission := PermissionUC.Create;
  uc_GetPermissions := PermissionUC.GetPermissions;
  uc_GetPermissionsByRole := PermissionUC.GetPermissionsByRole;
  uc_DeletePermission := PermissionUC.Delete |}.

End Composition.

(** * Whom the composition admits *)

Section Admission.
Context {S : Type} `{StateReaders S} `{SessionRepository S} `{JWTService S} `{RateLimiter S}
  `{Environment S} `{ULIDParser}.

(** The token of a request belongs to a live session of its user. *)
Record live_token (auth : string) (claims : Claims.JWTClaims) (s : S) (s' : S) : Prop := {
  lt_bearer : HasPrefix auth "Bearer " = true;
  lt_parsed : exists s1, ParseAndValidate (TrimPrefix auth "Bearer ") s = (Ok claims, s1)
    /\ exists current,
        sr_FindByJTI (Claims.JTI claims) (Claims.UserID claims) (Claims.SessionID claims)
          (Claims.CredentialVersion claims) s1 = (Ok (Some current), s')
        /\ Session.ID current = Claims.SessionID claims
        /\ Session.UserID current = Claims.UserID claims
        /\ Session.CurrentJTI current = Claims.JTI claims
        /\ Session.CredentialVersion current = Claims.CredentialVersion claims;
  lt_access : Claims.IsAccess claims = true;
}.

(** The principal a token carries. *)
Definition token_principal (claims : Claims.JWTClaims) : Authorization.Principal :=
  {| Authorization.userID := Claims.UserID claims;
     Authorization.sessionID := Claims.SessionID claims;
     Authorization.credentialVersion := Claims.CredentialVersion claims;
     Authorization.role := Claims.Role claims;
     Authorization.permissions := Claims.Permissions claims |}.

Lemma decide_bind_inl {A B} (d : decision S A) (k : A -> decision S B) s b s' :
  decide_bind d k s = (inl b, s') -> exists a s1, d s = (inl a, s1) /\ k a s1 = (inl b, s').
Proof. unfold decide_bind. destruct (d s) as [[a|p] s1]; [|discriminate]. eauto. Qed.

Lemma admit_result_inl {A} (m : M S A) s a s' : admit_result m s = (inl a, s') -> m s = (Ok a, s').
Proof. unfold admit_result. destruct (m s) as [[x|e] s1]; [|discriminate]. by intros [= <- <-]. Qed.

Lemma authenticated_live auth s p s' :
  authenticated auth s = (inl p, s') ->
  exists claims, live_token auth claims s s' /\ p = token_principal claims.
Proof.
  unfold authenticated. destruct (_ || _) eqn:E; [discriminate|]. breflect.
  intros (claims & s1 & Hp%admit_result_inl & Hr)%decide_bind_inl.
  destruct (Claims.IsAccess claims) eqn:Ha; [|discriminate]. cbn [negb] in Hr.
  apply decide_bind_inl in Hr as ([] & s2 & Hl & Hr).
  destruct (Authorization.NewPrincipal _ _ _ _ _) as [q|e] eqn:Hn; [|discriminate].
  injection Hr as <- <-. apply Authorization.NewPrincipal_Ok in Hn as [-> _].
  unfold live_session in Hl. apply decide_bind_inl in Hl as (live & s3 & Hv%admit_result_inl & Hl).
  destruct live; [|discriminate]. injection Hl as <-.
  apply SessionUC.ValidateSession_true_inv in Hv as (current & Hf & Hid & Hu & Hj & Hc & _ & _ & _).
  cbn in *. exists claims. split; [|done]. split; [done| |done].
  exists s1. split; [exact Hp|]. exists current. auto.
Qed.

Lemma admission_inl rl k ip path auth s p s' :
  admission rl k ip path auth s = (inl p, s') ->
  exists claims s1 s2 s3, live_token auth claims s1 s2
    /\ checked k (token_principal claims) s3 = (inl p, s').
Proof.
  unfold admission. intros ([] & s1 & _ & Hr)%decide_bind_inl.
  apply decide_bind_inl in Hr as (q & s2 & (claims & Hl & ->)%authenticated_live & Hr).
  apply decide_bind_inl in Hr as ([] & s3 & _ & Hr). eauto 10.
Qed.

(** C5. A request to a route of class fresh authorization is admitted only with
    a token of a live session of its user, whose authoritative state at the
    moment of the check is active, has the token's credential version and holds
    the required permission; and the principal the handler sees carries the
    role and permissions of that state, whatever the token said. *)
Theorem fresh_admission_is_authoritative rl required ip path auth s p s' :
  required <> "" ->
  admission rl (CheckPermission required) ip path auth s = (inl p, s') ->
  exists claims s1 s2 s3 state, live_token auth claims s1 s2
    /\ GetSecurityState (Claims.UserID claims) s3 = (Ok state, s')
    /\ sec_UserID state = Claims.UserID claims
    /\ sec_Status state = Status.StatusActive
    /\ sec_CredentialVersion state = Claims.CredentialVersion claims
    /\ Permission.Has (sec_Permissions state) required = true
    /\ p = {| Authorization.userID := Claims.UserID claims;
              Authorization.sessionID := Claims.SessionID claims;
              Authorization.credentialVersion := Claims.CredentialVersion claims;
              Authorization.role := sec_Role state;
              Authorization.permissions := sec_Permissions state |}.
Proof.
  intros Hreq (claims & s1 & s2 & s3 & Hl & Hc)%admission_inl.
  cbn [checked] in Hc. apply admit_result_inl in Hc.
  apply Authorization.AuthorizeFresh_Ok in Hc
    as (_ & state & Hg & Hu & Hv & _ & Hst & [Hempty|[_ Hhas]] & ->); [done|].
  cbn in *. exists claims, s1, s2, s3, state. repeat (split; [done|]). done.
Qed.

End Admission.
