(* ===== verification/LocalHttp.v ===== *)
(** A concrete request, engine, router and set of ports on which the theorems
    of the delivery layer apply. *)
From S2P Require Export Runtime.
From Stdlib Require Import Ascii.
Import Response Dto Middleware.

Module LocalHttp.

(** * A request in progress *)

Record context := {
  x_headers : string -> string;
  x_params : string -> string;
  x_fullPath : string;
  x_method : string;
  x_body : option Z;
  x_keys : gmap string Authorization.Principal;
  x_aborted : bool;
  x_responseHeader : header;
  x_status : Z;
  x_written : list document;
}.

Definition with_keys k c := {| x_headers := x_headers c; x_params := x_params c; x_fullPath := x_fullPath c;
  x_method := x_method c; x_body := x_body c; x_keys := k; x_aborted := x_aborted c;
  x_responseHeader := x_responseHeader c; x_status := x_status c; x_written := x_written c |}.
Definition with_body b c := {| x_headers := x_headers c; x_params := x_params c; x_fullPath := x_fullPath c;
  x_method := x_method c; x_body := b; x_keys := x_keys c; x_aborted := x_aborted c;
  x_responseHeader := x_responseHeader c; x_status := x_status c; x_written := x_written c |}.
Definition with_abort c := {| x_headers := x_headers c; x_params := x_params c; x_fullPath := x_fullPath c;
  x_method := x_method c; x_body := x_body c; x_keys := x_keys c; x_aborted := true;
  x_responseHeader := x_responseHeader c; x_status := x_status c; x_written := x_written c |}.
Definition with_header h c := {| x_headers := x_headers c; x_params := x_params c; x_fullPath := x_fullPath c;
  x_method := x_method c; x_body := x_body c; x_keys := x_keys c; x_aborted := x_aborted c;
  x_responseHeader := h; x_status := x_status c; x_written := x_written c |}.
Definition with_document st d c := {| x_headers := x_headers c; x_params := x_params c;
  x_fullPath := x_fullPath c; x_method := x_method c; x_body := x_body c; x_keys := x_keys c;
  x_aborted := x_aborted c; x_responseHeader := x_responseHeader c;
  x_status := match x_written c with [] => st | _ => x_status c end; x_written := x_written c ++ [d] |}.

Definition no_body {A} : res A := Err (ENew "EOF").

#[export] Instance local_context : GinContext context := {|
  c_GetHeader := x_headers; c_ClientIP := fun _ => "192.0.2.1"; c_Method := x_method;
  c_FullPath := x_fullPath; c_URLPath := x_fullPath; c_Param := x_params;
  c_HasBody := fun c => match x_body c with Some _ => true | None => false end;
  c_LimitBody := fun n => with_body (Some n);
  c_Get := fun c k => x_keys c !! k; c_Set := fun k p c => with_keys (<[k := p]> (x_keys c)) c;
  c_Abort := with_abort; c_IsAborted := x_aborted;
  c_ResponseHeader := x_responseHeader; c_SetResponseHeader := with_header;
  c_JSON := with_document; c_Status := x_status; c_Written := x_written;
  bind_login := fun _ => Ok {| lq_Email := "a@b.c"; lq_Password := "secret" |};
  bind_register := fun _ => no_body; bind_refresh := fun _ => no_body;
  bind_createPermission := fun _ => no_body; bind_deleteSessions := fun _ => no_body;
  bind_createUser := fun _ => no_body; bind_updateUser := fun _ => no_body;
  bind_updateUserEmail := fun _ => no_body; bind_updateUserPassword := fun _ => no_body;
  bind_updateUserRole := fun _ => no_body; bind_updateUserStatus := fun _ => no_body;
  bind_pagination := fun _ => Ok {| Pagination.Page := 1; Pagination.Limit := 10 |};
  bind_listUsers := fun _ => no_body |}.

#[export] Instance local_gin_laws : GinLaws context.
Proof.
  split; try done; intros; try (by repeat split).
  - apply lookup_insert_eq.
  - change (x_written c = []) in H. cbn. by rewrite H.
Qed.

#[export] Instance local_engine {S} : GinEngine context S := documented_chain.
#[export] Instance local_engine_laws {S} : GinEngineLaws context S.
Proof. done. Qed.

(** * Groups *)

#[export] Instance local_router {S} : GinRouter context S := {|
  RouterGroup := string * list (HandlerFunc context S);
  gr_BasePath := fst; gr_Handlers := snd;
  gr_joinPaths := fun a p => if a =s "/" then p else a +:+ p;
  gr_Group := fun g p hs => (if g.1 =s "/" then p else g.1 +:+ p, g.2 ++ hs) |}.

#[export] Instance local_router_laws {S} : GinRouterLaws context S.
Proof.
  split; try done. intros a p Ha Hp. cbn. destruct (a =s "/") eqn:E; [|done].
  breflect. subst a. vm_compute in Ha. discriminate Ha.
Qed.

(** * Ports: the session store with one session, its user an active operator,
    the limiter on the same Redis *)

#[export] Instance text : TextLibraries := {|
  template := string; template_Execute := fun t _ => Some t;
  language_MatchStrings := fun _ => 0; strings_ToLower := fun s => s |}.

Definition catalog : localizer := {[localeEnglish := {[detailUnexpected := "unexpected"]}]}.

Definition claims : Claims.JWTClaims :=
  {| Claims.UserID := "u1"; Claims.SessionID := "s1"; Claims.CredentialVersion := 1;
     Claims.Role := Role.RoleOperator; Claims.Permissions := Permission.emptySet;
     Claims.TokenType_ := Claims.TokenTypeAccess; Claims.JTI := "j1";
     Claims.Issuer := Claims.TokenIssuer; Claims.Subject := Claims.TokenTypeAccess;
     Claims.Audience := [Claims.TokenAudience];
     Claims.ExpiresAt := 1600000000000; Claims.IssuedAt := 1000000000000;
     Claims.NotBefore := 1000000000000 |}.

#[export] Instance tokens : JWTService keyspace := {|
  GenerateAccessToken := fun _ _ _ => fail ErrInternal;
  GenerateRefreshToken := fun _ _ => fail ErrInternal;
  ParseAndValidate := fun tok ks =>
    (if tok =s "access-j1" then Ok claims else Err (ESentinel ErrTokenInvalid), ks) |}.

Definition readUsers : Permission.PermissionSet := {| Permission.values := [Permission.PermUserRead] |}.
Definition authoritative : SecurityState :=
  {| sec_UserID := "u1"; sec_Status := Status.StatusActive; sec_Role := Role.RoleOperator;
     sec_CredentialVersion := 1; sec_Permissions := readUsers |}.

#[export] Instance states : StateReaders keyspace := {|
  GetSecurityState := fun _ => ret authoritative;
  GetIdentityState := fun _ => ret {| id_UserID := "u1"; id_Status := Status.StatusActive;
                                      id_CredentialVersion := 1 |} |}.

(** The use cases the witnesses do not reach. *)
#[export] Instance no_authentication : AuthenticationUseCase keyspace := {|
  uc_Signup := fun _ => fail ErrInternal; uc_Login := fun _ => fail ErrInvalidCredentials;
  uc_Logout := fun _ _ => fail ErrInternal; uc_Refresh := fun _ => fail ErrInternal |}.
#[export] Instance no_users : UserUseCase keyspace := {|
  uc_CreateUser := fun _ => fail ErrInternal;
  uc_GetUser := fun u => ret {| ud_ID := u; ud_Email := "a@b.c"; ud_Role := Role.RoleClient;
                                ud_Status := Status.StatusActive; ud_CreatedAt := 0 |};
  uc_GetUserslist := fun _ => fail ErrInternal; uc_DeleteUser := fun _ => fail ErrInternal;
  uc_UpdateUser := fun _ => fail ErrInternal; uc_ChangeEmail := fun _ => fail ErrInternal;
  uc_ChangePassword := fun _ => fail ErrInternal; uc_ChangeRole := fun _ => fail ErrInternal;
  uc_ChangeStatus := fun _ => fail ErrInternal |}.
#[export] Instance no_permissions : PermissionUseCase keyspace := {|
  uc_CreatePermission := fun _ => fail ErrInternal; uc_GetPermissions := fun _ _ => fail ErrInternal;
  uc_GetPermissionsByRole := fun _ => fail ErrInternal; uc_DeletePermission := fun _ => fail ErrInternal |}.
#[export] Instance uuids : UUIDParser := fun s => (String.length s =? 36)%nat.
#[export] Instance metrics : HTTPMetrics keyspace := {|
  RecordHTTPActiveRequests := fun _ => ret tt; RecordHTTPRequest := fun _ _ _ _ => ret tt |}.

Definition minute : RateLimit := {| Limit := 5; Window := 60000000000 |}.
Definition limits : RateLimitConfig :=
  {| Auth := minute; Public := minute; ProtectedIP := minute; Private := minute |}.

Definition request (auth : string) : context :=
  {| x_headers := fun name => if name =s "Authorization" then auth else "";
     x_params := fun name => if name =s "id" then "u2" else "";
     x_fullPath := "/api/v1/user/:id"; x_method := "GET"; x_body := None; x_keys := ∅;
     x_aborted := false; x_responseHeader := ∅; x_status := 200; x_written := [] |}.

Definition bearer : string := "Bearer access-j1".
Definition get_user : M (context * keyspace) unit := Handlers.GetUser catalog.
Definition engine : RouterGroup (C := context) (S := keyspace) :=
  ("/", global_handlers catalog 1048576).

(** The principal and the state the route GET /api/v1/user/:id is reached with. *)
Definition admitted : (Authorization.Principal + ProblemDescriptor) * keyspace :=
  admission limits (CheckPermission Permission.PermUserRead) "192.0.2.1" "/api/v1/user/:id" bearer
    Local.store1.
Definition principal : Authorization.Principal :=
  {| Authorization.userID := "u1"; Authorization.sessionID := "s1";
     Authorization.credentialVersion := 1; Authorization.role := Role.RoleOperator;
     Authorization.permissions := readUsers |}.

Example admitted_principal : admitted.1 = inl principal.
Proof. vm_compute. reflexivity. Qed.

Lemma local_clock : clock_total (S := keyspace).
Proof. intros s. by eexists _, _. Qed.
Lemma local_ports_return : ports_return (S := keyspace).
Proof. split; [exact local_clock|by intros b s; exists s|by intros d m p st s _ _ _; exists s]. Qed.

End LocalHttp.
Import LocalHttp.

(** * Witnesses *)

Lemma protected_chain_refines_admission_witness :
  exists c', documented_chain (protected_guards catalog limits (CheckPermission Permission.PermUserRead)
                                 ++ [endpoint get_user]) (request bearer, Local.store1)
             = get_user (c', admitted.2)
    /\ c_Get c' principalKey = Some principal.
Proof.
  pose proof (protected_chain_refines_admission catalog local_clock limits
    (CheckPermission Permission.PermUserRead) get_user (request bearer) Local.store1 eq_refl) as Hr.
  change (admission limits (CheckPermission Permission.PermUserRead) _ _ _ Local.store1) with admitted in Hr.
  assert (Ha : admitted = (inl principal, admitted.2)) by (vm_compute; reflexivity).
  rewrite Ha in Hr. destruct Hr as (c' & Hrun & _ & Hp). exists c'. exact (conj Hrun Hp).
Defined.

Lemma routes_enforce_their_class_witness :
  exists r routes, Routes.setupRoutes catalog (JSON 200 (StatusWord "")) (JSON 200 (StatusWord "ready")) limits engine
    = Ok (r, routes)
    /\ NoDup (map Routes.key_of (Routes.entries r))
    /\ Forall2 (Routes.enforced catalog (JSON 200 (StatusWord "")) (JSON 200 (StatusWord "ready")) limits
                  (gr_Handlers engine)) (Routes.Entries r) routes
    /\ map (fun e => (Routes.Method e, Routes.Path e)) (List.filter Routes.is_public (Routes.Entries r))
       = Routes.public_table.
Proof.
  exact (Routes.routes_enforce_their_class catalog (JSON 200 (StatusWord ""))
           (JSON 200 (StatusWord "ready")) limits engine eq_refl).
Defined.

Lemma recovery_contains_panics_witness :
  exists c', gin_Run [Recovery catalog; endpoint (fail (ENew "boom"))] (request "", Local.store1)
             = (Ok tt, (c', Local.store1)) /\ c_Status c' = 500 /\ List.length (c_Written c') = 1%nat.
Proof.
  destruct (recovery_contains_panics (C := context) (S := keyspace) (H := local_context) catalog [endpoint (fail (ENew "boom"))] (request "") Local.store1
              (ENew "boom") (request "") Local.store1 ltac:(reflexivity) ltac:(reflexivity)) as (c' & Hr & _ & Hw & Hs).
  exists c'. split; [exact Hr|]. split; [exact (Hs eq_refl)|]. rewrite Hw. reflexivity.
Defined.

Lemma fresh_admission_is_authoritative_witness :
  exists claims s1 s2 s3 state, live_token bearer claims s1 s2
    /\ GetSecurityState (Claims.UserID claims) s3 = (Ok state, admitted.2)
    /\ Permission.Has (sec_Permissions state) Permission.PermUserRead = true.
Proof.
  destruct (fresh_admission_is_authoritative limits Permission.PermUserRead "192.0.2.1" "/api/v1/user/:id"
              bearer Local.store1 principal admitted.2 ltac:(discriminate) ltac:(vm_compute; reflexivity))
    as (c & s1 & s2 & s3 & st & Hl & Hg & _ & _ & _ & Hh & _).
  exists c, s1, s2, s3, st. exact (conj Hl (conj Hg Hh)).
Defined.

(** Some route is registered, and answers. *)
Lemma every_request_answered_once_witness :
  exists rt c' s' d, gin_Run (Routes.rt_Handlers rt) (request "", Local.store1) = (Ok tt, (c', s'))
    /\ c_Written c' = [d].
Proof.
  pose (ok := JSON (C := context) (S := keyspace) 200 (StatusWord "ok")).
  destruct (Routes.setup_enforced catalog ok ok limits engine ltac:(reflexivity))
    as (r & routes & keys & Hs & [_ _ He Hp]).
  destruct routes as [|rt routes]; cbn in He.
  { exfalso. inversion He as [Hr|]. cbn in Hp. rewrite <- Hr in Hp. discriminate Hp. }
  destruct (every_request_answered_once (C := context) (S := keyspace) (H := local_context) catalog ok ok
              limits 1048576 engine r (rt :: routes) rt (request "") Local.store1
              ltac:(reflexivity) ltac:(reflexivity) local_ports_return (answers_JSON 200 _) (answers_JSON 200 _)
              Hs ltac:(left; reflexivity) ltac:(reflexivity) ltac:(reflexivity)
              ltac:(split; reflexivity)) as (c' & s' & d & Hr & Hw).
  exists rt, c', s', d. exact (conj Hr Hw).
Defined.
