(* ===== verification/Metrics.v ===== *)
(** internal/infra/metrics/prometheus.go: the collectors of the process, their
    registration and the operations that record into them, as the metrics port
    of the delivery layer and of the user use case; and what the metrics
    middleware counts of a request.

    github.com/prometheus/client_golang is the parameter part: a registry
    refuses (panics on) a second collector of a name, a vector refuses label
    values of another number than its label names or that are not UTF-8, and
    keeps one series per tuple of values, and a histogram's series cannot be
    created over buckets that do not increase.  Counts are integers; that a float64
    counts exactly only up to 2^53 is not modelled.  Durations and bucket
    bounds are nanoseconds, where the code has seconds. *)
From S2P Require Export LocalHttp.
Import Response Dto Middleware.

Module Metrics.

(** * Collectors, as client_golang documents them *)

Record Opts := { Name : string; Help : string; LabelNames : list string; Buckets : list Z }.

Definition panic {A} (what : string) : res A := Err (ENew ("panic: " +:+ what)).

(** [registry.MustRegister]: the registry as the descriptions it holds. *)
Definition MustRegister (o : Opts) (registry : list Opts) : res (list Opts) :=
  if existsb (fun o' => Name o' =s Name o) registry
  then panic "duplicate metrics collector registration attempted"
  else if negb (bool_decide (NoDup (LabelNames o))) then panic "duplicate label names"
  else Ok (registry ++ [o]).

Fixpoint MustRegister_all (os registry : list Opts) : res (list Opts) :=
  match os with
  | [] => Ok registry
  | o :: os' => letr registry := MustRegister o registry in MustRegister_all os' registry
  end.

(** A collector's series; its description never changes. *)
Record CounterVec (o : Opts) := { cv_series : gmap (list string) Z }.
Record HistogramVec (o : Opts) := { hv_series : gmap (list string) (list Z) }.
Record Gauge (o : Opts) := { g_value : Z }.
Arguments cv_series {o}. Arguments hv_series {o}. Arguments g_value {o}.

(** [WithLabelValues] panics on these. *)
Definition label_values_ok (o : Opts) (lvs : list string) : res unit :=
  if negb (Nat.eqb (List.length lvs) (List.length (LabelNames o))) then panic "inconsistent label cardinality"
  else if negb (forallb ValidString lvs) then panic "label value is not valid UTF-8"
  else Ok tt.

(** [v.WithLabelValues(lvs...).Inc()] and [.Observe(d)] *)
Definition counter_Inc {o} (v : CounterVec o) (lvs : list string) : res (CounterVec o) :=
  letr _ := label_values_ok o lvs in
  Ok {| cv_series := <[lvs := default 0 (cv_series v !! lvs) + 1]> (cv_series v) |}.

Fixpoint increasing (bounds : list Z) : bool :=
  match bounds with
  | b :: ((b' :: _) as rest) => (b <? b') && increasing rest
  | _ => true
  end.

Definition histogram_Observe {o} (v : HistogramVec o) (lvs : list string) (d : Z) : res (HistogramVec o) :=
  letr _ := label_values_ok o lvs in
  letr _ := (if increasing (Buckets o) then Ok tt else panic "histogram buckets must be in increasing order") in
  Ok {| hv_series := <[lvs := default [] (hv_series v !! lvs) ++ [d]]> (hv_series v) |}.

Definition milliseconds : Z := 1000000.
Definition DefBuckets : list Z :=
  map (Z.mul milliseconds) [5; 10; 25; 50; 100; 250; 500; 1000; 2500; 5000; 10000].

(** * prometheus.go *)

Definition httpRequestDurationOpts : Opts :=
  {| Name := "http_request_duration_seconds"; Help := "HTTP request duration in seconds";
     LabelNames := ["method"; "path"; "status_code"]; Buckets := DefBuckets |}.
Definition httpActiveRequestsOpts : Opts :=
  {| Name := "http_active_requests"; Help := "Number of active HTTP requests";
     LabelNames := []; Buckets := [] |}.
Definition httpRequestsTotalOpts : Opts :=
  {| Name := "http_requests_total"; Help := "Total number of HTTP requests";
     LabelNames := ["method"; "path"; "status_code"]; Buckets := [] |}.
Definition dbQueryDurationOpts : Opts :=
  {| Name := "db_query_duration_seconds"; Help := "Database query duration in seconds";
     LabelNames := ["operation"; "success"];
     Buckets := map (Z.mul milliseconds) [1; 5; 10; 25; 50; 100; 250; 500; 1000; 2500; 5000] |}.
Definition dbQueriesTotalOpts : Opts :=
  {| Name := "db_queries_total"; Help := "Total number of database queries";
     LabelNames := ["operation"; "success"]; Buckets := [] |}.
Definition userLoginsTotalOpts : Opts :=
  {| Name := "user_logins_total"; Help := "Total user login attempts";
     LabelNames := ["success"]; Buckets := [] |}.
Definition tokenRefreshTotalOpts : Opts :=
  {| Name := "token_refresh_total"; Help := "Total token refresh attempts";
     LabelNames := ["success"]; Buckets := [] |}.
Definition passwordChangeCleanupFailuresOpts : Opts :=
  {| Name := "password_change_cleanup_failures_total";
     Help := "Total password-change session cleanup failures after the credential update committed";
     LabelNames := ["stage"]; Buckets := [] |}.

Record PrometheusMetrics := {
  registry : list Opts;
  httpRequestDuration : HistogramVec httpRequestDurationOpts;
  httpActiveRequests : Gauge httpActiveRequestsOpts;
  httpRequestsTotal : CounterVec httpRequestsTotalOpts;
  dbQueryDuration : HistogramVec dbQueryDurationOpts;
  dbQueriesTotal : CounterVec dbQueriesTotalOpts;
  userLoginsTotal : CounterVec userLoginsTotalOpts;
  tokenRefreshTotal : CounterVec tokenRefreshTotalOpts;
  passwordChangeCleanupFailures : CounterVec passwordChangeCleanupFailuresOpts;
}.

(** The collectors of the program, in the order of the struct literal. *)
Definition own_collectors : list Opts :=
  [httpRequestDurationOpts; httpActiveRequestsOpts; httpRequestsTotalOpts; dbQueryDurationOpts;
   dbQueriesTotalOpts; userLoginsTotalOpts; tokenRefreshTotalOpts; passwordChangeCleanupFailuresOpts].

(** The process and Go runtime collectors of the library are arguments. *)
Definition NewPrometheusMetrics (processCollector goCollector : list Opts) : res PrometheusMetrics :=
  letr registry := MustRegister_all processCollector [] in
  letr registry := MustRegister_all goCollector registry in
  letr registry := MustRegister_all own_collectors registry in
  Ok {| registry := registry;
        httpRequestDuration := {| hv_series := ∅ |};
        httpActiveRequests := {| g_value := 0 |};
        httpRequestsTotal := {| cv_series := ∅ |};
        dbQueryDuration := {| hv_series := ∅ |};
        dbQueriesTotal := {| cv_series := ∅ |};
        userLoginsTotal := {| cv_series := ∅ |};
        tokenRefreshTotal := {| cv_series := ∅ |};
        passwordChangeCleanupFailures := {| cv_series := ∅ |} |}.

Definition GetRegistry (m : PrometheusMetrics) : list Opts := registry m.

(** ** Updates of one field *)

Definition with_http (h : HistogramVec httpRequestDurationOpts) (c : CounterVec httpRequestsTotalOpts)
    (m : PrometheusMetrics) : PrometheusMetrics :=
  {| registry := registry m; httpRequestDuration := h; httpActiveRequests := httpActiveRequests m;
     httpRequestsTotal := c; dbQueryDuration := dbQueryDuration m; dbQueriesTotal := dbQueriesTotal m;
     userLoginsTotal := userLoginsTotal m; tokenRefreshTotal := tokenRefreshTotal m;
     passwordChangeCleanupFailures := passwordChangeCleanupFailures m |}.
Definition with_active (n : Z) (m : PrometheusMetrics) : PrometheusMetrics :=
  {| registry := registry m; httpRequestDuration := httpRequestDuration m; httpActiveRequests := {| g_value := n |};
     httpRequestsTotal := httpRequestsTotal m; dbQueryDuration := dbQueryDuration m;
     dbQueriesTotal := dbQueriesTotal m; userLoginsTotal := userLoginsTotal m;
     tokenRefreshTotal := tokenRefreshTotal m;
     passwordChangeCleanupFailures := passwordChangeCleanupFailures m |}.
Definition with_db (h : HistogramVec dbQueryDurationOpts) (c : CounterVec dbQueriesTotalOpts)
    (m : PrometheusMetrics) : PrometheusMetrics :=
  {| registry := registry m; httpRequestDuration := httpRequestDuration m;
     httpActiveRequests := httpActiveRequests m; httpRequestsTotal := httpRequestsTotal m;
     dbQueryDuration := h; dbQueriesTotal := c; userLoginsTotal := userLoginsTotal m;
     tokenRefreshTotal := tokenRefreshTotal m;
     passwordChangeCleanupFailures := passwordChangeCleanupFailures m |}.
Definition with_business (l : CounterVec userLoginsTotalOpts) (t : CounterVec tokenRefreshTotalOpts)
    (p : CounterVec passwordChangeCleanupFailuresOpts) (m : PrometheusMetrics) : PrometheusMetrics :=
  {| registry := registry m; httpRequestDuration := httpRequestDuration m;
     httpActiveRequests := httpActiveRequests m; httpRequestsTotal := httpRequestsTotal m;
     dbQueryDuration := dbQueryDuration m; dbQueriesTotal := dbQueriesTotal m; userLoginsTotal := l;
     tokenRefreshTotal := t; passwordChangeCleanupFailures := p |}.

(** A histogram is observed before the counter is incremented: a panic of
    either leaves the struct as that call found it, since both check the same
    label values. *)
Definition RecordHTTPRequest (duration : Z) (method path statusCode : string) (m : PrometheusMetrics)
    : res PrometheusMetrics :=
  letr h := histogram_Observe (httpRequestDuration m) [method; path; statusCode] duration in
  letr c := counter_Inc (httpRequestsTotal m) [method; path; statusCode] in
  Ok (with_http h c m).

Definition RecordHTTPActiveRequests (increment : bool) (m : PrometheusMetrics) : PrometheusMetrics :=
  if increment then with_active (g_value (httpActiveRequests m) + 1) m
  else with_active (g_value (httpActiveRequests m) - 1) m.

Definition RecordDBQuery (duration : Z) (operation success : string) (m : PrometheusMetrics)
    : res PrometheusMetrics :=
  letr h := histogram_Observe (dbQueryDuration m) [operation; success] duration in
  letr c := counter_Inc (dbQueriesTotal m) [operation; success] in
  Ok (with_db h c m).

Definition RecordUserLogin (success : bool) (m : PrometheusMetrics) : res PrometheusMetrics :=
  let successStr := if negb success then "false" else "true" in
  letr l := counter_Inc (userLoginsTotal m) [successStr] in
  Ok (with_business l (tokenRefreshTotal m) (passwordChangeCleanupFailures m) m).

Definition RecordTokenRefresh (success : bool) (m : PrometheusMetrics) : res PrometheusMetrics :=
  let successStr := if negb success then "false" else "true" in
  letr t := counter_Inc (tokenRefreshTotal m) [successStr] in
  Ok (with_business (userLoginsTotal m) t (passwordChangeCleanupFailures m) m).

Definition RecordPasswordChangeCleanupFailure (stage : string) (m : PrometheusMetrics)
    : res PrometheusMetrics :=
  letr p := counter_Inc (passwordChangeCleanupFailures m) [stage] in
  Ok (with_business (userLoginsTotal m) (tokenRefreshTotal m) p m).

(** * Registration *)

Lemma MustRegister_all_Ok os reg :
  Forall (fun o => NoDup (LabelNames o)) os -> NoDup (map Name (reg ++ os)) ->
  MustRegister_all os reg = Ok (reg ++ os).
Proof.
  intros Hl. revert reg. induction Hl as [|o os Ho Hos IH]; intros reg Hnd.
  { by rewrite app_nil_r. }
  cbn. unfold MustRegister.
  assert (Hfresh : existsb (fun o' => Name o' =s Name o) reg = false).
  { destruct (existsb _ reg) eqn:He; [|done]. apply existsb_exists in He as (o' & Hin & Hn). breflect.
    rewrite map_app in Hnd. apply NoDup_app in Hnd as (_ & Hd & _). exfalso.
    apply (Hd (Name o)); [rewrite <- Hn; by apply list_elem_of_In, in_map|by left]. }
  rewrite Hfresh, bool_decide_eq_true_2 by done. cbn.
  rewrite IH by (by rewrite <- app_assoc). by rewrite <- app_assoc.
Qed.

Definition libraries_aside (process go : list Opts) : Prop :=
  Forall (fun o => NoDup (LabelNames o)) (process ++ go)
  /\ NoDup (map Name (process ++ go))
  /\ forall o, In o (process ++ go) -> ~ In (Name o) (map Name own_collectors).

Definition started (registered : list Opts) : PrometheusMetrics :=
  {| registry := registered; httpRequestDuration := {| hv_series := ∅ |};
     httpActiveRequests := {| g_value := 0 |}; httpRequestsTotal := {| cv_series := ∅ |};
     dbQueryDuration := {| hv_series := ∅ |}; dbQueriesTotal := {| cv_series := ∅ |};
     userLoginsTotal := {| cv_series := ∅ |}; tokenRefreshTotal := {| cv_series := ∅ |};
     passwordChangeCleanupFailures := {| cv_series := ∅ |} |}.

Lemma NewPrometheusMetrics_Ok process go :
  libraries_aside process go ->
  NewPrometheusMetrics process go = Ok (started (process ++ go ++ own_collectors))
  /\ NoDup (map Name (process ++ go ++ own_collectors)).
Proof.
  intros (Hl & Hnd & Hown). apply Forall_app in Hl as [Hlp Hlg].
  assert (Hall : NoDup (map Name (process ++ go ++ own_collectors))).
  { rewrite app_assoc, map_app. apply NoDup_app. split; [done|]. split.
    - intros n Hn Hn'. apply list_elem_of_In, in_map_iff in Hn as (o & <- & Ho).
      apply list_elem_of_In in Hn'. by apply (Hown o).
    - apply (bool_decide_unpack _). vm_compute. exact I. }
  split; [|done]. unfold NewPrometheusMetrics.
  rewrite MustRegister_all_Ok; [|done|rewrite map_app in Hnd; exact (proj1 (proj1 (NoDup_app _ _) Hnd))]. cbn [app res_bind].
  rewrite MustRegister_all_Ok by done. cbn [res_bind].
  rewrite MustRegister_all_Ok; [|apply (bool_decide_unpack _); vm_compute; exact I|by rewrite <- app_assoc].
  cbn [res_bind]. by rewrite <- app_assoc.
Qed.

(** The collectors of the program register without a panic, whatever the
    process and Go collectors of the library are as long as their own names are
    distinct and none is the program's: afterwards the registry exports each
    collector once, every series is empty and no request is active. *)
Theorem collectors_register_once (process go : list Opts) :
  Forall (fun o => NoDup (LabelNames o)) (process ++ go) ->
  NoDup (map Name (process ++ go)) ->
  (forall o, In o (process ++ go) -> ~ In (Name o) (map Name own_collectors)) ->
  exists m, NewPrometheusMetrics process go = Ok m
    /\ GetRegistry m = process ++ go ++ own_collectors /\ NoDup (map Name (GetRegistry m))
    /\ g_value (httpActiveRequests m) = 0 /\ cv_series (httpRequestsTotal m) = ∅
    /\ hv_series (httpRequestDuration m) = ∅.
Proof.
  intros Hl Hnd Hown. destruct (NewPrometheusMetrics_Ok process go) as [Hm Hall]; [done|].
  exists (started (process ++ go ++ own_collectors)). done.
Qed.

(** The collectors of the database, of logins and of refreshes. *)
Definition unrecorded_view (m : PrometheusMetrics) :=
  (dbQueryDuration m, dbQueriesTotal m, userLoginsTotal m, tokenRefreshTotal m).

(** The three methods the program calls never touch them. *)
Lemma called_methods_leave m m' :
  (exists d method path status, RecordHTTPRequest d method path status m = Ok m')
  \/ (exists b, m' = RecordHTTPActiveRequests b m)
  \/ (exists stage, RecordPasswordChangeCleanupFailure stage m = Ok m') ->
  unrecorded_view m' = unrecorded_view m.
Proof.
  intros [(d & me & p & st & Hr)|[[[] ->]|(stage & Hr)]]; [|done..|].
  - by apply res_bind_Ok_inv in Hr as (h & _ & (c & _ & [= <-])%res_bind_Ok_inv).
  - by apply res_bind_Ok_inv in Hr as (p & _ & [= <-]).
Qed.

(** * The metrics port of the application *)

(** The state of the process holds the struct. *)
Class MetricsState (S : Type) := {
  metrics_of : S -> PrometheusMetrics;
  set_metrics : PrometheusMetrics -> S -> S;
}.
Class MetricsStateLaws (S : Type) `{MetricsState S} : Prop :=
  metrics_of_set m s : metrics_of (set_metrics m s) = m.

Section Port.
Context {S : Type} `{MetricsState S} {ML : MetricsStateLaws S}.

Definition recording (f : PrometheusMetrics -> res PrometheusMetrics) : M S unit := fun s =>
  match f (metrics_of s) with Ok m => (Ok tt, set_metrics m s) | Err e => (Err e, s) end.

#[export] Instance prometheus_http : HTTPMetrics S :=
  Build_HTTPMetrics S (fun b => recording (fun m => Ok (RecordHTTPActiveRequests b m)))
    (fun d method path status => recording (RecordHTTPRequest d method path status)).

#[export] Instance prometheus_cleanup : PasswordChangeCleanupMetrics S :=
  fun stage => recording (RecordPasswordChangeCleanupFailure stage).

(** Recording under UTF-8 labels never panics. *)
Lemma RecordHTTPRequest_run d method path status (m : PrometheusMetrics) :
  ValidString method = true -> ValidString path = true -> ValidString status = true ->
  let lvs := [method; path; status] in
  RecordHTTPRequest d method path status m
  = Ok (with_http
          {| hv_series := <[lvs := default [] (hv_series (httpRequestDuration m) !! lvs) ++ [d]]>
                            (hv_series (httpRequestDuration m)) |}
          {| cv_series := <[lvs := default 0 (cv_series (httpRequestsTotal m) !! lvs) + 1]>
                            (cv_series (httpRequestsTotal m)) |} m).
Proof.
  intros Hm Hp Hs lvs. unfold RecordHTTPRequest, histogram_Observe, counter_Inc, label_values_ok.
  cbn [List.length LabelNames httpRequestDurationOpts httpRequestsTotalOpts Nat.eqb negb forallb].
  by rewrite Hm, Hp, Hs.
Qed.

Lemma prometheus_ports_return `{Environment S} : clock_total (S := S) -> ports_return (S := S).
Proof.
  intros Hclock. split; [done| |].
  - intros b s. by eexists.
  - intros d m p st s Hm Hp Hst. cbn. unfold recording. rewrite RecordHTTPRequest_run by done. by eexists.
Qed.

(** ** What a request adds *)

(** The HTTP metrics. *)
Definition http_view (m : PrometheusMetrics) :=
  (httpRequestDuration m, httpActiveRequests m, httpRequestsTotal m).

(** From [m] to [m'] one request of those labels was counted, and its duration
    observed. *)
Definition counted_once (lvs : list string) (m m' : PrometheusMetrics) : Prop :=
  httpActiveRequests m' = httpActiveRequests m
  /\ cv_series (httpRequestsTotal m')
     = <[lvs := default 0 (cv_series (httpRequestsTotal m) !! lvs) + 1]> (cv_series (httpRequestsTotal m))
  /\ exists d, hv_series (httpRequestDuration m')
     = <[lvs := default [] (hv_series (httpRequestDuration m) !! lvs) ++ [d]]>
         (hv_series (httpRequestDuration m)).

Section Requests.
Context `{Environment S}.
Context {C : Type} `{GinContext C} {GL : GinLaws C}.
Context (Hclock : clock_total (S := S)) (Haside : forall s : S, metrics_of (time_Now s).2 = metrics_of s).

(** The rest of a chain keeps the request and the HTTP metrics. *)
Definition leaves_metrics (hs : list (HandlerFunc C S)) : Prop :=
  forall c s, same_request c (documented_chain hs (c, s)).2.1
              /\ http_view (metrics_of (documented_chain hs (c, s)).2.2) = http_view (metrics_of s).

(** The labels of a request are UTF-8. *)
Definition labels_valid (c : C) : bool := ValidString (c_Method c) && ValidString (request_path c).

(** Where a label is not UTF-8, counting the request panics before it counts. *)
Lemma RecordHTTPRequest_panics d method path status (m : PrometheusMetrics) :
  ValidString method && ValidString path = false ->
  exists e, RecordHTTPRequest d method path status m = Err e.
Proof.
  intros Hl. unfold RecordHTTPRequest, histogram_Observe, label_values_ok.
  cbn [List.length LabelNames httpRequestDurationOpts Nat.eqb negb forallb]. rewrite andb_assoc, Hl. by eexists.
Qed.

(** No request was counted from [m] to [m']. *)
Definition uncounted (m m' : PrometheusMetrics) : Prop :=
  httpRequestsTotal m' = httpRequestsTotal m /\ httpRequestDuration m' = httpRequestDuration m.

(** After what is behind the middleware returned: the count. *)
Lemma count_request t0 (c : C) (s2 : S) :
  let '(r, (c', s')) :=
    (let! recorded := call (Middleware.RecordHTTPActiveRequests false) in
     do! of_res recorded in
     let! clock := call time_Now in
     let! now := of_res clock in
     let! c := ctx in
     let! counted := call (Middleware.RecordHTTPRequest (now - t0) (c_Method c) (request_path c) (itoa (c_Status c))) in
     of_res counted) (c, s2) in
  let m := RecordHTTPActiveRequests false (metrics_of s2) in
  c' = c /\ if labels_valid c then r = Ok tt /\ counted_once [c_Method c; request_path c; itoa (c_Status c)] m (metrics_of s')
            else (exists e, r = Err e) /\ metrics_of s' = m.
Proof using Hclock Haside ML.
  set (s3 := set_metrics (RecordHTTPActiveRequests false (metrics_of s2)) s2).
  assert (Hr3 : Middleware.RecordHTTPActiveRequests false s2 = (Ok tt, s3)) by reflexivity.
  rewrite (bind_call _ _ _ _ _ _ Hr3), bind_of_res.
  destruct (Hclock s3) as (t4 & s4 & Ht4). rewrite (bind_call _ _ _ _ _ _ Ht4), bind_of_res, bind_ctx.
  pose proof (Haside s3) as Hm4. rewrite Ht4 in Hm4. cbn [snd] in Hm4. unfold s3 in Hm4. rewrite metrics_of_set in Hm4.
  unfold labels_valid. destruct (ValidString (c_Method c) && ValidString (request_path c)) eqn:Hl.
  - apply andb_true_iff in Hl as [Hm2 Hp2].
    pose proof (RecordHTTPRequest_run (t4 - t0) (c_Method c) (request_path c) (itoa (c_Status c)) (metrics_of s4)
                  Hm2 Hp2 (ValidString_itoa _)) as Hrec.
    cbv zeta in Hrec. match type of Hrec with _ = Ok ?m5 => set (s5 := set_metrics m5 s4) end.
    assert (Hr5 : Middleware.RecordHTTPRequest (t4 - t0) (c_Method c) (request_path c) (itoa (c_Status c)) s4
                  = (Ok tt, s5)) by (cbn; unfold recording; by rewrite Hrec).
    rewrite (bind_call _ _ _ _ _ _ Hr5). cbn [of_res]. unfold of_res, counted_once, s5. rewrite metrics_of_set, Hm4.
    cbn [with_http httpActiveRequests httpRequestsTotal httpRequestDuration cv_series hv_series].
    split; [done|]. split; [done|]. split; [done|]. split; [done|by eexists].
  - destruct (RecordHTTPRequest_panics (t4 - t0) _ _ (itoa (c_Status c)) (metrics_of s4) Hl) as [e He].
    assert (Hr5 : Middleware.RecordHTTPRequest (t4 - t0) (c_Method c) (request_path c) (itoa (c_Status c)) s4
                  = (Err e, s4)) by (cbn; unfold recording; by rewrite He).
    rewrite (bind_call _ _ _ _ _ _ Hr5). cbn. split; [done|]. split; [by eexists|done].
Qed.

(** C27. The metrics middleware accounts for every request, whose handlers keep
    the request and record no HTTP metrics themselves.  Where what is behind it
    returns and the labels are UTF-8, exactly one request is added to the total
    and one duration to the histogram, under the request's method, its route (or
    its path, where no route matched) and the status it was answered with, no
    other series changes, and the gauge of active requests is back to what it
    was.  Where a label is not UTF-8 the middleware panics then, and nothing is
    counted; and where what is behind it panics, nothing is counted and the
    gauge stays one too high for good. *)
Theorem requests_are_accounted (hs : list (HandlerFunc C S)) (c : C) (s : S) :
  c_IsAborted c = false -> leaves_metrics hs ->
  exists s1, metrics_of s1 = RecordHTTPActiveRequests true (metrics_of s) /\
  let '(r, (c', s')) := documented_chain (MetricsHandler :: hs) (c, s) in
  let m := metrics_of s in let m' := metrics_of s' in
  match (documented_chain hs (c, s1)).1 with
  | Ok _ =>
      if labels_valid c then r = Ok tt /\ counted_once [c_Method c; request_path c; itoa (c_Status c')] m m'
      else (exists e, r = Err e) /\ uncounted m m' /\ httpActiveRequests m' = httpActiveRequests m
  | Err p =>
      r = Err p /\ uncounted m m' /\ g_value (httpActiveRequests m') = g_value (httpActiveRequests m) + 1
  end.
Proof using Hclock Haside ML.
  intros Hc Hhs. cbn [documented_chain]. unfold MetricsHandler.
  destruct (Hclock s) as (t0 & s0 & Ht0). rewrite (bind_call _ _ _ _ _ _ Ht0), bind_of_res.
  pose proof (Haside s) as Hm0. rewrite Ht0 in Hm0. cbn [snd] in Hm0.
  set (s1 := set_metrics (RecordHTTPActiveRequests true (metrics_of s0)) s0).
  assert (Hr1 : Middleware.RecordHTTPActiveRequests true s0 = (Ok tt, s1)) by reflexivity.
  exists s1. split; [unfold s1; by rewrite metrics_of_set, Hm0|].
  rewrite (bind_call _ _ _ _ _ _ Hr1), bind_of_res. cbn [ret]. rewrite Hc.
  destruct (Hhs c s1) as [Hq Hv]. unfold s1 in Hv at 2. rewrite metrics_of_set, Hm0 in Hv.
  destruct (documented_chain hs (c, s1)) as [[u|p] [c2 s2]]; cbn [fst snd] in Hq, Hv |- *;
    unfold http_view in Hv; injection Hv as Hd Ha Ht.
  2:{ cbn. unfold uncounted. by rewrite Hd, Ha, Ht. }
  pose proof (count_request t0 c2 s2) as Hcount.
  match type of Hcount with context [let '(_, _) := ?run in _] => set (counted := run) in * end.
  clearbody counted. destruct counted as [r [c' s']]. destruct Hcount as [-> Hcount].
  assert (Ep : request_path c2 = request_path c /\ c_Method c2 = c_Method c).
  { destruct Hq as (_ & _ & Hf & Hu & _ & Hme). unfold request_path. by rewrite Hf, Hu, Hme. }
  destruct Ep as [Ep Em]. unfold labels_valid in *. rewrite Ep, Em in Hcount.
  assert (Hg : httpActiveRequests (RecordHTTPActiveRequests false (metrics_of s2)) = httpActiveRequests (metrics_of s)).
  { cbn. rewrite Ha. destruct (httpActiveRequests (metrics_of s)) as [g]. cbn. f_equal. lia. }
  destruct (_ && _); destruct Hcount as [Hr Hcount]; (split; [done|]).
  - unfold counted_once in *. rewrite Hg in Hcount. cbn in Hcount. by rewrite Hd, Ht in Hcount.
  - rewrite Hcount. unfold uncounted. rewrite Hg. cbn. by rewrite Hd, Ht.
Qed.
End Requests.

(** A path that is not UTF-8 and matches no route makes the middleware panic
    after the request was handled. *)
Lemma invalid_path_panics `{Environment S} {C : Type} `{GinContext C} hs (c c2 : C) (s s2 : S) u :
  clock_total (S := S) -> c_IsAborted c = false ->
  (forall s1, documented_chain hs (c, s1) = (Ok u, (c2, s2))) ->
  ValidString (request_path c2) = false ->
  exists e st, documented_chain (MetricsHandler :: hs) (c, s) = (Err e, st).
Proof.
  intros Hclock Hc Hrest Hbad. cbn [documented_chain]. unfold MetricsHandler.
  destruct (Hclock s) as (t0 & s0 & Ht0). rewrite (bind_call _ _ _ _ _ _ Ht0), bind_of_res.
  set (s1 := set_metrics (RecordHTTPActiveRequests true (metrics_of s0)) s0).
  assert (Hr1 : Middleware.RecordHTTPActiveRequests true s0 = (Ok tt, s1)) by reflexivity.
  rewrite (bind_call _ _ _ _ _ _ Hr1), bind_of_res. cbn [ret]. rewrite Hc, Hrest.
  set (s3 := set_metrics (RecordHTTPActiveRequests false (metrics_of s2)) s2).
  assert (Hr3 : Middleware.RecordHTTPActiveRequests false s2 = (Ok tt, s3)) by reflexivity.
  rewrite (bind_call _ _ _ _ _ _ Hr3), bind_of_res.
  destruct (Hclock s3) as (t4 & s4 & Ht4). rewrite (bind_call _ _ _ _ _ _ Ht4), bind_of_res, bind_ctx.
  erewrite (bind_call _ _ c2 s4); [by do 2 eexists|]. cbn. unfold recording, RecordHTTPRequest, histogram_Observe,
    label_values_ok. cbn [List.length LabelNames httpRequestDurationOpts Nat.eqb negb forallb].
  by rewrite Hbad, andb_false_r.
Qed.

(** Every new path adds a series: where no route matches, the labels are chosen
    by the client. *)
Lemma new_labels_add_series d method path status (m m' : PrometheusMetrics) :
  RecordHTTPRequest d method path status m = Ok m' ->
  cv_series (httpRequestsTotal m) !! [method; path; status] = None ->
  size (cv_series (httpRequestsTotal m')) = (size (cv_series (httpRequestsTotal m)) + 1)%nat.
Proof.
  unfold RecordHTTPRequest. intros (h & _ & (c & Hc & [= <-])%res_bind_Ok_inv)%res_bind_Ok_inv Hnew.
  unfold counter_Inc in Hc. apply res_bind_Ok_inv in Hc as (u & _ & [= <-]). cbn.
  rewrite map_size_insert_None by done. lia.
Qed.
End Port.

End Metrics.

(** * A local process, for the witnesses *)

Module LocalMetrics.
Import Metrics LocalHttp.

#[export] Instance state : MetricsState PrometheusMetrics :=
  {| metrics_of := fun m => m; set_metrics := fun m _ => m |}.
#[export] Instance state_laws : MetricsStateLaws PrometheusMetrics.
Proof. intros m s. done. Qed.
#[export] Instance environment : Environment PrometheusMetrics := {|
  time_Now := fun m => (Ok 5, m); uuid_New := fun m => (Ok "", m); ULIDGenerator := fun m => (Ok "", m) |}.

Definition process : list Opts :=
  [{| Name := "process_open_fds"; Help := "Number of open file descriptors."; LabelNames := []; Buckets := [] |}].
Definition go : list Opts :=
  [{| Name := "go_goroutines"; Help := "Number of goroutines that currently exist."; LabelNames := []; Buckets := [] |}].
Definition started : PrometheusMetrics := Metrics.started (process ++ go ++ own_collectors).

Definition answer : list (HandlerFunc context PrometheusMetrics) := [endpoint (JSON 200 (StatusWord "ok"))].

Lemma answer_leaves : leaves_metrics answer.
Proof.
  intros c m. unfold answer. cbn. destruct (x_aborted c) eqn:Ha; cbn; (split; [by repeat split|done]).
Qed.
End LocalMetrics.
Import Metrics LocalMetrics LocalHttp.

Lemma collectors_register_once_witness :
  exists m, Metrics.NewPrometheusMetrics LocalMetrics.process LocalMetrics.go = Ok m
    /\ NoDup (map Metrics.Name (Metrics.GetRegistry m)).
Proof.
  destruct (Metrics.collectors_register_once LocalMetrics.process LocalMetrics.go) as (m & Hm & _ & Hnd & _).
  - apply (bool_decide_unpack _). vm_compute. exact I.
  - apply (bool_decide_unpack _). vm_compute. exact I.
  - intros o [<-|[<-|[]]]; vm_compute; intuition discriminate.
  - exists m. exact (conj Hm Hnd).
Defined.

Lemma requests_are_accounted_witness :
  let '(r, (c', s')) := documented_chain (Middleware.MetricsHandler :: LocalMetrics.answer)
                          (LocalHttp.request "", LocalMetrics.started) in
  r = Ok tt /\ Metrics.counted_once ["GET"; "/api/v1/user/:id"; "200"] LocalMetrics.started s'.
Proof.
  pose proof (Metrics.requests_are_accounted (S := Metrics.PrometheusMetrics) (C := LocalHttp.context)
    ltac:(intros s; by eexists _, _) ltac:(reflexivity) LocalMetrics.answer (LocalHttp.request "")
    LocalMetrics.started eq_refl LocalMetrics.answer_leaves) as (s1 & _ & H).
  exact H.
Defined.
