(* ===== verification/Config.v ===== *)
(** internal/config/config.go and the configuration records cmd/app derives
    from it: the environment's checks, [Config.validate], and the validation
    each consumer repeats (HTTP server, PostgreSQL, Redis, password hasher).
    Parsing the environment is caarlos0/env's; net.ParseCIDR and net.ParseIP
    are parameters. *)
From S2P Require Export Middleware PasswordHash.
From Stdlib Require Import Ascii.

(** [net.ParseCIDR]: the number of leading ones of the mask; [net.ParseIP]:
    whether it accepts. *)
Class NetLib := { net_ParseCIDR : string -> option Z; net_ParseIP : string -> bool }.

Module Config.

Definition Second : Z := 1000000000.
Definition Minute : Z := 60 * Second.

Definition minimumAccessTokenLifetime : Z := Minute.
Definition maximumAccessTokenLifetime : Z := 15 * Minute.
Definition maximumDBConnectionTimeout : Z := Minute.
Definition maximumDBInitializationTimeout : Z := 30 * Minute.
Definition maximumRedisConnectionTimeout : Z := Minute.
Definition maximumPasswordHashConcurrency : Z := 4.
Definition maximumHTTPReadHeaderTimeout : Z := 30 * Second.
Definition maximumHTTPReadTimeout : Z := 2 * Minute.
Definition maximumHTTPWriteTimeout : Z := 5 * Minute.
Definition maximumHTTPIdleTimeout : Z := 10 * Minute.
Definition maximumHTTPReadinessTimeout : Z := 10 * Second.
Definition maximumHTTPHeaderBytes : Z := Z.shiftl 1 20.
Definition maximumHTTPRequestBodyBytes : Z := Z.shiftl 10 20.
Definition defaultAdminEmail : string := "admin@goat.api".
Definition defaultAdminPassword : string := "Qwerty@123".

Definition nonEmptyEnvironmentVariables : list string :=
  ["ENV"; "SERVER_PORT"; "HTTP_READ_HEADER_TIMEOUT"; "HTTP_READ_TIMEOUT"; "HTTP_WRITE_TIMEOUT";
   "HTTP_IDLE_TIMEOUT"; "HTTP_READINESS_TIMEOUT"; "HTTP_MAX_HEADER_BYTES"; "HTTP_MAX_BODY_BYTES";
   "DB_HOST"; "DB_PORT"; "DB_USER"; "DB_PASSWORD"; "DB_NAME"; "DB_CONNECTION_TIMEOUT";
   "DB_INITIALIZATION_TIMEOUT"; "JWT_SECRET"; "PASSWORD_PEPPER"; "PASSWORD_HASH_MAX_CONCURRENCY";
   "REDIS_HOST"; "REDIS_PORT"; "REDIS_DB"; "REDIS_CONNECTION_TIMEOUT"; "JWT_EXPIRATION";
   "REFRESH_TOKEN_EXPIRATION"; "SESSION_EXPIRATION"; "GIN_MODE"; "SEED"; "ADMIN_EMAIL";
   "ADMIN_PASSWORD"; "RATE_LIMIT_AUTH_LIMIT"; "RATE_LIMIT_AUTH_WINDOW"; "RATE_LIMIT_PUBLIC_LIMIT";
   "RATE_LIMIT_PUBLIC_WINDOW"; "RATE_LIMIT_PROTECTED_IP_LIMIT"; "RATE_LIMIT_PROTECTED_IP_WINDOW";
   "RATE_LIMIT_PRIVATE_LIMIT"; "RATE_LIMIT_PRIVATE_WINDOW"].

Record Config := {
  Env : string; ServerPort : Z;
  HTTPReadHeaderTimeout : Z; HTTPReadTimeout : Z; HTTPWriteTimeout : Z; HTTPIdleTimeout : Z;
  HTTPReadinessTimeout : Z; HTTPMaxHeaderBytes : Z; HTTPMaxBodyBytes : Z;
  HTTPTrustedProxies : list string;
  DBHost : string; DBPort : Z; DBUser : string; DBPassword : string; DBName : string;
  DBConnectionTimeout : Z; DBInitializationTimeout : Z;
  JWTSecret : string; PasswordPepper : string; PasswordHashMaxConcurrency : Z;
  RedisHost : string; RedisPort : Z; RedisPassword : string; RedisDB : Z; RedisConnectionTimeout : Z;
  JWTExpiration : Z; RefreshTokenExpiration : Z; SessionExpiration : Z;
  GinMode : string; Seed : bool; AdminEmail : string; AdminPassword : string;
  RateLimitAuthLimit : Z; RateLimitAuthWindow : Z;
  RateLimitPublicLimit : Z; RateLimitPublicWindow : Z;
  RateLimitProtectedIPLimit : Z; RateLimitProtectedIPWindow : Z;
  RateLimitPrivateLimit : Z; RateLimitPrivateWindow : Z;
}.

(** [if cond { return fmt.Errorf(msg) }] *)
Definition refuse_if (cond : bool) (msg : string) : res unit :=
  if cond then Err (ENew msg) else Ok tt.
Notation "'ensure' c 'else' msg ';;' k" := (res_bind (refuse_if c msg) (fun _ => k))
  (at level 10, c at level 99, msg at level 9, k at level 200) : goat_scope.

(** The first of the named values that is refused. *)
Fixpoint each {A} (f : A -> res unit) (l : list A) : res unit :=
  match l with [] => Ok tt | x :: l' => letr _ := f x in each f l' end.

Definition validateExplicitEnvironmentValues (environment : gmap string string) : res unit :=
  each (fun name => refuse_if (match environment !! name with Some v => v =s "" | None => false end)
                      ("invalid " +:+ (name +:+ ": must not be empty")))
    nonEmptyEnvironmentVariables.

Section Validation.
Context `{NetLib} `{Unicode}.

(** [strings.Contains(s, "/")] *)
Definition has_slash (s : string) : bool := negb (string_forallb (fun a => negb (Ascii.eqb a "/"%char)) s).

Definition trustedProxyMessage : string :=
  "invalid HTTP_TRUSTED_PROXIES: entries must be IP addresses or CIDR ranges".

Definition validate_proxy (proxy : string) : res string :=
  let proxy := TrimSpace proxy in
  if proxy =s "" then Err (ENew trustedProxyMessage)
  else if has_slash proxy then
    match net_ParseCIDR proxy with
    | None => Err (ENew trustedProxyMessage)
    | Some ones =>
        if ones =? 0 then Err (ENew "invalid HTTP_TRUSTED_PROXIES: universal proxy ranges are not allowed")
        else Ok proxy
    end
  else if negb (net_ParseIP proxy) then Err (ENew trustedProxyMessage)
  else Ok proxy.

(** The entries are trimmed in place, up to the first that is refused. *)
Fixpoint validate_proxies (l : list string) : res (list string) :=
  match l with
  | [] => Ok []
  | proxy :: l' => letr p := validate_proxy proxy in letr ps := validate_proxies l' in Ok (p :: ps)
  end.

Definition out_of_range (value maximum : Z) : bool := (value <=? 0) || (maximum <? value).

(** The configuration with its proxies trimmed. *)
Definition validateHTTPIngress (c : Config) : res (list string) :=
  letr _ := each (fun '(name, value, maximum) =>
              refuse_if (out_of_range value maximum)
                ("invalid " +:+ (name +:+ (": must be positive and no greater than "
                                           +:+ duration_String maximum))))
    [("HTTP_READ_HEADER_TIMEOUT", HTTPReadHeaderTimeout c, maximumHTTPReadHeaderTimeout);
     ("HTTP_READ_TIMEOUT", HTTPReadTimeout c, maximumHTTPReadTimeout);
     ("HTTP_WRITE_TIMEOUT", HTTPWriteTimeout c, maximumHTTPWriteTimeout);
     ("HTTP_IDLE_TIMEOUT", HTTPIdleTimeout c, maximumHTTPIdleTimeout);
     ("HTTP_READINESS_TIMEOUT", HTTPReadinessTimeout c, maximumHTTPReadinessTimeout)] in
  ensure HTTPReadTimeout c <? HTTPReadHeaderTimeout c
    else "invalid HTTP_READ_HEADER_TIMEOUT: must not exceed HTTP_READ_TIMEOUT" ;;
  ensure HTTPWriteTimeout c <? HTTPReadinessTimeout c
    else "invalid HTTP_READINESS_TIMEOUT: must not exceed HTTP_WRITE_TIMEOUT" ;;
  ensure out_of_range (HTTPMaxHeaderBytes c) maximumHTTPHeaderBytes
    else "invalid HTTP_MAX_HEADER_BYTES: must be positive and no greater than 1048576" ;;
  ensure out_of_range (HTTPMaxBodyBytes c) maximumHTTPRequestBodyBytes
    else "invalid HTTP_MAX_BODY_BYTES: must be positive and no greater than 10485760" ;;
  validate_proxies (HTTPTrustedProxies c).

Definition IsProduction (c : Config) : bool := Env c =s "production".

(** [c.HTTPTrustedProxies[index] = proxy] for every entry *)
Definition set_proxies (c : Config) (ps : list string) : Config :=
  {| Env := Env c; ServerPort := ServerPort c; HTTPReadHeaderTimeout := HTTPReadHeaderTimeout c;
     HTTPReadTimeout := HTTPReadTimeout c; HTTPWriteTimeout := HTTPWriteTimeout c;
     HTTPIdleTimeout := HTTPIdleTimeout c; HTTPReadinessTimeout := HTTPReadinessTimeout c;
     HTTPMaxHeaderBytes := HTTPMaxHeaderBytes c; HTTPMaxBodyBytes := HTTPMaxBodyBytes c;
     HTTPTrustedProxies := ps; DBHost := DBHost c; DBPort := DBPort c; DBUser := DBUser c;
     DBPassword := DBPassword c; DBName := DBName c; DBConnectionTimeout := DBConnectionTimeout c;
     DBInitializationTimeout := DBInitializationTimeout c; JWTSecret := JWTSecret c;
     PasswordPepper := PasswordPepper c; PasswordHashMaxConcurrency := PasswordHashMaxConcurrency c;
     RedisHost := RedisHost c; RedisPort := RedisPort c; RedisPassword := RedisPassword c;
     RedisDB := RedisDB c; RedisConnectionTimeout := RedisConnectionTimeout c;
     JWTExpiration := JWTExpiration c; RefreshTokenExpiration := RefreshTokenExpiration c;
     SessionExpiration := SessionExpiration c; GinMode := GinMode c; Seed := Seed c;
     AdminEmail := AdminEmail c; AdminPassword := AdminPassword c;
     RateLimitAuthLimit := RateLimitAuthLimit c; RateLimitAuthWindow := RateLimitAuthWindow c;
     RateLimitPublicLimit := RateLimitPublicLimit c; RateLimitPublicWindow := RateLimitPublicWindow c;
     RateLimitProtectedIPLimit := RateLimitProtectedIPLimit c;
     RateLimitProtectedIPWindow := RateLimitProtectedIPWindow c;
     RateLimitPrivateLimit := RateLimitPrivateLimit c; RateLimitPrivateWindow := RateLimitPrivateWindow c |}.

Definition positive (field : string * Z) : res unit :=
  let '(name, value) := field in
  refuse_if (value <=? 0) ("invalid " +:+ (name +:+ ": must be positive")).

(** The administrator the seeding creates. *)
Definition validate_seed (c : Config) : res unit :=
  if negb (Seed c) then Ok tt else
  ensure is_blank (AdminEmail c) else "invalid ADMIN_EMAIL: must not be empty when seeding is enabled" ;;
  ensure AdminPassword c =s "" else "invalid ADMIN_PASSWORD: must not be empty when seeding is enabled" ;;
  letr _ := res_map_err (wrap1 "invalid ADMIN_PASSWORD for administrator seeding")
              (Password.ValidatePasswordPolicy (AdminPassword c)) in
  ensure IsProduction c && ((AdminEmail c =s defaultAdminEmail) || (AdminPassword c =s defaultAdminPassword))
    else "invalid administrator seed configuration: default credentials are not allowed in production" ;;
  Ok tt.

(** Everything after the HTTP ingress. *)
Definition validate_stores (c : Config) : res unit :=
  ensure is_blank (DBHost c) else "invalid DB_HOST: must not be empty" ;;
  ensure DBPort c =? 0 else "invalid DB_PORT: must be between 1 and 65535" ;;
  ensure is_blank (DBUser c) else "invalid DB_USER: must not be empty" ;;
  ensure DBPassword c =s "" else "invalid DB_PASSWORD: must not be empty" ;;
  ensure is_blank (DBName c) else "invalid DB_NAME: must not be empty" ;;
  ensure is_blank (JWTSecret c) else "invalid JWT_SECRET: must not be empty" ;;
  ensure is_blank (PasswordPepper c) else "invalid PASSWORD_PEPPER: must not be empty" ;;
  ensure out_of_range (PasswordHashMaxConcurrency c) maximumPasswordHashConcurrency
    else "invalid PASSWORD_HASH_MAX_CONCURRENCY: must be between 1 and 4" ;;
  ensure is_blank (RedisHost c) else "invalid REDIS_HOST: must not be empty" ;;
  ensure RedisPort c =? 0 else "invalid REDIS_PORT: must be between 1 and 65535" ;;
  ensure RedisDB c <? 0 else "invalid REDIS_DB: must not be negative" ;;
  Ok tt.

Definition validate_policy (c : Config) : res unit :=
  ensure (GinMode c <>s "debug") && (GinMode c <>s "release")
    else "invalid GIN_MODE: must be 'debug' or 'release'" ;;
  ensure (JWTExpiration c <? minimumAccessTokenLifetime) || (maximumAccessTokenLifetime <? JWTExpiration c)
    else "invalid JWT_EXPIRATION: must be between 1m0s and 15m0s" ;;
  ensure RefreshTokenExpiration c <=? 0 else "invalid REFRESH_TOKEN_EXPIRATION: must be positive" ;;
  ensure SessionExpiration c <=? 0 else "invalid SESSION_EXPIRATION: must be positive" ;;
  ensure out_of_range (DBConnectionTimeout c) maximumDBConnectionTimeout
    else "invalid DB_CONNECTION_TIMEOUT: must be positive and no greater than 1m0s" ;;
  ensure out_of_range (DBInitializationTimeout c) maximumDBInitializationTimeout
    else "invalid DB_INITIALIZATION_TIMEOUT: must be positive and no greater than 30m0s" ;;
  ensure out_of_range (RedisConnectionTimeout c) maximumRedisConnectionTimeout
    else "invalid REDIS_CONNECTION_TIMEOUT: must be positive and no greater than 1m0s" ;;
  letr _ := each positive
    [("RATE_LIMIT_AUTH_LIMIT", RateLimitAuthLimit c);
     ("RATE_LIMIT_PUBLIC_LIMIT", RateLimitPublicLimit c);
     ("RATE_LIMIT_PROTECTED_IP_LIMIT", RateLimitProtectedIPLimit c);
     ("RATE_LIMIT_PRIVATE_LIMIT", RateLimitPrivateLimit c)] in
  each positive
    [("RATE_LIMIT_AUTH_WINDOW", RateLimitAuthWindow c);
     ("RATE_LIMIT_PUBLIC_WINDOW", RateLimitPublicWindow c);
     ("RATE_LIMIT_PROTECTED_IP_WINDOW", RateLimitProtectedIPWindow c);
     ("RATE_LIMIT_PRIVATE_WINDOW", RateLimitPrivateWindow c)].

(** [validate], which also leaves the trusted proxies trimmed. *)
Definition validate (c : Config) : res Config :=
  ensure (Env c <>s "development") && (Env c <>s "production")
    else "invalid ENV: must be 'development' or 'production'" ;;
  ensure ServerPort c =? 0 else "invalid SERVER_PORT: must be between 1 and 65535" ;;
  letr proxies := validateHTTPIngress c in
  letr _ := validate_stores c in
  letr _ := validate_policy c in
  letr _ := validate_seed c in
  Ok (set_proxies c proxies).

(** [Load], after caarlos0/env has parsed the environment: [parse] is
    [ParseAsWithOptions]. *)
Definition Load (parse : gmap string string -> res Config) (environment : gmap string string) : res Config :=
  letr _ := validateExplicitEnvironmentValues environment in
  letr cfg := res_map_err (wrap1 "parse environment configuration") (parse environment) in
  validate cfg.

Definition ServerAddress (c : Config) : string := ":" +:+ itoa (ServerPort c).

End Validation.

(** * The consumers *)

(** ** internal/delivery/http/server.go *)

Definition GinModeDebug : string := "debug".
Definition GinModeRelease : string := "release".

Record ServerConfig := {
  sc_GinMode : string; sc_ReadHeaderTimeout : Z; sc_ReadTimeout : Z; sc_WriteTimeout : Z;
  sc_IdleTimeout : Z; sc_ReadinessTimeout : Z; sc_MaxHeaderBytes : Z; sc_MaxRequestBodyBytes : Z;
  sc_TrustedProxies : list string;
}.

Definition server_validate (c : ServerConfig) : res unit :=
  letr _ := each (fun '(name, value) =>
              refuse_if (value <=? 0) ("HTTP " +:+ (name +:+ " must be positive")))
    [("read-header timeout", sc_ReadHeaderTimeout c); ("read timeout", sc_ReadTimeout c);
     ("write timeout", sc_WriteTimeout c); ("idle timeout", sc_IdleTimeout c);
     ("readiness timeout", sc_ReadinessTimeout c)] in
  ensure sc_ReadTimeout c <? sc_ReadHeaderTimeout c
    else "HTTP read-header timeout must not exceed read timeout" ;;
  ensure sc_MaxHeaderBytes c <=? 0 else "HTTP maximum header bytes must be positive" ;;
  ensure sc_MaxRequestBodyBytes c <=? 0 else "HTTP maximum request body bytes must be positive" ;;
  Ok tt.

(** The engine's part of [newGinEngine]: [SetTrustedProxies] is gin's. *)
Definition newGinEngine (SetTrustedProxies : list string -> res unit) (mode : string)
    (trustedProxies : list string) : res unit :=
  if (mode =s GinModeDebug) || (mode =s GinModeRelease)
  then res_map_err (wrap1 "configure trusted HTTP proxies") (SetTrustedProxies trustedProxies)
  else Err (ENew ("unsupported Gin mode " +:+ mode)).

(** ** postgres/config.go and redis/redis.go *)

Definition SSLModeDisable : string := "disable".

Record PostgresConfig := {
  pc_Host : string; pc_Port : Z; pc_User : string; pc_Password : string; pc_Database : string;
  pc_SSLMode : string; pc_ConnectionTimeout : Z; pc_InitializationTimeout : Z;
  pc_Seed : bool; pc_AdminEmail : string; pc_AdminPassword : string;
}.

Definition postgres_validate (c : PostgresConfig) : res unit :=
  ensure is_blank (pc_Host c) else "PostgreSQL host is required" ;;
  ensure pc_Port c =? 0 else "PostgreSQL port must be positive" ;;
  ensure is_blank (pc_User c) else "PostgreSQL user is required" ;;
  ensure pc_Password c =s "" else "PostgreSQL password is required" ;;
  ensure is_blank (pc_Database c) else "PostgreSQL database is required" ;;
  ensure pc_SSLMode c <>s SSLModeDisable else ("unsupported PostgreSQL SSL mode " +:+ pc_SSLMode c) ;;
  ensure pc_ConnectionTimeout c <=? 0 else "PostgreSQL connection timeout must be positive" ;;
  ensure pc_InitializationTimeout c <=? 0 else "PostgreSQL initialization timeout must be positive" ;;
  if negb (pc_Seed c) then Ok tt else
  ensure is_blank (pc_AdminEmail c) else "PostgreSQL administrator seed email is required" ;;
  ensure pc_AdminPassword c =s "" else "PostgreSQL administrator seed password is required" ;;
  Ok tt.

Record RedisConfig := {
  rc_Host : string; rc_Port : Z; rc_Password : string; rc_Database : Z; rc_ConnectionTimeout : Z;
}.

Definition redis_validate (c : RedisConfig) : res unit :=
  ensure is_blank (rc_Host c) else "redis host is required" ;;
  ensure rc_Port c =? 0 else "redis port must be positive" ;;
  ensure rc_Database c <? 0 else "redis database must not be negative" ;;
  ensure rc_ConnectionTimeout c <=? 0 else "redis connection timeout must be positive" ;;
  Ok tt.

(** The options of the client's library the code sets. *)
Record RedisOptions := {
  ro_Addr : string; ro_Password : string; ro_DB : Z; ro_ContextTimeoutEnabled : bool;
}.
Definition newClientOptions (c : RedisConfig) : RedisOptions :=
  {| ro_Addr := rc_Host c +:+ (":" +:+ itoa (rc_Port c)); ro_Password := rc_Password c;
     ro_DB := rc_Database c; ro_ContextTimeoutEnabled := true |}.

(** * The records cmd/app derives *)

Definition newHTTPServerConfig (cfg : Config) : ServerConfig :=
  {| sc_GinMode := GinMode cfg; sc_ReadHeaderTimeout := HTTPReadHeaderTimeout cfg;
     sc_ReadTimeout := HTTPReadTimeout cfg; sc_WriteTimeout := HTTPWriteTimeout cfg;
     sc_IdleTimeout := HTTPIdleTimeout cfg; sc_ReadinessTimeout := HTTPReadinessTimeout cfg;
     sc_MaxHeaderBytes := HTTPMaxHeaderBytes cfg; sc_MaxRequestBodyBytes := HTTPMaxBodyBytes cfg;
     sc_TrustedProxies := HTTPTrustedProxies cfg |}.

Definition newRedisClientConfig (cfg : Config) : RedisConfig :=
  {| rc_Host := RedisHost cfg; rc_Port := RedisPort cfg; rc_Password := RedisPassword cfg;
     rc_Database := RedisDB cfg; rc_ConnectionTimeout := RedisConnectionTimeout cfg |}.

Definition newPostgresClientConfig (cfg : Config) : PostgresConfig :=
  {| pc_Host := DBHost cfg; pc_Port := DBPort cfg; pc_User := DBUser cfg; pc_Password := DBPassword cfg;
     pc_Database := DBName cfg; pc_SSLMode := SSLModeDisable;
     pc_ConnectionTimeout := DBConnectionTimeout cfg;
     pc_InitializationTimeout := DBInitializationTimeout cfg;
     pc_Seed := Seed cfg; pc_AdminEmail := AdminEmail cfg; pc_AdminPassword := AdminPassword cfg |}.

(** cmd/migrate never seeds. *)
Definition newMigrationPostgresConfig (cfg : Config) : PostgresConfig :=
  {| pc_Host := DBHost cfg; pc_Port := DBPort cfg; pc_User := DBUser cfg; pc_Password := DBPassword cfg;
     pc_Database := DBName cfg; pc_SSLMode := SSLModeDisable;
     pc_ConnectionTimeout := DBConnectionTimeout cfg;
     pc_InitializationTimeout := DBInitializationTimeout cfg;
     pc_Seed := false; pc_AdminEmail := ""; pc_AdminPassword := "" |}.

Definition newRateLimitConfig (cfg : Config) : Middleware.RateLimitConfig :=
  {| Middleware.Auth := {| Middleware.Limit := RateLimitAuthLimit cfg;
                           Middleware.Window := RateLimitAuthWindow cfg |};
     Middleware.Public := {| Middleware.Limit := RateLimitPublicLimit cfg;
                             Middleware.Window := RateLimitPublicWindow cfg |};
     Middleware.ProtectedIP := {| Middleware.Limit := RateLimitProtectedIPLimit cfg;
                                  Middleware.Window := RateLimitProtectedIPWindow cfg |};
     Middleware.Private := {| Middleware.Limit := RateLimitPrivateLimit cfg;
                              Middleware.Window := RateLimitPrivateWindow cfg |} |}.

Definition newPasswordHasherConfig (cfg : Config) : PasswordHash.PasswordHasherConfig :=
  {| PasswordHash.cfg_Pepper := PasswordPepper cfg;
     PasswordHash.cfg_MaxConcurrency := PasswordHashMaxConcurrency cfg |}.

(** * What a validated configuration is good for *)

#[local] Arguments is_blank : simpl never.

Lemma ensure_Ok (b : bool) msg (k : res unit) u : (ensure b else msg ;; k) = Ok u -> b = false /\ k = Ok u.
Proof. destruct b; [discriminate|]. done. Qed.

Lemma each_Ok {A} (f : A -> res unit) l u : each f l = Ok u -> Forall (fun x => f x = Ok tt) l.
Proof.
  revert u. induction l as [|x l IH]; intros u; [constructor|]. cbn.
  intros ([] & Hx & Hl)%res_bind_Ok_inv. constructor; [done|by eapply IH].
Qed.

Lemma refuse_if_Ok b msg u : refuse_if b msg = Ok u -> b = false.
Proof. by destruct b. Qed.

Lemma out_of_range_false v m : out_of_range v m = false -> (v <=? 0) = false /\ (m <? v) = false.
Proof. unfold out_of_range. intros H. breflect. split; lia. Qed.

(** Reads off the tests a validation has passed. *)
Ltac passed :=
  repeat match goal with
  | H : res_bind (refuse_if _ _) _ = Ok _ |- _ =>
      let H' := fresh in apply res_bind_Ok_inv in H as ([] & H' & H); apply refuse_if_Ok in H'
  | H : res_bind _ _ = Ok _ |- _ =>
      let H' := fresh in apply res_bind_Ok_inv in H as (? & H' & H)
  | H : each _ _ = Ok _ |- _ => apply each_Ok in H
  | H : Forall _ (_ :: _) |- _ => let H' := fresh in apply Forall_cons in H as [H' H]; cbn in H'
  | H : refuse_if _ _ = Ok _ |- _ => apply refuse_if_Ok in H
  | H : out_of_range _ _ = false |- _ =>
      let H' := fresh in apply out_of_range_false in H as [H' H]
  end.

(** Runs a validation whose tests are known. *)
Ltac accept :=
  cbn;
  repeat match goal with
  | H : ?b = false |- context [?b] => rewrite H; cbn
  end.

Section Validated.
Context `{NetLib} `{Unicode}.

(** The bounds a validated configuration is within. *)
Record sound_limits (c : Config) : Prop := {
  sl_access : Minute <= JWTExpiration c <= 15 * Minute;
  sl_refresh : 0 < RefreshTokenExpiration c;
  sl_session : 0 < SessionExpiration c;
  sl_rates : Forall (fun rl => 0 < Middleware.Limit rl /\ 0 < Middleware.Window rl)
               (let rl := newRateLimitConfig c in
                [Middleware.Auth rl; Middleware.Public rl; Middleware.ProtectedIP rl; Middleware.Private rl]);
  sl_proxies : Forall (fun p => p <> "" /\ (if has_slash p then exists ones, net_ParseCIDR p = Some ones /\ ones <> 0
                                            else net_ParseIP p = true)) (HTTPTrustedProxies c);
  sl_admin : Seed c = true -> Env c = "production" ->
             AdminEmail c <> defaultAdminEmail /\ AdminPassword c <> defaultAdminPassword;
}.

Lemma validate_proxies_Ok l ps :
  validate_proxies l = Ok ps ->
  Forall (fun p => p <> "" /\ (if has_slash p then exists ones, net_ParseCIDR p = Some ones /\ ones <> 0
                               else net_ParseIP p = true)) ps.
Proof.
  revert ps. induction l as [|p l IH]; intros ps; cbn; [intros [= <-]; constructor|].
  intros (q & Hq & (qs & Hqs & [= <-])%res_bind_Ok_inv)%res_bind_Ok_inv. constructor; [|by apply IH].
  unfold validate_proxy in Hq. destruct (TrimSpace p =s "") eqn:E; [discriminate|].
  destruct (has_slash (TrimSpace p)) eqn:Es.
  - destruct (net_ParseCIDR _) as [ones|] eqn:Ec; [|discriminate].
    destruct (ones =? 0) eqn:Eo; [discriminate|]. injection Hq as <-. rewrite Es. breflect. eauto.
  - destruct (net_ParseIP _) eqn:Ei; [|discriminate]. injection Hq as <-. rewrite Es. breflect. done.
Qed.

Lemma validate_Ok c c' :
  validate c = Ok c' -> exists ps, validateHTTPIngress c = Ok ps /\ validate_stores c = Ok tt
    /\ validate_policy c = Ok tt /\ validate_seed c = Ok tt /\ c' = set_proxies c ps.
Proof.
  unfold validate. intros Hv. passed. injection Hv as <-.
  repeat match goal with x : () |- _ => destruct x end. eauto 10.
Qed.

Lemma server_accepts c ps :
  validateHTTPIngress c = Ok ps ->
  server_validate (newHTTPServerConfig (set_proxies c ps)) = Ok tt
  /\ validate_proxies (HTTPTrustedProxies c) = Ok ps.
Proof.
  unfold validateHTTPIngress. intros Hi. passed. unfold server_validate. split; [by accept|done].
Qed.

Lemma seed_accepts c :
  validate_seed c = Ok tt ->
  (Seed c = true -> is_blank (AdminEmail c) = false /\ (AdminPassword c =s "") = false)
  /\ (Seed c = true -> Env c = "production" ->
      AdminEmail c <> defaultAdminEmail /\ AdminPassword c <> defaultAdminPassword).
Proof.
  unfold validate_seed. destruct (Seed c); [|by split]. cbn [negb]. intros Hs. passed. split; [done|].
  intros _ He. unfold IsProduction in *. rewrite He in *. cbn in *. breflect. done.
Qed.

Lemma stores_accept c :
  validate_stores c = Ok tt -> validate_policy c = Ok tt -> validate_seed c = Ok tt ->
  forall ps,
  postgres_validate (newPostgresClientConfig (set_proxies c ps)) = Ok tt
  /\ postgres_validate (newMigrationPostgresConfig (set_proxies c ps)) = Ok tt
  /\ redis_validate (newRedisClientConfig (set_proxies c ps)) = Ok tt
  /\ is_ok (PasswordHash.newPasswordService (newPasswordHasherConfig (set_proxies c ps))) = true.
Proof.
  intros Hs Hp [Hseed _]%seed_accepts ps. unfold validate_stores in Hs. unfold validate_policy in Hp. passed.
  unfold postgres_validate, redis_validate, PasswordHash.newPasswordService. split; [|split; [|split]].
  - accept. destruct (Seed c); [|done]. destruct (Hseed eq_refl) as [He Hpw]. by accept.
  - by accept.
  - by accept.
  - accept. change PasswordHash.maximumPasswordHashConcurrency with maximumPasswordHashConcurrency.
    rewrite Z.gtb_ltb. by accept.
Qed.

Lemma policy_limits c ps :
  validate_policy c = Ok tt -> validate_proxies (HTTPTrustedProxies c) = Ok ps -> validate_seed c = Ok tt ->
  sound_limits (set_proxies c ps).
Proof.
  intros Hp Hps [_ Hseed]%seed_accepts. unfold validate_policy in Hp. passed. breflect.
  split; cbn; try done.
  - repeat (apply Forall_cons; split; [split; cbn; lia|]). constructor.
  - by eapply validate_proxies_Ok.
Qed.

Lemma mode_accepted c f :
  validate_policy c = Ok tt -> f (HTTPTrustedProxies c) = Ok tt ->
  newGinEngine f (GinMode c) (HTTPTrustedProxies c) = Ok tt.
Proof.
  unfold validate_policy. intros Hp Hf. passed. unfold newGinEngine, GinModeDebug, GinModeRelease.
  destruct (GinMode c =s "debug"), (GinMode c =s "release"); try discriminate; cbn; by rewrite Hf.
Qed.

(** What the resources of a start are constructed from. *)
Lemma validated_resources (c c' : Config) :
  validate c = Ok c' ->
  server_validate (newHTTPServerConfig c') = Ok tt
  /\ postgres_validate (newPostgresClientConfig c') = Ok tt
  /\ redis_validate (newRedisClientConfig c') = Ok tt
  /\ is_ok (PasswordHash.newPasswordService (newPasswordHasherConfig c')) = true.
Proof.
  intros (ps & Hi & Hs & Hp & Hseed & ->)%validate_Ok.
  destruct (server_accepts c ps Hi) as [Hserver _].
  destruct (stores_accept c Hs Hp Hseed ps) as (Hpg & _ & Hredis & Hhash). done.
Qed.

(** C33. A configuration that passes validation is accepted by every component
    it is handed to: the HTTP server, gin's mode, PostgreSQL with and without
    seeding, Redis and the password hasher repeat their own checks and none of
    them can fail; the token lifetimes, rate limits and trusted proxies are
    within their bounds, and a production deployment does not seed the default
    administrator. *)
Theorem validated_config_is_accepted (c c' : Config) :
  validate c = Ok c' ->
  server_validate (newHTTPServerConfig c') = Ok tt
  /\ (forall set_proxies, set_proxies (HTTPTrustedProxies c') = Ok tt ->
        newGinEngine set_proxies (GinMode c') (HTTPTrustedProxies c') = Ok tt)
  /\ postgres_validate (newPostgresClientConfig c') = Ok tt
  /\ postgres_validate (newMigrationPostgresConfig c') = Ok tt
  /\ redis_validate (newRedisClientConfig c') = Ok tt
  /\ is_ok (PasswordHash.newPasswordService (newPasswordHasherConfig c')) = true
  /\ sound_limits c'.
Proof.
  intros (ps & Hi & Hs & Hp & Hseed & ->)%validate_Ok.
  destruct (server_accepts c ps Hi) as [Hserver Hproxies].
  destruct (stores_accept c Hs Hp Hseed ps) as (Hpg & Hmig & Hredis & Hhash).
  split; [exact Hserver|]. split; [by intros f Hf; apply (mode_accepted (set_proxies c ps))|].
  repeat (split; [assumption|]). by apply policy_limits.
Qed.

End Validated.

End Config.

(** * A configuration, for the witness *)

Module LocalConfig.
#[export] Instance net : NetLib := {|
  net_ParseCIDR := fun s => if s =s "10.0.0.0/8" then Some 8 else None;
  net_ParseIP := fun s => s =s "192.0.2.1" |}.
Definition config : Config.Config := {|
  Config.Env := "production"; Config.ServerPort := 8080;
  Config.HTTPReadHeaderTimeout := 5000000000; Config.HTTPReadTimeout := 15000000000;
  Config.HTTPWriteTimeout := 30000000000; Config.HTTPIdleTimeout := 60000000000;
  Config.HTTPReadinessTimeout := 2000000000; Config.HTTPMaxHeaderBytes := 65536;
  Config.HTTPMaxBodyBytes := 1048576; Config.HTTPTrustedProxies := [" 10.0.0.0/8"; "192.0.2.1"];
  Config.DBHost := "db"; Config.DBPort := 5432; Config.DBUser := "goat"; Config.DBPassword := "pw";
  Config.DBName := "goat"; Config.DBConnectionTimeout := 5000000000;
  Config.DBInitializationTimeout := 120000000000; Config.JWTSecret := "secret";
  Config.PasswordPepper := "pepper"; Config.PasswordHashMaxConcurrency := 2;
  Config.RedisHost := "localhost"; Config.RedisPort := 6379; Config.RedisPassword := "";
  Config.RedisDB := 0; Config.RedisConnectionTimeout := 5000000000;
  Config.JWTExpiration := 300000000000; Config.RefreshTokenExpiration := 604800000000000;
  Config.SessionExpiration := 2592000000000000; Config.GinMode := "release"; Config.Seed := true;
  Config.AdminEmail := "root@example.org"; Config.AdminPassword := "Str0ng!pass";
  Config.RateLimitAuthLimit := 5; Config.RateLimitAuthWindow := 60000000000;
  Config.RateLimitPublicLimit := 100; Config.RateLimitPublicWindow := 60000000000;
  Config.RateLimitProtectedIPLimit := 300; Config.RateLimitProtectedIPWindow := 60000000000;
  Config.RateLimitPrivateLimit := 60; Config.RateLimitPrivateWindow := 60000000000 |}.
Definition loaded : Config.Config := Config.set_proxies config ["10.0.0.0/8"; "192.0.2.1"].

Lemma loads : Config.validate config = Ok loaded.
Proof. vm_compute. reflexivity. Qed.
End LocalConfig.
Import LocalConfig.

Lemma validated_config_is_accepted_witness :
  Config.postgres_validate (Config.newPostgresClientConfig LocalConfig.loaded) = Ok tt
  /\ Config.sound_limits LocalConfig.loaded.
Proof.
  destruct (Config.validated_config_is_accepted LocalConfig.config LocalConfig.loaded
              LocalConfig.loads) as (_ & _ & Hp & _ & _ & _ & Hl).
  exact (conj Hp Hl).
Defined.
