(* ===== verification/Migrations.v ===== *)
(** internal/infra/database/postgres/migrations.go, migration_service.go and
    cmd/migrate: the embedded migrations, the check of the applied history
    against them, and the transaction that applies what is pending, on a
    database whose statements have their documented effect and may fail. *)
From S2P Require Export Config.
From Stdlib Require Import Ascii.

(** [sha256.Sum256], printed in hexadecimal. *)
Class SHA256 := sha256_hex : string -> string.

Module Migrations.

(** * The embedded migrations *)

Record migration := { Version : Z; Name : string; SQL : string; Checksum : string }.
Record appliedMigration := { a_Version : Z; a_Name : string; a_Checksum : string }.
Record MigrationResult := { Applied : Z; CurrentVersion : Z }.

#[global] Instance appliedMigration_eq_dec : EqDecision appliedMigration.
Proof. solve_decision. Defined.

(** What the metadata records of a migration. *)
Definition record_of (m : migration) : appliedMigration :=
  {| a_Version := Version m; a_Name := Name m; a_Checksum := Checksum m |}.

(** ** The file names: [^migrations/([0-9]{6})_([a-z][a-z0-9_]* )\.sql$] *)

Definition lower_letter (a : ascii) : bool := between 97 (byte_of a) 122.
Definition name_char (a : ascii) : bool := lower_letter a || is_digit a || Ascii.eqb a "_"%char.

(** Removes a suffix. *)
Fixpoint strip_suffix (suffix s : string) : option string :=
  if s =s suffix then Some ""
  else match s with EmptyString => None | String a s' => String a <$> strip_suffix suffix s' end.

(** The two groups of the pattern. *)
Definition FindStringSubmatch (path : string) : option (string * string) :=
  if negb (HasPrefix path "migrations/") then None
  else
    match TrimPrefix path "migrations/" with
    | String d1 (String d2 (String d3 (String d4 (String d5 (String d6 (String u rest)))))) =>
        let digits := String d1 (String d2 (String d3 (String d4 (String d5 (String d6 ""))))) in
        if string_forallb is_digit digits && Ascii.eqb u "_"%char then
          match strip_suffix ".sql" rest with
          | Some (String a name') =>
              if lower_letter a && string_forallb name_char name' then Some (digits, String a name') else None
          | _ => None
          end
        else None
    | _ => None
    end.

Example submatch_valid :
  FindStringSubmatch "migrations/000001_create_users.sql" = Some ("000001", "create_users").
Proof. reflexivity. Qed.
Example submatch_short : FindStringSubmatch "migrations/0001_create.sql" = None.
Proof. reflexivity. Qed.
Example submatch_upper : FindStringSubmatch "migrations/000001_Create.sql" = None.
Proof. reflexivity. Qed.

(** [%06d] of a version *)
Definition pad6 (z : Z) : string :=
  let s := itoa z in Nat.iter (6 - String.length s)%nat (String "0") s.
Example pad6_short : pad6 42 = "000042".
Proof. reflexivity. Qed.

Definition invalid {A} (msg : string) : res A := Err (wrap1 msg ErrMigrationStateInvalid).

Section Loading.
Context `{SHA256}.

(** One file of the loop: [index] files are loaded. *)
Definition load_one (ReadFile : string -> res string) (index : Z) (seenVersions : gset Z) (path : string)
    : res migration :=
  match FindStringSubmatch path with
  | None => invalid ("invalid migration filename " +:+ path)
  | Some (digits, name) =>
      match ParseInt digits with
      | Err _ => invalid ("invalid migration version in " +:+ path)
      | Ok version =>
          if version <=? 0 then invalid ("invalid migration version in " +:+ path)
          else if bool_decide (version ∈ seenVersions) then invalid ("duplicate migration version " +:+ pad6 version)
          else if negb (version =? index + 1) then
            invalid ("migration sequence expected " +:+ (pad6 (index + 1) +:+ (" but found " +:+ pad6 version)))
          else
            letr contents := res_map_err (wrap1 ("read embedded PostgreSQL migration " +:+ pad6 version)) (ReadFile path) in
            if is_blank contents then invalid ("migration " +:+ (pad6 version +:+ " is empty"))
            else Ok {| Version := version; Name := name; SQL := contents; Checksum := sha256_hex contents |}
      end
  end.

Fixpoint load_from (ReadFile : string -> res string) (index : Z) (seenVersions : gset Z)
    (paths : list string) : res (list migration) :=
  match paths with
  | [] => Ok []
  | path :: paths' =>
      letr m := load_one ReadFile index seenVersions path in
      letr ms := load_from ReadFile (index + 1) ({[Version m]} ∪ seenVersions) paths' in
      Ok (m :: ms)
  end.

(** [fs.Glob] of "migrations/*.sql" is [glob]. *)
Definition loadMigrations (glob : res (list string)) (ReadFile : string -> res string)
    : res (list migration) :=
  letr paths := res_map_err (wrap1 "enumerate embedded PostgreSQL migrations") glob in
  match paths with
  | [] => invalid "no embedded migrations"
  | _ => load_from ReadFile 0 ∅ (merge_sort Permission.string_le paths)
  end.

End Loading.

(** * The applied history *)

(** The comparison loop. *)
Fixpoint validate_applied (available : list migration) (applied : list appliedMigration) : res unit :=
  match applied, available with
  | [], _ => Ok tt
  | recorded :: applied', expected :: available' =>
      if negb (a_Version recorded =? Version expected) then
        invalid ("expected applied version " +:+ (pad6 (Version expected)
                 +:+ (" but found " +:+ pad6 (a_Version recorded))))
      else if (a_Name recorded <>s Name expected) || (a_Checksum recorded <>s Checksum expected) then
        invalid ("applied migration " +:+ (pad6 (Version expected)
                 +:+ " does not match the embedded migration"))
      else validate_applied available' applied'
  | _ :: _, [] => Err (ENew "runtime error: index out of range")
  end.

Definition validateMigrationState (available : list migration) (applied : list appliedMigration)
    : res (list migration) :=
  match available with
  | [] => invalid "no migrations are available"
  | _ =>
      if (List.length available <? List.length applied)%nat
      then invalid ("database has " +:+ (itoa (Z.of_nat (List.length applied))
                    +:+ (" migration(s), binary knows " +:+ itoa (Z.of_nat (List.length available)))))
      else
        letr _ := validate_applied available applied in
        Ok (drop (List.length applied) available)
  end.

(** * The database *)

Definition startupOperationError (operation : string) (cause : option sentinel) (e : err) : err :=
  let operationErr := wrap1 operation e in
  match cause with
  | None => operationErr
  | Some c =>
      if errors_is operationErr c then operationErr
      else EJoin [operationErr; wrap1 (operation +:+ " context") c]
  end.

(** The statements of the operation: on the pool ([db_]) and in the
    transaction ([tx_]).  [ctx_Cause] is [context.Cause] of its context. *)
Class MigrationDB (S : Type) := {
  ctx_Cause : S -> option sentinel;
  db_BeginTxx : M S unit;
  db_to_regclass : M S (option string);
  db_SelectApplied : M S (list appliedMigration);
  tx_AdvisoryLock : M S unit;
  tx_CreateTable : M S unit;
  tx_SelectApplied : M S (list appliedMigration);
  tx_Exec : string -> M S unit;
  tx_InsertApplied : Z -> string -> string -> M S unit;
  tx_Commit : M S unit;
  tx_Rollback : M S unit;
}.

Section Operations.
Context {S : Type} `{MigrationDB S}.

(** [if err != nil { return startupOperationError(operation, ctx, err) }] *)
Definition checked {A} (operation : string) (m : M S A) : M S A :=
  fun s => match m s with
           | (Ok a, s') => (Ok a, s')
           | (Err e, s') => (Err (startupOperationError operation (ctx_Cause s') e), s')
           end.

(** [readAppliedMigrations] on the pool, with the check of the table. *)
Definition readAppliedMigrations : M S (list appliedMigration * bool) :=
  let! relation := checked "locate schema migration metadata" db_to_regclass in
  match relation with
  | None => ret ([], false)
  | Some _ =>
      let! applied := checked "read schema migration metadata" db_SelectApplied in
      ret (applied, true)
  end.

Definition validateCurrentMigrations (available : list migration) : M S unit :=
  let! read := readAppliedMigrations in
  let '(applied, exists_) := read in
  if negb exists_
  then fail (wrap1 "migration metadata is missing; run the migration command" ErrMigrationsPending)
  else
    let! pending := of_res (validateMigrationState available applied) in
    match pending with
    | [] => ret tt
    | _ => fail (wrap1 (itoa (Z.of_nat (List.length pending)) +:+ " migration(s) must be applied")
                   ErrMigrationsPending)
    end.

(** One pending migration. *)
Definition apply_one (next : migration) : M S unit :=
  do! checked ("apply schema migration " +:+ (pad6 (Version next) +:+ ("_" +:+ Name next))) (tx_Exec (SQL next)) in
  checked ("record schema migration " +:+ pad6 (Version next))
    (tx_InsertApplied (Version next) (Name next) (Checksum next)).

Fixpoint apply_all (pending : list migration) : M S unit :=
  match pending with
  | [] => ret tt
  | next :: pending' => do! apply_one next in apply_all pending'
  end.

(** The body after [BeginTxx]; [applied] is read without the check of the
    table, which the transaction has created. *)
Definition apply_in_transaction (available : list migration) : M S MigrationResult :=
  do! checked "acquire schema migration lock" tx_AdvisoryLock in
  do! checked "ensure schema migration metadata" tx_CreateTable in
  let! applied := checked "read schema migration metadata" tx_SelectApplied in
  let! pending := of_res (validateMigrationState available applied) in
  do! apply_all pending in
  do! checked "commit schema migrations" tx_Commit in
  match List.rev available with
  | [] => fail (ENew "runtime error: index out of range")
  | last :: _ => ret {| Applied := Z.of_nat (List.length pending); CurrentVersion := Version last |}
  end.

(** The deferred rollback. *)
Definition rolling_back {A} (body : M S A) : M S A :=
  fun s =>
    match body s with
    | (Ok a, s1) => (Ok a, s1)
    | (Err e, s1) =>
        match tx_Rollback s1 with
        | (Err rollbackErr, s2) =>
            (Err (if negb (errors_is rollbackErr SqlErrTxDone)
                  then EJoin [e; wrap1 "rollback schema migrations" rollbackErr] else e), s2)
        | (Ok _, s2) => (Err e, s2)
        end
    end.

Definition applyMigrations (available : list migration) : M S MigrationResult :=
  do! checked "begin schema migration transaction" db_BeginTxx in
  rolling_back (apply_in_transaction available).

End Operations.

(** ** migration_service.go *)

(** [pgx.ConnConfig]: the fields the program sets, and the others. *)
Record ConnConfig (options : Type) := {
  cc_Host : string; cc_Port : Z; cc_User : string; cc_Password : string; cc_Database : string;
  cc_options : options;
}.
Arguments cc_Host {options}. Arguments cc_Port {options}. Arguments cc_User {options}.
Arguments cc_Password {options}. Arguments cc_Database {options}. Arguments cc_options {options}.

(** The pool; [pgx_ParseConfig] also reads the PG* variables of the process, and
    may fail by them. *)
Class MigrationPool (S : Type) := {
  pgx_options : Type;
  pgx_ParseConfig : string -> res (ConnConfig pgx_options);
  pool_Ping : M S unit;
  pool_Close : M S unit;
}.

Section Service.
Context {S : Type} `{MigrationDB S} `{MigrationPool S} `{SHA256}.
Context (glob : res (list string)) (ReadFile : string -> res string).

Definition loadEmbeddedMigrations : res (list migration) := loadMigrations glob ReadFile.

Definition newConnectionConfig (cfg : Config.PostgresConfig) : res (ConnConfig pgx_options) :=
  letr _ := Config.postgres_validate cfg in
  letr connectionConfig :=
    res_map_err (wrap1 "construct PostgreSQL connection configuration")
      (pgx_ParseConfig ("sslmode=" +:+ Config.pc_SSLMode cfg)) in
  Ok {| cc_Host := Config.pc_Host cfg; cc_Port := Config.pc_Port cfg; cc_User := Config.pc_User cfg;
        cc_Password := Config.pc_Password cfg; cc_Database := Config.pc_Database cfg;
        cc_options := cc_options connectionConfig |}.

(** [newDatabasePool]: the configuration the pool connects with; it connects
    when it is first used. *)
Definition newDatabasePool (cfg : Config.PostgresConfig) : res (ConnConfig pgx_options) :=
  newConnectionConfig cfg.

Definition pingDatabase : M S unit := checked "validate PostgreSQL connection" pool_Ping.

(** The deferred close: its error is joined with the result's. *)
Definition closing {A} (body : M S A) : M S A :=
  fun s =>
    let '(r, s1) := body s in
    match pool_Close s1 with
    | (Ok _, s2) => (r, s2)
    | (Err closeErr, s2) =>
        match errors_join [err_of r; Some (wrap1 "close PostgreSQL migration connection" closeErr)] with
        | Some e => (Err e, s2)
        | None => (r, s2)
        end
    end.

Definition runMigrationOperation (cfg : Config.PostgresConfig)
    (operation : list migration -> M S MigrationResult) : M S MigrationResult :=
  let! available := of_res loadEmbeddedMigrations in
  let! _ := of_res (newDatabasePool cfg) in
  closing (do! pingDatabase in operation available).

Definition Migrate (cfg : Config.PostgresConfig) : M S MigrationResult :=
  runMigrationOperation cfg applyMigrations.

Definition ValidateMigrations (cfg : Config.PostgresConfig) : M S MigrationResult :=
  runMigrationOperation cfg (fun available =>
    do! validateCurrentMigrations available in
    match List.rev available with
    | [] => fail (ENew "runtime error: index out of range")
    | last :: _ => ret {| Applied := 0; CurrentVersion := Version last |}
    end).

End Service.

(** ** cmd/migrate *)

Inductive migrationCommand := migrationCommandUp | migrationCommandValidate.

Definition command_string (c : migrationCommand) : string :=
  match c with migrationCommandUp => "up" | migrationCommandValidate => "validate" end.

Definition parseMigrationCommand (args : list string) : res migrationCommand :=
  match args with
  | [arg] =>
      if arg =s "up" then Ok migrationCommandUp
      else if arg =s "validate" then Ok migrationCommandValidate
      else Err (ENew ("usage: migrate <up|validate>: unsupported command " +:+ arg))
  | _ => Err (ENew "usage: migrate <up|validate>")
  end.

(** The process's logger: its construction and its [Sync]. *)
Class ProcessLogger (S : Type) := {
  NewZapLogger : M S unit;
  Logger_Sync : M S unit;
}.

Section Command.
Context {S : Type} `{MigrationDB S} `{MigrationPool S} `{ProcessLogger S} `{SHA256}.
Context (glob : res (list string)) (ReadFile : string -> res string).

(** The deferred [Sync]. *)
Definition syncing (body : M S unit) : M S unit :=
  fun s =>
    let '(r, s1) := body s in
    match Logger_Sync s1 with
    | (Ok _, s2) => (r, s2)
    | (Err syncErr, s2) =>
        (match errors_join [err_of r; Some (wrap1 "sync migration logger" syncErr)] with
         | Some e => Err e
         | None => r
         end, s2)
    end.

(** [run]; [load] is [config.Load] on the process environment. *)
Definition runMigrateCommand (args : list string) (load : res Config.Config) : M S unit :=
  let! command := of_res (parseMigrationCommand args) in
  let! cfg := of_res (res_map_err (wrap1 "load config") load) in
  do! (fun s => match NewZapLogger s with
                | (Ok tt, s') => (Ok tt, s')
                | (Err e, s') => (Err (wrap1 "initialize logger" e), s')
                end) in
  syncing (fun s =>
    let postgresConfig := Config.newMigrationPostgresConfig cfg in
    match (match command with
           | migrationCommandUp => Migrate glob ReadFile postgresConfig
           | migrationCommandValidate => ValidateMigrations glob ReadFile postgresConfig
           end) s with
    | (Ok _, s') => (Ok tt, s')
    | (Err e, s') => (Err (wrap1 (command_string command +:+ " PostgreSQL migrations") e), s')
    end).

End Command.

End Migrations.
