(* ===== verification/MigrationGuarantees.v ===== *)
(** What the migrations guarantee: the embedded set is numbered from one without
    gaps, the applied history must be a prefix of it, a run applies all that is
    pending or nothing, and startup requires the complete history. *)
From S2P Require Export Migrations.
Import Migrations.

(** * The embedded set *)

Definition numbered (ms : list migration) : Prop :=
  map Version ms = map Z.of_nat (seq 1 (List.length ms)).

Lemma load_one_Ok `{SHA256} ReadFile index seen path m :
  load_one ReadFile index seen path = Ok m ->
  Version m = index + 1 /\ is_blank (SQL m) = false /\ Checksum m = sha256_hex (SQL m)
  /\ ReadFile path = Ok (SQL m)
  /\ exists digits, FindStringSubmatch path = Some (digits, Name m) /\ ParseInt digits = Ok (Version m).
Proof.
  unfold load_one. destruct (FindStringSubmatch path) as [[digits name]|]; [|discriminate].
  destruct (ParseInt digits) as [v|e] eqn:Hv; [|discriminate].
  destruct (v <=? 0); [discriminate|]. destruct (bool_decide _); [discriminate|].
  destruct (v =? index + 1) eqn:Hi; [|discriminate]. cbn [negb].
  intros (contents & Hr & Hm)%res_bind_Ok_inv.
  destruct (ReadFile path); [|discriminate]. injection Hr as ->.
  destruct (is_blank contents) eqn:Hb; [discriminate|]. injection Hm as <-. cbn. breflect.
  repeat (split; [done|]). eauto.
Qed.

(** What is loaded from one file. *)
Definition loaded_from `{SHA256} (ReadFile : string -> res string) (path : string) (m : migration) : Prop :=
  ReadFile path = Ok (SQL m) /\ is_blank (SQL m) = false /\ Checksum m = sha256_hex (SQL m)
  /\ exists digits, FindStringSubmatch path = Some (digits, Name m) /\ ParseInt digits = Ok (Version m).

Lemma load_from_Ok `{SHA256} ReadFile paths index seen ms :
  load_from ReadFile (Z.of_nat index) seen paths = Ok ms ->
  Forall2 (loaded_from ReadFile) paths ms
  /\ map Version ms = map Z.of_nat (seq (S index) (List.length ms)).
Proof.
  revert index seen ms. induction paths as [|p paths IH]; intros index seen ms; cbn.
  - intros [= <-]. by split; [constructor|].
  - intros (m & Hm & (ms' & Hms & [= <-])%res_bind_Ok_inv)%res_bind_Ok_inv.
    apply load_one_Ok in Hm as (Hv & Hb & Hc & Hr & Hd).
    replace (Z.of_nat index + 1) with (Z.of_nat (S index)) in Hms by lia.
    apply IH in Hms as [Hf Hn]. split; [by constructor|]. cbn. rewrite Hv, Hn. f_equal. lia.
Qed.

(** The embedded migrations, once loaded, are the files of the directory in the
    order of their names, and numbered from one. *)
Lemma loadMigrations_Ok `{SHA256} glob ReadFile ms :
  loadMigrations glob ReadFile = Ok ms ->
  ms <> [] /\ numbered ms
  /\ exists paths, glob = Ok paths /\ Forall2 (loaded_from ReadFile) (merge_sort Permission.string_le paths) ms.
Proof.
  unfold loadMigrations. intros (paths & Hg & Hl)%res_bind_Ok_inv.
  destruct glob as [paths'|]; [|discriminate]. injection Hg as ->.
  destruct paths as [|p paths]; [discriminate|].
  apply (load_from_Ok ReadFile _ 0) in Hl as [Hf Hn].
  split; [|split; [exact Hn|by exists (p :: paths)]].
  intros ->. apply Forall2_nil_inv_r in Hf.
  pose proof (merge_sort_Permutation Permission.string_le (p :: paths)) as Hperm.
  rewrite Hf in Hperm. by apply Permutation_nil_cons in Hperm.
Qed.

(** * The comparison of the histories *)

Lemma validate_applied_Ok available applied u :
  (List.length applied <= List.length available)%nat ->
  validate_applied available applied = Ok u <-> exists rest, map record_of available = applied ++ rest /\ u = tt.
Proof.
  revert available. induction applied as [|r applied IH]; intros [|e available] Hlen; cbn in *.
  - split; [|by intros (? & _ & ->)]. destruct u. eauto.
  - split; [|by intros (? & _ & ->)]. destruct u. eauto.
  - lia.
  - destruct (a_Version r =? Version e) eqn:Ev; cbn [negb].
    2:{ split; [discriminate|]. intros (rest & [= Hr _] & _). subst r. cbn in Ev. breflect. done. }
    destruct ((a_Name r <>s Name e) || (a_Checksum r <>s Checksum e)) eqn:En.
    + split; [discriminate|]. intros (rest & [= Hr _] & _). subst r. cbn in En.
      rewrite !String.eqb_refl in En. discriminate.
    + breflect. rewrite IH by lia. assert (r = record_of e) as ->.
      { destruct r. cbn in *. unfold record_of. congruence. }
      split.
      * intros (rest & -> & ->). by exists rest.
      * intros (rest & [= Hr] & ->). by exists rest.
Qed.

Lemma validateMigrationState_Ok (available : list migration) (applied : list appliedMigration)
    (pending : list migration) :
  validateMigrationState available applied = Ok pending
  <-> available <> [] /\ exists done_, available = done_ ++ pending /\ map record_of done_ = applied.
Proof.
  unfold validateMigrationState. destruct available as [|m available']; [split; [discriminate|by intros [? _]]|].
  set (available := m :: available').
  destruct (List.length available <? List.length applied)%nat eqn:El.
  - apply Nat.ltb_lt in El. split; [discriminate|]. intros [_ (done_ & Hav & <-)].
    rewrite Hav, length_app, length_map in El. lia.
  - apply Nat.ltb_ge in El. split.
    + intros ([] & Hv & [= <-])%res_bind_Ok_inv. split; [done|].
      apply validate_applied_Ok in Hv as (rest & Hrest & _); [|done].
      exists (take (List.length applied) available). split; [symmetry; apply take_drop|].
      rewrite <- firstn_map, Hrest. apply take_app_length.
    + intros [_ (done_ & Hav & Happ)].
      assert (Hv : validate_applied available applied = Ok tt).
      { apply validate_applied_Ok; [done|]. exists (map record_of pending). by rewrite Hav, map_app, Happ. }
      rewrite Hv. cbn. f_equal. rewrite Hav, <- Happ, length_map. apply drop_app_length.
Qed.

(** C38. The applied history is accepted exactly when it is a prefix of the
    embedded migrations, by version, name and checksum, and what is then pending
    is the rest: an edited, removed, reordered or unknown migration is refused,
    and nothing that was applied is applied again. *)
Theorem validateMigrationState_iff_prefix (available : list migration) (applied : list appliedMigration)
    (pending : list migration) :
  validateMigrationState available applied = Ok pending
  <-> available <> [] /\ exists done_, available = done_ ++ pending /\ map record_of done_ = applied.
Proof. apply validateMigrationState_Ok. Qed.

(** * The database: its metadata and what has been run on it *)

(** The rows of schema_migrations by their primary key ([None]: no table), and
    the migration scripts that have been run, in order. *)
Record schema := { history : option (gmap Z (string * string)); executed : list string }.

Definition pair_of (r : appliedMigration) : Z * (string * string) := (a_Version r, (a_Name r, a_Checksum r)).
Definition earlier (a b : Z * (string * string)) : Prop := a.1 < b.1.

(** The rows in the order of their versions. *)
Definition rows_of (h : gmap Z (string * string)) (rows : list appliedMigration) : Prop :=
  StronglySorted earlier (pair_of <$> rows) /\ list_to_map (pair_of <$> rows) = h.

Definition history_of (ms : list migration) : gmap Z (string * string) :=
  list_to_map (pair_of <$> (map record_of ms)).

#[export] Instance pair_of_inj : Inj (=) (=) pair_of.
Proof. intros [] [] [=]. by subst. Qed.

Lemma sorted_NoDup (l : list (Z * (string * string))) : StronglySorted earlier l -> NoDup l.*1.
Proof.
  induction 1 as [|x l _ IH Hx]; cbn; [constructor|]. constructor; [|done].
  intros Hin. apply list_elem_of_fmap in Hin as (y & Hy & Hin).
  rewrite Forall_forall in Hx. specialize (Hx y Hin). unfold earlier in Hx. lia.
Qed.

Lemma rows_unique h r1 r2 : rows_of h r1 -> rows_of h r2 -> r1 = r2.
Proof.
  intros [S1 M1] [S2 M2]. apply (inj (fmap pair_of)).
  assert (AntiSymm (=) earlier) by (intros x y Hxy Hyx; unfold earlier in *; lia).
  apply (StronglySorted_unique earlier); [done|done|].
  apply (list_to_map_inj (M := gmap Z)); [by apply sorted_NoDup|by apply sorted_NoDup|congruence].
Qed.

Lemma numbered_rows ms : numbered ms -> rows_of (history_of ms) (map record_of ms).
Proof.
  intros Hn. split; [|done].
  assert (Hs : forall k, map Version ms = map Z.of_nat (seq k (List.length ms)) ->
            StronglySorted earlier (pair_of <$> map record_of ms)).
  { clear Hn. induction ms as [|m ms IH]; intros k; cbn; [constructor|]. intros [= Hm Hms].
    constructor; [by eapply IH|]. apply Forall_forall. intros x Hx.
    apply list_elem_of_fmap in Hx as (r & -> & Hr). apply list_elem_of_In, in_map_iff in Hr as (m' & <- & Hin).
    unfold earlier. cbn. rewrite Hm. apply (in_map Version) in Hin. rewrite Hms in Hin.
    apply in_map_iff in Hin as (i & <- & Hi). apply in_seq in Hi. lia. }
  by eapply Hs.
Qed.

Lemma numbered_prefix ms1 ms2 : numbered (ms1 ++ ms2) -> numbered ms1.
Proof.
  unfold numbered. rewrite map_app, length_app, seq_app, map_app.
  intros H. apply app_inj_1 in H as [H _]; [done|]. by rewrite !length_map, length_seq.
Qed.

Lemma numbered_fresh ms m rest : numbered (ms ++ m :: rest) -> ~ In (Version m) (map Version ms).
Proof.
  unfold numbered. intros Hn Hin.
  assert (Hnd : NoDup (map Version (ms ++ m :: rest))).
  { rewrite Hn. apply (NoDup_fmap_2 Z.of_nat), NoDup_seq. }
  rewrite map_app in Hnd. apply NoDup_app in Hnd as (_ & Hd & _).
  apply (Hd (Version m)); [by apply list_elem_of_In|]. cbn. left.
Qed.

Lemma history_of_snoc ms m :
  ~ In (Version m) (map Version ms) ->
  <[Version m := (Name m, Checksum m)]> (history_of ms) = history_of (ms ++ [m]).
Proof.
  intros Hnin. unfold history_of. rewrite map_app, fmap_app, list_to_map_app. cbn.
  rewrite <- insert_union_r, (right_id_L ∅ (∪)); [done|].
  apply not_elem_of_list_to_map_1. intros Hin. apply Hnin.
  apply list_elem_of_fmap in Hin as (x & Hx & Hin). apply list_elem_of_fmap in Hin as (r & -> & Hr).
  apply list_elem_of_In, in_map_iff in Hr as (m' & <- & Hm'). cbn in Hx. rewrite Hx. by apply in_map.
Qed.

(** What the database documents of the statements.  [committed] is the state
    other sessions see, [working] the one of the transaction in progress;
    [others] is what the other sessions may commit while this one does not hold
    the advisory lock, which every migration run takes first; a migration script
    does not write the metadata table itself. *)
Class MigrationDBLaws (S : Type) `{MigrationDB S} := {
  committed : S -> schema;
  working : S -> option schema;
  others : schema -> schema -> Prop;
  others_preorder : PreOrder others;
  begin_law : forall s r s', db_BeginTxx s = (r, s') -> others (committed s) (committed s');
  lock_law : forall s r s', tx_AdvisoryLock s = (r, s') ->
    others (committed s) (committed s') /\ (r = Ok tt -> working s' = Some (committed s'));
  create_law : forall s w r s', working s = Some w -> tx_CreateTable s = (r, s') ->
    committed s' = committed s
    /\ (r = Ok tt -> working s' = Some {| history := Some (default ∅ (history w)); executed := executed w |});
  select_law : forall s w r s', working s = Some w -> tx_SelectApplied s = (r, s') ->
    committed s' = committed s
    /\ (forall rows, r = Ok rows -> working s' = Some w /\ exists h, history w = Some h /\ rows_of h rows);
  exec_law : forall s w sql r s', working s = Some w -> tx_Exec sql s = (r, s') ->
    committed s' = committed s
    /\ (r = Ok tt -> working s' = Some {| history := history w; executed := executed w ++ [sql] |});
  insert_law : forall s w v n c r s', working s = Some w -> tx_InsertApplied v n c s = (r, s') ->
    committed s' = committed s
    /\ (r = Ok tt -> exists h, history w = Some h
          /\ working s' = Some {| history := Some (<[v := (n, c)]> h); executed := executed w |});
  (** a commit whose answer is lost may have been done *)
  commit_law : forall s w r s', working s = Some w -> tx_Commit s = (r, s') ->
    committed s' = w \/ (committed s' = committed s /\ exists e, r = Err e);
  rollback_law : forall s r s', tx_Rollback s = (r, s') -> others (committed s) (committed s');
  regclass_law : forall s r s', db_to_regclass s = (r, s') ->
    others (committed s) (committed s');
  pool_select_law : forall s r s', db_SelectApplied s = (r, s') ->
    others (committed s) (committed s')
    /\ (forall rows, r = Ok rows -> exists h, history (committed s') = Some h /\ rows_of h rows);
}.

(** The metadata tells what has been run: some of the known migrations, from
    the first, each once and in order. *)
Definition consistent (known : list migration) (c : schema) : Prop :=
  exists done_ rest, known = done_ ++ rest /\ executed c = map SQL done_
    /\ (history c = Some (history_of done_) \/ (history c = None /\ done_ = [])).

Section Runs.
Context {S : Type} `{MigrationDB S} {ML : MigrationDBLaws S}.
#[local] Existing Instance others_preorder.

Lemma checked_run {A} op (m : M S A) s r s' :
  checked op m s = (r, s') -> exists r', m s = (r', s') /\ forall a, r = Ok a <-> r' = Ok a.
Proof.
  unfold checked. destruct (m s) as [[a|e] s1]; intros [= <- <-]; eexists; (split; [done|]); by split.
Qed.

(** The run of the pending migrations in a transaction. *)
Lemma apply_all_run pending done_ w s r s' :
  numbered (done_ ++ pending) -> working s = Some w -> history w = Some (history_of done_) ->
  apply_all pending s = (r, s') ->
  committed s' = committed s
  /\ (r = Ok tt -> working s' = Some {| history := Some (history_of (done_ ++ pending));
                                        executed := executed w ++ map SQL pending |}).
Proof.
  revert done_ w s. induction pending as [|m pending IH]; intros done_ w s Hn Hw Hh; cbn.
  - intros [= <- <-]. split; [done|]. intros _. rewrite Hw, !app_nil_r, <- Hh. by destruct w.
  - unfold bind at 1, apply_one, bind at 1.
    destruct (checked _ (tx_Exec _) s) as [r1 s1] eqn:H1.
    apply checked_run in H1 as (r1' & H1 & Hr1). destruct (exec_law s w _ _ _ Hw H1) as [C1 W1].
    destruct r1 as [[]|e]; [|intros [= <- <-]; split; [congruence|discriminate]].
    specialize (W1 (proj1 (Hr1 tt) eq_refl)).
    destruct (checked _ (tx_InsertApplied _ _ _) s1) as [r2 s2] eqn:H2.
    apply checked_run in H2 as (r2' & H2 & Hr2). destruct (insert_law s1 _ _ _ _ _ _ W1 H2) as [C2 W2].
    destruct r2 as [[]|e]; [|intros [= <- <-]; split; [congruence|discriminate]].
    destruct (W2 (proj1 (Hr2 tt) eq_refl)) as (h & Hh2 & W2'). cbn in Hh2. rewrite Hh in Hh2. injection Hh2 as <-.
    rewrite history_of_snoc in W2'.
    2:{ by eapply numbered_fresh. }
    intros Hrun. replace (done_ ++ m :: pending) with ((done_ ++ [m]) ++ pending) in * by (by rewrite <- app_assoc).
    destruct (IH _ _ s2 Hn W2' eq_refl Hrun) as [C3 W3]. split; [congruence|]. intros Hr.
    rewrite (W3 Hr). cbn. by rewrite <- (app_assoc (executed w)).
Qed.

(** The schema with every known migration applied. *)
Definition complete (known : list migration) : schema :=
  {| history := Some (history_of known); executed := map SQL known |}.

Lemma complete_consistent known : consistent known (complete known).
Proof. exists known, []. rewrite app_nil_r. split; [done|]. split; [done|]. by left. Qed.

(** In a consistent schema the rows of the metadata are what was run. *)
Lemma consistent_pending known c rows pending :
  numbered known -> consistent known c -> rows_of (default ∅ (history c)) rows ->
  validateMigrationState known rows = Ok pending ->
  exists done_, known = done_ ++ pending /\ executed c = map SQL done_
    /\ default ∅ (history c) = history_of done_.
Proof.
  intros Hn (done_ & rest & Hk & He & Hh) Hrows (_ & done' & Hk' & Hr)%validateMigrationState_Ok.
  assert (Hd : default ∅ (history c) = history_of done_) by (destruct Hh as [-> | [-> ->]]; done).
  rewrite Hd in Hrows.
  assert (rows = map record_of done_) as ->.
  { eapply rows_unique; [exact Hrows|]. apply numbered_rows. apply (numbered_prefix done_ rest). congruence. }
  assert (Hlen : List.length done' = List.length done_).
  { apply (f_equal (@List.length _)) in Hr. by rewrite !length_map in Hr. }
  assert (done' = done_) as ->.
  { rewrite Hk in Hk'. apply app_inj_1 in Hk' as [-> _]; done. }
  exists done_. split; [congruence|]. by split.
Qed.

(** The other processes that migrate know the same migrations. *)
Definition others_consistent (known : list migration) : Prop :=
  forall c c', others c c' -> consistent known c -> consistent known c'.

(** What a run leaves: a consistent schema, and the complete one on success. *)
Definition run_outcome (known : list migration) (start : schema) (r : res MigrationResult) (c : schema) : Prop :=
  consistent known c
  /\ forall result, r = Ok result ->
     c = complete known /\ CurrentVersion result = Z.of_nat (List.length known)
     /\ exists locked, others start locked
        /\ Applied result = Z.of_nat (List.length known) - Z.of_nat (List.length (executed locked)).

Lemma failed_outcome known start e c : consistent known c -> run_outcome known start (Err e) c.
Proof. by split. Qed.

Lemma last_version known : numbered known -> match List.rev known with
  | [] => known = [] | m :: _ => Version m = Z.of_nat (List.length known) end.
Proof.
  intros Hn. destruct (List.rev known) as [|m l] eqn:Hr.
  - rewrite <- (rev_involutive known), Hr. done.
  - assert (Hk : known = List.rev l ++ [m]) by (by rewrite <- (rev_involutive known), Hr).
    clear Hr. unfold numbered in Hn. rewrite Hk, length_app, seq_app, !map_app in Hn.
    apply app_inj_2 in Hn as [_ Hn]; [|done]. injection Hn as Hn.
    rewrite Hn, Hk, length_app. cbn. lia.
Qed.

Lemma transaction_outcome known s r s' :
  numbered known -> others_consistent known -> consistent known (committed s) ->
  apply_in_transaction known s = (r, s') -> run_outcome known (committed s) r (committed s').
Proof.
  intros Hn Ho Hc. unfold apply_in_transaction.
  destruct (checked "acquire schema migration lock" tx_AdvisoryLock s) as [r1 s1] eqn:H1. unfold bind at 1. rewrite H1.
  apply checked_run in H1 as (r1' & H1 & Hr1). apply lock_law in H1 as [O1 W1].
  pose proof (Ho _ _ O1 Hc) as Hc1.
  destruct r1 as [[]|e]; [|intros [= <- <-]; by apply failed_outcome].
  specialize (W1 (proj1 (Hr1 tt) eq_refl)).
  destruct (checked "ensure schema migration metadata" tx_CreateTable s1) as [r2 s2] eqn:H2. unfold bind at 1. rewrite H2.
  apply checked_run in H2 as (r2' & H2 & Hr2). apply (create_law _ _ _ _ W1) in H2 as [C2 W2].
  destruct r2 as [[]|e]; [|intros [= <- <-]; rewrite C2; by apply failed_outcome].
  specialize (W2 (proj1 (Hr2 tt) eq_refl)).
  destruct (checked "read schema migration metadata" tx_SelectApplied s2) as [r3 s3] eqn:H3. unfold bind at 1. rewrite H3.
  apply checked_run in H3 as (r3' & H3 & Hr3). apply (select_law _ _ _ _ W2) in H3 as [C3 W3].
  destruct r3 as [rows|e]; [|intros [= <- <-]; rewrite C3, C2; by apply failed_outcome].
  destruct (W3 rows (proj1 (Hr3 rows) eq_refl)) as (W3' & h & Hh & Hrows). injection Hh as <-.
  unfold bind at 1, of_res. destruct (validateMigrationState known rows) as [pending|e] eqn:Hv;
    [|intros [= <- <-]; rewrite C3, C2; by apply failed_outcome].
  destruct (consistent_pending known _ rows pending Hn Hc1 Hrows Hv) as (done_ & Hk & He & Hd).
  destruct (apply_all pending s3) as [r4 s4] eqn:H4. unfold bind at 1. rewrite H4.
  rewrite Hk in Hn. rewrite Hd in W3'.
  apply (apply_all_run _ _ _ _ _ _ Hn W3' eq_refl) in H4 as [C4 W4].
  destruct r4 as [[]|e]; [|intros [= <- <-]; rewrite C4, C3, C2; by apply failed_outcome].
  specialize (W4 eq_refl). cbn in W4. rewrite He, <- map_app, <- Hk in W4.
  destruct (checked "commit schema migrations" tx_Commit s4) as [r5 s5] eqn:H5. unfold bind at 1. rewrite H5.
  apply checked_run in H5 as (r5' & H5 & Hr5). apply (commit_law _ _ _ _ W4) in H5.
  assert (Hc5 : consistent known (committed s5)).
  { destruct H5 as [-> | [-> _]]; [apply complete_consistent|]. by rewrite C4, C3, C2. }
  destruct r5 as [[]|e]; [|intros [= <- <-]; by apply failed_outcome].
  assert (Hfull : committed s5 = complete known).
  { destruct H5 as [-> | [_ [e He5]]]; [done|]. by rewrite (proj1 (Hr5 tt) eq_refl) in He5. }
  rewrite <- Hk in Hn. pose proof (last_version known Hn) as Hlast.
  destruct (List.rev known) as [|m l]; [intros [= <- <-]; by apply failed_outcome|].
  intros [= <- <-]. split; [done|]. intros result [= <-]. split; [done|]. split; [done|].
  exists (committed s1). split; [done|]. cbn. rewrite He, length_map, Hk, length_app. lia.
Qed.

(** C21. A migration run is all or nothing, in every outcome: whether it
    succeeds, fails at any statement, or loses the answer of its commit, and
    whatever the other processes do while it does not hold the lock, the
    metadata keeps telling exactly which migrations have been run, each once, in
    order; and a run that succeeds leaves every embedded migration run and
    recorded, having run only those that were not. *)
Theorem migration_run_all_or_nothing known s r s' :
  numbered known -> others_consistent known -> consistent known (committed s) ->
  applyMigrations known s = (r, s') ->
  run_outcome known (committed s) r (committed s').
Proof.
  intros Hn Ho Hc. unfold applyMigrations.
  destruct (checked "begin schema migration transaction" db_BeginTxx s) as [r1 s1] eqn:H1. unfold bind. rewrite H1.
  apply checked_run in H1 as (r1' & H1 & _). apply begin_law in H1.
  pose proof (Ho _ _ H1 Hc) as Hc1.
  destruct r1 as [[]|e]; [|intros [= <- <-]; by apply failed_outcome].
  unfold rolling_back. destruct (apply_in_transaction known s1) as [r2 s2] eqn:H2.
  destruct (transaction_outcome known s1 r2 s2 Hn Ho Hc1 H2) as [Hc2 Hok].
  destruct r2 as [result|e].
  - intros [= <- <-]. split; [done|]. intros result' Hr.
    destruct (Hok result' Hr) as (Hfull & Hv & locked & Hl & Ha). split; [done|]. split; [done|].
    exists locked. split; [by transitivity (committed s1)|done].
  - destruct (tx_Rollback s2) as [r3 s3] eqn:H3. apply rollback_law in H3.
    pose proof (Ho _ _ H3 Hc2) as Hc3.
    destruct r3; intros [= <- <-]; by apply failed_outcome.
Qed.

Lemma current_history known s s' :
  numbered known ->
  validateCurrentMigrations known s = (Ok tt, s') ->
  history (committed s') = Some (history_of known) /\ others (committed s) (committed s').
Proof.
  intros Hn. unfold validateCurrentMigrations, readAppliedMigrations.
  intros ([applied exists_] & s1 & Hread & Hrest)%bind_Ok_inv.
  apply bind_Ok_inv in Hread as (relation & s0 & Hreg & Hread).
  apply checked_run in Hreg as (r0 & Hreg & _). apply regclass_law in Hreg as O0.
  destruct relation as [n|].
  2:{ injection Hread as <- <- <-. discriminate Hrest. }
  apply bind_Ok_inv in Hread as (rows & s2 & Hsel & Hread). injection Hread as <- <- <-.
  apply checked_run in Hsel as (r1 & Hsel & Hr1). apply pool_select_law in Hsel as [O1 Hrows].
  destruct (Hrows rows (proj1 (Hr1 rows) eq_refl)) as (h & Hh & Hro).
  cbn [negb] in Hrest. apply bind_Ok_inv in Hrest as (pending & s3 & Hv & Hp).
  injection Hv as Hv <-. destruct pending; [|discriminate]. injection Hp as <-.
  apply validateMigrationState_Ok in Hv as (_ & done_ & Hk & Hr). rewrite app_nil_r in Hk. subst done_.
  split; [|by transitivity (committed s0)].
  rewrite Hh. f_equal. destruct Hro as [_ <-]. unfold history_of. by rewrite Hr.
Qed.

(** The application starts only on a schema that is exactly at the embedded
    migrations: the startup check succeeds only when the metadata the database
    holds at that moment records all of them and nothing else, and it writes
    nothing. *)
Theorem startup_requires_complete_history known s s' :
  numbered known ->
  validateCurrentMigrations known s = (Ok tt, s') ->
  history (committed s') = Some (history_of known) /\ others (committed s) (committed s').
Proof. apply current_history. Qed.

End Runs.

(** * A local database, for the witnesses *)

Module LocalMigrations.

Record db := { d_committed : schema; d_working : option schema }.

Definition not_later (a b : Z * (string * string)) : Prop := a.1 <= b.1.

#[global] Instance not_later_dec : RelDecision not_later.
Proof. intros a b. unfold not_later. apply _. Defined.
#[global] Instance not_later_total : Total not_later.
Proof. intros a b. unfold not_later. lia. Qed.
#[global] Instance not_later_trans : Transitive not_later.
Proof. intros a b c. unfold not_later. lia. Qed.

Definition recorded (x : Z * (string * string)) : appliedMigration :=
  {| a_Version := x.1; a_Name := x.2.1; a_Checksum := x.2.2 |}.

(** SELECT ... ORDER BY version *)
Definition select_rows (h : gmap Z (string * string)) : list appliedMigration :=
  recorded <$> merge_sort not_later (map_to_list h).

Lemma select_rows_of h : rows_of h (select_rows h).
Proof.
  unfold rows_of, select_rows. rewrite <- list_fmap_compose.
  assert (Hid : (pair_of ∘ recorded) <$> merge_sort not_later (map_to_list h)
                = merge_sort not_later (map_to_list h)).
  { rewrite <- (list_fmap_id (merge_sort _ _)) at 2. apply list_fmap_ext. by intros _ [? [? ?]] _. }
  rewrite Hid. pose proof (merge_sort_Permutation not_later (map_to_list h)) as Hp. split.
  - assert (Hs : StronglySorted not_later (merge_sort not_later (map_to_list h))).
    { apply StronglySorted_merge_sort; apply _. }
    assert (Hnd : NoDup (merge_sort not_later (map_to_list h)).*1).
    { rewrite Hp. apply NoDup_fst_map_to_list. }
    clear Hp Hid. induction Hs as [|x l Hs IH Hx]; [constructor|].
    cbn in Hnd. apply NoDup_cons in Hnd as [Hnin Hnd]. constructor; [by apply IH|].
    rewrite Forall_forall in Hx |- *. intros y Hy. specialize (Hx y Hy).
    unfold not_later, earlier in *. destruct (decide (x.1 = y.1)) as [He|]; [|lia].
    destruct Hnin. rewrite He. by apply list_elem_of_fmap_2.
  - rewrite <- (list_to_map_to_list h) at 2. symmetry. apply list_to_map_proper; [|by symmetry].
    apply NoDup_fst_map_to_list.
Qed.

Definition in_tx {A} (f : schema -> res (A * schema)) : M db A := fun s =>
  match d_working s with
  | None => (Err (ESentinel SqlErrTxDone), s)
  | Some w => match f w with
              | Ok (a, w') => (Ok a, {| d_committed := d_committed s; d_working := Some w' |})
              | Err e => (Err e, s)
              end
  end.

Definition missing_table {A} : res A := Err (ENew "relation schema_migrations does not exist").

#[global] Instance local_db : MigrationDB db := {
  ctx_Cause := fun _ => None;
  db_BeginTxx := fun s => (Ok tt, {| d_committed := d_committed s; d_working := Some (d_committed s) |});
  db_to_regclass := fun s =>
    (Ok (match history (d_committed s) with Some _ => Some "schema_migrations" | None => None end), s);
  db_SelectApplied := fun s =>
    (match history (d_committed s) with Some h => Ok (select_rows h) | None => missing_table end, s);
  tx_AdvisoryLock := fun s => (Ok tt, {| d_committed := d_committed s; d_working := Some (d_committed s) |});
  tx_CreateTable := in_tx (fun w =>
    Ok (tt, {| history := Some (default ∅ (history w)); executed := executed w |}));
  tx_SelectApplied := in_tx (fun w =>
    match history w with Some h => Ok (select_rows h, w) | None => missing_table end);
  tx_Exec := fun sql => in_tx (fun w =>
    if sql =s "FAIL" then Err (ENew "syntax error")
    else Ok (tt, {| history := history w; executed := executed w ++ [sql] |}));
  tx_InsertApplied := fun v n c => in_tx (fun w =>
    match history w with
    | None => missing_table
    | Some h => match h !! v with
                | Some _ => Err (ENew "duplicate key")
                | None => Ok (tt, {| history := Some (<[v := (n, c)]> h); executed := executed w |})
                end
    end);
  tx_Commit := fun s =>
    match d_working s with
    | None => (Err (ESentinel SqlErrTxDone), s)
    | Some w => (Ok tt, {| d_committed := w; d_working := None |})
    end;
  tx_Rollback := fun s => (Ok tt, {| d_committed := d_committed s; d_working := None |});
}.

Lemma in_tx_run {A} (f : schema -> res (A * schema)) s w r s' :
  d_working s = Some w -> in_tx f s = (r, s') ->
  d_committed s' = d_committed s
  /\ forall a, r = Ok a -> exists w', f w = Ok (a, w') /\ d_working s' = Some w'.
Proof.
  unfold in_tx. intros ->. destruct (f w) as [[a w']|e]; intros [= <- <-]; (split; [done|]).
  - intros ? [= <-]. by exists w'.
  - done.
Qed.

#[global, program] Instance local_db_laws : MigrationDBLaws db := {
  committed := d_committed;
  working := d_working;
  others := eq;
}.
Next Obligation. by intros s r s' [= <- <-]. Qed.
Next Obligation. by intros s r s' [= <- <-]. Qed.
Next Obligation.
  intros s w r s' Hw [Hc Hr]%(in_tx_run _ _ _ _ _ Hw). split; [done|]. intros ->.
  by destruct (Hr tt eq_refl) as (w' & [= <-] & ?).
Qed.
Next Obligation.
  intros s w r s' Hw [Hc Hr]%(in_tx_run _ _ _ _ _ Hw). split; [done|]. intros rows ->.
  destruct (Hr rows eq_refl) as (w' & Hf & Hw'). destruct (history w) as [h|] eqn:Hh; [|discriminate].
  injection Hf as <- <-. split; [done|]. exists h. split; [done|]. apply select_rows_of.
Qed.
Next Obligation.
  intros s w sql r s' Hw [Hc Hr]%(in_tx_run _ _ _ _ _ Hw). split; [done|]. intros ->.
  destruct (Hr tt eq_refl) as (w' & Hf & Hw'). destruct (sql =s "FAIL"); [discriminate|]. by injection Hf as <-.
Qed.
Next Obligation.
  intros s w v n c r s' Hw [Hc Hr]%(in_tx_run _ _ _ _ _ Hw). split; [done|]. intros ->.
  destruct (Hr tt eq_refl) as (w' & Hf & Hw'). destruct (history w) as [h|]; [|discriminate].
  destruct (h !! v); [discriminate|]. injection Hf as <-. by exists h.
Qed.
Next Obligation. intros s w r s' Hw. cbn. rewrite Hw. intros [= <- <-]. by left. Qed.
Next Obligation. by intros s r s' [= <- <-]. Qed.
Next Obligation. by intros s r s' [= <- <-]. Qed.
Next Obligation.
  intros s r s' [= <- <-]. split; [done|]. cbn. intros rows Hrows.
  destruct (history (d_committed s)) as [h|]; [|discriminate]. injection Hrows as <-.
  exists h. split; [done|]. apply select_rows_of.
Qed.

Definition m1 : migration := {| Version := 1; Name := "users"; SQL := "CREATE TABLE users"; Checksum := "c1" |}.
Definition m2 : migration := {| Version := 2; Name := "roles"; SQL := "CREATE TABLE roles"; Checksum := "c2" |}.
Definition bad : migration := {| Version := 2; Name := "bad"; SQL := "FAIL"; Checksum := "c3" |}.
Definition at_schema (c : schema) : db := {| d_committed := c; d_working := None |}.

End LocalMigrations.

Import LocalMigrations.

(** The second migration is pending. *)
Definition halfway : schema := {| history := Some (history_of [m1]); executed := ["CREATE TABLE users"] |}.

Lemma halfway_consistent known : consistent (m1 :: known) halfway.
Proof. exists [m1], known. by repeat split; [..|left]. Qed.

Lemma halfway_run : exists s',
  applyMigrations [m1; m2] (at_schema halfway) = (Ok {| Applied := 1; CurrentVersion := 2 |}, s').
Proof. eexists. vm_compute. reflexivity. Qed.

(** The failing second migration leaves the schema as it was. *)
Example halfway_failed_run : exists e s',
  applyMigrations [m1; bad] (at_schema halfway) = (Err e, s') /\ d_committed s' = halfway.
Proof. eexists _, _. split; vm_compute; reflexivity. Qed.

Lemma local_others_consistent known : others_consistent (S := db) known.
Proof. by intros c c' <-. Qed.

Lemma migration_run_all_or_nothing_witness : exists r s',
  applyMigrations [m1; m2] (at_schema halfway) = (r, s')
  /\ run_outcome (S := db) [m1; m2] (committed (at_schema halfway)) r (committed s').
Proof.
  exists (fst (applyMigrations [m1; m2] (at_schema halfway))),
         (snd (applyMigrations [m1; m2] (at_schema halfway))).
  split; [apply surjective_pairing|].
  apply (migration_run_all_or_nothing [m1; m2] (at_schema halfway)).
  - reflexivity.
  - apply local_others_consistent.
  - apply halfway_consistent.
  - apply surjective_pairing.
Defined.

Lemma startup_requires_complete_history_witness :
  history (committed (at_schema (complete [m1; m2]))) = Some (history_of [m1; m2])
  /\ others (committed (at_schema (complete [m1; m2]))) (committed (at_schema (complete [m1; m2]))).
Proof.
  apply (startup_requires_complete_history [m1; m2] (at_schema (complete [m1; m2]))
           (at_schema (complete [m1; m2]))).
  - reflexivity.
  - vm_compute. reflexivity.
Defined.
