(* ===== verification/Lifecycle.v ===== *)
(** cmd/app/app.go [initializeApp] and cmd/app/lifecycle.go: the construction of
    the process's resources, and the application that owns them, as operations
    on the log of the calls made on the outside; [Run] and [Shutdown] are steps
    of goroutines, which wait for the lifecycle mutex and in [Run]'s select.  A
    critical section is one step of the goroutine that holds the mutex: the
    calls it makes on the outside return, the server's within their timeout. *)
From S2P Require Export Config.

Module Lifecycle.

(** * The outside *)

(** The calls on the dependencies and the resources. *)
Inductive event :=
  | NewLogger
  | NewPostgres (cfg : Config.PostgresConfig)
  | NewRedis (cfg : Config.Config)
  | ValidateAssets
  | BuildRuntime
  | CleanerStart
  | CleanerShutdown
  | ServerStart (addr : string)
  | ServerShutdown
  | ServerClose
  | CancelWorkers
  | CloseRedis
  | ClosePostgres
  | SyncLogger.

(** How a call returned; [MissingChannel] is a server that starts without error
    and without its channel of serve errors. *)
Inductive outcome := Done | Failed (e : err) | MissingChannel.

Definition error_of (o : outcome) : option err := match o with Failed e => Some e | _ => None end.

(** The calls made so far, the last first. *)
Definition log := list (event * outcome).

(** The outside answers a call, and the state of the contexts is read, as a
    function of everything that happened before. *)
Class Environment := {
  answer : log -> event -> outcome;
  startup_Err : log -> option (sentinel * option sentinel);
  validation_Err : log -> option (sentinel * option sentinel);
}.

Section Application.
Context `{Environment}.

Definition call (e : event) (w : log) : outcome * log := (answer w e, (e, answer w e) :: w).

(** [runCleanup]; a nil function is [None]. *)
Definition runCleanup (operation : string) (cleanup : option event) (w : log) : option err * log :=
  match cleanup with
  | None => (None, w)
  | Some e => let '(o, w1) := call e w in (option_map (wrap1 operation) (error_of o), w1)
  end.

(** The clean-ups in the argument list of [errors.Join]. *)
Fixpoint runCleanups (l : list (string * option event)) (w : log) : list (option err) * log :=
  match l with
  | [] => ([], w)
  | (operation, cleanup) :: l' =>
      let '(e, w1) := runCleanup operation cleanup w in
      let '(es, w2) := runCleanups l' w1 in
      (e :: es, w2)
  end.

(** * app.go: initializeApp *)

(** The owner of the resources. *)
Record applicationResources := {
  address : string; shutdownTimeout : Z;
  closeRedis : option event; closePostgres : option event; syncLogger : option event;
}.

Record Application := {
  resources : applicationResources;
  runStarted : bool; closed : bool; cleanerStartAttempted : bool; serverStarted : bool;
  cancelWorkers : bool;
  cleanupOnce : bool; cleanupErr : option err;
}.

Definition defaultShutdownTimeout : Z := 15 * Config.Second.

Definition newApplication (r : applicationResources) : Application :=
  {| resources := if shutdownTimeout r <=? 0
                  then {| address := address r; shutdownTimeout := defaultShutdownTimeout;
                          closeRedis := closeRedis r; closePostgres := closePostgres r;
                          syncLogger := syncLogger r |}
                  else r;
     runStarted := false; closed := false; cleanerStartAttempted := false; serverStarted := false;
     cancelWorkers := false; cleanupOnce := false; cleanupErr := None |}.

(** [ctx.Err()] of a context that ended, with its cause. *)
Definition startupContextError (ctx_err : option (sentinel * option sentinel)) : option err :=
  match ctx_err with
  | None => None
  | Some (e, cause) =>
      let contextErr := wrap1 "application startup context" e in
      match cause with
      | None => Some contextErr
      | Some c =>
          if errors_is contextErr c then Some contextErr
          else errors_join [Some contextErr; Some (wrap1 "application startup cancellation cause" c)]
      end
  end.

Definition startup : Type := (option Application * option err) * log.

(** [return nil, errors.Join(errs..., cleanups...)] *)
Definition abandon (errs : list (option err)) (cleanups : list (string * option event)) (w : log) : startup :=
  let '(es, w') := runCleanups cleanups w in
  ((None, errors_join (errs ++ es)), w').

Definition sync_after (reason : string) : list (string * option event) :=
  [("sync logger after " +:+ reason, Some SyncLogger)].
Definition postgres_after (reason : string) : list (string * option event) :=
  ("close PostgreSQL after " +:+ reason, Some ClosePostgres) :: sync_after reason.
Definition redis_after (reason : string) : list (string * option event) :=
  ("close Redis after " +:+ reason, Some CloseRedis) :: postgres_after reason.

(** The steps from the Redis client on. *)
Definition build_runtime (cfg : Config.Config) (w : log) : startup :=
  let '(o, w) := call BuildRuntime w in
  match error_of o with
  | Some e =>
      abandon [Some (wrap1 "initialize application runtime" e); startupContextError (startup_Err w)]
        (redis_after "runtime initialization failure") w
  | None =>
      match startupContextError (startup_Err w) with
      | Some e => abandon [Some e] (redis_after "startup cancellation") w
      | None =>
          ((Some (newApplication
                    {| address := Config.ServerAddress cfg; shutdownTimeout := defaultShutdownTimeout;
                       closeRedis := Some CloseRedis; closePostgres := Some ClosePostgres;
                       syncLogger := Some SyncLogger |}), None), w)
      end
  end.

(** [hasValidator]: a validator of the runtime assets was given. *)
Definition validate_assets (cfg : Config.Config) (hasValidator : bool) (w : log) : startup :=
  let '(e, w) := if hasValidator then let '(o, w1) := call ValidateAssets w in (error_of o, w1)
                 else (Some (ENew "runtime asset validator is required"), w) in
  match errors_join [e; startupContextError (validation_Err w)] with
  | Some e =>
      abandon [Some (wrap1 "validate runtime assets" e)] (redis_after "runtime asset validation failure") w
  | None =>
      match startupContextError (startup_Err w) with
      | Some e => abandon [Some e] (redis_after "startup cancellation") w
      | None => build_runtime cfg w
      end
  end.

Definition open_redis (cfg : Config.Config) (hasValidator : bool) (w : log) : startup :=
  let '(o, w) := call (NewRedis cfg) w in
  match error_of o with
  | Some e =>
      abandon [Some (wrap1 "initialize Redis" e); startupContextError (startup_Err w)]
        (postgres_after "Redis initialization failure") w
  | None =>
      match startupContextError (startup_Err w) with
      | Some e => abandon [Some e] (redis_after "startup cancellation") w
      | None => validate_assets cfg hasValidator w
      end
  end.

Definition open_postgres (cfg : Config.Config) (hasValidator : bool) (w : log) : startup :=
  let '(o, w) := call (NewPostgres (Config.newPostgresClientConfig cfg)) w in
  match error_of o with
  | Some e =>
      abandon [Some (wrap1 "initialize postgres" e); startupContextError (startup_Err w)]
        (sync_after "PostgreSQL initialization failure") w
  | None =>
      match startupContextError (startup_Err w) with
      | Some e => abandon [Some e] (postgres_after "startup cancellation") w
      | None => open_redis cfg hasValidator w
      end
  end.

Definition initializeApp (ctxGiven : bool) (cfg : option Config.Config) (hasValidator : bool) (w : log) : startup :=
  if negb ctxGiven then ((None, Some (ENew "application startup context is required")), w) else
  match cfg with
  | None => ((None, Some (ENew "application configuration is required")), w)
  | Some cfg =>
      match startupContextError (startup_Err w) with
      | Some e => ((None, Some e), w)
      | None =>
          let '(o, w) := call NewLogger w in
          match error_of o with
          | Some e => ((None, Some (wrap1 "initialize logger" e)), w)
          | None =>
              match startupContextError (startup_Err w) with
              | Some e => abandon [Some e] (sync_after "startup cancellation") w
              | None =>
                  match PasswordHash.newPasswordService (Config.newPasswordHasherConfig cfg) with
                  | Err e =>
                      abandon [Some (wrap1 "initialize password hasher" e)]
                        (sync_after "password hasher initialization failure") w
                  | Ok _ => open_postgres cfg hasValidator w
                  end
              end
          end
      end
  end.

(** * lifecycle.go *)

(** [start], under the lifecycle mutex: the application it leaves, and an error
    or the channel of serve errors. *)
Definition start (a : Application) (w : log) : (Application * option err) * log :=
  if closed a then ((a, Some (ESentinel ErrApplicationClosed)), w)
  else if runStarted a then ((a, Some (ESentinel ErrApplicationAlreadyRun)), w)
  else
    let running (started : bool) :=
      {| resources := resources a; runStarted := true; closed := closed a; cleanerStartAttempted := true;
         serverStarted := started || serverStarted a; cancelWorkers := true;
         cleanupOnce := cleanupOnce a; cleanupErr := cleanupErr a |} in
    let '(o, w) := call CleanerStart w in
    match error_of o with
    | Some e => ((running false, Some (wrap1 "start session cleaner" e)), w)
    | None =>
        let '(o, w) := call (ServerStart (address (resources a))) w in
        match o with
        | Failed e => ((running false, Some (wrap1 "start HTTP server" e)), w)
        | MissingChannel => ((running false, Some (ENew "start HTTP server: missing serve result channel")), w)
        | Done => ((running true, None), w)
        end
    end.

(** The HTTP server's part of [cleanup]. *)
Definition stop_server (w : log) : list (option err) * log :=
  let '(o, w) := call ServerShutdown w in
  match error_of o with
  | None => ([], w)
  | Some e =>
      let '(o', w) := call ServerClose w in
      (Some (wrap1 "shutdown HTTP server" e) :: match error_of o' with
                                                | Some e' => [Some (wrap1 "force close HTTP server" e')]
                                                | None => []
                                                end, w)
  end.

Definition cleanup (a : Application) (w : log) : option err * log :=
  let w := if cancelWorkers a then snd (call CancelWorkers w) else w in
  let '(serverErrs, w) := if serverStarted a then stop_server w else ([], w) in
  let w := if cleanerStartAttempted a then snd (call CleanerShutdown w) else w in
  let '(errs, w) := runCleanups [("close Redis", closeRedis (resources a));
                                 ("close PostgreSQL", closePostgres (resources a));
                                 ("sync logger", syncLogger (resources a))] w in
  (errors_join (serverErrs ++ errs), w).

(** [Shutdown], under the lifecycle mutex: [cleanupOnce] runs [cleanup] in the
    first call only. *)
Definition Shutdown (a : Application) (w : log) : (Application * option err) * log :=
  let shut (e : option err) :=
    {| resources := resources a; runStarted := runStarted a; closed := true;
       cleanerStartAttempted := cleanerStartAttempted a; serverStarted := serverStarted a;
       cancelWorkers := cancelWorkers a; cleanupOnce := true; cleanupErr := e |} in
  if cleanupOnce a then ((shut (cleanupErr a), cleanupErr a), w)
  else let '(e, w) := cleanup a w in ((shut e, e), w).

End Application.

(** ** Run *)

(** How [Run] combines the error of [shutdownWithTimeout]. *)
Inductive exit := ExitPlain | ExitWith (e : err).

Definition exit_error (x : exit) (cleanupErr : option err) : option err :=
  match x with ExitPlain => cleanupErr | ExitWith e => errors_join [Some e; cleanupErr] end.

(** A goroutine that called [Run] or [Shutdown].  [ctx] is the context [Run] was
    given; a locked one holds [lifecycleMu]. *)
Inductive thread :=
  | RunCalled (ctx : option nat)
  | Starting (ctx : nat)
  | StartLocked (ctx : nat)
  | Serving (ctx : nat)
  | Stopping (x : exit)
  | StopLocked (x : exit)
  | Returned (result : option err).

(** The error a receive from [serveErrors] leads to; [None]: closed. *)
Definition serve_exit (received : option (option err)) : exit :=
  match received with
  | Some (Some serveErr) => ExitWith (wrap1 "serve HTTP" serveErr)
  | _ => ExitWith (ESentinel ErrHTTPServerStopped)
  end.

(** What the goroutines share: the application with the calls made, its mutex,
    the contexts that ended, and the channel [serveErrors] of the one server
    that was started. *)
Record shared := {
  app : Application; calls : log; lifecycleMu : bool;
  ended : list nat;
  serveErrors : list (option err); serveClosed : bool;
}.

Definition lock (w : shared) : shared :=
  {| app := app w; calls := calls w; lifecycleMu := true; ended := ended w;
     serveErrors := serveErrors w; serveClosed := serveClosed w |}.

(** The end of a critical section that leaves [a] and [l]. *)
Definition unlock (w : shared) (a : Application) (l : log) : shared :=
  {| app := a; calls := l; lifecycleMu := false; ended := ended w;
     serveErrors := serveErrors w; serveClosed := serveClosed w |}.

(** A receive from [serveErrors]: the oldest value, [None] of a closed channel,
    or it blocks. *)
Definition receive (w : shared) : option (option (option err) * shared) :=
  match serveErrors w with
  | v :: vs => Some (Some v, {| app := app w; calls := calls w; lifecycleMu := lifecycleMu w;
                                ended := ended w; serveErrors := vs; serveClosed := serveClosed w |})
  | [] => if serveClosed w then Some (None, w) else None
  end.

Record system := { state :> shared; threads : list thread }.

Section Steps.
Context `{Environment}.

(** One step of a goroutine.  It waits for [lifecycleMu] in [start] and in
    [Shutdown], and in [Run]'s select for its context or for [serveErrors]. *)
Inductive thread_step (w : shared) : thread -> shared -> thread -> Prop :=
  | run_without_context :
      thread_step w (RunCalled None) w (Stopping (ExitWith (ENew "application context is required")))
  | run_already_cancelled ctx :
      In ctx (ended w) -> thread_step w (RunCalled (Some ctx)) w (Stopping ExitPlain)
  | run_goes_on ctx :
      ~ In ctx (ended w) -> thread_step w (RunCalled (Some ctx)) w (Starting ctx)
  | start_locks ctx :
      lifecycleMu w = false -> thread_step w (Starting ctx) (lock w) (StartLocked ctx)
  | run_starts ctx a l :
      start (app w) (calls w) = ((a, None), l) ->
      thread_step w (StartLocked ctx) (unlock w a l) (Serving ctx)
  | run_start_fails ctx a e l :
      start (app w) (calls w) = ((a, Some e), l) ->
      thread_step w (StartLocked ctx) (unlock w a l) (Stopping (ExitWith e))
  | run_cancelled ctx :
      In ctx (ended w) -> thread_step w (Serving ctx) w (Stopping ExitPlain)
  | run_serve_ends ctx received w' :
      receive w = Some (received, w') -> thread_step w (Serving ctx) w' (Stopping (serve_exit received))
  | shutdown_locks x :
      lifecycleMu w = false -> thread_step w (Stopping x) (lock w) (StopLocked x)
  | shuts_down x a e l :
      Shutdown (app w) (calls w) = ((a, e), l) ->
      thread_step w (StopLocked x) (unlock w a l) (Returned (exit_error x e)).

(** A goroutine moves. *)
Inductive moves (s : system) : system -> Prop :=
  | goroutine_moves i t w t' :
      threads s !! i = Some t -> thread_step s t w t' ->
      moves s {| state := w; threads := <[i := t']> (threads s) |}.

(** A context ends; the serving goroutine of the started server reports, or
    closes its channel. *)
Inductive outside_moves (w : shared) : shared -> Prop :=
  | context_ends ctx :
      outside_moves w {| app := app w; calls := calls w; lifecycleMu := lifecycleMu w; ended := ctx :: ended w;
                   serveErrors := serveErrors w; serveClosed := serveClosed w |}
  | serve_reports result :
      serverStarted (app w) = true -> serveClosed w = false ->
      outside_moves w {| app := app w; calls := calls w; lifecycleMu := lifecycleMu w; ended := ended w;
                   serveErrors := serveErrors w ++ [result]; serveClosed := false |}
  | serve_closes :
      serverStarted (app w) = true ->
      outside_moves w {| app := app w; calls := calls w; lifecycleMu := lifecycleMu w; ended := ended w;
                   serveErrors := serveErrors w; serveClosed := true |}.

(** What happens without new calls. *)
Inductive runs_on (s : system) : system -> Prop :=
  | moving s' : moves s s' -> runs_on s s'
  | outside_acts w : outside_moves s w -> runs_on s {| state := w; threads := threads s |}.

(** The goroutines interleave; any number of calls of [Run] and of [Shutdown]
    arrive at any moment. *)
Inductive step (s : system) : system -> Prop :=
  | new_call t :
      (t = Stopping ExitPlain \/ exists ctx, t = RunCalled ctx) ->
      step s {| state := s; threads := threads s ++ [t] |}
  | goes_on s' : runs_on s s' -> step s s'.

(** An application that nobody uses yet. *)
Definition fresh (a : Application) (l : log) (done_ : list nat) : shared :=
  {| app := a; calls := l; lifecycleMu := false; ended := done_; serveErrors := []; serveClosed := false |}.

(** From a successful [initializeApp]. *)
Inductive reachable (cfg : option Config.Config) (hasValidator : bool) : system -> Prop :=
  | initialized a l done_ :
      initializeApp true cfg hasValidator [] = ((Some a, None), l) ->
      reachable cfg hasValidator {| state := fresh a l done_; threads := [] |}
  | stepped s s' : reachable cfg hasValidator s -> step s s' -> reachable cfg hasValidator s'.

End Steps.

End Lifecycle.
