(* ===== verification/LifecycleGuarantees.v ===== *)
(** What the lifecycle guarantees: every resource the process opens is released
    exactly once, in the reverse order, whatever fails and however calls of
    [Run] and [Shutdown] interleave; and every such call returns. *)
From S2P Require Export Lifecycle.
Import Lifecycle.

(** * The accounting of the calls *)

Inductive resource := RLogger | RPostgres | RRedis | RCleaner | RServer.

#[export] Instance resource_eq_dec : EqDecision resource.
Proof. solve_decision. Defined.

Definition has (st : list resource) (needed : list resource) : bool :=
  forallb (fun r => bool_decide (r ∈ st)) needed.

(** [r] is opened: it was not held, and what it is built on is. *)
Definition push (r : resource) (needed : list resource) (st : list resource) : option (list resource) :=
  if has st needed && negb (bool_decide (r ∈ st)) then Some (r :: st) else None.

(** [r] is released: it is the last that was opened of those held. *)
Definition pop (r : resource) (st : list resource) : option (list resource) :=
  match st with
  | r' :: st' => if bool_decide (r = r') then Some st' else None
  | [] => None
  end.

Definition use (needed : list resource) (st : list resource) : option (list resource) :=
  if has st needed then Some st else None.

Definition account (e : event) (o : outcome) (st : list resource) : option (list resource) :=
  let opened r needed := match error_of o with None => push r needed st | Some _ => use needed st end in
  match e with
  | NewLogger => opened RLogger []
  | NewPostgres _ => opened RPostgres [RLogger]
  | NewRedis _ => opened RRedis [RLogger]
  | ValidateAssets => use [RRedis] st
  | BuildRuntime => use [RRedis; RPostgres; RLogger] st
  | CleanerStart => push RCleaner [RRedis; RLogger] st
  | ServerStart _ => match o with
                     | Done => push RServer [RRedis; RPostgres; RLogger] st
                     | _ => use [RRedis; RPostgres; RLogger] st
                     end
  | ServerShutdown => pop RServer st
  | ServerClose => Some st
  | CleanerShutdown => pop RCleaner st
  | CancelWorkers => use [RCleaner] st
  | CloseRedis => pop RRedis st
  | ClosePostgres => pop RPostgres st
  | SyncLogger => pop RLogger st
  end.

(** The resources held after the calls, the last opened first; [None]: some
    call opened a resource twice, used or released one that was not held, or
    released one while something built on it was held. *)
Fixpoint held (w : log) : option (list resource) :=
  match w with
  | [] => Some []
  | (e, o) :: w' => held w' ≫= account e o
  end.

Definition base : list resource := [RRedis; RPostgres; RLogger].

(** What an application is accountable for. *)
Definition owned (a : Application) : list resource :=
  if closed a then []
  else (if serverStarted a then [RServer] else [])
       ++ (if cleanerStartAttempted a then [RCleaner] else []) ++ base.

Section Guarantees.
Context `{Environment}.

Lemma held_call e w st : held w = Some st -> held (snd (call e w)) = account e (answer w e) st.
Proof. intros Hw. cbn. by rewrite Hw. Qed.

Lemma run_cleanup_held op e w st st' :
  held w = Some st -> (forall o, account e o st = Some st') ->
  forall r w', runCleanup op (Some e) w = (r, w') -> held w' = Some st'.
Proof.
  intros Hw Ha r w'. unfold runCleanup, call. intros [= <- <-]. cbn [held]. rewrite Hw. apply Ha.
Qed.

(** A list of clean-ups that releases what is held, one after the other. *)
Inductive unwinds : list (string * option event) -> list resource -> Prop :=
  | unwinds_nil : unwinds [] []
  | unwinds_cons op e l st st' :
      (forall o, account e o st = Some st') -> unwinds l st' -> unwinds ((op, Some e) :: l) st.

Lemma run_cleanups_held l st w es w' :
  unwinds l st -> held w = Some st -> runCleanups l w = (es, w') -> held w' = Some [].
Proof.
  intros Hu. revert w es w'. induction Hu as [|op e l st st' Ha Hu IH]; intros w es w' Hw.
  - by intros [= <- <-].
  - cbn [runCleanups]. destruct (runCleanup op (Some e) w) as [r1 w1] eqn:E1.
    destruct (runCleanups l w1) as [es2 w2] eqn:E2. intros [= <- <-].
    eapply IH; [|exact E2]. by eapply run_cleanup_held.
Qed.

Lemma unwinds_sync reason : unwinds (sync_after reason) [RLogger].
Proof. repeat (econstructor; [done|]). constructor. Qed.
Lemma unwinds_postgres reason : unwinds (postgres_after reason) [RPostgres; RLogger].
Proof. repeat (econstructor; [done|]). constructor. Qed.
Lemma unwinds_redis reason : unwinds (redis_after reason) base.
Proof. repeat (econstructor; [done|]). constructor. Qed.

(** * Startup *)

(** A construction either gives an application that holds the three resources
    or gives an error and holds nothing. *)
Definition balanced (r : startup) : Prop :=
  match r with
  | ((Some a, None), w) =>
      held w = Some base
      /\ runStarted a = false /\ closed a = false /\ cleanerStartAttempted a = false
      /\ serverStarted a = false /\ cancelWorkers a = false /\ cleanupOnce a = false
      /\ closeRedis (resources a) = Some CloseRedis /\ closePostgres (resources a) = Some ClosePostgres
      /\ syncLogger (resources a) = Some SyncLogger /\ 0 < shutdownTimeout (resources a)
  | ((None, Some _), w) => held w = Some []
  | _ => False
  end.

Lemma abandon_balanced e errs l st w :
  unwinds l st -> held w = Some st -> balanced (abandon (Some e :: errs) l w).
Proof.
  intros Hu Hw. unfold abandon. destruct (runCleanups l w) as [es w'] eqn:E. cbn.
  by eapply run_cleanups_held.
Qed.

(** One construction step: the log gets one more entry, the cases are the
    result of the call and the state of the context. *)
Ltac construct :=
  repeat match goal with
  | |- balanced (let '(_, _) := call ?e ?w in _) =>
      let Hc := fresh "Hc" in
      pose proof (held_call e w _ ltac:(eassumption)) as Hc;
      unfold call in *; cbn [snd] in Hc;
      destruct (answer w e); cbn in Hc; cbn [error_of]
  | |- balanced (match startupContextError ?c with _ => _ end) => destruct (startupContextError c)
  | |- balanced (match errors_join ?c with _ => _ end) => destruct (errors_join c)
  end.

Lemma build_runtime_balanced cfg w : held w = Some base -> balanced (build_runtime cfg w).
Proof.
  intros Hw. unfold build_runtime. construct;
    try (eapply abandon_balanced; [apply unwinds_redis|eassumption]);
    repeat (split; [done|]); done.
Qed.

Lemma validate_assets_balanced cfg v w : held w = Some base -> balanced (validate_assets cfg v w).
Proof.
  intros Hw. unfold validate_assets. pose proof (held_call ValidateAssets w _ Hw) as Hc.
  destruct v; unfold call in *; cbn [snd] in Hc; [destruct (answer w ValidateAssets); cbn in Hc; cbn [error_of]|]; construct;
    try (eapply abandon_balanced; [apply unwinds_redis|eassumption]);
    by apply build_runtime_balanced.
Qed.

Lemma open_redis_balanced cfg v w : held w = Some [RPostgres; RLogger] -> balanced (open_redis cfg v w).
Proof.
  intros Hw. unfold open_redis. construct;
    first [ by apply validate_assets_balanced
          | eapply abandon_balanced; [apply unwinds_redis|eassumption]
          | eapply abandon_balanced; [apply unwinds_postgres|eassumption] ].
Qed.

Lemma open_postgres_balanced cfg v w : held w = Some [RLogger] -> balanced (open_postgres cfg v w).
Proof.
  intros Hw. unfold open_postgres. construct;
    first [ by apply open_redis_balanced
          | eapply abandon_balanced; [apply unwinds_postgres|eassumption]
          | eapply abandon_balanced; [apply unwinds_sync|eassumption] ].
Qed.

(** A start either leaves a complete application or nothing. *)
Lemma initializeApp_balanced ctxGiven cfg v : balanced (initializeApp ctxGiven cfg v []).
Proof.
  unfold initializeApp. destruct ctxGiven; [|done]. destruct cfg as [cfg|]; [|done]. cbn [negb].
  assert (Hw : held [] = Some []) by done.
  construct; try done;
    try (eapply abandon_balanced; [apply unwinds_sync|eassumption]);
    destruct (PasswordHash.newPasswordService _);
    first [ by apply open_postgres_balanced
          | eapply abandon_balanced; [apply unwinds_sync|eassumption] ].
Qed.

(** * The running application *)

(** Before the clean-up: what the application holds, and its flags. *)
Definition open_state (a : Application) (w : log) : Prop :=
  closed a = false /\ cleanupOnce a = false /\ held w = Some (owned a)
  /\ cancelWorkers a = cleanerStartAttempted a /\ runStarted a = cleanerStartAttempted a
  /\ (serverStarted a = true -> cleanerStartAttempted a = true)
  /\ closeRedis (resources a) = Some CloseRedis /\ closePostgres (resources a) = Some ClosePostgres
  /\ syncLogger (resources a) = Some SyncLogger.

Definition closed_state (a : Application) (w : log) : Prop :=
  closed a = true /\ cleanupOnce a = true /\ held w = Some [].

Definition sound (a : Application) (w : log) : Prop := open_state a w \/ closed_state a w.

Lemma sound_held a w : sound a w -> held w = Some (owned a).
Proof. intros [(_ & _ & Hh & _)|(Hc & _ & Hh)]; [done|]. unfold owned. by rewrite Hc. Qed.

Lemma start_sound a w a' e w' : sound a w -> start a w = ((a', e), w') -> sound a' w'.
Proof.
  unfold start. intros [Ho|Hc].
  2:{ destruct Hc as (Hc & ?). rewrite Hc. intros [= <- <- <-]. by right. }
  destruct Ho as (Hcl & Ho & Hh & Hcw & Hr & Hs & Hres). rewrite Hcl.
  destruct (runStarted a) eqn:Hrs.
  { intros [= <- <- <-]. left. unfold open_state. rewrite Hrs. done. }
  rewrite <- Hr in *.
  assert (Hss : serverStarted a = false) by (destruct (serverStarted a); [by specialize (Hs eq_refl)|done]).
  assert (Hb : held w = Some base).
  { rewrite Hh. unfold owned. by rewrite Hcl, Hss, <- Hr. }
  pose proof (held_call CleanerStart w _ Hb) as Hc1. unfold call in *. cbn [snd] in Hc1.
  destruct (answer w CleanerStart) as [|e1|]; cbn in Hc1; cbn [error_of].
  2:{ intros [= <- <- <-]. left. unfold open_state, owned. cbn. rewrite Hss. done. }
  all: match goal with |- context [answer ?w1 ?e1] =>
         pose proof (held_call e1 w1 _ Hc1) as Hc2; unfold call in Hc2; cbn [snd] in Hc2;
         destruct (answer w1 e1); cbn in Hc2 end;
    intros [= <- <- <-]; left; unfold open_state, owned; cbn; rewrite ?Hss; done.
Qed.

(** The server is shut down, forcibly if need be. *)
Lemma stop_server_held w st es w' : held w = Some (RServer :: st) -> stop_server w = (es, w') -> held w' = Some st.
Proof.
  intros Hw. unfold stop_server. pose proof (held_call ServerShutdown w _ Hw) as Hc1.
  unfold call in *. cbn [snd] in Hc1. destruct (answer w ServerShutdown) as [|e|]; cbn in Hc1; cbn [error_of].
  1,3: by intros [= <- <-].
  change (held ((ServerShutdown, Failed e) :: w) = Some st) in Hc1.
  pose proof (held_call ServerClose _ _ Hc1) as Hc2. unfold call in Hc2. cbn [snd] in Hc2.
  intros [= <- <-]. exact Hc2.
Qed.

Lemma cleanup_held a w e w' : open_state a w -> cleanup a w = (e, w') -> held w' = Some [].
Proof.
  intros (Hcl & Ho & Hh & Hcw & Hr & Hs & Hred & Hpg & Hsy). unfold cleanup.
  rewrite Hcw, Hred, Hpg, Hsy. unfold owned in Hh. rewrite Hcl in Hh.
  set (l := [("close Redis", _); _; _]).
  assert (Hu : unwinds l base) by (repeat (econstructor; [done|]); constructor).
  assert (Hfinal : forall w0 errs, held w0 = Some base ->
            (let '(es, w) := runCleanups l w0 in (errors_join (errs ++ es), w)) = (e, w') -> held w' = Some []).
  { intros w0 errs Hw0. destruct (runCleanups l w0) as [es w1] eqn:E. intros [= <- <-].
    by eapply run_cleanups_held. }
  clearbody l. destruct (cleanerStartAttempted a).
  - assert (Hc : held (snd (call CancelWorkers w)) = held w).
    { rewrite Hh. cbn. rewrite Hh. by destruct (serverStarted a). }
    rewrite Hh in Hc.
    set (w1 := snd (call CancelWorkers w)) in *. clearbody w1. destruct (serverStarted a); cbn in Hc.
    + destruct (stop_server w1) as [es w2] eqn:E. pose proof (stop_server_held _ _ _ _ Hc E) as Hw2.
      pose proof (held_call CleanerShutdown w2 _ Hw2) as Hw3. cbn [account pop] in Hw3.
      set (w3 := snd (call CleanerShutdown w2)) in *. by apply Hfinal.
    + pose proof (held_call CleanerShutdown w1 _ Hc) as Hw3.
      set (w3 := snd (call CleanerShutdown w1)) in *. by apply Hfinal.
  - destruct (serverStarted a); [by specialize (Hs eq_refl)|]. by apply Hfinal.
Qed.

Lemma shutdown_sound a w a' e w' :
  sound a w -> Shutdown a w = ((a', e), w') ->
  closed_state a' w' /\ e = cleanupErr a'
  /\ (closed a = true -> w' = w /\ cleanupErr a' = cleanupErr a).
Proof.
  unfold Shutdown. intros [Ho|(Hc & Ho & Hh)].
  - pose proof Ho as (Hcl & Hon & _). rewrite Hon. destruct (cleanup a w) as [e1 w1] eqn:E.
    intros [= <- <- <-]. unfold closed_state. cbn. rewrite Hcl.
    split; [|by split]. split; [done|]. split; [done|]. by eapply cleanup_held.
  - rewrite Ho. intros [= <- <- <-]. by repeat split.
Qed.

Lemma start_closed a w a' e w' : closed a = true -> start a w = ((a', e), w') -> a' = a /\ w' = w.
Proof. intros Hc. unfold start. rewrite Hc. by intros [= <- <- <-]. Qed.

Lemma receive_same w received w' :
  receive w = Some (received, w') ->
  app w' = app w /\ calls w' = calls w /\ lifecycleMu w' = lifecycleMu w /\ ended w' = ended w.
Proof.
  unfold receive. destruct (serveErrors w); [destruct (serveClosed w); [|discriminate]|]; by intros [= _ <-].
Qed.

Lemma thread_step_sound w t w' t' :
  sound (app w) (calls w) -> thread_step w t w' t' ->
  sound (app w') (calls w')
  /\ (closed (app w) = true ->
        closed (app w') = true /\ calls w' = calls w /\ cleanupErr (app w') = cleanupErr (app w))
  /\ (forall r, t' = Returned r -> closed (app w') = true /\ exists x, r = exit_error x (cleanupErr (app w'))).
Proof.
  intros Hs Ht. destruct Ht as [| | | |ctx a l Hst|ctx a e l Hst| |ctx received w' Hrc| |x a e l Hsh]; try by split.
  1,2: split; [by eapply start_sound|]; split; [|done]; intros Hc;
       by destruct (start_closed _ _ _ _ _ Hc Hst) as [-> ->].
  - destruct (receive_same _ _ _ Hrc) as (-> & -> & _). by split.
  - destruct (shutdown_sound _ _ _ _ _ Hs Hsh) as (Hc & He & Hcl). split; [by right|]. split.
    + intros Hc'. destruct (Hcl Hc') as [-> ?]. by destruct Hc.
    + intros r [= <-]. split; [by destruct Hc|]. exists x. by rewrite He.
Qed.

(** The goroutines that have returned. *)
Definition returned_ok (s : system) : Prop :=
  forall r, In (Returned r) (threads s) ->
  closed (app s) = true /\ exists x, r = exit_error x (cleanupErr (app s)).

Lemma moves_sound (s s' : system) :
  sound (app s) (calls s) -> returned_ok s -> moves s s' ->
  sound (app s') (calls s') /\ returned_ok s'
  /\ (closed (app s) = true -> calls s' = calls s).
Proof.
  intros Hs Hr [i t w t' Hi Ht]. destruct (thread_step_sound _ _ _ _ Hs Ht) as (Hs' & Hcl & Hret).
  split; [done|]. split; [|by intros Hc; destruct (Hcl Hc) as (_ & ? & _)].
  intros r Hin%list_elem_of_In%list_elem_of_lookup_1. cbn in Hin |- *.
  destruct Hin as (j & [(_ & Ht' & _)|[_ Hj]]%list_lookup_insert_Some); [by apply Hret|].
  destruct (Hr r) as [Hc Hx]; [by eapply list_elem_of_In, list_elem_of_lookup_2|].
  destruct (Hcl Hc) as (Hc' & _ & He). rewrite He. by split.
Qed.

Lemma system_step_sound (s s' : system) :
  sound (app s) (calls s) -> returned_ok s -> step s s' ->
  sound (app s') (calls s') /\ returned_ok s'
  /\ (closed (app s) = true -> calls s' = calls s).
Proof.
  intros Hs Hr [t Ht|s1 [s2 Hm|w Ho]]; [|by apply moves_sound|by destruct Ho].
  split; [done|]. split; [|done]. intros r Hin. cbn in Hin. apply in_app_or in Hin as [Hin|[->|[]]].
  - by apply Hr.
  - by destruct Ht as [?|[? ?]].
Qed.

Lemma reachable_sound cfg v (s : system) :
  reachable cfg v s -> sound (app s) (calls s) /\ returned_ok s.
Proof.
  induction 1 as [a w done_ Hi|s s' _ [IHs IHr] Hst].
  - pose proof (initializeApp_balanced true cfg v) as Hb. rewrite Hi in Hb.
    destruct Hb as (Hh & Hr & Hc & Hcs & Hss & Hcw & Hon & Hres). split; [left|by intros ? []].
    unfold open_state, owned. cbn [state fresh app calls]. rewrite Hr, Hc, Hcs, Hss, Hcw, Hon. cbn. tauto.
  - by destruct (system_step_sound _ _ IHs IHr Hst) as (? & ? & _).
Qed.

(** However the start goes, it leaves either a complete application that
    holds the logger, PostgreSQL and Redis, or an error and nothing: whichever
    step fails, and wherever the context is cancelled, everything that had been
    opened is released once, in the reverse order of its opening. *)
Theorem startup_all_or_nothing ctxGiven cfg hasValidator :
  let '((a, e), w) := initializeApp ctxGiven cfg hasValidator [] in
  match a, e with
  | Some _, None => held w = Some [RRedis; RPostgres; RLogger]
  | None, Some _ => held w = Some []
  | _, _ => False
  end.
Proof.
  pose proof (initializeApp_balanced ctxGiven cfg hasValidator) as Hb.
  destruct (initializeApp _ _ _ _) as [[[a|] [e|]] w]; cbn in *; tauto.
Qed.

(** C22. The resources of a running application are released exactly once, in
    the reverse order (HTTP server, session cleaner, Redis, PostgreSQL, logger),
    however many calls of [Run] and [Shutdown] interleave and whatever they
    meet: at every moment exactly what the flags say is held, a call that has
    returned leaves nothing held, every returned call reports the errors of the
    one clean-up, and after the clean-up nothing is called any more. *)
Theorem lifecycle_releases_once cfg hasValidator (s : system) :
  reachable cfg hasValidator s ->
  held (calls s) = Some (owned (app s))
  /\ (forall r, In (Returned r) (threads s) ->
        held (calls s) = Some [] /\ exists x, r = exit_error x (cleanupErr (app s)))
  /\ (forall s' : system, closed (app s) = true -> step s s' -> calls s' = calls s).
Proof.
  intros [Hs Hr]%reachable_sound. split; [by apply sound_held|]. split.
  - intros r Hin. destruct (Hr r Hin) as [Hc Hx]. split; [|done].
    rewrite (sound_held _ _ Hs). unfold owned. by rewrite Hc.
  - intros s' Hc Hst. destruct (system_step_sound _ _ Hs Hr Hst) as (_ & _ & Hcalls). by apply Hcalls.
Qed.

(** ** Every call returns *)

(** The steps a goroutine has left. *)
Definition steps_left (t : thread) : nat :=
  match t with
  | RunCalled _ => 6 | Starting _ => 5 | StartLocked _ => 4 | Serving _ => 3
  | Stopping _ => 2 | StopLocked _ => 1 | Returned _ => 0
  end.

Lemma thread_step_decreases w t w' t' : thread_step w t w' t' -> (steps_left t' < steps_left t)%nat.
Proof. destruct 1; cbn; lia. Qed.

Lemma sum_insert (f : thread -> nat) l i t t' :
  l !! i = Some t -> (sum_list_with f (<[i := t']> l) + f t = sum_list_with f l + f t')%nat.
Proof.
  intros (l1 & l2 & -> & ->)%list_elem_of_split_length.
  rewrite insert_app_r_alt, Nat.sub_diag by lia. cbn. rewrite !sum_list_with_app. cbn. lia.
Qed.

(** Among themselves the goroutines make finitely many moves. *)
Lemma moves_terminate (s : system) : sn moves s.
Proof.
  remember (sum_list_with steps_left (threads s)) as n eqn:Hn. revert s Hn.
  induction n as [n IH] using lt_wf_ind. intros s ->. constructor. intros s' [i t w t' Hi Ht].
  refine (IH _ _ _ eq_refl). cbn. pose proof (sum_insert steps_left _ _ _ t' Hi).
  pose proof (thread_step_decreases _ _ _ _ Ht). lia.
Qed.

(** *** The mutex *)

Definition locked (t : thread) : bool :=
  match t with StartLocked _ | StopLocked _ => true | _ => false end.

(** [lifecycleMu] is held by one goroutine, or free and held by none. *)
Definition mutual_exclusion (s : system) : Prop :=
  sum_list_with (fun t => Nat.b2n (locked t)) (threads s) = Nat.b2n (lifecycleMu s).

Lemma sum_lookup (f : thread -> nat) l i t : l !! i = Some t -> (f t <= sum_list_with f l)%nat.
Proof.
  intros (l1 & l2 & -> & ->)%list_elem_of_split_length. rewrite sum_list_with_app. cbn. lia.
Qed.

Lemma thread_step_mutex w t w' t' :
  thread_step w t w' t' ->
  (Nat.b2n (lifecycleMu w') + Nat.b2n (locked t) = Nat.b2n (lifecycleMu w) + Nat.b2n (locked t'))%nat
  \/ locked t = true /\ locked t' = false /\ lifecycleMu w' = false.
Proof.
  intros [| | |ctx Hf|ctx a l _|ctx a e l _| |ctx received w1 Hr|x Hf|x a e l _]; cbn; auto; rewrite ?Hf; auto.
  left. by destruct (receive_same _ _ _ Hr) as (_ & _ & -> & _).
Qed.

Lemma moves_mutex (s s' : system) : mutual_exclusion s -> moves s s' -> mutual_exclusion s'.
Proof.
  unfold mutual_exclusion. intros Hm [i t w t' Hi Ht]. cbn.
  pose proof (sum_insert (fun t => Nat.b2n (locked t)) _ _ _ t' Hi) as Hsum.
  pose proof (sum_lookup (fun t => Nat.b2n (locked t)) _ _ _ Hi) as Hle. cbn in Hsum, Hle.
  destruct (thread_step_mutex _ _ _ _ Ht) as [?|(E1 & E2 & ->)]; [lia|].
  rewrite E1, E2 in *. cbn in *. destruct (lifecycleMu s); cbn in *; lia.
Qed.

Lemma reachable_mutex cfg v (s : system) : reachable cfg v s -> mutual_exclusion s.
Proof.
  induction 1 as [|s s' _ IH [t Ht|s1 [s2 Hm|w Ho]]]; [done| |by eapply moves_mutex|by destruct Ho].
  unfold mutual_exclusion in *. cbn. rewrite sum_list_with_app. cbn.
  destruct Ht as [->|[ctx ->]]; cbn; lia.
Qed.

(** The holder of the mutex is never blocked. *)
Lemma locked_moves w t : locked t = true -> exists w' t', thread_step w t w' t'.
Proof.
  destruct t; try discriminate; intros _.
  - destruct (start (app w) (calls w)) as [[a [e|]] l] eqn:E; do 2 eexists;
      [by eapply run_start_fails|by eapply run_starts].
  - destruct (Shutdown (app w) (calls w)) as [[a e] l] eqn:E. do 2 eexists. by eapply shuts_down.
Qed.

(** A goroutine that neither returned nor waits in [Run]'s select, for a context
    that has not ended and a server that serves. *)
Definition waits_for_end (w : shared) (t : thread) : Prop :=
  exists ctx, t = Serving ctx /\ ~ In ctx (ended w) /\ receive w = None.

Lemma thread_moves w t :
  lifecycleMu w = false -> (exists r, t = Returned r) \/ waits_for_end w t \/ exists w' t', thread_step w t w' t'.
Proof.
  intros Hf. destruct t as [[ctx|]|ctx|ctx|ctx|x|x|r]; [| | | | | | |by left; eauto]; right.
  - right. destruct (in_dec Nat.eq_dec ctx (ended w)) as [He|He]; do 2 eexists;
      [by apply run_already_cancelled|by apply run_goes_on].
  - right. do 2 eexists. apply run_without_context.
  - right. do 2 eexists. by apply start_locks.
  - right. by apply locked_moves.
  - destruct (in_dec Nat.eq_dec ctx (ended w)) as [He|He]; [right; do 2 eexists; by apply run_cancelled|].
    destruct (receive w) as [[received w']|] eqn:Er; [right; do 2 eexists; by eapply run_serve_ends|].
    left. by exists ctx.
  - right. do 2 eexists. by apply shutdown_locks.
  - right. by apply locked_moves.
Qed.

(** Where no goroutine can move, each has returned or waits for the end. *)
Lemma stuck_waits (s : system) i t :
  mutual_exclusion s -> nf moves s -> threads s !! i = Some t ->
  (exists r, t = Returned r) \/ waits_for_end s t.
Proof.
  intros Hm Hnf Hi.
  assert (Hstuck : forall j t0, threads s !! j = Some t0 -> ~ exists w' t', thread_step s t0 w' t').
  { intros j t0 Hj (w' & t' & Hst). apply Hnf. eexists. by apply (goroutine_moves _ j t0). }
  destruct (lifecycleMu s) eqn:Hf.
  - exfalso. assert (Hex : exists j t0, threads s !! j = Some t0 /\ locked t0 = true).
    { unfold mutual_exclusion in Hm. rewrite Hf in Hm. clear -Hm. revert Hm.
      induction (threads s) as [|t0 l IH]; [discriminate|]. cbn. destruct (locked t0) eqn:El.
      - intros _. by exists 0%nat, t0.
      - intros Hl. destruct (IH Hl) as (j & t1 & ? & ?). by exists (Datatypes.S j), t1. }
    destruct Hex as (j & t0 & Hj & Hl). by eapply Hstuck, locked_moves.
  - destruct (thread_moves s t Hf) as [?|[?|Hex]]; [by left|by right|by destruct (Hstuck i t Hi)].
Qed.

(** C36. Every call of [Run] and of [Shutdown] returns once it may.  Whatever
    order the goroutines run in, they make finitely many moves among themselves,
    and when none can move any more none is blocked on the lifecycle mutex: each
    has returned, or is in [Run]'s select with its context not ended and nothing
    to receive from the server.  So a call of [Shutdown] returns, and a [Run]
    whose context has ended or whose server has stopped does. *)
Theorem lifecycle_calls_return cfg hasValidator (s : system) :
  reachable cfg hasValidator s ->
  sn moves s
  /\ (forall s' i t, rtc moves s s' -> nf moves s' -> threads s' !! i = Some t ->
        (exists r, t = Returned r) \/ waits_for_end s' t).
Proof.
  intros Hm%reachable_mutex. split; [apply moves_terminate|]. intros s' i t Hr Hnf Hi.
  apply (stuck_waits s' i); [|done..]. clear Hnf Hi. induction Hr as [|s1 s2 s3 H12 _ IH]; [done|].
  by apply IH, (moves_mutex s1).
Qed.

(** * What a start did *)

Definition opening (e : event) : bool :=
  match e with NewLogger | NewPostgres _ | NewRedis _ | ValidateAssets | BuildRuntime => true | _ => false end.

(** A call of the start failed; one of its contexts ended. *)
Definition failed_opening (w : log) : Prop :=
  exists w2 ev e w1, w = w2 ++ (ev, Failed e) :: w1 /\ opening ev = true /\ answer w1 ev = Failed e.
Definition interrupted (w : log) : Prop :=
  exists w2 w1, w = w2 ++ w1 /\ (startup_Err w1 <> None \/ validation_Err w1 <> None).

Definition fails (r : startup) : Prop :=
  match r with ((None, Some _), w) => failed_opening w \/ interrupted w | _ => False end.

(** The calls of a start that succeeds. *)
Definition opened (cfg : Config.Config) : log :=
  snd (call BuildRuntime (snd (call ValidateAssets (snd (call (NewRedis cfg)
    (snd (call (NewPostgres (Config.newPostgresClientConfig cfg)) (snd (call NewLogger []))))))))).

Definition all_done (w : log) : Prop := Forall (fun c => error_of c.2 = None) w.

(** A success with these calls, or a failure. *)
Definition settled (cfg : Config.Config) (calls : log) (r : startup) : Prop :=
  match r with
  | ((Some a, None), w) => w = calls /\ all_done w /\ address (resources a) = Config.ServerAddress cfg
  | _ => fails r
  end.

Lemma runCleanups_extends l w es w' : runCleanups l w = (es, w') -> exists pre, w' = pre ++ w.
Proof.
  revert w es w'. induction l as [|[op [e|]] l IH]; intros w es w'; cbn.
  - intros [= _ <-]. by exists [].
  - destruct (runCleanups l _) as [es2 w2] eqn:E. intros [= _ <-]. destruct (IH _ _ _ E) as [pre ->].
    exists (pre ++ [(e, answer w e)]). by rewrite <- app_assoc.
  - destruct (runCleanups l w) as [es2 w2] eqn:E. intros [= _ <-]. by apply (IH _ _ _ E).
Qed.

Lemma abandon_fails e errs l w :
  failed_opening w \/ interrupted w -> fails (abandon (Some e :: errs) l w).
Proof.
  unfold abandon. destruct (runCleanups l w) as [es w'] eqn:E. cbn.
  destruct (runCleanups_extends _ _ _ _ E) as [pre ->]. intros [(w2 & ev & e' & w1 & -> & H2)|(w2 & w1 & -> & H2)]; [left|right].
  - exists (pre ++ w2), ev, e', w1. by rewrite <- app_assoc.
  - exists (pre ++ w2), w1. by rewrite <- app_assoc.
Qed.

Lemma context_ended c w e : startupContextError c = Some e -> c = startup_Err w \/ c = validation_Err w -> interrupted w.
Proof.
  intros He Hc. exists [], w. split; [done|]. destruct c as [?|]; [|discriminate]. destruct Hc as [<-|<-]; auto.
Qed.

Lemma abandon_settled cfg calls e errs l w :
  failed_opening w \/ interrupted w -> settled cfg calls (abandon (Some e :: errs) l w).
Proof.
  intros Hf. pose proof (abandon_fails e errs l w Hf) as Ha. unfold abandon in *.
  by destruct (runCleanups l w).
Qed.

Lemma failed_call e w x : opening e = true -> answer w e = Failed x -> failed_opening ((e, Failed x) :: w).
Proof. intros He Hx. by exists [], e, x, w. Qed.

(** An opening call: it fails, the context has ended, or the start goes on. *)
Ltac open_step :=
  match goal with
  | Hw : all_done ?w |- settled _ _ (let '(_, _) := call ?e ?w in _) =>
      let w1 := fresh "w" in let Hw1 := fresh "Hw" in
      change (call e w) with (answer w e, (e, answer w e) :: w);
      destruct (answer w e) as [|x|] eqn:?; cbn [error_of snd];
      [| apply abandon_settled; left; by apply failed_call |];
      match goal with |- context [startup_Err ((e, ?o) :: w)] =>
        assert (Hw1 : all_done ((e, o) :: w)) by (by constructor);
        destruct (startupContextError (startup_Err ((e, o) :: w))) eqn:?;
        [apply abandon_settled; right; eapply context_ended; [eassumption|by left]|]
      end
  end.

Lemma build_runtime_settled cfg w : all_done w -> settled cfg (snd (call BuildRuntime w)) (build_runtime cfg w).
Proof. intros Hw. unfold build_runtime. by open_step. Qed.

Lemma errors_join_two a b : errors_join [a; b] = None <-> a = None /\ b = None.
Proof. destruct a, b; cbn; intuition discriminate. Qed.

Lemma validate_assets_settled cfg w :
  all_done w -> settled cfg (snd (call BuildRuntime (snd (call ValidateAssets w)))) (validate_assets cfg true w).
Proof.
  intros Hw. unfold validate_assets.
  change (call ValidateAssets w) with (answer w ValidateAssets, (ValidateAssets, answer w ValidateAssets) :: w).
  set (w' := (ValidateAssets, answer w ValidateAssets) :: w). cbn [snd].
  destruct (errors_join _) eqn:Hj.
  - apply abandon_settled. destruct (answer w ValidateAssets) as [|x|] eqn:Hx; [|left|].
    2:{ subst w'. by apply failed_call. }
    all: right; destruct (startupContextError (validation_Err w')) eqn:Hv; [|discriminate];
      eapply context_ended; [exact Hv|by right].
  - apply errors_join_two in Hj as [He _].
    destruct (startupContextError (startup_Err w')) eqn:Hs.
    { apply abandon_settled. right. eapply context_ended; [exact Hs|by left]. }
    apply build_runtime_settled. by constructor.
Qed.

Lemma open_redis_settled cfg w :
  all_done w ->
  settled cfg (snd (call BuildRuntime (snd (call ValidateAssets (snd (call (NewRedis cfg) w))))))
    (open_redis cfg true w).
Proof.
  intros Hw. unfold open_redis. open_step; by apply validate_assets_settled.
Qed.

Lemma open_postgres_settled cfg w :
  all_done w ->
  settled cfg (snd (call BuildRuntime (snd (call ValidateAssets (snd (call (NewRedis cfg)
                 (snd (call (NewPostgres (Config.newPostgresClientConfig cfg)) w))))))))
    (open_postgres cfg true w).
Proof.
  intros Hw. unfold open_postgres. open_step; by apply open_redis_settled.
Qed.

Lemma initializeApp_settled cfg :
  is_ok (PasswordHash.newPasswordService (Config.newPasswordHasherConfig cfg)) = true ->
  settled cfg (opened cfg) (initializeApp true (Some cfg) true []).
Proof.
  intros Hhash. unfold initializeApp, opened. cbn [negb].
  destruct (startupContextError (startup_Err [])) eqn:Hc0.
  { right. eapply context_ended; [exact Hc0|by left]. }
  change (call NewLogger []) with (answer [] NewLogger, [(NewLogger, answer [] NewLogger)]).
  destruct (answer [] NewLogger) as [|x|] eqn:Hx; cbn [error_of snd].
  2:{ left. by apply failed_call. }
  all: match goal with |- context [startupContextError ?c] => destruct (startupContextError c) eqn:Hc1 end;
    [apply abandon_settled; right; eapply context_ended; [exact Hc1|by left]|];
    destruct (PasswordHash.newPasswordService _); [|discriminate]; apply open_postgres_settled; by repeat constructor.
Qed.

End Guarantees.

(** * A run, for the witness: the server's shutdown times out *)

Module LocalLifecycle.

#[export] Instance outside : Environment := {
  answer := fun _ e => match e with
                       | ServerShutdown => Failed (ESentinel ContextDeadlineExceeded)
                       | _ => Done
                       end;
  startup_Err := fun _ => None;
  validation_Err := fun _ => None;
}.

Definition initial : startup := initializeApp true (Some LocalConfig.config) true [].
Definition app0 : Application :=
  match initial with
  | ((Some a, _), _) => a
  | _ => newApplication {| address := ""; shutdownTimeout := 0; closeRedis := None; closePostgres := None;
                           syncLogger := None |}
  end.
Definition log0 : log := snd initial.

Definition running : (Application * option err) * log := start app0 log0.
Definition stopped : (Application * option err) * log := Shutdown (fst (fst running)) (snd running).
Definition world0 : shared := fresh app0 log0 [].
(** It serves; then its context ends. *)
Definition world1 : shared := unlock (lock world0) (fst (fst running)) (snd running).
Definition serving : system := {| state := world1; threads := [Serving 0] |}.
Definition world2 : shared :=
  {| app := app world1; calls := calls world1; lifecycleMu := false; ended := [0%nat];
     serveErrors := []; serveClosed := false |}.
Definition cancelled : system := {| state := world2; threads := [Serving 0] |}.
Definition final : system :=
  {| state := unlock (lock world2) (fst (fst stopped)) (snd stopped);
     threads := [Returned (exit_error ExitPlain (snd (fst stopped)))] |}.

Lemma starts : initial = ((Some app0, None), log0).
Proof. vm_compute. reflexivity. Qed.
Lemma runs : running = ((fst (fst running), None), snd running).
Proof. vm_compute. reflexivity. Qed.

Example final_log : map fst (calls final) =
  [SyncLogger; ClosePostgres; CloseRedis; CleanerShutdown; ServerClose; ServerShutdown; CancelWorkers;
   ServerStart ":8080"; CleanerStart; BuildRuntime; ValidateAssets; NewRedis LocalConfig.config;
   NewPostgres (Config.newPostgresClientConfig LocalConfig.config); NewLogger].
Proof. vm_compute. reflexivity. Qed.

(** The one goroutine moves. *)
Lemma one_moves cfg v w t w' t' :
  reachable cfg v {| state := w; threads := [t] |} -> thread_step w t w' t' ->
  reachable cfg v {| state := w'; threads := [t'] |}.
Proof.
  intros Hr Ht. eapply stepped; [exact Hr|]. apply goes_on, moving.
  by apply (goroutine_moves {| state := w; threads := [t] |} 0 t w' t').
Qed.

Lemma cancelled_reachable : reachable (Some LocalConfig.config) true cancelled.
Proof.
  apply (stepped _ _ serving).
  2:{ apply goes_on, (outside_acts serving world2), context_ends. }
  apply (one_moves _ _ (lock world0) (StartLocked 0)).
  2:{ apply run_starts. cbn [lock world0 fresh app calls]. fold running. apply runs. }
  apply (one_moves _ _ world0 (Starting 0)); [|by apply start_locks].
  apply (one_moves _ _ world0 (RunCalled (Some 0%nat))).
  2:{ apply run_goes_on. intros []. }
  apply (stepped _ _ {| state := world0; threads := [] |}).
  2:{ apply (new_call {| state := world0; threads := [] |} (RunCalled (Some 0%nat))). right. by exists (Some 0%nat). }
  apply initialized. apply starts.
Qed.

Lemma final_reachable : reachable (Some LocalConfig.config) true final.
Proof.
  apply (one_moves _ _ (lock world2) (StopLocked ExitPlain)).
  2:{ apply shuts_down. cbn [lock world2 world1 unlock app calls]. fold stopped. by destruct stopped as [[? ?] ?]. }
  apply (one_moves _ _ world2 (Stopping ExitPlain)); [|by apply shutdown_locks].
  eapply one_moves; [exact cancelled_reachable|]. apply run_cancelled. by left.
Qed.

End LocalLifecycle.

Lemma lifecycle_releases_once_witness :
  held (calls LocalLifecycle.final) = Some (owned (app LocalLifecycle.final)).
Proof.
  exact (proj1 (lifecycle_releases_once (Some LocalConfig.config) true LocalLifecycle.final
                  LocalLifecycle.final_reachable)).
Defined.

(** A [Run] that was cancelled while it served returns. *)
Lemma lifecycle_calls_return_witness :
  sn (moves (H := LocalLifecycle.outside)) LocalLifecycle.cancelled
  /\ (forall (s' : system) (i : nat) t, rtc (moves (H := LocalLifecycle.outside)) LocalLifecycle.cancelled s' ->
        nf (moves (H := LocalLifecycle.outside)) s' -> threads s' !! i = Some t ->
        (exists r, t = Returned r) \/ waits_for_end s' t).
Proof.
  exact (lifecycle_calls_return (Some LocalConfig.config) true LocalLifecycle.cancelled
           LocalLifecycle.cancelled_reachable).
Defined.
