(* ===== verification/SessionCleaner.v ===== *)
(** internal/cron/session_cleaner.go: the worker that deletes orphan sessions
    when its ticker fires, and the calls of [Start] and [Shutdown], as steps of
    goroutines over the shared cleaner; the worker stops after a cancellation,
    and uses nothing once [Shutdown] has returned. *)
From S2P Require Export Domain.

Module SessionCleaner.

(** The worker's goroutine: spawned, at its [select], inside the repository's
    call (which returns), or past its deferred [close(done)]. *)
Inductive worker := NotStarted | Spawned | Selecting | Cleaning | Exited.

(** A call of [Shutdown]: past the mutex, having read [cancel] or nil; waiting
    on [done]; returned. *)
Inductive shutdown := ShutdownRead (found : bool) | ShutdownWaiting | ShutdownReturned (found : bool).

Section Cleaner.
Context {S : Type} `{SessionRepository S}.

Record t := {
  started : bool;
  goroutine : worker;
  cancelled : bool;              (** the worker's context, by its parent or by [cancel] *)
  ticker : bool;                 (** a tick is waiting in the ticker's channel *)
  shutdowns : list shutdown;
  world : S;                     (** what the repository works on *)
  repository_calls : nat;
  logged : list string;
}.

(** [NewSessionCleaner] *)
Definition interval : Z := 24 * 3600 * 1000000000.
Definition NewSessionCleaner (s : S) : t :=
  {| started := false; goroutine := NotStarted; cancelled := false; ticker := false; shutdowns := [];
     world := s; repository_calls := 0; logged := [] |}.

(** [Start]; the context of the worker is derived from the one given. *)
Definition Start (ctxGiven ctxCancelled : bool) (c : t) : t * option err :=
  if negb ctxGiven then (c, Some (ENew "session cleaner context is required"))
  else if started c then (c, Some (ESentinel ErrSessionCleanerStarted))
  else ({| started := true; goroutine := Spawned; cancelled := ctxCancelled; ticker := false;
           shutdowns := shutdowns c; world := world c; repository_calls := repository_calls c;
           logged := logged c |}, None).

Definition at_loop (c : t) : t :=
  {| started := started c; goroutine := Selecting; cancelled := cancelled c; ticker := false;
     shutdowns := shutdowns c; world := world c; repository_calls := repository_calls c;
     logged := "Session cleaner cron started" :: logged c |}.

Definition at_select (c : t) : t :=
  {| started := started c; goroutine := Cleaning; cancelled := cancelled c; ticker := false;
     shutdowns := shutdowns c; world := world c; repository_calls := Datatypes.S (repository_calls c);
     logged := logged c |}.

(** The return of [DeleteOrphanSessions] and the test of its error. *)
Definition after_clean (c : t) : t :=
  let '(r, s') := sr_DeleteOrphanSessions (world c) in
  {| started := started c; goroutine := Selecting; cancelled := cancelled c; ticker := ticker c;
     shutdowns := shutdowns c; world := s'; repository_calls := repository_calls c;
     logged := match r with
               | Err _ => if cancelled c then logged c else "Failed to clean orphan sessions" :: logged c
               | Ok _ => logged c
               end |}.

Definition exited (c : t) : t :=
  {| started := started c; goroutine := Exited; cancelled := cancelled c; ticker := ticker c;
     shutdowns := shutdowns c; world := world c; repository_calls := repository_calls c;
     logged := logged c |}.

Definition ticked (c : t) : t :=
  {| started := started c; goroutine := goroutine c; cancelled := cancelled c; ticker := true;
     shutdowns := shutdowns c; world := world c; repository_calls := repository_calls c;
     logged := logged c |}.

Definition cancel (c : t) : t :=
  {| started := started c; goroutine := goroutine c; cancelled := true; ticker := ticker c;
     shutdowns := shutdowns c; world := world c; repository_calls := repository_calls c;
     logged := logged c |}.

Definition set_world (s : S) (c : t) : t :=
  {| started := started c; goroutine := goroutine c; cancelled := cancelled c; ticker := ticker c;
     shutdowns := shutdowns c; world := s; repository_calls := repository_calls c; logged := logged c |}.

Definition set_shutdowns (l : list shutdown) (c : t) : t :=
  {| started := started c; goroutine := goroutine c; cancelled := cancelled c; ticker := ticker c;
     shutdowns := l; world := world c; repository_calls := repository_calls c; logged := logged c |}.

(** Whose step it is. *)
Inductive label := Worker | Tick | Other.

Inductive step : label -> t -> t -> Prop :=
  | worker_begins c : goroutine c = Spawned -> step Worker c (at_loop c)
  (** the loop: Go's [select] chooses among the ready cases *)
  | select_done c : goroutine c = Selecting -> cancelled c = true -> step Worker c (exited c)
  | select_tick c : goroutine c = Selecting -> ticker c = true -> step Worker c (at_select c)
  | clean_returns c : goroutine c = Cleaning -> step Worker c (after_clean c)
  (** the ticker's channel holds one tick *)
  | ticker_fires c : goroutine c = Selecting \/ goroutine c = Cleaning -> step Tick c (ticked c)
  (** the parent context, the other processes *)
  | parent_cancelled c : started c = true -> step Other c (cancel c)
  | world_moves s c : step Other c (set_world s c)
  (** the calls *)
  | start_called given gone c : step Other c (fst (Start given gone c))
  | shutdown_called c :
      step Other c (set_shutdowns (ShutdownRead (started c) :: shutdowns c) c)
  | shutdown_without_worker before after c :
      shutdowns c = before ++ ShutdownRead false :: after ->
      step Other c (set_shutdowns (before ++ ShutdownReturned false :: after) c)
  | shutdown_cancels before after c :
      shutdowns c = before ++ ShutdownRead true :: after ->
      step Other c (cancel (set_shutdowns (before ++ ShutdownWaiting :: after) c))
  | shutdown_returns before after c :
      shutdowns c = before ++ ShutdownWaiting :: after -> goroutine c = Exited ->
      step Other c (set_shutdowns (before ++ ShutdownReturned true :: after) c).

Inductive run : list label -> t -> t -> Prop :=
  | run_nil c : run [] c c
  | run_cons l ls c c' c'' : step l c c' -> run ls c' c'' -> run (l :: ls) c c''.

(** * The worker stops *)

Definition is_worker (l : label) : bool := match l with Worker => true | _ => false end.
Definition is_tick (l : label) : bool := match l with Tick => true | _ => false end.
Definition count (f : label -> bool) (ls : list label) : nat := List.length (List.filter f ls).

(** The steps the worker has left once its context is cancelled, if no other
    tick arrives. *)
Definition steps_left (c : t) : nat :=
  match goroutine c with
  | NotStarted => 1
  | Spawned => 2
  | Selecting => if ticker c then 3 else 1
  | Cleaning => if ticker c then 4 else 2
  | Exited => 0
  end.

(** A cancelled context stays cancelled: the cleaner is started once. *)
Lemma step_cancelled l c c' : started c = true -> cancelled c = true -> step l c c' ->
  started c' = true /\ cancelled c' = true.
Proof.
  intros Hs Hc Hst. destruct Hst; cbn; try (by split).
  - unfold after_clean. by destruct (sr_DeleteOrphanSessions (world c)).
  - unfold Start. destruct given; cbn; [|by split]. by rewrite Hs.
Qed.

Lemma step_measure l c c' : started c = true -> cancelled c = true -> step l c c' ->
  (steps_left c' + (if is_worker l then 1 else 0) <= steps_left c + (if is_tick l then 2 else 0))%nat.
Proof.
  intros Hs Hc Hst.
  destruct Hst as [c Hg|c Hg Hx|c Hg Ht|c Hg|c Hg|c Hx|s c|given gone c|c|before after c Hsd|before after c Hsd
                  |before after c Hsd Hg]; unfold steps_left; cbn.
  - rewrite Hg. lia.
  - rewrite Hg. destruct (ticker c); lia.
  - rewrite Hg, Ht. lia.
  - unfold after_clean. rewrite Hg. destruct (sr_DeleteOrphanSessions (world c)). cbn. destruct (ticker c); lia.
  - destruct Hg as [-> | ->]; destruct (ticker c); lia.
  - lia.
  - lia.
  - unfold Start. destruct given; cbn; [|lia]. rewrite Hs. cbn. lia.
  - lia.
  - lia.
  - lia.
  - lia.
Qed.

Lemma worker_can_step c : cancelled c = true -> goroutine c <> NotStarted -> goroutine c <> Exited ->
  exists c', step Worker c c'.
Proof.
  intros Hc Hn Hx. destruct (goroutine c) eqn:Hg; try done; eexists;
    [by apply worker_begins|by apply select_done|by apply clean_returns].
Qed.

(** C34. The worker stops once its context is cancelled: in any run from there,
    among the ticks, the other goroutines and the other processes, it makes at
    most two steps for each tick that arrives and four more, and until it has
    exited it always has one to make; so it exits, and does not wait for the
    next tick. *)
Theorem worker_stops_when_cancelled ls c c' :
  started c = true -> cancelled c = true -> run ls c c' ->
  (count is_worker ls <= 2 * count is_tick ls + 4)%nat
  /\ (goroutine c' <> NotStarted -> goroutine c' <> Exited -> exists c'', step Worker c' c'').
Proof.
  intros Hs Hc Hrun.
  enough ((steps_left c' + count is_worker ls <= steps_left c + 2 * count is_tick ls)%nat
          /\ cancelled c' = true) as [Hm Hc'].
  { split; [|by apply worker_can_step].
    assert (steps_left c <= 4)%nat by (unfold steps_left; destruct (goroutine c), (ticker c); lia). lia. }
  induction Hrun as [c|l ls c c1 c2 Hst Hrun IH]; [split; [cbn; lia|done]|].
  destruct (step_cancelled l c c1 Hs Hc Hst) as [Hs1 Hc1].
  destruct (IH Hs1 Hc1) as [Hm Hc2]. split; [|done].
  pose proof (step_measure l c c1 Hs Hc Hst) as Hm1. unfold count in *. destruct l; cbn in *; lia.
Qed.

(** * Nothing after Shutdown *)

(** A [Shutdown] that found a worker and returned saw it exit; a worker that
    exited belongs to a started cleaner. *)
Definition sound (c : t) : Prop :=
  (In (ShutdownReturned true) (shutdowns c) -> goroutine c = Exited)
  /\ (goroutine c <> NotStarted -> started c = true).

Lemma replace_In {A} (x y z : A) before after :
  In x (before ++ y :: after) -> x = y \/ In x (before ++ z :: after).
Proof. rewrite !in_app_iff. cbn. naive_solver. Qed.

Lemma exited_stays l c c' : sound c -> goroutine c = Exited -> step l c c' ->
  goroutine c' = Exited /\ repository_calls c' = repository_calls c /\ logged c' = logged c.
Proof.
  intros [_ Hst] Hg Hstep. destruct Hstep; try congruence; try done; cbn; try (destruct_or!; congruence).
  unfold Start. destruct given; cbn; [|done]. rewrite Hst by congruence. done.
Qed.

Lemma step_sound l c c' : sound c -> step l c c' -> sound c'.
Proof.
  intros [Hr Hs] Hst.
  assert (Hne : goroutine c <> Exited -> ~ In (ShutdownReturned true) (shutdowns c)) by tauto.
  destruct Hst as [c Hg|c Hg Hx|c Hg Ht|c Hg|c Hg|c Hx|s c|given gone c|c|before after c Hsd|before after c Hsd
                  |before after c Hsd Hg]; unfold sound; cbn; try (by split).
  - split; [|intros _; apply Hs; congruence]. intros Hin. destruct Hne; [congruence|done].
  - split; [done|]. intros _. apply Hs. congruence.
  - split; [|intros _; apply Hs; congruence]. intros Hin. destruct Hne; [congruence|done].
  - unfold after_clean. destruct (sr_DeleteOrphanSessions (world c)). cbn.
    split; [|intros _; apply Hs; congruence]. intros Hin. destruct Hne; [congruence|done].
  - unfold Start. destruct given; cbn; [|done]. destruct (started c) eqn:Hst; [done|]. cbn.
    split; [|done]. intros Hin%Hr. discriminate Hs. congruence.
  - split; [|done]. intros [|]; [discriminate|by apply Hr].
  - split; [|done]. intros Hin. apply (replace_In _ _ (ShutdownRead false)) in Hin as [|Hin]; [discriminate|].
    apply Hr. by rewrite Hsd.
  - split; [|done]. intros Hin. apply (replace_In _ _ (ShutdownRead true)) in Hin as [|Hin]; [discriminate|].
    apply Hr. by rewrite Hsd.
Qed.

Lemma run_sound ls c c' : sound c -> run ls c c' -> sound c'.
Proof. intros Hs Hrun. induction Hrun; [done|]. eauto using step_sound. Qed.

(** C35. Once a [Shutdown] that found the worker has returned, the worker has
    exited, and whatever runs afterwards it neither calls the repository nor
    logs again: the dependencies may be closed. *)
Theorem shutdown_quiesces s ls c ls' c' :
  run ls (NewSessionCleaner s) c -> In (ShutdownReturned true) (shutdowns c) -> run ls' c c' ->
  goroutine c = Exited
  /\ repository_calls c' = repository_calls c /\ logged c' = logged c.
Proof.
  intros Hrun Hin Hrun'.
  assert (Hs : sound c) by (eapply run_sound; [|exact Hrun]; split; [done|]; cbn; congruence).
  assert (Hg : goroutine c = Exited) by (by apply Hs). split; [done|]. clear Hrun Hin.
  induction Hrun' as [c|l ls' c c1 c2 Hst _ IH]; [done|].
  destruct (exited_stays l c c1 Hs Hg Hst) as (Hg1 & <- & <-). apply IH; [by eapply step_sound|done].
Qed.

End Cleaner.
Arguments t : clear implicits.

(** * A run, for the witnesses: a cleaning that fails, then a shutdown *)

#[export] Instance failing_repository : SessionRepository nat := {
  sr_Create := fun _ => fail ErrInternal;
  sr_FindByJTI := fun _ _ _ _ => fail ErrInternal;
  sr_ListByUser := fun _ _ _ => fail ErrInternal;
  sr_Delete := fun _ => fail ErrInternal;
  sr_DeleteByUser := fun _ _ => fail ErrInternal;
  sr_DeleteAllByUser := fun _ => fail ErrInternal;
  sr_BlockAndDeleteAllByUser := fun _ => fail ErrInternal;
  sr_UnblockUser := fun _ => fail ErrInternal;
  sr_DeleteOthersByUser := fun _ _ => fail ErrInternal;
  sr_RotateJTI := fun _ _ _ _ _ _ _ _ _ _ => fail ErrInternal;
  sr_DeleteOrphanSessions := fun n => (Err (ESentinel ErrInternal), Datatypes.S n);
}.

Definition cleaning : t nat := at_select (ticked (at_loop (fst (Start true false (NewSessionCleaner 0%nat))))).
Definition shut_down : t nat :=
  let c := after_clean cleaning in
  let c := exited (cancel (set_shutdowns [ShutdownWaiting] (set_shutdowns [ShutdownRead true] c))) in
  set_shutdowns [ShutdownReturned true] c.

Lemma cleaning_run : run [Other; Worker; Tick; Worker] (NewSessionCleaner 0%nat) cleaning.
Proof.
  eapply run_cons; [apply (start_called true false)|].
  eapply run_cons; [by apply worker_begins|].
  eapply run_cons; [apply ticker_fires; by left|].
  eapply run_cons; [by apply select_tick|]. apply run_nil.
Qed.

Lemma shutdown_run : run [Worker; Other; Other; Worker; Other] cleaning shut_down.
Proof.
  eapply run_cons; [by apply clean_returns|].
  eapply run_cons; [apply shutdown_called|].
  eapply run_cons; [by apply (shutdown_cancels [] [])|].
  eapply run_cons; [by apply select_done|].
  eapply run_cons; [by apply (shutdown_returns [] [])|]. apply run_nil.
Qed.

Lemma run_app {S} `{SessionRepository S} ls ls' (c c' c'' : t S) :
  run ls c c' -> run ls' c' c'' -> run (ls ++ ls') c c''.
Proof. induction 1; [done|]. intros. econstructor; eauto. Qed.

Lemma cancelled_run : run [Worker; Worker] (cancel cleaning) (exited (after_clean (cancel cleaning))).
Proof.
  eapply run_cons; [by apply clean_returns|].
  eapply run_cons; [by apply select_done|]. apply run_nil.
Qed.

Lemma worker_stops_when_cancelled_witness :
  (count is_worker [Worker; Worker] <= 2 * count is_tick [Worker; Worker] + 4)%nat.
Proof.
  exact (proj1 (worker_stops_when_cancelled [Worker; Worker] (cancel cleaning)
                  (exited (after_clean (cancel cleaning))) eq_refl eq_refl cancelled_run)).
Defined.

Lemma shutdown_quiesces_witness : goroutine shut_down = Exited.
Proof.
  exact (proj1 (shutdown_quiesces 0%nat _ shut_down [] shut_down
                  (run_app _ _ _ _ _ cleaning_run shutdown_run) (or_introl eq_refl) (run_nil shut_down))).
Defined.

End SessionCleaner.
