(* ===== verification/Server.v ===== *)
(** internal/delivery/http/server.go and cmd/app/readiness.go: the construction
    of the HTTP server, the readiness probe, and the server's start, shutdown
    and close as steps beside the goroutine that serves. *)
From S2P Require Export HttpGuarantees Config.
Import Response Dto Middleware.

(** What the probe reads: the server's flag, the request's context, and the
    two dependencies; a probe that was not given is [None]. *)
Class ReadinessPorts (S : Type) := {
  accepting : S -> bool;
  probe_Err : S -> option sentinel;
  postgres_probe : option (M S unit);
  redis_probe : option (M S unit);
}.

Module Server.

Section Readiness.
Context {C S : Type} `{GinContext C} `{ReadinessPorts S}.

(** [if err := probe(ctx); err != nil { return fmt.Errorf(msg, err) }] *)
Definition probe (msg : string) (p : M S unit) : M S unit :=
  fun s => match p s with
           | (Ok tt, s') => (Ok tt, s')
           | (Err e, s') => (Err (wrap1 msg e), s')
           end.

Definition CheckReadiness : M S unit :=
  fun s =>
    match probe_Err s with
    | Some e => (Err (wrap1 "runtime readiness canceled before dependency checks" e), s)
    | None =>
        match postgres_probe, redis_probe with
        | Some postgres, Some redis =>
            (do! probe "check PostgreSQL readiness" postgres in probe "check Redis readiness" redis) s
        | _, _ => (Err (ENew "runtime readiness dependency probes are incomplete"), s)
        end
    end.

Definition readinessStatusReady : string := "ready".
Definition readinessStatusNotReady : string := "not_ready".

(** The atomic flag is read once. *)
Definition read_accepting : M (C * S) bool := fun st => (Ok (accepting st.2), st).

Definition readiness : M (C * S) unit :=
  do! Header "Cache-Control" "no-store" in
  let! accepts := read_accepting in
  if negb accepts then JSON StatusServiceUnavailable (StatusWord readinessStatusNotReady)
  else
    let! r := call CheckReadiness in
    match r with
    | Err _ => JSON StatusServiceUnavailable (StatusWord readinessStatusNotReady)
    | Ok _ => JSON StatusOK (StatusWord readinessStatusReady)
    end.

(** The probe's answer, by the flag and the two dependencies alone. *)
Definition ready (s : S) : bool := accepting s && is_ok (CheckReadiness s).1.

(** The readiness probe tells the truth and nothing else: it answers once,
    with 200 "ready" exactly when the server accepts connections, the request
    is not cancelled, and PostgreSQL and then Redis answered, and with 503
    "not_ready" and no reason otherwise; the answer is never cached, and a
    server that does not accept connections asks no dependency. *)
Theorem readiness_tells_the_truth {GL : GinLaws C} c s :
  c_Written c = [] ->
  exists c' s', readiness (c, s) = (Ok tt, (c', s'))
    /\ c_Written c' = [StatusWord (if ready s then "ready" else "not_ready")]
    /\ c_Status c' = (if ready s then 200 else 503)
    /\ s' = (if accepting s then (CheckReadiness s).2 else s)
    /\ (ready s = true <->
        accepting s = true /\ probe_Err s = None
        /\ exists postgres redis s1 s2, postgres_probe = Some postgres /\ redis_probe = Some redis
             /\ postgres s = (Ok tt, s1) /\ redis s1 = (Ok tt, s2)).
Proof.
  intros Hw. unfold readiness, Header. rewrite bind_update. unfold bind at 1, read_accepting.
  set (c1 := c_SetResponseHeader _ c). assert (Hw1 : c_Written c1 = []) by (subst c1; by autorewrite with gin).
  assert (Hdoc : forall st d s', exists c' s1, JSON (S := S) st d (c1, s') = (Ok tt, (c', s1)) /\ c_Written c' = [d]
                   /\ c_Status c' = st /\ s1 = s').
  { intros st d s'. exists (c_JSON st d c1), s'. split; [done|]. rewrite written_JSON, Hw1, status_JSON; done. }
  assert (Hiff : ready s = true <->
        accepting s = true /\ probe_Err s = None
        /\ exists postgres redis s1 s2, postgres_probe = Some postgres /\ redis_probe = Some redis
             /\ postgres s = (Ok tt, s1) /\ redis s1 = (Ok tt, s2)).
  { unfold ready, CheckReadiness. rewrite andb_true_iff. apply and_iff_compat_l.
    destruct (probe_Err s); [split; [done|by intros [? _]]|].
    destruct postgres_probe as [pg|]; [|split; [done|by intros (_ & ? & ? & ? & ? & ? & _)]].
    destruct redis_probe as [rd|]; [|split; [done|by intros (_ & ? & ? & ? & ? & _ & ? & _)]].
    unfold bind, probe. destruct (pg s) as [[[]|e] s1] eqn:Hpg.
    2:{ split; [done|]. intros (_ & ? & ? & ? & ? & [= <-] & _ & Hx & _). congruence. }
    destruct (rd s1) as [[[]|e] s2] eqn:Hrd; cbn.
    - split; [|done]. intros _. split; [done|]. by exists pg, rd, s1, s2.
    - split; [done|]. intros (_ & ? & ? & ? & ? & [= <-] & [= <-] & Hx & Hy).
      rewrite Hpg in Hx. injection Hx as <-. congruence. }
  cbn [snd]. destruct (accepting s) eqn:Ha; cbn [negb].
  - destruct (CheckReadiness s) as [r s1] eqn:Hr. rewrite (bind_call _ _ _ _ _ _ Hr). cbn [snd].
    assert (Hready : ready s = is_ok r) by (unfold ready; by rewrite Ha, Hr).
    rewrite Hready in *. destruct r as [[]|e]; cbn [is_ok] in *.
    + destruct (Hdoc StatusOK (StatusWord readinessStatusReady) s1) as (c' & s' & Hj & ? & ? & ?).
      by exists c', s'.
    + destruct (Hdoc StatusServiceUnavailable (StatusWord readinessStatusNotReady) s1) as (c' & s' & Hj & ? & ? & ?).
      by exists c', s'.
  - assert (Hready : ready s = false) by (unfold ready; by rewrite Ha). rewrite Hready in *.
    destruct (Hdoc StatusServiceUnavailable (StatusWord readinessStatusNotReady) s) as (c' & s' & Hj & ? & ? & ?).
    by exists c', s'.
Qed.

(** It is an answering endpoint, as the server's routes require. *)
Lemma readiness_answers {GL : GinLaws C} : answers readiness.
Proof.
  intros c s. unfold readiness, Header. rewrite bind_update. unfold bind at 1, read_accepting. cbn [snd].
  assert (Hj : forall st d s', exists c' s1 d', JSON (S := S) st d
              (c_SetResponseHeader (header_Set (c_ResponseHeader c) "Cache-Control" "no-store") c, s')
            = (Ok tt, (c', s1)) /\ c_Written c' = c_Written c ++ [d'] /\ same_request c c').
  { intros st d s'. eexists _, s', d. split; [reflexivity|]. split; [by autorewrite with gin|].
    eapply transitivity; [apply request_header|apply request_JSON]. }
  destruct (accepting s); cbn [negb]; [|apply Hj].
  destruct (CheckReadiness s) as [[[]|e] s1] eqn:Hr; rewrite (bind_call _ _ _ _ _ _ Hr); apply Hj.
Qed.

End Readiness.

(** * NewServer *)

Section Construction.
Context {C S : Type} `{GinContext C} `{GinRouter C S} {GR : GinRouterLaws C S} `{TextLibraries}.
Context (problemLocalizer : localizer).
Context `{AuthenticationUseCase S} `{AuthorizationUseCase S} `{SessionUseCase S} `{UserUseCase S}
  `{PermissionUseCase S} `{JWTService S} `{RateLimiter S} `{Environment S} `{UUIDParser} `{HTTPMetrics S}
  `{ReadinessPorts S}.
(** The metrics endpoint, [SetTrustedProxies], and [gin.New] followed by [Use]. *)
Context (metricsExport : M (C * S) unit) (SetTrustedProxies : list string -> res unit)
  (gin_New_Use : list (HandlerFunc C S) -> RouterGroup).

(** [hasChecker]: a readiness checker was given. *)
Definition NewServer (config : Config.ServerConfig) (hasChecker : bool) (rlConfig : RateLimitConfig)
    : res (Routes.setup C S) :=
  letr _ := Config.server_validate config in
  if negb hasChecker then Err (ENew "HTTP readiness checker is required")
  else
    letr _ := Config.newGinEngine SetTrustedProxies (Config.sc_GinMode config) (Config.sc_TrustedProxies config) in
    Routes.setupRoutes problemLocalizer metricsExport readiness rlConfig
      (gin_New_Use (global_handlers problemLocalizer (Config.sc_MaxRequestBodyBytes config))).

(** A validated configuration builds a server: the routes of the process are
    those of the registry, behind the global handlers. *)
Lemma NewServer_validated `{Unicode} `{NetLib} (c c' : Config.Config) :
  (forall hs, gr_BasePath (gin_New_Use hs) = "/" /\ gr_Handlers (gin_New_Use hs) = hs) ->
  SetTrustedProxies (Config.HTTPTrustedProxies c') = Ok tt ->
  Config.validate c = Ok c' ->
  exists r routes,
    NewServer (Config.newHTTPServerConfig c') true (Config.newRateLimitConfig c') = Ok (r, routes)
    /\ Forall2 (Routes.enforced problemLocalizer metricsExport readiness (Config.newRateLimitConfig c')
                  (global_handlers problemLocalizer (Config.HTTPMaxBodyBytes c')))
         (Routes.Entries r) routes.
Proof.
  intros Hnew Hproxies Hv. apply Config.validate_Ok in Hv as (ps & Hi & _ & Hp & _ & ->).
  destruct (Config.server_accepts c ps Hi) as [Hserver _].
  pose proof (Config.mode_accepted (Config.set_proxies c ps) SetTrustedProxies Hp Hproxies) as Hmode.
  unfold NewServer. rewrite Hserver. cbn [res_bind negb].
  change (Config.newGinEngine SetTrustedProxies _ _) with
    (Config.newGinEngine SetTrustedProxies (Config.GinMode (Config.set_proxies c ps))
       (Config.HTTPTrustedProxies (Config.set_proxies c ps))).
  rewrite Hmode. cbn [res_bind].
  set (hs := global_handlers _ _). destruct (Hnew hs) as [Hroot Hhs].
  destruct (Routes.setup_enforced problemLocalizer metricsExport readiness
              (Config.newRateLimitConfig (Config.set_proxies c ps)) (gin_New_Use hs) Hroot)
    as (r & routes & keys & Hrun & [_ _ He _]).
  exists r, routes. split; [exact Hrun|]. rewrite Hhs in He. exact He.
Qed.

End Construction.

(** * Start, Shutdown and Close *)

(** A goroutine that serves: before and after its listener's first [Accept],
    which closes [ready]; after [Serve] returned and the result,
    [ErrServerClosed] made nil, went into the channel; after its deferred reset
    of the flag.  The channel keeps the result. *)
Inductive serving :=
  | Listening
  | Accepting
  | Served (accepted : bool) (result : option err)
  | Finished (accepted : bool) (result : option err).

Definition is_ready (g : serving) : bool :=
  match g with Listening => false | Accepting => true | Served a _ | Finished a _ => a end.
Definition received (g : serving) : option (option err) :=
  match g with Served _ r | Finished _ r => Some r | _ => None end.
Definition ended (g : serving) : bool := match g with Finished _ _ => true | _ => false end.

(** A call of [Start] under the lifecycle mutex, waiting for its goroutine (the
    last). *)
Record server := {
  started : bool;
  flag : bool;                   (** [accepting] *)
  waiting : bool;
  goroutines : list serving;
  start_results : list (option err);
}.

Definition new_server : server :=
  {| started := false; flag := false; waiting := false; goroutines := []; start_results := [] |}.

Definition returning (r : option err) (s : server) : server :=
  {| started := started s; flag := flag s; waiting := false; goroutines := goroutines s;
     start_results := start_results s ++ [r] |}.
Definition set_flag (b : bool) (s : server) : server :=
  {| started := started s; flag := b; waiting := waiting s; goroutines := goroutines s;
     start_results := start_results s |}.
Definition set_goroutines (l : list serving) (s : server) : server :=
  {| started := started s; flag := flag s; waiting := waiting s; goroutines := l;
     start_results := start_results s |}.

(** [Start] up to its [select]; [listened] is the result of [net.Listen]. *)
Definition Start (addr : string) (listened : res unit) (s : server) : server :=
  if started s then returning (Some (ENew "HTTP server already started")) s
  else
    match listened with
    | Err e => returning (Some (wrap1 ("listen on " +:+ addr) e)) s
    | Ok _ => {| started := started s; flag := true; waiting := true;
                 goroutines := goroutines s ++ [Listening]; start_results := start_results s |}
    end.

(** The two cases of its [select]. *)
Definition start_ready (s : server) : server :=
  {| started := true; flag := flag s; waiting := false; goroutines := goroutines s;
     start_results := start_results s ++ [None] |}.
Definition start_failed (serveErr : option err) (s : server) : server :=
  returning (Some (wrap1 "start HTTP server"
    (default (ENew "HTTP server stopped before accepting connections") serveErr))) s.

(** The error of [Serve]. *)
Definition serve_result (closed : bool) (e : err) : option err := if closed then None else Some e.

(** [Shutdown] and [Close] clear the flag and return the library's result, with
    [ErrServerClosed] made nil. *)
Definition stop (s : server) : server := set_flag false s.
Definition stop_result (closed : bool) (r : option err) : option err := if closed then None else r.

Inductive server_step : server -> server -> Prop :=
  (** the mutex: no other [Start] is waiting *)
  | start_called addr listened s : waiting s = false -> server_step s (Start addr listened s)
  | first_accept before after s : goroutines s = before ++ Listening :: after ->
      server_step s (set_goroutines (before ++ Accepting :: after) s)
  | serve_returns before g after closed e s :
      goroutines s = before ++ g :: after -> g = Listening \/ g = Accepting ->
      server_step s (set_goroutines (before ++ Served (is_ready g) (serve_result closed e) :: after) s)
  | goroutine_ends before a r after s : goroutines s = before ++ Served a r :: after ->
      server_step s (set_flag false (set_goroutines (before ++ Finished a r :: after) s))
  | select_ready before g s :
      waiting s = true -> goroutines s = before ++ [g] -> is_ready g = true -> server_step s (start_ready s)
  | select_failed before g r s :
      waiting s = true -> goroutines s = before ++ [g] -> received g = Some r ->
      server_step s (start_failed r s)
  | stopped s : server_step s (stop s).

Inductive server_run : server -> server -> Prop :=
  | server_nil s : server_run s s
  | server_more s s' s'' : server_step s s' -> server_run s' s'' -> server_run s s''.

(** Once a start has succeeded and the server has been stopped, no probe ever
    finds it accepting again: a second [Start] is refused before the flag. *)
Lemma stopped_stays_stopped s s' :
  started s = true -> flag s = false -> server_run s s' -> started s' = true /\ flag s' = false.
Proof.
  intros Hs Hf Hrun. induction Hrun as [s|s s' s'' Hst _ IH]; [done|]. apply IH.
  - destruct Hst; cbn; try done. unfold Start. by rewrite Hs.
  - destruct Hst; cbn; try done. unfold Start. by rewrite Hs.
Qed.

(** A flag that is set belongs to a goroutine that has not ended: when the last
    one has, the probe answers that the server is not ready. *)
Definition live (s : server) : Prop :=
  flag s = true -> exists g, In g (goroutines s) /\ ended g = false.

Lemma In_replace {A} (P : A -> Prop) (y z : A) before after :
  P z -> (exists g, In g (before ++ y :: after) /\ P g) -> exists g, In g (before ++ z :: after) /\ P g.
Proof.
  intros Hz (g & Hin & Hg). apply in_app_iff in Hin as [Hin|[<-|Hin]].
  - exists g. rewrite in_app_iff. auto.
  - exists z. rewrite in_app_iff. cbn. auto.
  - exists g. rewrite in_app_iff. cbn. auto.
Qed.

Lemma server_step_live s s' : live s -> server_step s s' -> live s'.
Proof.
  unfold live. intros Hl Hst. destruct Hst as [addr listened s Hw|before after s Hg|before g after closed e s Hg Hx
    |before a r after s Hg|before g s Hw Hg Hn|before g r s Hw Hg Hr|s]; cbn; try done.
  - unfold Start. destruct (started s); [done|]. destruct listened; [|done]. cbn. intros _.
    exists Listening. split; [|done]. apply in_app_iff. right. by left.
  - intros Hf. rewrite Hg in Hl. by apply (In_replace (fun g => ended g = false) Listening Accepting), Hl.
  - intros Hf. rewrite Hg in Hl. by apply (In_replace (fun g => ended g = false) g), Hl.
Qed.

Lemma server_run_live s : server_run new_server s -> live s.
Proof.
  assert (Hall : forall s s', server_run s s' -> live s -> live s').
  { induction 1; eauto using server_step_live. }
  intros Hrun. apply (Hall _ _ Hrun). done.
Qed.

End Server.
