(* ===== verification/LocalServer.v ===== *)
(** A concrete pair of dependencies on which the readiness theorem applies. *)
From S2P Require Export LocalHttp Server.

Module LocalServer.

(** The state tells whether Redis is up. *)
#[export] Instance probes : ReadinessPorts bool := {
  accepting := fun _ : bool => true;
  probe_Err := fun _ : bool => None;
  postgres_probe := Some (fun up : bool => (Ok tt, up));
  redis_probe := Some (fun up : bool => (if up then Ok tt else Err (ENew "connection refused"), up));
}.

End LocalServer.
Import LocalHttp LocalServer.

Lemma readiness_tells_the_truth_witness : exists c' s',
  Server.readiness (LocalHttp.request "", false) = (Ok tt, (c', s'))
  /\ c_Written c' = [Dto.StatusWord "not_ready"].
Proof.
  destruct (Server.readiness_tells_the_truth (C := context) (S := bool)
              (GL := LocalHttp.local_gin_laws) (LocalHttp.request "") false eq_refl)
    as (c' & s' & Hr & Hw & _).
  exists c', s'. split; [exact Hr|exact Hw].
Defined.
