(* ===== verification/Localization.v ===== *)
(** internal/delivery/http/response/localization.go: the loading of the two
    message catalogs, their validation against the keys and parameters the
    program uses, and what a loaded localizer then translates.  The JSON
    decoder and text/template are parameters: the tokens of a document, the
    parse tree of a message and its execution. *)
From S2P Require Export Response.
From Stdlib Require Import Ascii.
Import Response.

Module Localization.

(** * text/template/parse: the trees of a template *)

(** A pointer field is an [option]; [OtherNode] stands for the nodes without
    parameters: text, constants, variables, identifiers, comments. *)
Inductive node :=
  | ListNode (Nodes : list node)
  | ActionNode (Pipe : option node)
  | IfNode (branch : branchNode)
  | RangeNode (branch : branchNode)
  | WithNode (branch : branchNode)
  | TemplateNode (Pipe : option node)
  | PipeNode (Cmds : list node)
  | CommandNode (Args : list node)
  | FieldNode (Ident : list string)
  | ChainNode (Node : option node) (Field : list string)
  | OtherNode
with branchNode :=
  | BranchNode (Pipe List ElseList : option node).

(** [template.New(key).Option("missingkey=error").Parse(message)], and the trees
    of [message.Templates()]. *)
Class TemplateParser `{TextLibraries} := {
  template_Parse : string -> string -> option template;
  template_Trees : template -> list (option node);
}.

(** The tokens of a document, as encoding/json's decoder delivers them; a value
    that is no string is one token. *)
Inductive token := OpenBrace | CloseBrace | OtherDelim | Str (s : string) | Null | OtherValue | Malformed.

(** * Errors *)

Definition errInvalidLocalizationAssets : err := ENew "invalid HTTP problem localization assets".
Definition localizationAssetError (msg : string) : err := wrap1 msg errInvalidLocalizationAssets.
Definition malformedCatalogError (catalogLocale : string) : err :=
  localizationAssetError (catalogLocale +:+ " catalog contains malformed JSON").

(** A run-time panic. *)
Definition nil_dereference : err :=
  ENew "runtime error: invalid memory address or nil pointer dereference".

(** * The contract of the program *)

Definition translationParameterDefinitions : gmap string (list string) :=
  {[ DetailInvalidUserRole := ["Role"]; DetailRateLimitExceeded := ["RetryAfter"] ]}.

Fixpoint validate_keys (keys : list string) (seenKeys : gset string) : res (gset string) :=
  match keys with
  | [] => Ok seenKeys
  | key :: keys' =>
      if is_blank key then Err (localizationAssetError "required translation key is empty")
      else if bool_decide (key ∈ seenKeys)
      then Err (localizationAssetError "required translation key is registered more than once")
      else validate_keys keys' ({[key]} ∪ seenKeys)
  end.

Fixpoint validate_parameters (parameters : list string) (seenParameters : gset string) : res unit :=
  match parameters with
  | [] => Ok tt
  | parameter :: parameters' =>
      if is_blank parameter then Err (localizationAssetError "translation parameter name is empty")
      else if bool_decide (parameter ∈ seenParameters)
      then Err (localizationAssetError "translation parameter is defined more than once")
      else validate_parameters parameters' ({[parameter]} ∪ seenParameters)
  end.

(** The range over a map, in some order. *)
Fixpoint validate_definitions (l : list (string * list string)) (seenKeys : gset string) : res unit :=
  match l with
  | [] => Ok tt
  | (key, parameters) :: l' =>
      if negb (bool_decide (key ∈ seenKeys))
      then Err (localizationAssetError "parameter definition references an unregistered translation key")
      else letr _ := validate_parameters parameters ∅ in validate_definitions l' seenKeys
  end.

Definition validateTranslationContract : res unit :=
  letr seenKeys := validate_keys translationKeys ∅ in
  validate_definitions (map_to_list translationParameterDefinitions) seenKeys.

(** * Reading a catalog *)

(** The loop: while there is more, a key and its message. *)
Fixpoint decode_entries (catalogLocale : string) (messages : gmap string string) (tokens : list token)
    : res (gmap string string * list token) :=
  match tokens with
  | [] | CloseBrace :: _ => Ok (messages, tokens)
  | Str key :: rest =>
      if is_blank key
      then Err (localizationAssetError (catalogLocale +:+ " catalog contains an empty translation key"))
      else if is_some (messages !! key)
      then Err (localizationAssetError (catalogLocale +:+ " catalog contains a duplicate translation key"))
      else
        let empty := localizationAssetError (catalogLocale +:+ " catalog contains an empty translation") in
        match rest with
        | Str message :: rest' =>
            if is_blank message then Err empty
            else decode_entries catalogLocale (<[key := message]> messages) rest'
        | Null :: _ => Err empty   (** null leaves the string as it was *)
        | _ => Err (malformedCatalogError catalogLocale)
        end
  | _ => Err (malformedCatalogError catalogLocale)
  end.

Definition decodeCatalogMessages (catalogLocale : string) (data : list token) : res (gmap string string) :=
  match data with
  | OpenBrace :: rest =>
      letr decoded := decode_entries catalogLocale ∅ rest in
      match decoded with
      | (messages, [CloseBrace]) => Ok messages
      | _ => Err (malformedCatalogError catalogLocale)
      end
  | _ => Err (malformedCatalogError catalogLocale)
  end.

Section Loading.
Context {TL : TextLibraries} {TP : @TemplateParser TL}.

Fixpoint parse_messages (catalogLocale : string) (l : list (string * string)) : res (list (string * template)) :=
  match l with
  | [] => Ok []
  | (key, message) :: l' =>
      match template_Parse key message with
      | None => Err (localizationAssetError
                       (catalogLocale +:+ (" catalog contains invalid template syntax for key " +:+ key)))
      | Some parsed => letr parsed' := parse_messages catalogLocale l' in Ok ((key, parsed) :: parsed')
      end
  end.

Definition loadCatalog (catalogLocale : string) (data : list token) : res (gmap string template) :=
  letr messages := decodeCatalogMessages catalogLocale data in
  letr parsed := parse_messages catalogLocale (map_to_list messages) in
  Ok (list_to_map parsed).

(** * The parameters of a template *)

(** [collectTemplateParameters] on a pointer: an interface that holds a nil
    pointer is not nil, so the test at its head lets it through and the field
    is read.  [collectBranchParameters] is the branch case. *)
Definition through (collect : node -> gset string -> res (gset string)) (n : option node)
    (parameters : gset string) : res (gset string) :=
  match n with Some n => collect n parameters | None => Err nil_dereference end.

Definition add_path (path : list string) (parameters : gset string) : gset string :=
  match path with [] => parameters | _ => {[Join path "."]} ∪ parameters end.

Fixpoint collectTemplateParameters (n : node) (parameters : gset string) : res (gset string) :=
  let fix all (l : list node) (parameters : gset string) : res (gset string) :=
    match l with
    | [] => Ok parameters
    | child :: l' => letr parameters := collectTemplateParameters child parameters in all l' parameters
    end in
  let branch (b : branchNode) (parameters : gset string) : res (gset string) :=
    match b with
    | BranchNode pipe list elseList =>
        letr parameters := through collectTemplateParameters pipe parameters in
        letr parameters := through collectTemplateParameters list parameters in
        through collectTemplateParameters elseList parameters
    end in
  match n with
  | ListNode nodes => all nodes parameters
  | ActionNode pipe => through collectTemplateParameters pipe parameters
  | IfNode b | RangeNode b | WithNode b => branch b parameters
  | TemplateNode pipe => through collectTemplateParameters pipe parameters
  | PipeNode cmds => all cmds parameters
  | CommandNode args => all args parameters
  | FieldNode ident => Ok (add_path ident parameters)
  | ChainNode node field =>
      letr parameters := through collectTemplateParameters node parameters in
      Ok (add_path field parameters)
  | OtherNode => Ok parameters
  end.

Fixpoint collect_trees (trees : list (option node)) (parameters : gset string) : res (gset string) :=
  match trees with
  | [] => Ok parameters
  | None :: trees' => collect_trees trees' parameters
  | Some root :: trees' =>
      letr parameters := collectTemplateParameters root parameters in collect_trees trees' parameters
  end.

Definition templateParameters (message : template) : res (list string) :=
  letr parameters := collect_trees (template_Trees message) ∅ in
  Ok (merge_sort Permission.string_le (elements parameters)).

Definition equalStringSets (actual expected : list string) : bool :=
  if negb (List.length actual =? List.length expected)%nat then false
  else forallb (fun value => bool_decide (value ∈ (list_to_set expected : gset string))) actual.

Definition validateTemplateParameters (catalogLocale key : string) (message : template)
    (expected : list string) : res unit :=
  letr actual := templateParameters message in
  if equalStringSets actual expected then Ok tt
  else Err (localizationAssetError
              (catalogLocale +:+ (" catalog has incompatible translation parameters for key " +:+ key))).

(** * The localizer *)

Fixpoint check_english (englishCatalog : gmap string template) (keys : list string) : res unit :=
  match keys with
  | [] => Ok tt
  | key :: keys' =>
      match englishCatalog !! key with
      | None => Err (localizationAssetError ("English catalog is missing required key " +:+ key))
      | Some englishTemplate =>
          letr _ := validateTemplateParameters localeEnglish key englishTemplate
                      (default [] (translationParameterDefinitions !! key)) in
          check_english englishCatalog keys'
      end
  end.

(** The range over the catalog, in some order. *)
Fixpoint check_persian (englishCatalog : gmap string template) (l : list (string * template)) : res unit :=
  match l with
  | [] => Ok tt
  | (key, persianTemplate) :: l' =>
      match englishCatalog !! key with
      | None => Err (localizationAssetError "Persian catalog contains a key with no English definition")
      | Some englishTemplate =>
          letr englishParameters := templateParameters englishTemplate in
          letr _ := validateTemplateParameters localePersian key persianTemplate englishParameters in
          check_persian englishCatalog l'
      end
  end.

Definition loadLocalizer (englishData persianData : list token) : res localizer :=
  letr _ := validateTranslationContract in
  letr englishCatalog := loadCatalog localeEnglish englishData in
  letr persianCatalog := loadCatalog localePersian persianData in
  letr _ := check_english englishCatalog translationKeys in
  letr _ := check_persian englishCatalog (map_to_list persianCatalog) in
  Ok {[ localeEnglish := englishCatalog; localePersian := persianCatalog ]}.

Definition ValidateRuntimeAssets (loaded : res localizer) : res unit :=
  match loaded with
  | Err e => Err (wrap1 "validate embedded HTTP problem translations" e)
  | Ok _ => Ok tt
  end.

End Loading.

(** * What a loaded localizer translates *)

Lemma translation_contract : validateTranslationContract = Ok tt.
Proof. vm_compute. reflexivity. Qed.

Section Translating.
Context {TL : TextLibraries} {TP : @TemplateParser TL}.

(** A message made of text and of [{{.Name}}] actions. *)
Definition plain_node (n : node) (names : list string) : Prop :=
  (n = OtherNode /\ names = [])
  \/ exists name, n = ActionNode (Some (PipeNode [CommandNode [FieldNode [name]]])) /\ names = [name].

Definition plain (t : template) (names : list string) : Prop :=
  exists nodes namess, template_Trees t = [Some (ListNode nodes)]
    /\ Forall2 plain_node nodes namess /\ names = mjoin namess.

(** text/template: with missingkey=error, a message of text and of fields of
    the map renders when the map has the fields. *)
Definition plain_messages_render : Prop :=
  forall t names params, plain t names -> (forall name, In name names -> is_some (params !! name) = true) ->
  exists text, template_Execute t params = Some text.

Definition all_plain (catalog : gmap string template) : Prop :=
  forall key t, catalog !! key = Some t -> exists names, plain t names.

(** ** Reading the checks back *)

Lemma collect_plain nodes namess acc :
  Forall2 plain_node nodes namess ->
  collectTemplateParameters (ListNode nodes) acc = Ok (list_to_set (List.rev (mjoin namess)) ∪ acc).
Proof.
  intros Hf. revert acc. cbn [collectTemplateParameters].
  induction Hf as [|n names nodes namess Hn Hf IH]; intros acc; cbn.
  - f_equal. set_solver.
  - destruct Hn as [[-> ->] | (name & -> & ->)]; cbn.
    + apply IH.
    + rewrite IH. f_equal. rewrite list_to_set_app_L. cbn. set_solver.
Qed.

Lemma parameters_plain t names actual :
  plain t names -> templateParameters t = Ok actual -> forall name, In name names <-> In name actual.
Proof.
  intros (nodes & namess & Ht & Hf & ->) Ha name. unfold templateParameters in Ha. rewrite Ht in Ha.
  cbn [collect_trees] in Ha. rewrite (collect_plain _ _ _ Hf) in Ha. cbn in Ha. injection Ha as <-.
  rewrite <- (list_elem_of_In (merge_sort _ _) name).
  rewrite (merge_sort_Permutation Permission.string_le), elem_of_elements.
  rewrite elem_of_union, elem_of_list_to_set, list_elem_of_In, <- in_rev. set_solver.
Qed.

Lemma equal_sets_subset actual expected name :
  equalStringSets actual expected = true -> In name actual -> In name expected.
Proof.
  unfold equalStringSets. destruct (negb _); [discriminate|]. rewrite forallb_forall.
  intros Hall Hin. specialize (Hall name Hin). apply bool_decide_eq_true in Hall.
  by apply elem_of_list_to_set, list_elem_of_In in Hall.
Qed.

(** A message whose check succeeded needs no parameter that is not expected. *)
Lemma checked_names l key t expected names u :
  plain t names -> validateTemplateParameters l key t expected = Ok u ->
  forall name, In name names -> In name expected.
Proof.
  unfold validateTemplateParameters. intros Hp (actual & Ha & He)%res_bind_Ok_inv name Hin.
  destruct (equalStringSets actual expected) eqn:Heq; [|discriminate].
  eapply equal_sets_subset; [exact Heq|]. by apply (parameters_plain t names actual Hp Ha).
Qed.

Lemma check_english_Ok ec keys u key :
  check_english ec keys = Ok u -> In key keys ->
  exists t, ec !! key = Some t
    /\ validateTemplateParameters localeEnglish key t (default [] (translationParameterDefinitions !! key)) = Ok tt.
Proof.
  induction keys as [|k keys IH]; [done|]. cbn. destruct (ec !! k) as [t|] eqn:Hk; [|discriminate].
  intros ([] & Hv & Hc)%res_bind_Ok_inv [<- | Hin]; [by exists t|by apply IH].
Qed.

Lemma check_persian_Ok ec l u key t :
  check_persian ec l = Ok u -> In (key, t) l ->
  exists te ps, ec !! key = Some te /\ templateParameters te = Ok ps
    /\ validateTemplateParameters localePersian key t ps = Ok tt.
Proof.
  induction l as [|[k t'] l IH]; [done|]. cbn. destruct (ec !! k) as [te|] eqn:Hk; [|discriminate].
  intros (ps & Hps & ([] & Hv & Hc)%res_bind_Ok_inv)%res_bind_Ok_inv [[= -> ->] | Hin]; [|by apply IH].
  by exists te, ps.
Qed.

Lemma loadLocalizer_Ok en fa l :
  loadLocalizer en fa = Ok l ->
  exists ec pc u v, l = {[ localeEnglish := ec; localePersian := pc ]}
    /\ check_english ec translationKeys = Ok u /\ check_persian ec (map_to_list pc) = Ok v.
Proof.
  unfold loadLocalizer. rewrite translation_contract. cbn [res_bind].
  intros (ec & _ & (pc & _ & (u & He & (v & Hp & [= <-])%res_bind_Ok_inv)%res_bind_Ok_inv)%res_bind_Ok_inv)%res_bind_Ok_inv.
  by exists ec, pc, u, v.
Qed.

Lemma two_catalogs {A} (x y : A) (l : gmap string A) :
  l = {[ localeEnglish := x; localePersian := y ]} ->
  l !! localeEnglish = Some x /\ l !! localePersian = Some y.
Proof.
  intros ->. assert (localeEnglish <> localePersian) as Hne by discriminate.
  generalize dependent localePersian. generalize localeEnglish. intros a b Hne.
  split; [apply lookup_insert_eq|]. rewrite lookup_insert_ne by done. apply lookup_singleton_eq.
Qed.

Lemma execute_found l loc catalog key message params :
  l !! loc = Some catalog -> catalog !! key = Some message ->
  execute l loc key params = template_Execute message params.
Proof. intros Hl Hc. unfold execute. by rewrite Hl, Hc. Qed.

Lemma execute_missing l loc catalog key params :
  l !! loc = Some catalog -> catalog !! key = None -> execute l loc key params = None.
Proof. intros Hl Hc. unfold execute. by rewrite Hl, Hc. Qed.

Lemma translate_executed l loc key params text :
  execute l loc key params = Some text -> translate l loc key params = text.
Proof. intros He. unfold translate. by rewrite He. Qed.

Lemma translate_english l key params text :
  execute l localePersian key params = None -> execute l localeEnglish key params = Some text ->
  translate l localePersian key params = text.
Proof. intros Hp He. unfold translate. rewrite Hp. cbn. by rewrite He. Qed.

(** A localizer that loads translates everything the program says: for each
    key of the contract, given the parameters its definition names, the text is
    the message of the requested catalog, or the English one where the Persian
    catalog has none; the lookup never falls through to the last resort or to an
    empty text. *)
Theorem loaded_localizer_translates en fa l catalogLocale key params :
  plain_messages_render ->
  loadLocalizer en fa = Ok l ->
  (forall locale catalog, l !! locale = Some catalog -> all_plain catalog) ->
  catalogLocale = localeEnglish \/ catalogLocale = localePersian ->
  In key translationKeys ->
  (forall name, In name (default [] (translationParameterDefinitions !! key)) -> is_some (params !! name) = true) ->
  exists catalog message text,
    (l !! catalogLocale = Some catalog /\ catalog !! key = Some message
     \/ catalogLocale = localePersian /\ l !! localeEnglish = Some catalog /\ catalog !! key = Some message
        /\ exists pc, l !! localePersian = Some pc /\ pc !! key = None)
    /\ template_Execute message params = Some text
    /\ translate l catalogLocale key params = text.
Proof.
  intros Hrender Hl Hplain Hloc Hkey Hparams.
  destruct (loadLocalizer_Ok en fa l Hl) as (ec & pc & u & v & -> & He & Hp).
  set (l := {[ localeEnglish := ec; localePersian := pc ]}) in *.
  destruct (two_catalogs ec pc l eq_refl) as [Len Lfa].
  clearbody l.
  destruct (check_english_Ok ec _ u key He Hkey) as (te & Hte & Hve).
  destruct (Hplain _ _ Len key te Hte) as [names Hnames].
  assert (Hcovered : forall name, In name names -> is_some (params !! name) = true).
  { intros name Hin. apply Hparams. eapply checked_names; eassumption. }
  destruct (Hrender te names params Hnames Hcovered) as [text Htext].
  destruct Hloc as [-> | ->].
  - exists ec, te, text. split; [left; exact (conj Len Hte)|]. split; [exact Htext|].
    apply translate_executed. rewrite (execute_found _ _ _ _ _ _ Len Hte). exact Htext.
  - destruct (pc !! key) as [tf|] eqn:Htf.
    + destruct (check_persian_Ok ec (map_to_list pc) v key tf Hp) as (te' & ps & Hte' & Hps & Hvf).
      { by apply list_elem_of_In, elem_of_map_to_list. }
      rewrite Hte in Hte'. injection Hte' as <-.
      destruct (Hplain _ _ Lfa key tf Htf) as [namesf Hnamesf].
      destruct (Hrender tf namesf params Hnamesf) as [textf Htextf].
      { intros name Hin. apply Hcovered. apply (parameters_plain te names ps Hnames Hps).
        eapply checked_names; eassumption. }
      exists pc, tf, textf. split; [left; exact (conj Lfa Htf)|]. split; [exact Htextf|].
      apply translate_executed. rewrite (execute_found _ _ _ _ _ _ Lfa Htf). exact Htextf.
    + exists ec, te, text.
      split; [right; exact (conj eq_refl (conj Len (conj Hte (ex_intro _ pc (conj Lfa Htf)))))|].
      split; [exact Htext|].
      apply translate_english; [exact (execute_missing _ _ _ _ _ Lfa Htf)|].
      rewrite (execute_found _ _ _ _ _ _ Len Hte). exact Htext.
Qed.

(** A message with a branch and no else, or with a template call and no
    argument, does not load: the walk reads a field of a nil pointer. *)
Lemma branch_without_else_panics pipe list parameters :
  (exists p1, through collectTemplateParameters pipe parameters = Ok p1
     /\ exists p2, through collectTemplateParameters list p1 = Ok p2) ->
  collectTemplateParameters (IfNode (BranchNode pipe list None)) parameters = Err nil_dereference
  /\ collectTemplateParameters (TemplateNode None) parameters = Err nil_dereference.
Proof.
  intros (p1 & H1 & p2 & H2). split; [|done]. cbn. rewrite H1. cbn. by rewrite H2.
Qed.

End Translating.

End Localization.

(** * Two catalogs, for the witness *)

Module LocalCatalogs.
Import Localization.

(** Text and [{{.Name}}] fields. *)
Inductive segment := Text (s : string) | Field (name : string).

Fixpoint scan (s text : string) : list segment :=
  match s with
  | EmptyString => [Text text]
  | String "{" (String "{" (String "." s')) => Text text :: scan_field s' ""
  | String a s' => scan s' (text +:+ String a "")
  end
with scan_field (s name : string) : list segment :=
  match s with
  | EmptyString => [Text name]
  | String "}" (String "}" s') => Field name :: scan s' ""
  | String a s' => scan_field s' (name +:+ String a "")
  end.

Fixpoint render (t : list segment) (params : gmap string string) : option string :=
  match t with
  | [] => Some ""
  | Text s :: t' => (fun rest => s +:+ rest) <$> render t' params
  | Field name :: t' => match params !! name, render t' params with
                        | Some v, Some rest => Some (v +:+ rest)
                        | _, _ => None
                        end
  end.

#[export] Instance libraries : TextLibraries := {
  template := list segment;
  template_Execute := render;
  language_MatchStrings := fun s => if s =s "fa" then 1 else 0;
  strings_ToLower := fun s => s;
}.

Definition tree_of (s : segment) : node :=
  match s with
  | Text _ => OtherNode
  | Field name => ActionNode (Some (PipeNode [CommandNode [FieldNode [name]]]))
  end.

#[export] Instance parser : TemplateParser := {
  template_Parse := fun _ message => Some (scan message "");
  template_Trees := fun t : list segment => [Some (ListNode (map tree_of t))];
}.

Definition names_of (s : segment) : list string := match s with Text _ => [] | Field name => [name] end.

Lemma every_template_plain (t : list segment) : plain t (mjoin (map names_of t)).
Proof.
  exists (map tree_of t), (map names_of t). split; [done|]. split; [|done].
  induction t as [|[s|name] t IH]; constructor; try done; [by left|]. right. by exists name.
Qed.

Lemma messages_render : plain_messages_render.
Proof.
  intros t names params (nodes & namess & [= <-] & Hf & ->).
  change (template_Execute t params) with (render t params). revert namess Hf.
  induction t as [|[s|name] t IH]; intros namess Hf Hin; cbn.
  - by exists "".
  - inversion Hf as [|? ns ? nss Hn Hf']; subst. destruct (IH nss Hf') as [text ->]; [|by eexists].
    intros n Hn'. apply Hin, in_app_iff. by right.
  - inversion Hf as [|? ns ? nss Hn Hf']; subst.
    assert (Hns : ns = [name]) by (destruct Hn as [[[=] _] | (name' & [= ->] & ->)]; done). subst ns.
    specialize (Hin name ltac:(by left)) as Hv. destruct (params !! name) as [v|]; [|done].
    destruct (IH nss Hf') as [text ->]; [|by eexists]. intros n Hn'. apply Hin. by right.
Qed.

Lemma is_key key : existsb (String.eqb key) translationKeys = true -> In key translationKeys.
Proof. intros (k & Hin & ->%String.eqb_eq)%existsb_exists. done. Qed.

Definition message_of (key : string) : string :=
  if key =s DetailInvalidUserRole then "invalid user role: {{.Role}}"
  else if key =s DetailRateLimitExceeded then "try again in {{.RetryAfter}}." else "a message".
Definition english : list token :=
  OpenBrace :: mjoin (map (fun key => [Str key; Str (message_of key)]) translationKeys) ++ [CloseBrace].
Definition persian : list token :=
  [OpenBrace; Str DetailRateLimitExceeded; Str "{{.RetryAfter}} later"; CloseBrace].

Definition loaded : localizer :=
  match loadLocalizer english persian with Ok l => l | Err _ => ∅ end.
Lemma catalogs_accepted : is_ok (loadLocalizer english persian) = true.
Proof. vm_compute. reflexivity. Qed.
Lemma catalogs_load : loadLocalizer english persian = Ok loaded.
Proof.
  pose proof catalogs_accepted as Ha. unfold loaded. by destruct (loadLocalizer english persian).
Qed.

Example persian_text : translate loaded localePersian DetailRateLimitExceeded {["RetryAfter" := "30s"]} = "30s later".
Proof. vm_compute. reflexivity. Qed.
Example english_text : translate loaded localePersian titleConflict ∅ = "a message".
Proof. vm_compute. reflexivity. Qed.

(** A message with other parameters than the program gives does not load. *)
Example wrong_parameters : is_ok (loadLocalizer english
  [OpenBrace; Str titleConflict; Str "{{.Role}}"; CloseBrace]) = false.
Proof. vm_compute. reflexivity. Qed.

End LocalCatalogs.

Lemma loaded_localizer_translates_witness : exists text,
  translate (H := LocalCatalogs.libraries) LocalCatalogs.loaded localePersian
    DetailRateLimitExceeded {["RetryAfter" := "30s"]} = text.
Proof.
  destruct (Localization.loaded_localizer_translates (TL := LocalCatalogs.libraries)
              (TP := LocalCatalogs.parser) LocalCatalogs.english LocalCatalogs.persian LocalCatalogs.loaded
              localePersian DetailRateLimitExceeded {["RetryAfter" := "30s"]}
              LocalCatalogs.messages_render LocalCatalogs.catalogs_load
              (fun _ _ _ _ t _ => ex_intro _ _ (LocalCatalogs.every_template_plain t))
              (or_intror eq_refl)
              (LocalCatalogs.is_key DetailRateLimitExceeded eq_refl)
              ltac:(vm_compute; intros ? [<- | []]; reflexivity))
    as (c & m & text & _ & _ & Ht).
  by exists text.
Defined.
