(* ===== verification/Startup.v ===== *)
(** What a start does with PostgreSQL and Redis: postgres.go [NewDatabase] and
    seeder.go, redis.go [NewClient], script_loader.go [ValidateRuntimeScripts]
    and app.go [validateRuntimeAssets], with what they leave behind when they
    fail. *)
From S2P Require Export MigrationGuarantees SessionRepository Localization.
Import Migrations.

(** * Seeding: seeder.go *)

(** [cause] is [context.Cause] of the initialization context; [seed_InsertUser]
    is the INSERT ... ON CONFLICT (email) DO NOTHING on the pool. *)
Class SeedDB (S : Type) := {
  seed_Cause : S -> option sentinel;
  seed_BeginTxx : M S unit;
  seed_InsertPermission : Z -> Permission.Permission -> M S unit;
  seed_Commit : M S unit;
  seed_Rollback : M S unit;
  seed_InsertUser : string -> string -> Z -> Z -> M S unit;
}.

Module Seeder.
Section Seeder.
Context {S : Type} `{SeedDB S}.

(** [if err != nil { return startupOperationError(operation, ctx, err) }] *)
Definition seeding {A} (operation : string) (m : M S A) : M S A :=
  fun s => match m s with
           | (Ok a, s') => (Ok a, s')
           | (Err e, s') => (Err (startupOperationError operation (seed_Cause s') e), s')
           end.

Definition adminPerm : Permission.Permission := Permission.PermFullAccess.
Definition clientPerm : list Permission.Permission := [].
Definition operatorPerm : list Permission.Permission :=
  [Permission.PermUserRead; Permission.PermUserUpdate; Permission.PermUserChangeStatus].

Fixpoint seed_role (operation : string) (role : Z) (perms : list Permission.Permission) : M S unit :=
  match perms with
  | [] => ret tt
  | p :: perms' => do! seeding operation (seed_InsertPermission role p) in seed_role operation role perms'
  end.

Definition seed_transaction : M S unit :=
  do! seeding "seed admin permission" (seed_InsertPermission (int8 Role.RoleAdmin) adminPerm) in
  do! seed_role "seed client permission" (int8 Role.RoleClient) clientPerm in
  do! seed_role "seed operator permission" (int8 Role.RoleOperator) operatorPerm in
  seeding "commit permission seed transaction" seed_Commit.

(** With the deferred rollback. *)
Definition SeedPermissions : M S unit :=
  do! seeding "begin permission seed transaction" seed_BeginTxx in
  fun s =>
    match seed_transaction s with
    | (Ok tt, s1) => (Ok tt, s1)
    | (Err e, s1) =>
        match seed_Rollback s1 with
        | (Err rollbackErr, s2) =>
            (Err (if negb (errors_is rollbackErr SqlErrTxDone)
                  then EJoin [e; wrap1 "rollback permission seed" rollbackErr] else e), s2)
        | (Ok _, s2) => (Err e, s2)
        end
    end.

Context `{PasswordHasher S}.

Definition SeedAdminUser (email password : string) : M S unit :=
  let! plainPassword := seeding "validate seeded admin password" (of_res (Password.NewPlainPassword password)) in
  let! digest := seeding "hash seeded admin password" (ph_Hash plainPassword) in
  seeding "seed admin user"
    (seed_InsertUser email (Password.Encoded digest) (int8 Status.StatusActive) (int8 Role.RoleAdmin)).

End Seeder.
End Seeder.

(** * NewDatabase *)

Module Database.
Section Database.
Context {S : Type} `{MigrationDB S} `{MigrationPool S} `{SeedDB S} `{PasswordHasher S} `{SHA256} `{Unicode}.
Context (glob : res (list string)) (ReadFile : string -> res string).

(** [return nil, closeFailedDatabaseInitialization(db, err)] *)
Definition closing_on_failure (body : M S unit) : M S unit :=
  fun s =>
    match body s with
    | (Ok tt, s1) => (Ok tt, s1)
    | (Err e, s1) =>
        match pool_Close s1 with
        | (Err closeErr, s2) =>
            (Err (EJoin [e; wrap1 "close PostgreSQL after initialization failure" closeErr]), s2)
        | (Ok _, s2) => (Err e, s2)
        end
    end.

(** What is done on the pool; log calls are left out. *)
Definition initialize (cfg : Config.PostgresConfig) (migrations : list migration) : M S unit :=
  do! pingDatabase in
  do! validateCurrentMigrations migrations in
  if Config.pc_Seed cfg
  then do! Seeder.SeedPermissions in
       Seeder.SeedAdminUser (Config.pc_AdminEmail cfg) (Config.pc_AdminPassword cfg)
  else ret tt.

(** [ctxGiven], [hasHasher]: the context and the hasher are not nil. *)
Definition NewDatabase (ctxGiven hasHasher : bool) (cfg : Config.PostgresConfig) : M S unit :=
  if negb ctxGiven then fail (ENew "PostgreSQL startup context is required") else
  let! migrations := of_res (loadEmbeddedMigrations glob ReadFile) in
  if Config.pc_Seed cfg && negb hasHasher
  then fail (ENew "PostgreSQL administrator seed password hasher is required")
  else
    let! _ := of_res (newDatabasePool cfg) in
    closing_on_failure (initialize cfg migrations).

End Database.
End Database.

(** * Redis: redis.go and script_loader.go *)

Class RedisStartup (S : Type) := {
  rs_Cause : S -> option sentinel;      (** of the validation context *)
  rs_Ping : M S unit;
  rs_Close : M S unit;
  rs_ScriptLoad : string -> M S unit;
}.

Module RedisClientStart.
Section Start.
Context {S : Type} `{RedisStartup S}.

Definition redisStartupOperationError (operation : string) (cause : option sentinel) (e : err) : err :=
  let operationErr := wrap1 operation e in
  match cause with
  | None => operationErr
  | Some c =>
      if errors_is operationErr c then operationErr
      else EJoin [operationErr; wrap1 (operation +:+ " context") c]
  end.

Definition closeFailedClient (s : S) : option err * S :=
  match rs_Close s with
  | (Err e, s') => (Some (wrap1 "close Redis after initialization failure" e), s')
  | (Ok _, s') => (None, s')
  end.

Definition initializeRedisClient (ctxGiven : bool) (timeout : Z) (hasClient : bool) : M S unit :=
  fun s =>
    if negb ctxGiven then (Err (ENew "redis startup context is required"), s)
    else if timeout <=? 0 then (Err (ENew "redis connection timeout must be positive"), s)
    else if negb hasClient then (Err (ENew "redis client is required"), s)
    else
      match rs_Ping s with
      | (Ok _, s1) => (Ok tt, s1)
      | (Err e, s1) =>
          let e := redisStartupOperationError "validate Redis connection" (rs_Cause s1) e in
          let '(closeErr, s2) := closeFailedClient s1 in
          (Err (default e (errors_join [Some e; closeErr])), s2)
      end.

(** [redis.NewClient] opens no connection; log calls are left out. *)
Definition NewClient `{Unicode} (ctxGiven : bool) (cfg : Config.RedisConfig) : M S unit :=
  if negb ctxGiven then fail (ENew "redis startup context is required")
  else
    do! of_res (Config.redis_validate cfg) in
    initializeRedisClient ctxGiven (Config.rc_ConnectionTimeout cfg) true.

(** ** The scripts *)

Definition errRuntimeScriptValidation : err := ENew "runtime Redis script validation failed".

Fixpoint load_scripts (registry : gmap string string) (required : list string) : M S unit :=
  match required with
  | [] => ret tt
  | name :: required' =>
      match ScriptRegistry.script_of registry name with
      | Err e => fail (EWrap ("resolve script " +:+ name) [errRuntimeScriptValidation; e])
      | Ok script => fun s =>
          match rs_ScriptLoad script s with
          | (Err e, s') => (Err (EWrap ("compile script " +:+ name) [errRuntimeScriptValidation; e]), s')
          | (Ok _, s') => load_scripts registry required' s'
          end
      end
  end.

Definition validateScriptRegistry (ctxGiven hasClient : bool) (registry : gmap string string)
    (required : list string) : M S unit :=
  if negb ctxGiven then fail (wrap1 "context is required" errRuntimeScriptValidation)
  else if negb hasClient then fail (wrap1 "Redis client is required" errRuntimeScriptValidation)
  else load_scripts registry required.

Context `{ScriptRegistry.EmbeddedScripts}.

Definition ValidateRuntimeScripts (ctxGiven hasClient : bool) : M S unit :=
  match ScriptRegistry.embeddedScriptRegistry with
  | Err e => fail (EWrap "" [errRuntimeScriptValidation; e])
  | Ok registry => validateScriptRegistry ctxGiven hasClient registry ScriptRegistry.requiredScriptNames
  end.

(** ** app.go: validateRuntimeAssets *)

Definition validateRuntimeAssets `{TL : Response.TextLibraries}
    (loaded : res Response.localizer) (ctxGiven hasClient : bool) : M S unit :=
  fun s =>
    let assets := Localization.ValidateRuntimeAssets loaded in
    let '(scripts, s1) := ValidateRuntimeScripts ctxGiven hasClient s in
    (match errors_join [wrap1 "validate HTTP problem localization assets" <$> err_of assets;
                        wrap1 "validate Redis scripts" <$> err_of scripts] with
     | Some e => Err e
     | None => Ok tt
     end, s1).

End Start.
End RedisClientStart.

(** * What a start leaves *)

(** What PostgreSQL documents of the seeding statements: [granted] are the
    committed (role, action) rows, [pending] those of the transaction in
    progress; [elsewhere] is what the other connections may make of the committed
    rows meanwhile, by grants and by revocations. *)
Class SeedDBLaws (S : Type) `{SeedDB S} := {
  granted : S -> gset (Z * string);
  pending : S -> option (gset (Z * string));
  elsewhere : gset (Z * string) -> gset (Z * string) -> Prop;
  elsewhere_preorder : PreOrder elsewhere;
  seed_begin_law : forall s r s', seed_BeginTxx s = (r, s') ->
    elsewhere (granted s) (granted s') /\ (r = Ok tt -> pending s' = Some ∅);
  (** ON CONFLICT (role, action) DO NOTHING, on the rows [g] committed then *)
  seed_insert_law : forall s p role action r s',
    pending s = Some p -> seed_InsertPermission role action s = (r, s') ->
    exists g, elsewhere (granted s) g /\ elsewhere g (granted s')
      /\ (r = Ok tt -> pending s' = Some (if decide ((role, action) ∈ g) then p
                                          else {[(role, action)]} ∪ p));
  (** a commit whose answer is lost may have been done *)
  seed_commit_law : forall s p r s', pending s = Some p -> seed_Commit s = (r, s') ->
    (exists g, elsewhere (granted s) g /\ elsewhere (p ∪ g) (granted s'))
    \/ (elsewhere (granted s) (granted s') /\ exists e, r = Err e);
  seed_rollback_law : forall s r s', seed_Rollback s = (r, s') -> elsewhere (granted s) (granted s');
}.

(** The rows the seeding is for. *)
Definition seeds : gset (Z * string) :=
  {[ (3, "full_access"); (2, "user:read"); (2, "user:update"); (2, "user:change_status") ]}.

Section Seeded.
Context {S : Type} `{SeedDB S} {SL : SeedDBLaws S}.
#[local] Existing Instance elsewhere_preorder.

Lemma seeding_run {A} op (m : M S A) s r s' :
  Seeder.seeding op m s = (r, s') -> exists r', m s = (r', s') /\ forall a, r = Ok a <-> r' = Ok a.
Proof.
  unfold Seeder.seeding. destruct (m s) as [[a|e] s1]; intros [= <- <-]; eexists; (split; [done|]); by split.
Qed.

(** Between [g0] and [g] the row [x] was there, put by others. *)
Definition was_there (g0 g : gset (Z * string)) (x : Z * string) : Prop :=
  exists gx, elsewhere g0 gx /\ elsewhere gx g /\ x ∈ gx.

Lemma was_there_later g0 g g' x : was_there g0 g x -> elsewhere g g' -> was_there g0 g' x.
Proof. intros (gx & H1 & H2 & Hx) Hg. exists gx. split; [done|]. split; [by transitivity g|done]. Qed.

(** In the transaction: nothing committed but by others, only seeds pending, and
    each seed of [done_] is pending or was there when its turn came. *)
Record in_progress (g0 : gset (Z * string)) (done_ : gset (Z * string)) (s : S) (p : gset (Z * string)) : Prop := {
  ip_pending : pending s = Some p;
  ip_elsewhere : elsewhere g0 (granted s);
  ip_seeds : p ⊆ done_;
  ip_done x : x ∈ done_ -> x ∈ p \/ was_there g0 (granted s) x;
}.

Lemma insert_progress g0 done_ op role action s p r s' :
  in_progress g0 done_ s p ->
  Seeder.seeding op (seed_InsertPermission role action) s = (r, s') ->
  elsewhere g0 (granted s')
  /\ (r = Ok tt -> exists p', in_progress g0 ({[(role, action)]} ∪ done_) s' p').
Proof.
  intros [Hp He Hs Hd] (r' & Hrun & Hr)%seeding_run.
  destruct (seed_insert_law _ _ _ _ _ _ Hp Hrun) as (g & Hg & Hg' & Hp').
  assert (He2 : elsewhere g0 g) by (by transitivity (granted s)).
  assert (He3 : elsewhere g0 (granted s')) by (by transitivity g).
  split; [done|]. intros Hok. specialize (Hp' (proj1 (Hr tt) Hok)).
  assert (Hlater : forall x, x ∈ done_ -> x ∈ p \/ was_there g0 (granted s') x).
  { intros x [Hx|Hx]%Hd; [by left|right]. eapply was_there_later; [exact Hx|]. by transitivity g. }
  eexists. split; [exact Hp'|done| |]; destruct (decide _) as [Hin|Hin]; [set_solver..| |].
  - intros x [->%elem_of_singleton|Hx]%elem_of_union; [right; by exists g|by apply Hlater].
  - intros x [Hx|Hx]%elem_of_union; [set_solver|]. destruct (Hlater x Hx); [set_solver|by right].
Qed.

Lemma role_progress op role perms g0 done_ s p r s' :
  in_progress g0 done_ s p -> Seeder.seed_role op role perms s = (r, s') ->
  elsewhere g0 (granted s')
  /\ (r = Ok tt -> exists p', in_progress g0 (list_to_set (pair role <$> List.rev perms) ∪ done_) s' p').
Proof.
  revert done_ s p. induction perms as [|a perms IH]; intros done_ s p Hp; cbn [Seeder.seed_role].
  - intros [= <- <-]. split; [apply Hp|]. intros _. exists p. cbn. by rewrite (left_id_L ∅ (∪)).
  - unfold bind. destruct (Seeder.seeding op (seed_InsertPermission role a) s) as [r1 s1] eqn:E.
    destruct (insert_progress _ _ _ _ _ _ _ _ _ Hp E) as [He Hok].
    destruct r1 as [[]|e]; [|by intros [= <- <-]].
    destruct (Hok eq_refl) as [p1 Hp1]. intros Hrun.
    destruct (IH _ _ _ Hp1 Hrun) as [He' Hok']. split; [done|]. intros Hr.
    destruct (Hok' Hr) as [p2 Hp2]. exists p2.
    cbn. rewrite fmap_app, list_to_set_app_L. cbn. by rewrite (right_id_L ∅ (∪)), <- (assoc_L (∪)).
Qed.

(** The outcome of the transaction, for any result: what others did and an
    error, or the seeds [p] on top of what others left, each other seed having
    been there when its turn came. *)
Definition seed_outcome (g0 g1 : gset (Z * string)) (r : res unit) : Prop :=
  (elsewhere g0 g1 /\ exists e, r = Err e)
  \/ exists g p, elsewhere g0 g /\ p ⊆ seeds /\ elsewhere (p ∪ g) g1
       /\ forall x, x ∈ seeds -> x ∈ p \/ was_there g0 g x.

Lemma seed_transaction_outcome g0 s r s' :
  in_progress g0 ∅ s ∅ -> Seeder.seed_transaction s = (r, s') -> seed_outcome g0 (granted s') r.
Proof.
  intros Hp. unfold Seeder.seed_transaction, bind.
  destruct (Seeder.seeding "seed admin permission" (seed_InsertPermission (int8 Role.RoleAdmin) Seeder.adminPerm) s)
    as [r1 s1] eqn:E1.
  destruct (insert_progress _ _ _ _ _ _ _ _ _ Hp E1) as [He1 Hok1].
  destruct r1 as [[]|e]; [|intros [= <- <-]; left; eauto].
  destruct (Hok1 eq_refl) as [p1 Hp1].
  destruct (Seeder.seed_role "seed client permission" (int8 Role.RoleClient) Seeder.clientPerm s1) as [r2 s2] eqn:E2.
  destruct (role_progress _ _ _ _ _ _ _ _ _ Hp1 E2) as [He2 Hok2].
  destruct r2 as [[]|e]; [|intros [= <- <-]; left; eauto].
  destruct (Hok2 eq_refl) as [p2 Hp2].
  destruct (Seeder.seed_role "seed operator permission" (int8 Role.RoleOperator) Seeder.operatorPerm s2)
    as [r3 s3] eqn:E3.
  destruct (role_progress _ _ _ _ _ _ _ _ _ Hp2 E3) as [He3 Hok3].
  destruct r3 as [[]|e]; [|intros [= <- <-]; left; eauto].
  destruct (Hok3 eq_refl) as [p3 [Hp3 He Hs Hd]].
  match type of Hs with _ ⊆ ?d => assert (Hseeds : d = seeds) end.
  { change (int8 Role.RoleAdmin) with 3. change (int8 Role.RoleOperator) with 2. unfold seeds. cbn. set_solver. }
  rewrite Hseeds in Hs, Hd. clear Hseeds.
  intros (r4 & Hrun & Hr)%seeding_run.
  destruct (seed_commit_law _ _ _ _ Hp3 Hrun) as [(g & Hg & Hs')|[He' [e He4]]].
  - right. exists g, p3. split; [by transitivity (granted s3)|]. split; [done|]. split; [done|].
    intros x [Hx|Hx]%Hd; [by left|right]. by eapply was_there_later.
  - left. split; [by transitivity (granted s3)|]. destruct r as [[]|e']; [|by exists e'].
    rewrite (proj1 (Hr tt) eq_refl) in He4. discriminate.
Qed.

Lemma cover_union (x p g : gset (Z * string)) : p ⊆ x -> x ⊆ g -> p ∪ g = g.
Proof. set_solver. Qed.

(** The other connections revoke no seed. *)
Definition seeds_stay : Prop := forall g g', elsewhere g g' -> forall x, x ∈ seeds -> x ∈ g -> x ∈ g'.

Lemma outcome_kept g0 g1 :
  seeds_stay -> seed_outcome g0 g1 (Ok tt) -> seeds ⊆ g1.
Proof.
  intros Hstay [[_ [e [=]]]|(g & p & _ & _ & Hg1 & Hd)] x Hx. apply (Hstay _ _ Hg1 x Hx).
  apply elem_of_union. destruct (Hd x Hx) as [?|(gx & _ & Hgx & Hxg)]; [by left|right].
  by apply (Hstay _ _ Hgx x Hx).
Qed.

Lemma SeedPermissions_outcome s r s' :
  Seeder.SeedPermissions s = (r, s') -> seed_outcome (granted s) (granted s') r.
Proof.
  unfold Seeder.SeedPermissions, bind.
  destruct (Seeder.seeding "begin permission seed transaction" seed_BeginTxx s) as [r1 s1] eqn:E1.
  apply seeding_run in E1 as (r1' & E1 & Hr1). apply seed_begin_law in E1 as [He1 Hp1].
  destruct r1 as [[]|e]; [|intros [= <- <-]; left; eauto].
  assert (Hp : in_progress (granted s) ∅ s1 ∅).
  { split; [apply Hp1, Hr1; done|done|done|set_solver]. }
  destruct (Seeder.seed_transaction s1) as [r2 s2] eqn:E2.
  pose proof (seed_transaction_outcome _ _ _ _ Hp E2) as Ho.
  destruct r2 as [[]|e]; [by intros [= <- <-]|].
  destruct (seed_Rollback s2) as [r3 s3] eqn:E3. apply seed_rollback_law in E3.
  assert (Hend : forall e', seed_outcome (granted s) (granted s3) (Err e')).
  { intros e'. destruct Ho as [[He _]|(g & p & Hg & Hps & Hg1 & Hd)].
    - left. split; [by transitivity (granted s2)|by exists e'].
    - right. exists g, p. split; [done|]. split; [done|]. split; [by transitivity (granted s2)|done]. }
  destruct r3; intros [= <- <-]; apply Hend.
Qed.

(** C39. Seeding is all or nothing: whatever fails, and whatever other
    connections grant or revoke meanwhile, the seeding adds nothing and reports
    an error, or it adds at one instant seeded grants only (full access for
    administrators; reading, updating and suspending for operators), each of
    them but those that were there already when their turn came.  So as long as
    the others revoke none of the four, a success means they are all there, and
    where they were there before nothing is added. *)
Theorem seeding_all_or_nothing s r s' :
  Seeder.SeedPermissions s = (r, s') ->
  seed_outcome (granted s) (granted s') r
  /\ (seeds_stay -> (r = Ok tt -> seeds ⊆ granted s')
                    /\ (seeds ⊆ granted s -> elsewhere (granted s) (granted s'))).
Proof.
  intros Hrun%SeedPermissions_outcome. split; [done|]. intros Hstay. split.
  - intros ->. by eapply outcome_kept.
  - intros Hs. destruct Hrun as [[He _]|(g & p & Hg & Hp & Hg1 & _)]; [done|].
    rewrite (cover_union seeds p g Hp) in Hg1; [by transitivity g|].
    intros x Hx. apply (Hstay _ _ Hg x Hx). by apply Hs.
Qed.

End Seeded.

(** ** NewDatabase and the scripts *)

Section Opened.
Context {S : Type} `{MigrationDB S} {ML : MigrationDBLaws S} `{MigrationPool S} `{SeedDB S} `{PasswordHasher S}
  `{SHA256} `{Unicode}.
Context (glob : res (list string)) (ReadFile : string -> res string).

(** What a database that opened has gone through. *)
Definition opened_from (cfg : Config.PostgresConfig) (s s' : S) : Prop :=
  Config.postgres_validate cfg = Ok tt
  /\ (exists connection, newDatabasePool cfg = Ok connection)
  /\ exists migrations s1 s2,
       loadEmbeddedMigrations glob ReadFile = Ok migrations
       /\ pool_Ping s = (Ok tt, s1)
       /\ validateCurrentMigrations migrations s1 = (Ok tt, s2)
       /\ history (committed s2) = Some (history_of migrations)
       /\ (if Config.pc_Seed cfg
           then exists s3, Seeder.SeedPermissions s2 = (Ok tt, s3)
                /\ Seeder.SeedAdminUser (Config.pc_AdminEmail cfg) (Config.pc_AdminPassword cfg) s3 = (Ok tt, s')
           else s' = s2).

Lemma NewDatabase_outcome ctxGiven hasHasher cfg s r s' :
  Database.NewDatabase glob ReadFile ctxGiven hasHasher cfg s = (r, s') ->
  match r with
  | Ok _ => opened_from cfg s s'
  | Err _ => s' = s \/ exists s1 closed, pool_Close s1 = (closed, s')
  end.
Proof.
  unfold Database.NewDatabase. destruct ctxGiven; [|intros [= <- <-]; by left]. cbn [negb].
  unfold bind at 1, of_res. destruct (loadEmbeddedMigrations glob ReadFile) as [migrations|e] eqn:Hload;
    [|intros [= <- <-]; by left].
  destruct (Config.pc_Seed cfg && negb hasHasher); [intros [= <- <-]; by left|].
  unfold bind at 1. destruct (newDatabasePool cfg) as [connection|e] eqn:Hpool; [|intros [= <- <-]; by left].
  assert (Hcfg : Config.postgres_validate cfg = Ok tt).
  { unfold newDatabasePool, newConnectionConfig in Hpool. by destruct (Config.postgres_validate cfg) as [[]|]. }
  unfold Database.closing_on_failure. destruct (Database.initialize cfg migrations s) as [[[]|e] s1] eqn:Hinit.
  - intros [= <- <-]. split; [done|]. split; [by exists connection|]. unfold Database.initialize in Hinit.
    apply bind_Ok_inv in Hinit as ([] & sa & Hping & Hinit).
    apply bind_Ok_inv in Hinit as ([] & sb & Hcur & Hseed).
    exists migrations, sa, sb. split; [done|].
    apply checked_run in Hping as (r' & Hping & Hr). rewrite (proj1 (Hr tt) eq_refl) in Hping.
    split; [done|]. split; [done|].
    assert (Hn : numbered migrations) by (by apply loadMigrations_Ok in Hload as (_ & ? & _)).
    split; [by destruct (current_history migrations sa sb Hn Hcur)|].
    destruct (Config.pc_Seed cfg); [|by injection Hseed as <-].
    apply bind_Ok_inv in Hseed as ([] & sc & Hperm & Hadmin). by exists sc.
  - destruct (pool_Close s1) as [[]  s2] eqn:Hclose; intros [= <- <-]; right; eauto.
Qed.

(** A start opens the database for good or not at all: on success the
    configuration was valid, the server answered, the metadata recorded exactly
    the embedded migrations when it was read, and the seeding that was asked for
    succeeded; on failure either nothing was opened, or the last thing done was
    to close the pool. *)
Theorem database_opened_or_closed ctxGiven hasHasher cfg s r s' :
  Database.NewDatabase glob ReadFile ctxGiven hasHasher cfg s = (r, s') ->
  match r with
  | Ok _ =>
      Config.postgres_validate cfg = Ok tt
      /\ (exists connection, newDatabasePool cfg = Ok connection)
      /\ exists migrations s1 s2,
           loadEmbeddedMigrations glob ReadFile = Ok migrations
           /\ pool_Ping s = (Ok tt, s1)
           /\ validateCurrentMigrations migrations s1 = (Ok tt, s2)
           /\ history (committed s2) = Some (history_of migrations)
           /\ (if Config.pc_Seed cfg
               then exists s3, Seeder.SeedPermissions s2 = (Ok tt, s3)
                    /\ Seeder.SeedAdminUser (Config.pc_AdminEmail cfg) (Config.pc_AdminPassword cfg) s3 = (Ok tt, s')
               else s' = s2)
  | Err _ => s' = s \/ exists s1 closed, pool_Close s1 = (closed, s')
  end.
Proof. apply NewDatabase_outcome. Qed.

End Opened.

Section Scripts.
Context {S : Type} `{RedisStartup S} `{ScriptRegistry.EmbeddedScripts}.

(** The server has compiled these sources, in this order. *)
Fixpoint compiled (sources : list string) (s s' : S) : Prop :=
  match sources with
  | [] => s' = s
  | source :: sources' => exists reply s1, rs_ScriptLoad source s = (Ok reply, s1) /\ compiled sources' s1 s'
  end.

Lemma load_scripts_Ok registry required s s' :
  RedisClientStart.load_scripts registry required s = (Ok tt, s') ->
  exists sources, Forall2 (fun name source => registry !! name = Some source) required sources
    /\ compiled sources s s'.
Proof.
  revert s. induction required as [|name required IH]; intros s; cbn.
  - intros [= <-]. by exists [].
  - unfold ScriptRegistry.script_of. destruct (registry !! name) as [source|] eqn:Hn; [|discriminate].
    destruct (rs_ScriptLoad source s) as [[reply|e] s1] eqn:Hl; [|discriminate].
    intros (sources & Hf & Hc)%IH. exists (source :: sources). split; [by constructor|]. cbn. eauto.
Qed.

(** When the assets validate, the catalogs loaded and the server has compiled
    every script the process runs. *)
Lemma assets_validated `{TL : Response.TextLibraries} loaded ctxGiven hasClient s s' :
  RedisClientStart.validateRuntimeAssets loaded ctxGiven hasClient s = (Ok tt, s') ->
  is_ok loaded = true
  /\ exists registry sources, ScriptRegistry.embeddedScriptRegistry = Ok registry
     /\ Forall2 (fun name source => registry !! name = Some source) ScriptRegistry.requiredScriptNames sources
     /\ compiled sources s s'.
Proof.
  unfold RedisClientStart.validateRuntimeAssets, RedisClientStart.ValidateRuntimeScripts.
  destruct loaded as [l|e]; cbn [Localization.ValidateRuntimeAssets err_of];
    destruct ScriptRegistry.embeddedScriptRegistry as [registry|e'];
    try (cbn; discriminate).
  2:{ destruct (RedisClientStart.validateScriptRegistry _ _ _ _ s) as [[]?]; discriminate. }
  unfold RedisClientStart.validateScriptRegistry.
  destruct ctxGiven; [|discriminate]. destruct hasClient; [|discriminate]. cbn [negb].
  destruct (RedisClientStart.load_scripts _ _ s) as [[[]|e2] s1] eqn:Hl; [|discriminate].
  intros [= <-]. split; [done|]. apply load_scripts_Ok in Hl as (sources & Hf & Hc). by exists registry, sources.
Qed.

End Scripts.

(** * A local database, for the witnesses *)

Module LocalStartup.

(** The committed permissions and those of the transaction. *)
Definition db : Type := gset (Z * string) * option (gset (Z * string)).

#[export] Instance local_seed : SeedDB db := {
  seed_Cause := fun _ : db => None;
  seed_BeginTxx := fun s : db => (Ok tt, (s.1, Some ∅));
  seed_InsertPermission := fun role action (s : db) =>
    match s.2 with
    | None => (Err (ESentinel SqlErrTxDone), s)
    | Some p => (Ok tt, (s.1, Some (if decide ((role, action) ∈ s.1) then p else {[(role, action)]} ∪ p)))
    end;
  seed_Commit := fun s : db =>
    match s.2 with
    | None => (Err (ESentinel SqlErrTxDone), s)
    | Some p => (Ok tt, (p ∪ s.1, None))
    end;
  seed_Rollback := fun s : db => (Ok tt, (s.1, None));
  seed_InsertUser := fun _ _ _ _ (s : db) => (Ok tt, s);
}.

#[export, program] Instance local_seed_laws : SeedDBLaws db := {
  granted := fst;
  pending := snd;
  elsewhere := eq;
}.
Next Obligation. by intros s r s' [= <- <-]. Qed.
Next Obligation.
  intros [g q] p role action r s' Hp. cbn in *. subst q. intros [= <- <-]. by exists g.
Qed.
Next Obligation.
  intros [g q] p r s' Hp. cbn in *. subst q. intros [= <- <-]. left. by exists g.
Qed.
Next Obligation. by intros s r s' [= <- <-]. Qed.

Definition fresh : db := ({[ (3, "full_access") ]}, None).

End LocalStartup.
Import LocalStartup.

Lemma seeding_all_or_nothing_witness :
  seed_outcome (granted fresh) (granted (Seeder.SeedPermissions fresh).2) (Seeder.SeedPermissions fresh).1
  /\ seeds ⊆ granted (Seeder.SeedPermissions fresh).2.
Proof.
  destruct (seeding_all_or_nothing (S := db) fresh (Seeder.SeedPermissions fresh).1
              (Seeder.SeedPermissions fresh).2 (surjective_pairing _)) as [Ho Hs].
  split; [exact Ho|]. apply Hs; [by intros g g' ->|vm_compute; reflexivity].
Defined.

Module LocalDatabase.
Import LocalMigrations.

#[export] Instance sha : SHA256 := fun _ => "c1".
#[export] Instance pool : MigrationPool db := {
  pgx_options := unit;
  pgx_ParseConfig := fun _ => Ok {| cc_Host := "/run/postgresql"; cc_Port := 5432; cc_User := "root"; cc_Password := "";
                                    cc_Database := ""; cc_options := tt |};
  pool_Ping := ret tt; pool_Close := ret tt }.
#[export] Instance no_seeding : SeedDB db := {
  seed_Cause := fun _ : db => None;
  seed_BeginTxx := fail (ENew "connection refused");
  seed_InsertPermission := fun _ _ => fail (ENew "connection refused");
  seed_Commit := fail (ENew "connection refused");
  seed_Rollback := fail (ENew "connection refused");
  seed_InsertUser := fun _ _ _ _ => fail (ENew "connection refused");
}.
#[export] Instance no_hasher : PasswordHasher db := {
  ph_Hash := fun _ => fail (ENew "no hasher");
  ph_Verify := fun _ _ => fail (ENew "no hasher");
}.

Definition files : res (list string) := Ok ["migrations/000001_users.sql"].
Definition read_file (path : string) : res string := Ok "CREATE TABLE users".
Definition config : Config.PostgresConfig := Config.newMigrationPostgresConfig LocalConfig.config.
Definition migrated : db := at_schema (complete [m1]).

Lemma opens : Database.NewDatabase files read_file true false config migrated = (Ok tt, migrated).
Proof. vm_compute. reflexivity. Qed.

(** With a migration pending, the start fails and the pool is closed. *)
Example pending_refused : is_ok (Database.NewDatabase files read_file true false config
  (at_schema {| history := Some ∅; executed := [] |})).1 = false.
Proof. vm_compute. reflexivity. Qed.

End LocalDatabase.

Lemma database_opened_or_closed_witness :
  Config.postgres_validate LocalDatabase.config = Ok tt.
Proof.
  exact (proj1 (database_opened_or_closed (S := LocalMigrations.db) LocalDatabase.files LocalDatabase.read_file
                  true false LocalDatabase.config LocalDatabase.migrated (Ok tt) LocalDatabase.migrated
                  LocalDatabase.opens)).
Defined.
