(* ===== verification/Bootstrap.v ===== *)
(** cmd/app/main.go [run] and the rest of cmd/app/app.go: the dependencies a
    process starts with ([defaultBootstrapDependencies], [buildRuntime]), put
    into the start and the lifecycle of Lifecycle.v; internal/infra/logger; and
    what the whole process guarantees. *)
From S2P Require Export LifecycleGuarantees SessionCleaner LocalServer Startup Metrics Runtime.
From S2P Require Export Jwt UserStore PermissionStore.
Import Response Dto Middleware Migrations.

(** * internal/infra/logger/zap_logger.go *)

(** go.uber.org/zap: [NewProduction] and the [Sync] of what it gives. *)
Class ZapLib (S : Type) := {
  zap_NewProduction : M S unit;
  zap_Sync : M S unit;
}.

Module ZapLogger.
Section Logger.
Context {S : Type} `{ZapLib S}.

Definition NewZapLogger : M S unit := do! zap_NewProduction in ret tt.

(** Syncing standard output is not an error where it cannot be synced. *)
Definition Sync : M S unit :=
  fun s =>
    match zap_Sync s with
    | (Err e, s1) => if errors_is e SyscallEINVAL || errors_is e SyscallENOTTY then (Ok tt, s1) else (Err e, s1)
    | (Ok _, s1) => (Ok tt, s1)
    end.

#[export] Instance zap_logger : ProcessLogger S :=
  {| Migrations.NewZapLogger := NewZapLogger; Logger_Sync := Sync |}.
End Logger.
End ZapLogger.

(** * cmd/app *)

Module Bootstrap.
Import Lifecycle.

(** What the process is given and src/ does not define. *)
Class Surroundings (C S : Type) `{GinContext C} `{GinRouter C S} `{TextLibraries} := {
  (** the embedded migrations and the catalogs they are loaded from *)
  glob : res (list string);
  ReadFile : string -> res string;
  loaded : res localizer;
  (** the libraries' collectors, promhttp's handler, gin's engine *)
  processCollector : list Metrics.Opts;
  goCollector : list Metrics.Opts;
  metricsExport : M (C * S) unit;
  SetTrustedProxies : list string -> res unit;
  gin_New_Use : list (HandlerFunc C S) -> RouterGroup;
  (** the flag of the running server, the context of a request to the probe, and
      the contexts of the start with the causes they were cancelled with *)
  server_accepting : S -> bool;
  request_Err : S -> option sentinel;
  startup_ctx : S -> option (sentinel * option sentinel);
  validation_ctx : S -> option (sentinel * option sentinel);
  (** the methods of the server and of the cleaner: Server.v, SessionCleaner.v *)
  method : event -> S -> outcome * S;
  (** caarlos0/env *)
  parse : gmap string string -> res Config.Config;
}.

Section Process.
Context {C S : Type} `{GinContext C} `{GinRouter C S} `{TextLibraries} {W : Surroundings C S}.
Context `{RedisClient S} `{PgClient S} `{PgTypes} `{Domain.Environment S} `{EmbeddedScripts} `{JWTManager.JWTLib}
  `{PasswordPorts S} `{Argon2} `{Unicode} `{NetLib} `{ULIDParser} `{UUIDParser}.
Context `{MigrationDB S} `{MigrationPool S} `{SeedDB S} `{RedisStartup S} `{SHA256} `{ZapLib S}
  `{Metrics.MetricsState S}.

#[local] Existing Instance Metrics.prometheus_http.
#[local] Existing Instance Metrics.prometheus_cleanup.

(** ** readiness.go *)

#[local] Instance newRuntimeReadinessChecker : ReadinessPorts S := {|
  accepting := server_accepting; probe_Err := request_Err;
  postgres_probe := Some pool_Ping; redis_probe := Some rs_Ping |}.

(** ** app.go: buildRuntime *)

Record runtimeResources := { server : Routes.setup C S; cleaner : SessionCleaner.t S }.

(** The package-level catalogs; without them no start gets here. *)
Definition problemLocalizer : localizer := match loaded with Ok l => l | Err _ => ∅ end.

Section Wiring.
Context (cfg : Config.Config) (passwordHasher : PasswordHash.PasswordService).

#[local] Instance jwtManager : JWTService S := JWTManager.jwt_manager (Config.JWTSecret cfg).
#[local] Instance hasher : PasswordHasher S := PasswordHash.argon2_hasher passwordHasher.
#[local] Instance authentication : AuthenticationUseCase S :=
  authenticationUseCase {| Authentication.accessTTL := Config.JWTExpiration cfg;
                           Authentication.refreshTTL := Config.RefreshTokenExpiration cfg;
                           Authentication.sessionTTL := Config.SessionExpiration cfg |}.

(** [deliveryHTTP.NewServer] on the use cases over the repositories. *)
Definition construct_server : res (Routes.setup C S) :=
  Server.NewServer problemLocalizer metricsExport SetTrustedProxies gin_New_Use
    (Config.newHTTPServerConfig cfg) true (Config.newRateLimitConfig cfg).

Definition buildRuntime : M S runtimeResources :=
  let! metricsService := of_res (Metrics.NewPrometheusMetrics processCollector goCollector) in
  fun s =>
    let s := Metrics.set_metrics metricsService s in
    match construct_server with
    | Err e => (Err (wrap1 "construct HTTP server" e), s)
    | Ok server => (Ok {| server := server; cleaner := SessionCleaner.NewSessionCleaner s |}, s)
    end.

(** Every route of the server is the one the registry declares, behind the
    global handlers and with the chain of its class. *)
Definition routes_enforced (server : Routes.setup C S) : Prop :=
  Forall2 (Routes.enforced problemLocalizer metricsExport Server.readiness (Config.newRateLimitConfig cfg)
             (global_handlers problemLocalizer (Config.HTTPMaxBodyBytes cfg)))
    (Routes.Entries server.1) server.2.

Definition database_opened {ML : MigrationDBLaws S} : S -> S -> Prop :=
  opened_from glob ReadFile (Config.newPostgresClientConfig cfg).

(** gin's engine has no group prefix and the handlers it is given. *)
Definition plain_engine : Prop :=
  forall hs, gr_BasePath (gin_New_Use hs) = "/" /\ gr_Handlers (gin_New_Use hs) = hs.

Lemma construct_server_validated {GR : GinRouterLaws C S} (c : Config.Config) :
  plain_engine -> Config.validate c = Ok cfg -> SetTrustedProxies (Config.HTTPTrustedProxies cfg) = Ok tt ->
  exists server, construct_server = Ok server /\ routes_enforced server.
Proof.
  intros He Hv Hp.
  destruct (Server.NewServer_validated problemLocalizer metricsExport SetTrustedProxies gin_New_Use c cfg He Hp Hv)
    as (r & routes & Hn & Hf).
  exists (r, routes). by split.
Qed.

(** ** app.go: defaultBootstrapDependencies *)

Definition returns {A} (m : M S A) (s : S) : outcome * S :=
  match m s with (Ok _, s') => (Done, s') | (Err e, s') => (Failed e, s') end.

(** What each call of the start and of the clean-up runs. *)
Definition dependency (e : event) : S -> outcome * S :=
  match e with
  | NewLogger => returns ZapLogger.NewZapLogger
  | NewPostgres cfg' => returns (Database.NewDatabase glob ReadFile true true cfg')
  | NewRedis cfg' => returns (RedisClientStart.NewClient true (Config.newRedisClientConfig cfg'))
  | ValidateAssets => returns (RedisClientStart.validateRuntimeAssets loaded true true)
  | BuildRuntime => returns buildRuntime
  | CloseRedis => returns rs_Close
  | ClosePostgres => returns pool_Close
  | SyncLogger => returns ZapLogger.Sync
  | _ => method e
  end.

(** The state after a log of calls, from [s0]. *)
Fixpoint state_after (s0 : S) (w : log) : S :=
  match w with
  | [] => s0
  | (e, _) :: w' => snd (dependency e (state_after s0 w'))
  end.

#[local] Instance defaultBootstrapDependencies (s0 : S) : Lifecycle.Environment := {|
  answer := fun w e => fst (dependency e (state_after s0 w));
  startup_Err := fun w => startup_ctx (state_after s0 w);
  validation_Err := fun w => validation_ctx (state_after s0 w) |}.

End Wiring.

(** The hasher of a configuration; a start refuses one that has none before it
    asks for it. *)
Definition hasher_of (cfg : Config.Config) : PasswordHash.PasswordService :=
  match PasswordHash.newPasswordService (Config.newPasswordHasherConfig cfg) with
  | Ok service => service
  | Err _ => {| PasswordHash.pepper := ""; PasswordHash.capacity := 0 |}
  end.

Definition environment (cfg : Config.Config) (s0 : S) : Lifecycle.Environment :=
  defaultBootstrapDependencies cfg (hasher_of cfg) s0.

Definition InitializeApp (cfg : Config.Config) (s0 : S) : startup :=
  initializeApp (H := environment cfg s0) true (Some cfg) true [].

(** ** main.go *)

(** The process after its start: its one goroutine calls [app.Run] with the
    context that the signals end. *)
Definition launched (a : Application) (w : log) : system :=
  {| state := fresh a w []; threads := [RunCalled (Some 0%nat)] |}.

(** The process runs the application: its goroutine moves, the signals come and
    the server reports. *)
Inductive running (env : gmap string string) (s0 : S) (cfg : Config.Config) : system -> Prop :=
  | started_up a w s :
      Config.Load parse env = Ok cfg -> InitializeApp cfg s0 = ((Some a, None), w) ->
      rtc (runs_on (H := environment cfg s0)) (launched a w) s -> running env s0 cfg s.

Inductive run (env : gmap string string) (s0 : S) : option err -> log -> Prop :=
  | load_fails e :
      Config.Load parse env = Err e -> run env s0 (Some (wrap1 "load config" e)) []
  | initialize_fails cfg e w :
      Config.Load parse env = Ok cfg -> InitializeApp cfg s0 = ((None, Some e), w) ->
      run env s0 (Some (wrap1 "initialize app" e)) w
  | app_runs cfg s r :
      running env s0 cfg s -> threads s = [Returned r] -> run env s0 r (calls s).

(** The status the process exits with. *)
Definition exit_code (r : option err) : Z := match r with Some _ => 1 | None => 0 end.

Lemma loaded_validated env cfg : Config.Load parse env = Ok cfg -> exists c, Config.validate c = Ok cfg.
Proof.
  unfold Config.Load. intros Hload. apply res_bind_Ok_inv in Hload as (_ & _ & Hload).
  apply res_bind_Ok_inv in Hload as (c & _ & Hload). by exists c.
Qed.

(** * What a start gives *)

Section Started.
Context {ML : MigrationDBLaws S} {GR : GinRouterLaws C S}.
(** What client_golang and gin document. *)
Context (Hcollectors : Metrics.libraries_aside processCollector goCollector) (Hengine : plain_engine).

(** The runtime of a valid configuration is always built: the server with the
    routes of the registry behind the global handlers, and the collectors. *)
Definition built (cfg : Config.Config) (s s' : S) : Prop :=
  exists runtime metricsService,
    buildRuntime cfg (hasher_of cfg) s = (Ok runtime, s')
    /\ routes_enforced cfg (hasher_of cfg) (server runtime)
    /\ SessionCleaner.started (cleaner runtime) = false
    /\ s' = Metrics.set_metrics metricsService s
    /\ Metrics.GetRegistry metricsService = processCollector ++ goCollector ++ Metrics.own_collectors.

Lemma buildRuntime_validated (c cfg : Config.Config) (s : S) :
  Config.validate c = Ok cfg -> SetTrustedProxies (Config.HTTPTrustedProxies cfg) = Ok tt ->
  exists s', built cfg s s'.
Proof.
  intros Hv Hp. unfold built, buildRuntime.
  destruct (Metrics.NewPrometheusMetrics_Ok _ _ Hcollectors) as [-> _].
  destruct (construct_server_validated cfg (hasher_of cfg) c Hengine Hv Hp) as (srv & Hs & Hr).
  unfold bind, of_res. rewrite Hs. do 3 eexists. by split.
Qed.

(** The state before the last call of a log. *)
Lemma answer_returns {A} cfg s0 w e (m : M S A) :
  dependency cfg (hasher_of cfg) e = returns m ->
  error_of (answer (Environment := environment cfg s0) w e) = None ->
  exists a, m (state_after cfg (hasher_of cfg) s0 w)
            = (Ok a, state_after cfg (hasher_of cfg) s0 (snd (call (H := environment cfg s0) e w))).
Proof.
  intros Hm. cbn. rewrite Hm. unfold returns.
  destruct (m (state_after cfg (hasher_of cfg) s0 w)) as [[a|x] s'] eqn:E; [|discriminate]. cbn. by exists a.
Qed.

Lemma state_after_call cfg s0 e w :
  state_after cfg (hasher_of cfg) s0 (snd (call (H := environment cfg s0) e w))
  = snd (dependency cfg (hasher_of cfg) e (state_after cfg (hasher_of cfg) s0 w)).
Proof. done. Qed.

(** The run of an opening call that was answered. *)
Ltac ran e :=
  match goal with
  | Ha : error_of (e, answer ?w e).2 = None |- _ =>
      let Hran := fresh "Hran" in
      match type of Ha with context [answer (Environment := environment ?cfg ?s0) _ _] =>
        destruct (answer_returns cfg s0 w e _ eq_refl Ha) as [? Hran] end;
      repeat match goal with x : () |- _ => destruct x end; clear Ha
  end.

(** C18. A start with a configuration that loaded fails only by what is outside:
    the construction of the hasher and of the runtime cannot fail, so where it
    gives an error, the logger, PostgreSQL, Redis or the validation of the assets
    had failed, or a context of the start had ended.  Where it gives an
    application, PostgreSQL answered and recorded exactly the embedded
    migrations, Redis answered, the catalogs had loaded, Redis had compiled every
    script the repositories run, and the server has the routes of the registry,
    each behind its guards and the global handlers. *)
Theorem start_of_loaded_configuration (env : gmap string string) (cfg : Config.Config) (s0 : S) :
  Config.Load parse env = Ok cfg -> SetTrustedProxies (Config.HTTPTrustedProxies cfg) = Ok tt ->
  let after := state_after cfg (hasher_of cfg) s0 in
  match InitializeApp cfg s0 with
  | ((Some a, None), w) =>
      address (resources a) = Config.ServerAddress cfg
      /\ exists sL sP sR sA registry sources,
           ZapLogger.NewZapLogger s0 = (Ok tt, sL)
           /\ database_opened cfg (hasher_of cfg) sL sP
           /\ RedisClientStart.NewClient true (Config.newRedisClientConfig cfg) sP = (Ok tt, sR)
           /\ is_ok loaded = true
           /\ ScriptRegistry.embeddedScriptRegistry = Ok registry
           /\ Forall2 (fun name source => registry !! name = Some source) ScriptRegistry.requiredScriptNames sources
           /\ compiled sources sR sA
           /\ built cfg sA (after w)
  | ((None, Some _), w) =>
      (exists w2 ev e w1, w = w2 ++ (ev, Failed e) :: w1 /\ opening ev = true /\ ev <> BuildRuntime)
      \/ (exists w2 w1, w = w2 ++ w1 /\ (startup_ctx (after w1) <> None \/ validation_ctx (after w1) <> None))
  | _ => False
  end.
Proof using ML GR Hcollectors Hengine.
  intros Hload Hproxies after.
  destruct (loaded_validated _ _ Hload) as [c Hv]. destruct (Config.validated_resources _ _ Hv) as (_ & _ & _ & Hhash).
  pose proof (initializeApp_settled (H := environment cfg s0) cfg Hhash) as Hs.
  fold (InitializeApp cfg s0) in Hs. unfold settled in Hs.
  destruct (InitializeApp cfg s0) as [[[a|] [e|]] w]; cbn [fails] in Hs; try done.
  - destruct Hs as (-> & Hd & Ha). split; [done|].
    unfold all_done, opened in Hd. do 5 (apply Forall_cons in Hd as [? Hd]).
    ran NewLogger. ran (NewPostgres (Config.newPostgresClientConfig cfg)). ran (NewRedis cfg). ran ValidateAssets.
    destruct (assets_validated _ _ _ _ _ Hran2) as (Hl & registry & sources & Hreg & Hsrc & Hcomp).
    match goal with _ : error_of (BuildRuntime, answer ?w _).2 = None |- _ =>
      destruct (buildRuntime_validated c cfg (state_after cfg (hasher_of cfg) s0 w) Hv Hproxies) as [sB Hb] end.
    do 4 eexists. exists registry, sources. split; [exact Hran|].
    split; [exact (NewDatabase_outcome _ _ _ _ _ _ _ _ Hran0)|]. split; [exact Hran1|].
    repeat (split; [eassumption|]).
    enough (Hafter : sB = after (opened (H := environment cfg s0) cfg)) by (rewrite <- Hafter; exact Hb).
    destruct Hb as (rt & m & Hb & _). unfold after, opened. rewrite state_after_call. cbn [dependency].
    unfold returns at 1. by rewrite Hb.
  - destruct Hs as [(w2 & ev & x & w1 & -> & Ho & Hx)|(w2 & w1 & -> & Hi)]; [left|right; by exists w2, w1].
    exists w2, ev, x, w1. split; [done|]. split; [done|]. intros ->.
    destruct (buildRuntime_validated c cfg (state_after cfg (hasher_of cfg) s0 w1) Hv Hproxies)
      as (s' & rt & m & Hb & _).
    cbn in Hx. unfold returns in Hx. by rewrite Hb in Hx.
Qed.

End Started.
(** * How a process ends *)

(** A call that reported no error; two of the clean-up report none at all. *)
Definition unfailed (c : event * outcome) : Prop :=
  c.1 = CancelWorkers \/ c.1 = CleanerShutdown \/ error_of c.2 = None.

Lemma errors_join_all_None es : errors_join es = None -> Forall (eq None) es.
Proof.
  unfold errors_join. induction es as [|[e|] es IH]; cbn; [constructor|discriminate|].
  intros Hj. constructor; [done|]. by apply IH.
Qed.

Section Ending.
Context (cfg : Config.Config) (s0 : S).
#[local] Instance outside : Lifecycle.Environment := environment cfg s0.

Lemma runCleanups_unfailed l w es w' :
  runCleanups l w = (es, w') -> Forall (eq None) es -> Forall unfailed w -> Forall unfailed w'.
Proof.
  revert w es w'. induction l as [|[op [e|]] l IH]; intros w es w'; cbn [runCleanups runCleanup].
  - by intros [= <- <-].
  - destruct (call e w) as [o w1] eqn:E. injection E as <- <-.
    destruct (runCleanups l _) as [es2 w2] eqn:E2. intros [= <- <-] Hes Hw.
    apply Forall_cons in Hes as [He Hes]. apply (IH _ _ _ E2 Hes). constructor; [|done].
    right. right. cbn. cbn in He. by destruct (error_of _).
  - destruct (runCleanups l w) as [es2 w2] eqn:E2. intros [= <- <-] [_ Hes]%Forall_cons Hw. by apply (IH _ _ _ E2).
Qed.

Lemma start_unfailed a w a' w' :
  start a w = ((a', None), w') -> Forall unfailed w -> Forall unfailed w' /\ cleanupOnce a' = cleanupOnce a.
Proof.
  unfold start. destruct (closed a); [discriminate|]. destruct (runStarted a); [discriminate|].
  unfold call. destruct (answer w CleanerStart) as [|e|] eqn:E1; cbn [error_of]; [|discriminate|];
    match goal with |- context [answer ?w1 (ServerStart ?d)] =>
      destruct (answer w1 (ServerStart d)) eqn:E2; try discriminate end;
    intros [= <- <-] Hw; (split; [|done]); repeat (constructor; [by right; right|]); done.
Qed.

Lemma cleanup_unfailed a w w' : cleanup a w = (None, w') -> Forall unfailed w -> Forall unfailed w'.
Proof.
  unfold cleanup. intros Hc Hw.
  set (w1 := if cancelWorkers a then snd (call CancelWorkers w) else w) in Hc.
  assert (Hw1 : Forall unfailed w1).
  { subst w1. destruct (cancelWorkers a); [|done]. constructor; [by left|done]. }
  clearbody w1. destruct (if serverStarted a then stop_server w1 else ([], w1)) as [serverErrs w2] eqn:Es.
  set (w3 := if cleanerStartAttempted a then snd (call CleanerShutdown w2) else w2) in Hc.
  destruct (runCleanups _ w3) as [errs w4] eqn:Er. injection Hc as Hj <-.
  apply errors_join_all_None, Forall_app in Hj as [Hj1 Hj2].
  apply (runCleanups_unfailed _ _ _ _ Er Hj2).
  assert (Hw2 : Forall unfailed w2).
  { destruct (serverStarted a); [|by injection Es as _ <-]. unfold stop_server, call in Es.
    destruct (answer w1 ServerShutdown) as [|e|] eqn:Ea; cbn [error_of] in Es;
      [|injection Es as <- _; by apply Forall_cons in Hj1 as [? _]|];
      injection Es as _ <-; (constructor; [by right; right|done]). }
  subst w3. destruct (cleanerStartAttempted a); [|done]. constructor; [by right; left|done].
Qed.

(** Between the steps of the one goroutine. *)
Definition going (w : shared) (t : thread) : Prop :=
  match t with
  | Returned r => held (calls w) = Some [] /\ (r = None -> Forall unfailed (calls w))
  | Stopping (ExitWith _) | StopLocked (ExitWith _) => sound (app w) (calls w)
  | _ => sound (app w) (calls w) /\ cleanupOnce (app w) = false /\ Forall unfailed (calls w)
  end.

Lemma step_going w t w' t' : going w t -> thread_step w t w' t' -> going w' t'.
Proof.
  intros Hg Hst. destruct Hst as [| | | |ctx a l Hst|ctx a e l Hst| |ctx received w' Hr|x|x a e l Hsh];
    cbn [going lock unlock app calls] in *; try tauto.
  - destruct Hg as (Hs & Ho & Hw). split; [by eapply start_sound|].
    destruct (start_unfailed _ _ _ _ Hst Hw) as [Hw' ->]. done.
  - eapply start_sound; [apply Hg|exact Hst].
  - destruct (receive_same _ _ _ Hr) as (-> & -> & _). destruct received as [[?|]|]; cbn; tauto.
  - assert (Hs : sound (app w) (calls w)) by (by destruct x; [apply Hg|]).
    destruct (shutdown_sound _ _ _ _ _ Hs Hsh) as ((_ & _ & Hh) & _). split; [done|].
    destruct x as [|x]; cbn [exit_error]; [|by destruct e].
    intros ->. destruct Hg as (_ & Ho & Hw). unfold Shutdown in Hsh. rewrite Ho in Hsh.
    destruct (cleanup (app w) (calls w)) as [e1 w1] eqn:Ec. injection Hsh as _ -> ->. by apply (cleanup_unfailed _ _ _ Ec).
Qed.

(** The goroutine's context is the one of the signals. *)
Definition own_context (t : thread) : Prop :=
  match t with
  | RunCalled ctx => ctx = Some 0%nat
  | Starting ctx | StartLocked ctx | Serving ctx => ctx = 0%nat
  | _ => True
  end.

Lemma step_own_context w t w' t' : own_context t -> thread_step w t w' t' -> own_context t'.
Proof. intros Ho Hst. destruct Hst; cbn in *; congruence || done. Qed.

(** The process has its one goroutine throughout. *)
Definition alone (s : system) : Prop := exists t, threads s = [t] /\ own_context t /\ going s t.

Lemma runs_on_alone (s s' : system) : alone s -> runs_on s s' -> alone s'.
Proof.
  intros (t & Ht & Hc & Hg) [s1 [i t1 w t' Hi Hst]|w Ho].
  - rewrite Ht in *. destruct i as [|i]; [|discriminate]. injection Hi as ->.
    exists t'. split; [done|]. split; [by eapply step_own_context|by eapply step_going].
  - exists t. split; [done|]. split; [done|]. destruct Ho; exact Hg.
Qed.

Lemma running_alone (s s' : system) : alone s -> rtc runs_on s s' -> alone s'.
Proof. intros Hs Hr. induction Hr as [|s1 s2 s3 Hstep _ IH]; [done|]. by apply IH, (runs_on_alone s1). Qed.

Lemma running_mutex (s s' : system) : mutual_exclusion s -> rtc runs_on s s' -> mutual_exclusion s'.
Proof.
  intros Hs Hr. induction Hr as [|s1 s2 s3 [s4 Hm|w Ho] _ IH]; [done|by apply IH, (moves_mutex s1)|].
  apply IH. by destruct Ho.
Qed.

End Ending.

Lemma initial_going env cfg s0 a w :
  Config.Load parse env = Ok cfg -> InitializeApp cfg s0 = ((Some a, None), w) ->
  going (fresh a w []) (RunCalled (Some 0%nat)).
Proof.
  intros [c Hv]%loaded_validated Hi. destruct (Config.validated_resources _ _ Hv) as (_ & _ & _ & Hhash).
  pose proof (initializeApp_balanced (H := environment cfg s0) true (Some cfg) true) as Hb.
  pose proof (initializeApp_settled (H := environment cfg s0) cfg Hhash) as Hs.
  fold (InitializeApp cfg s0) in Hb, Hs. rewrite Hi in Hb, Hs.
  destruct Hb as (Hh & Hr & Hc & Hcs & Hss & Hcw & Hon & Hres), Hs as (_ & Hd & _).
  split; [left|].
  - unfold open_state, owned. cbn [fresh app calls]. rewrite Hr, Hc, Hcs, Hss, Hcw, Hon. cbn. tauto.
  - split; [done|]. eapply Forall_impl; [exact Hd|]. intros x Hx. by right; right.
Qed.

Lemma running_facts env s0 cfg s : running env s0 cfg s -> alone s /\ mutual_exclusion s.
Proof.
  intros [a w s1 Hload Hi Hr]. split.
  - eapply (running_alone cfg s0); [|exact Hr]. eexists. split; [done|]. split; [done|]. by eapply initial_going.
  - by eapply (running_mutex cfg s0); [|exact Hr].
Qed.

(** Left to itself the process's goroutine gets to its end, or to the select in
    which it waits for the outside. *)
Lemma running_progress env s0 cfg s :
  running env s0 cfg s ->
  sn (moves (H := environment cfg s0)) s
  /\ (red (moves (H := environment cfg s0)) s
      \/ (exists r, threads s = [Returned r])
      \/ (threads s = [Serving 0] /\ ~ In 0%nat (ended s) /\ receive s = None)).
Proof.
  intros Hr. split; [apply moves_terminate|].
  destruct (running_facts _ _ _ _ Hr) as [(t & Ht & Hc & _) Hm].
  assert (Hi : threads s !! 0%nat = Some t) by (by rewrite Ht).
  assert (Hcases : (exists w' t', thread_step (H := environment cfg s0) s t w' t')
                   \/ (exists r, t = Returned r) \/ waits_for_end s t).
  { destruct (locked t) eqn:Hl; [left; by apply locked_moves|].
    unfold mutual_exclusion in Hm. rewrite Ht in Hm. cbn in Hm. rewrite Hl in Hm.
    destruct (thread_moves (H := environment cfg s0) s t) as [?|[?|?]]; [|auto..].
    by destruct (lifecycleMu s). }
  destruct Hcases as [(w' & t' & Hst)|[[r ->]|(ctx & -> & He & Hrc)]].
  - left. eexists. by apply (goroutine_moves _ 0 t w' t').
  - right. left. by exists r.
  - right. right. cbn in Hc. by subst ctx.
Qed.

(** C19. The process ends clean, and is never in the way of its end.  A process
    whose configuration or start fails exits with status 1.  One that started
    makes finitely many moves by itself, and stops only when [run] has returned
    or in [Run]'s select, where it waits for a signal or for the server to stop.
    When [run] returns, everything the process had opened was released once, in
    the reverse order; and it exits with status 0 only if the configuration
    loaded, the start succeeded and no call, of the clean-up included, reported
    an error. *)
Theorem process_ends_clean (env : gmap string string) (s0 : S) :
  ((exists r w, run env s0 r w /\ exit_code r = 1)
   \/ (exists cfg a w, Config.Load parse env = Ok cfg /\ InitializeApp cfg s0 = ((Some a, None), w)
                      /\ running env s0 cfg (launched a w)))
  /\ (forall cfg s, running env s0 cfg s ->
        sn (moves (H := environment cfg s0)) s
        /\ (red (moves (H := environment cfg s0)) s
            \/ (exists r, threads s = [Returned r])
            \/ (threads s = [Serving 0] /\ ~ In 0%nat (ended s) /\ receive s = None)))
  /\ forall r w, run env s0 r w ->
     held w = Some []
     /\ (exit_code r = 0 ->
         (exists cfg a w0, Config.Load parse env = Ok cfg /\ InitializeApp cfg s0 = ((Some a, None), w0))
         /\ Forall unfailed w).
Proof.
  split; [|split; [by intros cfg s; apply running_progress|]].
  - destruct (Config.Load parse env) as [cfg|e] eqn:Hload; [|left; do 2 eexists; split; [by apply load_fails|done]].
    pose proof (initializeApp_balanced (H := environment cfg s0) true (Some cfg) true) as Hb.
    fold (InitializeApp cfg s0) in Hb. destruct (InitializeApp cfg s0) as [[[a|] [e|]] w] eqn:Hi; try done.
    + right. exists cfg, a, w. split; [done|]. split; [done|]. by apply (started_up env s0 cfg a w).
    + left. do 2 eexists. split; [by eapply initialize_fails|done].
  - intros r w Hrun. destruct Hrun as [e Hload|cfg e w Hload Hi|cfg s r Hr Hret]; [done| |].
    + pose proof (initializeApp_balanced (H := environment cfg s0) true (Some cfg) true) as Hb.
      fold (InitializeApp cfg s0) in Hb. rewrite Hi in Hb. done.
    + destruct (running_facts _ _ _ _ Hr) as [(t & Ht & _ & Hg) _].
      assert (t = Returned r) as -> by congruence. destruct Hg as [Hh Hu]. split; [done|].
      intros Hx. destruct Hr as [a w0 s Hload Hi _]. split; [by exists cfg, a, w0|]. apply Hu. by destruct r.
Qed.

End Process.
End Bootstrap.

(** * A local process, for the witness *)

Module LocalProcess.
Import LocalMigrations LocalHttp LocalConfig.

Definition unused {A} : M db A := fail (ENew "unused").

#[export] Instance text : TextLibraries := LocalCatalogs.libraries.
#[export] Instance redis : RedisClient db := {| rc_run := fun _ => unused; rc_scan := fun _ => unused |}.
#[export] Instance postgres : PgClient db := fun _ => unused.
#[export] Instance types : PgTypes :=
  {| pg_uuid := Some; pg_timestamp := fun t => t; pg_ilike := fun _ _ => false; pg_by_role := fun _ _ _ => [] |}.
#[export] Instance clock : Domain.Environment db :=
  {| time_Now := unused; uuid_New := unused; ULIDGenerator := unused |}.
#[export] Instance scripts : EmbeddedScripts := sample_assets.
#[export] Instance tokens : JWTManager.JWTLib := LocalJwt.lib.
#[export] Instance passwords : PasswordPorts db := {|
  ctx_state := ret (Some {| PasswordHash.ctx_Err := None; PasswordHash.ctx_Cause := None |});
  readSalt := fun n => ret (replicate (Z.to_nat n) 7);
  select_slot := ret true; receive_slot := ret tt |}.
#[export] Instance argon2 : Argon2 := LocalPassword.argon2.
#[export] Instance sha : SHA256 := fun _ => "c1".
#[export] Instance pool : MigrationPool db := {
  pgx_options := unit;
  pgx_ParseConfig := fun _ => Ok {| cc_Host := "/run/postgresql"; cc_Port := 5432; cc_User := "root"; cc_Password := "";
                                    cc_Database := ""; cc_options := tt |};
  pool_Ping := ret tt; pool_Close := ret tt }.
#[export] Instance seeding : SeedDB db := {
  seed_Cause := fun _ : db => None;
  seed_BeginTxx := ret tt; seed_InsertPermission := fun _ _ => ret tt; seed_Commit := ret tt;
  seed_Rollback := ret tt; seed_InsertUser := fun _ _ _ _ => ret tt }.
#[export] Instance redis_start : RedisStartup db := {
  rs_Cause := fun _ => None; rs_Ping := ret tt; rs_Close := ret tt; rs_ScriptLoad := fun _ => ret tt }.
(** Standard output cannot be synced. *)
#[export] Instance zap : ZapLib db := {| zap_NewProduction := ret tt; zap_Sync := fail SyscallENOTTY |}.
#[export] Instance metrics_state : Metrics.MetricsState db :=
  {| Metrics.metrics_of := fun _ => Metrics.started []; Metrics.set_metrics := fun _ s => s |}.
#[export] Instance ulids : ULIDParser := fun s => (String.length s =? 26)%nat.

#[export] Instance surroundings : Bootstrap.Surroundings context db := {|
  Bootstrap.glob := LocalDatabase.files; Bootstrap.ReadFile := LocalDatabase.read_file;
  Bootstrap.loaded := Ok LocalCatalogs.loaded;
  Bootstrap.processCollector := LocalMetrics.process; Bootstrap.goCollector := LocalMetrics.go;
  Bootstrap.metricsExport := ret tt; Bootstrap.SetTrustedProxies := fun _ => Ok tt;
  Bootstrap.gin_New_Use := fun hs => ("/", hs);
  Bootstrap.server_accepting := fun _ => false; Bootstrap.request_Err := fun _ => None;
  Bootstrap.startup_ctx := fun _ => None; Bootstrap.validation_ctx := fun _ => None;
  Bootstrap.method := fun _ s => (Lifecycle.Done, s);
  Bootstrap.parse := fun _ => Ok LocalConfig.config |}.

Definition migrated : db := at_schema (complete [m1]).
Definition initialized : Lifecycle.startup :=
  Bootstrap.InitializeApp (C := context) (S := db) LocalConfig.loaded migrated.

Lemma configuration_loads : Config.Load Bootstrap.parse ∅ = Ok LocalConfig.loaded.
Proof. vm_compute. reflexivity. Qed.

Lemma engine_plain : Bootstrap.plain_engine (C := context) (S := db).
Proof. intros hs. done. Qed.

Lemma collectors : Metrics.libraries_aside LocalMetrics.process LocalMetrics.go.
Proof.
  split; [|split]; [apply (bool_decide_unpack _); vm_compute; exact I..|].
  intros o [<-|[<-|[]]]; vm_compute; intuition discriminate.
Qed.

Example process_starts : is_some initialized.1.1 = true.
Proof. vm_compute. reflexivity. Qed.
End LocalProcess.

Import LocalHttp LocalConfig LocalProcess.

Lemma start_of_loaded_configuration_witness :
  exists a w registry, LocalProcess.initialized = ((Some a, None), w)
    /\ Lifecycle.address (Lifecycle.resources a) = ":8080"
    /\ ScriptRegistry.embeddedScriptRegistry (H := LocalProcess.scripts) = Ok registry.
Proof.
  pose proof (Bootstrap.start_of_loaded_configuration (C := LocalHttp.context) (S := LocalMigrations.db)
    (W := LocalProcess.surroundings) (GR := LocalHttp.local_router_laws) LocalProcess.collectors LocalProcess.engine_plain ∅ LocalConfig.loaded
    LocalProcess.migrated LocalProcess.configuration_loads eq_refl) as H.
  cbv zeta in H. pose proof LocalProcess.process_starts as Hs. fold LocalProcess.initialized in H.
  destruct LocalProcess.initialized as [[[a|] [e|]] w]; try discriminate Hs; [destruct H|].
  destruct H as (Ha & sL & sP & sR & sA & registry & sources & _ & _ & _ & _ & Hr & _).
  exists a, w, registry. split; [reflexivity|]. split; [exact Ha|exact Hr].
Defined.

(** The local process starts and runs. *)
Lemma local_process_runs :
  match LocalProcess.initialized with
  | ((Some a, None), w) =>
      Bootstrap.running (C := LocalHttp.context) (S := LocalMigrations.db) ∅ LocalProcess.migrated LocalConfig.loaded
        (Bootstrap.launched a w)
  | _ => False
  end.
Proof.
  pose proof LocalProcess.process_starts as Hs.
  pose proof (LifecycleGuarantees.initializeApp_balanced
    (H := Bootstrap.environment (C := LocalHttp.context) (S := LocalMigrations.db) LocalConfig.loaded
            LocalProcess.migrated) true (Some LocalConfig.loaded) true) as Hb.
  change (Lifecycle.initializeApp true (Some LocalConfig.loaded) true []) with LocalProcess.initialized in Hb.
  destruct LocalProcess.initialized as [[[a|] [e|]] w] eqn:Hi; try discriminate Hs; [destruct Hb|].
  eapply (Bootstrap.started_up _ _ _ a w); [exact LocalProcess.configuration_loads|exact Hi|].
  apply relations.rtc_refl.
Qed.

Lemma process_ends_clean_witness :
  match LocalProcess.initialized with
  | ((Some a, None), w) =>
      sn (Lifecycle.moves (H := Bootstrap.environment (C := LocalHttp.context) (S := LocalMigrations.db)
                                  LocalConfig.loaded LocalProcess.migrated)) (Bootstrap.launched a w)
  | _ => False
  end.
Proof.
  pose proof (proj1 (proj2 (Bootstrap.process_ends_clean (C := LocalHttp.context) (S := LocalMigrations.db) ∅
                LocalProcess.migrated))) as H.
  pose proof local_process_runs as Hr.
  destruct LocalProcess.initialized as [[[a|] [e|]] w]; try exact Hr.
  exact (proj1 (H LocalConfig.loaded (Bootstrap.launched a w) Hr)).
Defined.
