(* ===== verification/EndToEnd.v ===== *)
(** The composed application, end to end: the use cases over both stores, the
    Redis rate limiter, the JWT manager and the admission of protected routes,
    run on one state that other processes change meanwhile.  What a request
    with a token can still reach after its user was suspended or deleted, after
    a password change, after a refresh and after a logout; and that a login
    gives a token that is let in. *)
From S2P Require Export UserPolicies Runtime Jwt.
Import UserUC Response Middleware.

(** The claims the library decodes hold a Go [int64]. *)
Class JWTLibInt64 `{JWTManager.JWTLib} : Prop :=
  parsed_int64 token secret now c v :
    JWTManager.ParseWithClaims token secret now = Ok (c, v) ->
    in_int64 (JWTManager.tc_CredentialVersion c).

(** * Rows that refuse *)

Section Rows.
Context `{PgTypesLaws}.

(** Whether a WHERE clause may hold of user [c]. *)
Definition may_match (c : string) (clauses : list condition) : bool :=
  forallb (fun cl => match cl with IdEq id => eq_opt_string (pg_uuid id) c | _ => true end) clauses.

Definition sets_other_status (status : Z) (st : set_clause) : bool :=
  match st with SetStatus s => negb (s =? status) | _ => false end.

(** The statement may give user [c] another status than [status]. *)
Definition changes_status (c : string) (status : Z) (st : statement) : bool :=
  inserts c st
  || match st with
     | UpdateUsers sets clauses => existsb (sets_other_status status) sets && may_match c clauses
     | _ => false
     end.

(** The user [c] is gone, or its row satisfies [P]. *)
Definition gone_or (c : string) (P : userRow -> Prop) (t : tables) : Prop :=
  forall r, t_users t !! c = Some r -> P r.

Lemma documented_sql_gone_or c P st t :
  users_keyed (t_users t) -> inserts c st = false ->
  (forall sets clauses r, st = UpdateUsers sets clauses -> may_match c clauses = true -> P r ->
     P (apply_sets sets r)) ->
  gone_or c P t -> gone_or c P (documented_sql st t).2.
Proof.
  intros Hk Hi Hs Hp. destruct st; try (cbn; repeat case_goal; done); try (cbn; by rewrite selecting_tables).
  - cbn in *. destruct (pg_uuid _) as [c'|] eqn:Eu; [|done]. cbn in Hi. breflect.
    repeat case_goal; try done. intros r. cbn. rewrite lookup_insert_ne by done. apply Hp.
  - cbn. repeat case_goal; try done. intros r. cbn. rewrite update_rows_lookup.
    intros (r0 & Hr0 & ->)%fmap_Some. pose proof (Hp _ Hr0) as Hpr.
    destruct (matches clauses r0) eqn:Hm; [|done]. eapply Hs; [done| |done].
    pose proof (Hk _ _ Hr0) as Hid. unfold matches in Hm. unfold may_match.
    apply forallb_forall. intros cl Hin. rewrite forallb_forall in Hm. specialize (Hm cl Hin).
    destruct cl; try done. cbn in Hm. by rewrite Hid in Hm.
  - cbn. repeat case_goal; try done. intros r. cbn. rewrite map_lookup_filter_Some. intros [Hr _]. by apply Hp.
  - cbn. destruct (_ || _); [done|]. by rewrite selecting_tables.
Qed.

Lemma apply_sets_status status sets r :
  existsb (sets_other_status status) sets = false -> uint8 status = status ->
  uint8 (ur_status r) = status -> uint8 (ur_status (apply_sets sets r)) = status.
Proof.
  intros Hs Hu. unfold apply_sets. revert r. induction sets as [|x sets IH]; intros r Hr; [done|].
  cbn in Hs. apply orb_false_iff in Hs as [Hx Hs]. cbn. apply IH; [done|].
  destruct x; cbn in *; try done. breflect. by subst.
Qed.

Lemma run_sql_status c status sts t :
  wf_tables t -> uint8 status = status ->
  Forall (fun st => changes_status c status st = false) sts ->
  gone_or c (fun r => uint8 (ur_status r) = status) t ->
  gone_or c (fun r => uint8 (ur_status r) = status) (run_sql sts t).
Proof.
  intros Hwf Hu Hs. revert t Hwf. induction Hs as [|st sts Hst Hsts IH]; intros t Hwf Ht; [done|].
  unfold changes_status in Hst. apply orb_false_iff in Hst as [Hi Hst]. cbn [run_sql].
  apply IH; [by apply documented_sql_wf|]. apply documented_sql_gone_or; [apply Hwf|done| |done].
  intros sets clauses r -> Hm Hr. cbn in Hst. rewrite Hm, andb_true_r in Hst. by apply apply_sets_status.
Qed.

Lemma run_sql_gone c sts t :
  wf_tables t -> Forall (fun st => inserts c st = false) sts ->
  gone_or c (fun _ => False) t -> gone_or c (fun _ => False) (run_sql sts t).
Proof.
  intros Hwf Hs. revert t Hwf. induction Hs as [|st sts Hst Hsts IH]; intros t Hwf Ht; [done|].
  cbn [run_sql]. apply IH; [by apply documented_sql_wf|].
  apply documented_sql_gone_or; [apply Hwf|done|done|done].
Qed.
End Rows.

Section EndToEnd.
Context {S : Type} {D : discipline} {PD : pg_discipline}.
Context {RC : RedisClient S} {RL : RedisClientLaws S D} {ES : EmbeddedScripts}.
Context {PC : PgClient S} {PT : PgTypes} {PL : PgClientLaws S PD} {PTL : PgTypesLaws}.
Context {E : Environment S} {CL : ClockLaws S D} {PCL : PgClockLaws S PD}.
Context {PH : PasswordHasher S} {MT : PasswordChangeCleanupMetrics S} {UN : Unicode}.
Context {UP : ULIDParser} {JL : JWTManager.JWTLib} {JI : JWTLibInt64} (secret : string).
Context {SS : SeparateStores S D PD}.

#[local] Instance tokens : JWTService S := JWTManager.jwt_manager secret.

(** Identifiers and digests are computed in the process, not by a store. *)
Class GeneratorsAside : Prop := {
  ulid_not_redis : does D Authentication.nothing ULIDGenerator;
  ulid_not_sql : sql_does PD no_statement ULIDGenerator;
  verify_not_redis p d : does D Authentication.nothing (ph_Verify p d);
}.
Context {GA : GeneratorsAside}.

(** ** What an admission does to the stores *)

Lemma Find_sql jti uid sid cv : sql_does PD no_statement (SessionRepo.FindByJTI jti uid sid cv).
Proof.
  unfold SessionRepo.FindByJTI, SessionRepo.resolve. repeat (sql_step || apply redis_not_sql).
Qed.

Definition limiter_op (op : store_op) : Prop := exists key argv, op = OpRateLimit key argv.

Lemma class_limiter_key actorType actorID resource :
  class_of (RateLimitImpl.limiter_key actorType actorID resource) = KOther.
Proof. reflexivity. Qed.

Lemma Allow_does actorType actorID resource limit window :
  does D limiter_op (RateLimitImpl.Allow actorType actorID resource limit window).
Proof.
  unfold RateLimitImpl.Allow. apply does_bind; [apply does_time|intros now].
  cbv zeta. apply does_bind; [apply does_nothing, ulid_not_redis|intros m]. repeat does_step.
  eapply (does_run _ (OpRateLimit _ _)); [apply class_limiter_key|by do 2 eexists|done].
Qed.

Lemma Allow_sql actorType actorID resource limit window :
  sql_does PD no_statement (RateLimitImpl.Allow actorType actorID resource limit window).
Proof.
  unfold RateLimitImpl.Allow. cbv zeta. repeat sql_step; [apply does_time_Now|apply ulid_not_sql|apply redis_not_sql].
Qed.

Lemma parse_does token : does D Authentication.nothing (ParseAndValidate token).
Proof.
  unfold ParseAndValidate, tokens, JWTManager.jwt_manager, JWTManager.ParseAndValidate, JWTManager.ValidateClaims.
  repeat (does_step || apply does_map_err || apply does_time).
Qed.

Lemma parse_sql token : sql_does PD no_statement (ParseAndValidate token).
Proof.
  unfold ParseAndValidate, tokens, JWTManager.jwt_manager, JWTManager.ParseAndValidate, JWTManager.ValidateClaims.
  repeat (sql_step || apply sql_does_map_err || apply does_time_Now).
Qed.

Lemma parse_int64 token (s : S) c s' :
  ParseAndValidate token s = (Ok c, s') -> Claims.CredentialVersion c <= maxInt.
Proof.
  unfold ParseAndValidate, tokens, JWTManager.jwt_manager, JWTManager.ParseAndValidate.
  intros (now & s1 & _ & Hr)%bind_Ok_inv.
  apply bind_Ok_inv in Hr as ([claims valid] & s2 & Hp & Hr). apply map_err_Ok_inv in Hp.
  injection Hp as Hp <-. destruct valid; [|discriminate]. cbn [negb] in Hr.
  apply bind_Ok_inv in Hr as (c' & s3 & Hd & Hr). apply map_err_Ok_inv in Hd. injection Hd as Hd <-.
  apply bind_Ok_inv in Hr as ([] & s4 & _ & Hr). injection Hr as -> _.
  apply parsed_int64 in Hp. unfold JWTManager.toDomain in Hd.
  destruct (_ || _) in Hd; [discriminate|]. repeat case_match; try discriminate.
  apply res_bind_Ok_inv in Hd as (snap & _ & Hc).
  destruct (Claims.NewJWTClaims_Ok _ _ _ _ _ _ Hc) as (_ & _ & _ & Ev & _). rewrite Ev. cbn.
  unfold in_int64, maxInt in *. lia.
Qed.
Lemma sql_does_nothing {A} own (c : M S A) : sql_does PD no_statement c -> sql_does PD own c.
Proof.
  intros Hc s. destruct (Hc s) as (sts & Hs & Hv). exists sts. split; [|done].
  eapply Forall_impl; [exact Hs|]. by intros st [|]; left.
Qed.

(** The decisions of a request, and what they do to the stores meanwhile. *)
Definition decides_within {A} (own : store_op -> Prop) (d : decision S A) : Prop :=
  forall s, store_trace D own s (d s).2 /\ sql_trace PD no_statement s (d s).2.

Lemma limited_within actorType actorID path config :
  decides_within limiter_op (limited actorType actorID path config).
Proof.
  intros s. unfold limited. pose proof (Allow_does actorType actorID path (Limit config) (Window config) s) as Hr.
  pose proof (Allow_sql actorType actorID path (Limit config) (Window config) s) as Hq.
  change (@Domain.Allow S _) with (RateLimitImpl.Allow (S := S)).
  destruct (RateLimitImpl.Allow _ _ _ _ _ s) as [[[[allowed ra] n]|e] s1]; cbn in *; [|done].
  split.
  - eapply store_trace_trans; [exact Hr|]. apply does_time.
  - eapply sql_trace_trans; [exact Hq|]. apply does_time_Now.
Qed.

(** What an admission went through: the stores up to the session lookup and up
    to the authoritative check saw the limiter's calls only. *)
Lemma admission_steps rl k ip path auth (s : S) p s' :
  admission rl k ip path auth s = (inl p, s') ->
  exists claims s1 s2 s3, live_token auth claims s1 s2
    /\ checked k (token_principal claims) s3 = (inl p, s')
    /\ store_trace D limiter_op s s1 /\ sql_trace PD no_statement s s3.
Proof.
  unfold admission. intros ([] & s1 & Hl1 & Hr)%decide_bind_inl.
  apply decide_bind_inl in Hr as (q & s2 & (claims & Hl & ->)%authenticated_live & Hr).
  apply decide_bind_inl in Hr as ([] & s3 & Hl2 & Hr).
  destruct (limited_within "ip" ip path (ProtectedIP rl) s) as [R1 Q1]. rewrite Hl1 in R1, Q1.
  destruct (limited_within "user" (Authorization.userID (token_principal claims)) path (Private rl) s2) as [_ Q2].
  rewrite Hl2 in Q2. exists claims, s1, s2, s3. split; [done|]. split; [done|]. split; [exact R1|].
  eapply sql_trace_trans; [exact Q1|]. eapply sql_trace_trans; [|exact Q2].
  destruct (lt_parsed _ _ _ _ Hl) as (s1' & Hp & x & Hf & _).
  pose proof (parse_sql (TrimPrefix auth "Bearer ") s1) as Q. rewrite Hp in Q.
  eapply sql_trace_trans; [exact Q|].
  pose proof (Find_sql (Claims.JTI claims) (Claims.UserID claims) (Claims.SessionID claims)
                (Claims.CredentialVersion claims) s1') as Q'.
  change (@sr_FindByJTI S _) with (SessionRepo.FindByJTI (S := S)) in Hf. by rewrite Hf in Q'.
Qed.

(** The checks answer for the user, the credential version and the session of
    the token. *)
Lemma checked_same k p q (s s' : S) :
  checked k p s = (inl q, s') ->
  Authorization.userID q = Authorization.userID p
  /\ Authorization.credentialVersion q = Authorization.credentialVersion p
  /\ Authorization.sessionID q = Authorization.sessionID p.
Proof.
  destruct k; cbn [checked].
  - by intros [= <- _].
  - intros (_ & st & _ & _ & _ & _ & ->)%admit_result_inl%Authorization.AuthorizeFreshIdentity_Ok. done.
  - intros (_ & st & _ & _ & _ & _ & _ & _ & ->)%admit_result_inl%Authorization.AuthorizeFresh_Ok. done.
Qed.

(** An authoritative check passes on a stored row of an active user with the
    token's credential version. *)
Lemma checked_row k p q (s s' : S) :
  k <> NoCheck -> wf_tables (pg_view s) -> checked k p s = (inl q, s') ->
  exists c row, pg_uuid (Authorization.userID p) = Some c /\ others (D := PD) s (pg_view s')
    /\ t_users (pg_view s') !! c = Some row
    /\ ur_credential_version row = Authorization.credentialVersion p
    /\ uint8 (ur_status row) = Status.StatusActive.
Proof.
  intros Hk Hwf. destruct k; [done| |]; cbn [checked].
  - intros (_ & st & Hg & _ & Hcv & Hst & _)%admit_result_inl%Authorization.AuthorizeFreshIdentity_Ok.
    change (@GetIdentityState S _) with (UserRepo.GetIdentityState (S := S)) in Hg.
    unfold UserRepo.GetIdentityState in Hg. apply bind_Ok_inv in Hg as (row & s1 & Hg & Hr).
    apply map_err_Ok_inv in Hg.
    destruct (read_user _ _ _ _ Hwf Hg) as
      [(c & row' & Hc & [= <-] & Ho & Hrow)|[(c & Hc & [=] & _)|(e & [=] & _)]].
    injection Hr as Hr <-. exists c, row. rewrite <- Hcv, <- Hst.
    unfold UserRepo.toIdentityState in Hr. repeat case_match; simplify_eq; done.
  - intros (_ & st & Hg & _ & Hcv & _ & Hst & _)%admit_result_inl%Authorization.AuthorizeFresh_Ok.
    apply GetSecurityState_Ok in Hg as (c & row & Hc & Ho & Hrow & Hs); [|done].
    exists c, row. rewrite <- Hcv, <- Hst. unfold UserRepo.toSecurityState in Hs.
    repeat case_match; try discriminate. inv_ok. done.
Qed.

Lemma ChangeStatus_wf input (s : S) r s' :
  wf_tables (pg_view s) -> ChangeStatus input s = (r, s') -> wf_tables (pg_view s').
Proof.
  intros Hwf Hr.
  assert (Hx : sql_does PD (fun _ => True) (ChangeStatus input)).
  { unfold ChangeStatus, enforce_transition.
    cbn [Domain.FindStatusSnapshotByID UserRepo.pg_user_ports Domain.ur_UpdateStatus UserRepo.pg_user_repository].
    unfold UserRepo.FindStatusSnapshotByID, UserRepo.UpdateStatus, UserRepo.classifyStatusUpdateMiss.
    repeat (sql_step || apply does_time_Now || (by apply sql_does_exec)
            || (apply sql_does_nothing; first [apply Block_sql|apply Unblock_sql])). }
  specialize (Hx s). rewrite Hr in Hx. by eapply sql_trace_wf.
Qed.

(** ** Locked out *)

(** No protected route admits the user, whatever its check, the token and the
    address. *)
Definition locked_out (uid : string) (s : S) : Prop :=
  forall rl k ip path auth p s', admission rl k ip path auth s = (inl p, s') ->
                                 Authorization.userID p <> uid.

(** The same, for the routes with an authoritative check and for tokens of
    which [old] holds. *)
Definition refused_afresh (c : string) (old : Authorization.Principal -> Prop) (s : S) : Prop :=
  forall rl k ip path auth p s', k <> NoCheck -> admission rl k ip path auth s = (inl p, s') ->
    pg_uuid (Authorization.userID p) = Some c -> ~ old p.

Lemma blocked_locked_out uid (s s2 : S) :
  stays_blocked (D := D) uid -> blocked uid s -> store_trace D (fun op => op <> OpUnblock uid) s s2 ->
  locked_out uid s2.
Proof.
  intros Hst Hb Htr rl k ip path auth p s' (claims & s3 & s4 & s5 & Hl & Hc & R & _)%admission_steps Hu.
  apply checked_same in Hc as [Hc _]. cbn in Hc. rewrite Hc in Hu.
  destruct (lt_parsed _ _ _ _ Hl) as (s3' & Hp & x & Hf & _).
  assert (Hr : SessionGuarantees.refused uid s3').
  { eapply blocked_later; [done|exact Hb|]. eapply store_trace_trans; [exact Htr|].
    eapply store_trace_trans; [eapply store_trace_mono; [|exact R]; by intros op (key & argv & ->)|].
    pose proof (parse_does (TrimPrefix auth "Bearer ") s3) as Q. rewrite Hp in Q.
    eapply store_trace_mono; [|exact Q]. done. }
  destruct Hr as [Hr _]. apply parse_int64 in Hp. rewrite Hu in Hf.
  eapply Hr; [exact Hp|]. change (@sr_FindByJTI S _) with (SessionRepo.FindByJTI (S := S)) in Hf.
  by rewrite Hf.
Qed.

(** A row predicate that nobody undoes keeps the authoritative checks shut. *)
Lemma row_refused_afresh c (P : userRow -> Prop) old (s : S) :
  (forall s', others (D := PD) s (pg_view s') -> gone_or c P (pg_view s')) ->
  (forall p row, P row -> old p -> ur_credential_version row = Authorization.credentialVersion p ->
                 uint8 (ur_status row) <> Status.StatusActive) ->
  wf_tables (pg_view s) -> refused_afresh c old s.
Proof.
  intros HP Hold Hwf rl k ip path auth p s' Hk (claims & s3 & s4 & s5 & Hl & Hc & _ & Q)%admission_steps Hu Hp.
  destruct (checked_same _ _ _ _ _ Hc) as (Eu & Ev & _). apply sql_nothing_others in Q.
  destruct (checked_row _ _ _ _ _ Hk (others_wf _ _ Hwf Q) Hc) as (c' & row & Hc' & Ho & Hrow & Hv & Hst).
  rewrite <- Eu in Hc'. assert (c' = c) as -> by congruence. rewrite <- Ev in Hv.
  apply (Hold p row); [|done..]. eapply (HP s'); [|exact Hrow]. by eapply others_trans.
Qed.

(** C4. A suspension ends every request of the user.  After a status change to
    suspended returned without error, and whatever any process does to either
    store since:
    short of unblocking the id of the request in Redis, no protected route admits
    a token that names the user as the request did, unless the user was suspended
    already when the request read its status (tokens name users by the canonical
    spelling, which a request must use for this part to bear on them);
    short of giving the user another status in PostgreSQL, no route with an
    authoritative check admits a token of the user, whatever the spellings. *)
Theorem suspended_user_locked_out (input : UpdateStatusInput) (c : string) (s s' s2 : S) :
  us_Status input = Status.StatusSuspended -> pg_uuid (us_UserID input) = Some c ->
  wf (rc_view s) -> wf_tables (pg_view s) -> stays_blocked (D := D) (us_UserID input) ->
  (forall st, pg_interferes PD st -> changes_status c Status.StatusSuspended st = false) ->
  ChangeStatus input s = (Ok tt, s') ->
  (store_trace D (fun op => op <> OpUnblock (us_UserID input)) s' s2 ->
   (exists snap s1, UserRepo.FindStatusSnapshotByID (us_UserID input) s = (Ok snap, s1)
                    /\ ss_Status snap = Status.StatusSuspended)
   \/ locked_out (us_UserID input) s2)
  /\ (sql_trace PD (fun st => changes_status c Status.StatusSuspended st = false) s' s2 ->
      refused_afresh c (fun _ => True) s2).
Proof.
  intros Hsus Hid Hwf Hwft Hst Hi Hrun.
  pose proof (ChangeStatus_wf _ _ _ _ Hwft Hrun) as Hwft'.
  destruct (ChangeStatus_suspends _ _ _ _ Hsus Hid Hwf Hwft Hst Hrun) as [(row & Hrow & Hs) Hb].
  split.
  - intros Htr. destruct Hb as [Hb|Hb]; [by left|right]. by eapply blocked_locked_out.
  - intros Htr. eapply (row_refused_afresh _ (fun r => uint8 (ur_status r) = Status.StatusSuspended));
      [|by intros p r -> _ _|by eapply sql_trace_wf].
    intros s3 (sts2 & H2 & ->). destruct Htr as (sts1 & H1 & ->). rewrite <- run_sql_app.
    apply run_sql_status; [done|done| |].
    + apply Forall_app. split; (eapply Forall_impl; [eassumption|]); cbn; naive_solver.
    + intros r Hr. assert (r = row) as -> by congruence. done.
Qed.

(** C12. A deletion ends every request of the user.  Once it returned without
    error, no protected route admits a token that names the user as the request
    did (canonically, as tokens do, for this to bear on them) until somebody
    unblocks that id in Redis; and no route with an authoritative check admits a
    token of the user, whatever the spellings, until the identifier is inserted
    anew. *)
Theorem deleted_user_locked_out (userID c : string) (s s' s2 : S) :
  pg_uuid userID = Some c -> wf (rc_view s) -> wf_tables (pg_view s) -> stays_blocked (D := D) userID ->
  (forall st, pg_interferes PD st -> inserts c st = false) ->
  DeleteUser userID s = (Ok tt, s') ->
  (store_trace D (fun op => op <> OpUnblock userID) s' s2 -> locked_out userID s2)
  /\ (sql_trace PD (fun st => inserts c st = false) s' s2 -> refused_afresh c (fun _ => True) s2).
Proof.
  intros Hid Hwf Hwft Hst Hi Hrun.
  destruct (DeleteUser_Ok _ _ _ _ Hid Hwf Hwft Hst Hrun) as (Hb & Hwft' & Hgone).
  split; [by apply blocked_locked_out|]. intros Htr.
  eapply (row_refused_afresh _ (fun _ => False)); [|done|by eapply sql_trace_wf].
  intros s3 (sts2 & H2 & ->). destruct Htr as (sts1 & H1 & ->). rewrite <- run_sql_app.
  apply run_sql_gone; [done| |by intros r; rewrite Hgone].
  apply Forall_app. split; (eapply Forall_impl; [eassumption|]); cbn; naive_solver.
Qed.

(** C11. A password change ends the requests of every token issued before it: no
    route with an authoritative check admits a token of a credential version up
    to the one the user had, whatever became of the session cleanup and
    whatever anybody does to either store, short of inserting that user
    identifier anew. *)
Theorem changed_password_locks_old_tokens_out (input : UpdatePassInput) (c : string) (row : userRow)
    (s s1 s2 : S) :
  wf_tables (pg_view s) -> pg_uuid (up_UserID input) = Some c ->
  t_users (pg_view s) !! c = Some row ->
  (forall st, pg_interferes PD st -> inserts c st = false) ->
  ChangePassword input s = (Ok tt, s1) ->
  sql_trace PD (fun st => inserts c st = false) s1 s2 ->
  refused_afresh c (fun p => Authorization.credentialVersion p <= ur_credential_version row) s2.
Proof.
  intros Hwf Hc Hrow Hi Hcp Htr.
  destruct (ChangePassword_raises _ _ _ _ _ _ Hwf Hc Hrow Hi Hcp Htr) as (_ & v & Hlt & Hwf2 & Hat).
  eapply (row_refused_afresh _ (fun r => v <= ur_credential_version r)); [| |done].
  - intros s3 Ho. by eapply others_at_least.
  - intros p r Hv Hp He. lia.
Qed.

(** ** Refreshed tokens *)

Lemma generate_does identity tokenType snapshot duration :
  does D Authentication.nothing (JWTManager.generateToken secret identity tokenType snapshot duration).
Proof.
  unfold JWTManager.generateToken. repeat (does_step || apply does_map_err || apply does_time).
Qed.

#[export] Instance ports_aside : Authentication.PortsAside (D := D) (S := S).
Proof.
  split; intros.
  - apply parse_does.
  - change (does D Authentication.nothing (UserRepo.GetSecurityState uid)).
    unfold UserRepo.GetSecurityState. repeat (does_step || apply does_map_err || apply sql_not_redis).
  - apply ulid_not_redis.
  - apply generate_does.
  - apply generate_does.
Qed.

(** C8. A refresh retires the tokens issued with the one it used: after a
    refresh returned without error, no protected route admits a token with the
    JTI of the refresh token that was used (the access token issued with it, or
    a copy), and no later refresh with that token succeeds, until an operation
    issues that very JTI again. *)
Theorem refresh_retires_tokens (ttl : Authentication.Lifetimes) (input : Authentication.RefreshInput)
    (s s1 s2 : S) (out : Authentication.RefreshOutput) (claims : Claims.JWTClaims) (auth : string) :
  (forall st c, (ParseAndValidate (Authentication.rf_RefreshToken input) st).1 = Ok c -> c = claims) ->
  (forall st c, (ParseAndValidate (TrimPrefix auth "Bearer ") st).1 = Ok c ->
                Claims.JTI c = Claims.JTI claims) ->
  (forall st j, (ULIDGenerator st).1 = Ok j -> j <> Claims.JTI claims) ->
  (forall op, interferes D op -> ~ issues op (Claims.JTI claims)) ->
  1000000000 <= Authentication.refreshTTL ttl -> 1000000000 <= Authentication.sessionTTL ttl ->
  wf (rc_view s) ->
  Authentication.Refresh ttl input s = (Ok out, s1) ->
  store_trace D (fun op => ~ issues op (Claims.JTI claims)) s1 s2 ->
  (forall rl k ip path p s3, admission rl k ip path auth s2 <> (inl p, s3))
  /\ (forall input' out', Authentication.rf_RefreshToken input' = Authentication.rf_RefreshToken input ->
        (Authentication.Refresh ttl input' s2).1 <> Ok out').
Proof.
  intros Hclaims Hauth Hfresh Hint Hrt Hst Hwf Href Htr.
  destruct (Authentication.Refresh_consumes ttl input s out s1) as (c0 & Hp0 & Hwf1 & Hgone); try done.
  { intros st j Hj st' c' Hc'. rewrite (Hclaims st' c' Hc'). by apply (Hfresh st). }
  assert (c0 = claims) as -> by (by apply (Hclaims s)).
  split.
  2:{ intros input' out' Htok.
      apply (Authentication.refresh_replay_refused ttl input input' s out s1 s2 claims); try done.
      destruct (ParseAndValidate (Authentication.rf_RefreshToken input) s) as [[c|e] s0] eqn:Hp; [|done].
      apply parse_int64 in Hp. cbn in Hp0. by injection Hp0 as ->. }
  intros rl k ip path p s3 (c & s4 & s5 & s6 & Hl & _ & R & _)%admission_steps.
  destruct (lt_parsed _ _ _ _ Hl) as (s4' & Hp & x & Hf & _).
  assert (Hj : Claims.JTI c = Claims.JTI claims) by (apply (Hauth s4); by rewrite Hp).
  assert (Hall : store_trace D (fun op => ~ issues op (Claims.JTI claims)) s1 s4').
  { eapply store_trace_trans; [exact Htr|].
    eapply store_trace_trans; [eapply store_trace_mono; [|exact R]|].
    { intros op (key & argv & ->) Hx. exact Hx. }
    apply Authentication.trace_weaken. pose proof (parse_does (TrimPrefix auth "Bearer ") s4) as Q.
    by rewrite Hp in Q. }
  destruct (store_trace_absent _ _ _ Hint Hwf1 Hall Hgone) as [Hwf4 Hgone4].
  apply parse_int64 in Hp. rewrite Hj in Hf.
  eapply (absent_jti_not_found (Claims.JTI claims) s4' _ _ _ x); [exact Hint|done|done|exact Hp|].
  change (@sr_FindByJTI S _) with (SessionRepo.FindByJTI (S := S)) in Hf. by rewrite Hf.
Qed.

(** ** Ended sessions *)

(** The session [sid] was logged out, or deleted as one of the selected
    sessions of a user, and the call returned without error. *)
Definition ended_session (sid : string) (s s' : S) : Prop :=
  (exists uid, Authentication.Logout sid uid s = (Ok tt, s'))
  \/ (exists input, SessionUC.di_RemoveOthers input = false /\ In sid (SessionUC.di_TargetSessions input)
                    /\ SessionUC.DeleteSessions input s = (Ok tt, s')).

Lemma DeleteSessions_gone input sid (s s' : S) :
  wf (rc_view s) -> SessionUC.di_RemoveOthers input = false -> In sid (SessionUC.di_TargetSessions input) ->
  SessionUC.DeleteSessions input s = (Ok tt, s') ->
  wf (rc_view s') /\ session_of (rc_view s') (idKey sid) = None.
Proof.
  intros Hwf Ho Hin. unfold SessionUC.DeleteSessions. rewrite Ho.
  destruct (_ =s _); [discriminate|]. destruct (SessionUC.di_TargetSessions input) as [|i l] eqn:Et; [done|].
  destruct (negb _); [discriminate|]. intros (deleted & s1 & Hd & Hr)%bind_Ok_inv.
  destruct deleted; [|discriminate]. injection Hr as <-.
  change (@sr_DeleteByUser S _) with (SessionRepo.DeleteByUser (S := S)) in Hd.
  destruct (DeleteByUser_gone _ (i :: l) _ _ Hwf ltac:(done) Hd) as [Hwf1 Hgone]. split; [done|].
  unfold session_of, ks_get. by rewrite Hgone.
Qed.

Lemma ended_session_gone sid (s s' : S) :
  wf (rc_view s) -> ended_session sid s s' ->
  wf (rc_view s') /\ session_of (rc_view s') (idKey sid) = None.
Proof.
  intros Hwf [(uid & Hl)|(input & Ho & Hin & Hd)]; [|by eapply DeleteSessions_gone].
  unfold Authentication.Logout in Hl. apply map_err_Ok_inv in Hl.
  eapply DeleteSessions_gone; [done| | |exact Hl]; [done|by left].
Qed.

(** C9. A logout, or a deletion of selected sessions, ends them: once it returned
    without error, no protected route admits a token of such a session and no
    refresh with a token of it succeeds, whatever any process does to Redis
    since, until a session of that ID is created anew. *)
Theorem ended_session_locked_out (sid : string) (s s1 s2 : S) :
  (forall op, interferes D op -> ~ creates op sid) -> wf (rc_view s) ->
  ended_session sid s s1 -> store_trace D (fun op => ~ creates op sid) s1 s2 ->
  (forall rl k ip path auth p s3, admission rl k ip path auth s2 = (inl p, s3) ->
                                  Authorization.sessionID p <> sid)
  /\ (forall ttl input out s3,
        (forall st c, (ParseAndValidate (Authentication.rf_RefreshToken input) st).1 = Ok c ->
                      Claims.SessionID c = sid) ->
        Authentication.Refresh ttl input s2 <> (Ok out, s3)).
Proof.
  intros Hint Hwf Hend Htr. destruct (ended_session_gone _ _ _ Hwf Hend) as [Hwf1 Hgone].
  assert (Hno : forall token c s3 s4 x, store_trace D (fun op => ~ creates op sid) s1 s3 ->
    ParseAndValidate token s3 = (Ok c, s4) -> Claims.SessionID c = sid ->
    (SessionRepo.FindByJTI (Claims.JTI c) (Claims.UserID c) (Claims.SessionID c)
       (Claims.CredentialVersion c) s4).1 <> Ok (Some x)).
  { intros token c s3 s4 x R Hp <-. pose proof (parse_does token s3) as Q. rewrite Hp in Q. cbn in Q.
    destruct (store_trace_ended _ _ _ Hint Hwf1
                (store_trace_trans _ _ _ _ R (Authentication.trace_weaken _ _ _ Q)) Hgone) as [Hwf4 Hgone4].
    apply (ended_session_not_found _ _ _ _ _ _ Hint Hwf4 Hgone4). by eapply parse_int64. }
  split.
  - intros rl k ip path auth p s3 (c & s4 & s5 & s6 & Hl & Hc & R & _)%admission_steps Hsid.
    destruct (checked_same _ _ _ _ _ Hc) as (_ & _ & Es). cbn in Es.
    destruct (lt_parsed _ _ _ _ Hl) as (s4' & Hp & x & Hf & _).
    eapply (Hno _ c s4 s4' x); [|exact Hp|congruence|].
    + eapply store_trace_trans; [exact Htr|]. eapply store_trace_mono; [|exact R].
      intros op (key & argv & ->) Hx. exact Hx.
    + change (@sr_FindByJTI S _) with (SessionRepo.FindByJTI (S := S)) in Hf. by rewrite Hf.
  - intros ttl input out s3 Hsid Href. apply Authentication.Refresh_Ok_inv in Href
      as (c & state & new & rc & ac & u1 & u2 & u3 & u4 & u5 & u6 & Hp & _ & Hv & _).
    apply SessionUC.ValidateSession_true_inv in Hv as (x & Hf & _). cbn in Hf.
    eapply (Hno _ c s2 u1 x); [exact Htr|exact Hp|apply (Hsid s2); by rewrite Hp|].
    change (@sr_FindByJTI S _) with (SessionRepo.FindByJTI (S := S)) in Hf. by rewrite Hf.
Qed.

End EndToEnd.

(** * From a login to an admitted token *)

Section LoginRoundtrip.
Context {S : Type} {PD : pg_discipline}.
Context {RC : RedisClient S} {RL : RedisClientLaws S undisturbed} {ES : EmbeddedScripts}.
Context {PC : PgClient S} {PT : PgTypes} {PL : PgClientLaws S PD} {PTL : PgTypesLaws}.
Context {E : Environment S} {CL : ClockLaws S undisturbed} {PCL : PgClockLaws S PD}.
Context {PH : PasswordHasher S} {MT : PasswordChangeCleanupMetrics S} {UN : Unicode}.
Context {UP : ULIDParser} {JL : JWTManager.JWTLib} {JI : JWTLibInt64} {LL : JWTManager.JWTLibLaws}.
Context (secret : string) {SS : SeparateStores S undisturbed PD}.
Context {GA : GeneratorsAside (D := undisturbed) (PD := PD)}.
Context (reg : gmap string string) (Hreg : embeddedScriptRegistry = Ok reg).

#[local] Existing Instance tokens.
#[local] Instance manager : JWTService S := JWTManager.jwt_manager secret.

(** What a login that succeeded went through. *)
Lemma Login_Ok_inv ttl (input : Authentication.LoginInput) (s : S) out s' :
  Authentication.Login ttl input s = (Ok out, s') ->
  exists user state jti sid access rc ac s1 s2 s3 s4 s5 s6 now s7,
    let identity := {| Claims.ti_UserID := sec_UserID state; Claims.ti_SessionID := sid;
                       Claims.ti_JTI := jti;
                       Claims.ti_CredentialVersion := sec_CredentialVersion state |} in
    UserRepo.FindByEmail (Authentication.lg_Email input) s = (Ok (Some user), s1)
    /\ store_trace undisturbed Authentication.nothing s1 s2
    /\ UserRepo.GetSecurityState (User.ID user) s2 = (Ok state, s3)
    /\ sec_UserID state = User.ID user /\ sec_Status state = Status.StatusActive
    /\ ULIDGenerator s3 = (Ok jti, s4) /\ ULIDGenerator s4 = (Ok sid, s5)
    /\ JWTManager.generateToken secret identity Claims.TokenTypeRefresh Claims.zeroSnapshot
         (Authentication.refreshTTL ttl) s5 = (Ok rc, s6)
    /\ SessionUC.CreateSession
         {| SessionUC.ci_ID := sid; SessionUC.ci_UserID := sec_UserID state;
            SessionUC.ci_Device := Authentication.lg_Device input;
            SessionUC.ci_IP := Authentication.lg_IP input;
            SessionUC.ci_CurrentJTI := jti;
            SessionUC.ci_CredentialVersion := sec_CredentialVersion state;
            SessionUC.ci_SessionTTL := Authentication.sessionTTL ttl;
            SessionUC.ci_JTITTL := Authentication.refreshTTL ttl |} s6 = (Ok now, s7)
    /\ JWTManager.generateToken secret identity Claims.TokenTypeAccess
         {| Claims.as_Role := sec_Role state; Claims.as_Permissions := sec_Permissions state |}
         (Authentication.accessTTL ttl) s7 = (Ok (access, ac), s')
    /\ access = Authentication.lo_AccessToken out
    /\ Claims.ExpiresAt ac = Authentication.lo_AccessTokenExpiresAt out
    /\ Authentication.uo_ID (Authentication.lo_User out) = sec_UserID state.
Proof.
  unfold Authentication.Login.
  intros (found & s1 & Hf & Hr)%bind_Ok_inv. apply map_err_Ok_inv in Hf.
  destruct found as [user|]; [|discriminate].
  apply bind_Ok_inv in Hr as (u1 & s1' & Hc & Hr). apply Authentication.check_Ok_inv in Hc as [_ ->].
  apply bind_Ok_inv in Hr as (pw & s1' & Hpw & Hr). apply map_err_Ok_inv in Hpw. injection Hpw as _ <-.
  apply bind_Ok_inv in Hr as (ok & s2 & Hv & Hr). apply map_err_Ok_inv in Hv.
  destruct ok; [|discriminate]. cbn [negb] in Hr.
  apply bind_Ok_inv in Hr as (state & s3 & Hg & Hr). apply map_err_Ok_inv in Hg.
  destruct (_ || _) eqn:Esame in Hr; [discriminate|]. breflect.
  apply bind_Ok_inv in Hr as (u2 & s3' & Hc & Hr). apply Authentication.check_Ok_inv in Hc as [Hact ->].
  apply Authentication.authenticationStatusError_None in Hact.
  apply bind_Ok_inv in Hr as (jti & s4 & Hu1 & Hr). apply bind_Ok_inv in Hr as (sid & s5 & Hu2 & Hr).
  apply bind_Ok_inv in Hr as ([refresh rc] & s6 & Hgr & Hr).
  apply bind_Ok_inv in Hr as ([] & s7 & Hcs & Hr). apply map_err_Ok_inv in Hcs.
  apply bind_Ok_inv in Hr as (acc & s8 & Ha & Hr). unfold attempt in Ha.
  match type of Ha with (let (_, _) := ?c s7 in _) = _ => destruct (c s7) as [r8 s8'] eqn:Hga end.
  injection Ha as <- <-. destruct r8 as [[access ac]|e].
  2:{ apply bind_Ok_inv in Hr as (x & s9 & _ & Hr). discriminate. }
  injection Hr as <- <-.
  exists user, state, jti, sid, access, (refresh, rc), ac, s1, s2, s3, s4, s5, s6, tt, s7.
  split; [exact Hf|]. split.
  { pose proof (verify_not_redis pw (User.PasswordDigest user) s1) as Q. by rewrite Hv in Q. }
  repeat (split; [assumption || done|]). cbn. by repeat split.
Qed.

Lemma nothing_same {A} (c : M S A) s r s' :
  does undisturbed Authentication.nothing c -> c s = (r, s') -> rc_view s' = rc_view s.
Proof.
  intros Hc Hr. specialize (Hc s). rewrite Hr in Hc. destruct Hc as ([|op ops] & Ho & Hv); [done|].
  inversion_clear Ho as [|? ? [_ [[]|[]]] _].
Qed.

Lemma trace_nothing_same (s s' : S) :
  store_trace undisturbed Authentication.nothing s s' -> rc_view s' = rc_view s.
Proof.
  intros ([|op ops] & Ho & Hv); [done|]. inversion_clear Ho as [|? ? [_ [[]|[]]] _].
Qed.

Lemma FindByEmail_redis email : does undisturbed Authentication.nothing (UserRepo.FindByEmail email).
Proof.
  unfold UserRepo.FindByEmail, UserRepo.get_row. repeat (does_step || apply does_map_err || apply sql_not_redis).
Qed.
Lemma GetSecurityState_redis uid : does undisturbed Authentication.nothing (UserRepo.GetSecurityState uid).
Proof.
  unfold UserRepo.GetSecurityState. repeat (does_step || apply does_map_err || apply sql_not_redis).
Qed.

(** The rights of an authoritative state are a known role's. *)
Lemma GetSecurityState_proper id (s : S) state s' :
  UserRepo.GetSecurityState id s = (Ok state, s') ->
  Role.IsKnown (sec_Role state) = true
  /\ exists ps, Permission.NewPermissionSet ps = Ok (sec_Permissions state).
Proof.
  unfold UserRepo.GetSecurityState. intros ([row acts] & s1 & _ & Hr)%bind_Ok_inv.
  injection Hr as Hr <-. cbn in Hr. unfold UserRepo.toSecurityState in Hr.
  destruct (ur_id row =s ""); [discriminate|]. destruct (_ <=? 0); [discriminate|].
  destruct (negb ((_ =? _) || _ || _)) eqn:Ek; [discriminate|]. destruct (negb _) in Hr; [discriminate|].
  apply res_bind_Ok_inv in Hr as (ps & _ & Hr). apply res_bind_Ok_inv in Hr as (set & Hs & Hr).
  injection Hr as <-. cbn. split.
  - rewrite <- Authorization.isKnownRole_IsKnown. unfold Authorization.isKnownRole.
    by apply negb_false_iff in Ek.
  - exists ps. by destruct (Permission.NewPermissionSet ps); [injection Hs as <-|].
Qed.

(** A session the lookup finds validates. *)
Lemma ValidateSession_found uid sid jti cv n (s s' : S) :
  uid <> "" -> sid <> "" -> jti <> "" -> 0 < cv -> 0 < n ->
  SessionRepo.FindByJTI jti uid sid cv s
    = (Ok (Some (SessionRepo.found_session sid uid jti cv n)), s') ->
  SessionUC.ValidateSession
    {| SessionUC.vi_UserID := uid; SessionUC.vi_SessionID := sid; SessionUC.vi_JTI := jti;
       SessionUC.vi_CredentialVersion := cv |} s = (Ok true, s').
Proof.
  intros Hu Hs Hj Hc Hn Hf. unfold SessionUC.ValidateSession, SessionUC.validateSession. cbn.
  rewrite !(eqb_ne_string _ "") by done. rewrite (proj2 (Z.leb_gt cv 0)) by done. cbn.
  change (@sr_FindByJTI S _) with (SessionRepo.FindByJTI (S := S)).
  unfold bind. rewrite Hf. cbn.
  rewrite !(eqb_ne_string _ ""), !eqb_refl_string, Z.eqb_refl by done.
  rewrite (proj2 (Z.leb_gt cv 0)), (proj2 (Z.leb_gt n 0)) by done. reflexivity.
Qed.

Lemma Create_generation x (s : S) x' s' :
  SessionRepo.Create x s = (Ok x', s') -> 0 < Session.SessionGeneration x'.
Proof.
  rewrite Create_run. destruct (_ || _); [discriminate|]. destruct (_ <=? 0); [discriminate|].
  destruct (GetScript _); [|discriminate]. destruct (rc_run _ s) as [r s1].
  destruct (res_bind r cmd_Int64) as [g|]; [|discriminate].
  destruct (g =? -1); [discriminate|]. destruct (g <=? 0) eqn:Eg; [discriminate|].
  intros [= <- _]. cbn. breflect. done.
Qed.

Lemma TrimPrefix_app p x : TrimPrefix (p +:+ x) p = x.
Proof. unfold TrimPrefix. by rewrite HasPrefix_app, drop_bytes_app. Qed.

(** A login leaves a well-formed store. *)
Lemma Login_wf ttl input (s : S) : wf (rc_view s) -> wf (rc_view (Authentication.Login ttl input s).2).
Proof.
  intros Hwf. eapply (store_trace_wf (D := undisturbed) (fun _ => True)); [exact Hwf|].
  assert (Hown : forall A own (c : M S A), does undisturbed own c -> does undisturbed (fun _ => True) c).
  { intros A own c Hc st. eapply store_trace_mono; [|apply Hc]. done. }
  assert (Hx : does undisturbed (fun _ => True) (Authentication.Login ttl input)); [|apply Hx].
  unfold Authentication.Login, Authentication.check, SessionUC.CreateSession, SessionUC.DeleteSessions.
  repeat (does_step || apply does_map_err || apply does_time
          || (eapply Hown; first [apply FindByEmail_redis|apply GetSecurityState_redis|apply verify_not_redis
                                 |apply ulid_not_redis|apply generate_does|apply Create_does
                                 |apply DeleteByUser_does|apply DeleteOthersByUser_does])).
Qed.

(** A presented access token of a live session is let in, as its principal. *)
Lemma authenticated_found token c n (s s2 s3 : S) :
  ParseAndValidate token s = (Ok c, s2) ->
  Claims.TokenType_ c = Claims.TokenTypeAccess ->
  Claims.UserID c <> "" -> Claims.SessionID c <> "" -> Claims.JTI c <> "" ->
  0 < Claims.CredentialVersion c -> 0 < n -> Role.IsKnown (Claims.Role c) = true ->
  SessionRepo.FindByJTI (Claims.JTI c) (Claims.UserID c) (Claims.SessionID c) (Claims.CredentialVersion c) s2
    = (Ok (Some (SessionRepo.found_session (Claims.SessionID c) (Claims.UserID c) (Claims.JTI c)
                   (Claims.CredentialVersion c) n)), s3) ->
  authenticated ("Bearer " +:+ token) s = (inl (token_principal c), s3).
Proof.
  intros Hp Ht Hu Hs Hj Hc Hn Hr Hf. unfold authenticated.
  rewrite (eqb_ne_string _ "") by (rewrite append_cons; done). rewrite HasPrefix_app, TrimPrefix_app. cbn [negb orb].
  unfold decide_bind at 1, admit_result at 1. rewrite Hp.
  unfold Claims.IsAccess. rewrite Ht. change (negb (Claims.TokenTypeAccess =s Claims.TokenTypeAccess)) with false. cbn iota.
  unfold decide_bind, live_session, decide_bind, admit_result.
  change (uc_ValidateSession (S := S)) with (SessionUC.ValidateSession (S := S)).
  rewrite (ValidateSession_found _ _ _ _ n s2 s3) by done. cbn iota.
  rewrite Authorization.NewPrincipal_IsValid; [done|done|done|done|]. by rewrite Authorization.isKnownRole_IsKnown.
Qed.

(** A session the use case created is found while its keys live. *)
Lemma CreateSession_found i (s s1 s2 : S) now d :
  wf (rc_view s) -> SessionUC.ci_CurrentJTI i <> "" -> SessionUC.ci_UserID i <> "" -> SessionUC.ci_ID i <> "" ->
  SessionUC.ci_CredentialVersion i <= maxInt ->
  SessionUC.CreateSession i s = (Ok now, s1) ->
  untouched (SessionUC.ci_UserID i) (SessionUC.ci_CurrentJTI i) (SessionUC.ci_ID i) (elapse d (rc_view s1)) (rc_view s2) ->
  0 <= d < 1000 * duration_seconds (SessionUC.ci_SessionTTL i) ->
  d < 1000 * duration_seconds (SessionUC.ci_JTITTL i) ->
  exists n s3, 0 < n
    /\ SessionRepo.FindByJTI (SessionUC.ci_CurrentJTI i) (SessionUC.ci_UserID i) (SessionUC.ci_ID i)
         (SessionUC.ci_CredentialVersion i) s2
       = (Ok (Some (SessionRepo.found_session (SessionUC.ci_ID i) (SessionUC.ci_UserID i)
                      (SessionUC.ci_CurrentJTI i) (SessionUC.ci_CredentialVersion i) n)), s3).
Proof using All.
  intros Hwf Hj Hu Hi Hcv Hcs Hv2 Hd Hd'.
  unfold SessionUC.CreateSession in Hcs. destruct (_ <=? 0); [discriminate|].
  apply bind_Ok_inv in Hcs as (created & s' & Hnow & Hcs). apply bind_Ok_inv in Hcs as (x' & s1' & Hcreate & Hcs).
  injection Hcs as _ <-.
  change (@sr_Create S _) with (SessionRepo.Create (S := S)) in Hcreate.
  assert (Hwf' : wf (rc_view s')).
  { pose proof (time_Now_view s) as Hs. rewrite Hnow in Hs. cbn in Hs. by rewrite Hs. }
  pose proof (fun a b c e => created_found reg Hreg _ x' s' s1' s2 d Hwf' a b c e Hcreate Hv2 Hd Hd') as Hfound.
  cbn in Hfound. specialize (Hfound Hj Hu Hi Hcv).
  exists (Session.SessionGeneration x'). eexists. split; [by apply (Create_generation _ _ _ _ Hcreate)|].
  rewrite <- Hfound. apply surjective_pairing.
Qed.

(** C7. A login gives a token that is let in.  The access token of a login that
    succeeded passes the token and session checks of the protected routes, at
    every instant of its lifetime that is also in the lifetimes of the session
    and of its JTI, whatever was done to the store since but to the three keys
    of the token's session (which a logout, a revocation, a block and a refresh
    change), with no other process at the store during the calls themselves; and
    it passes as a principal of the user who logged in, with the role and
    permissions of an authoritative state of an active user. *)
Theorem login_then_authenticated ttl (input : Authentication.LoginInput) (s s1 s2 s3 s4 : S) out d t t' :
  wf (rc_view s) ->
  (forall st j, (ULIDGenerator st).1 = Ok j -> JWTManager.ascii_text j) ->
  JWTManager.ascii_text (Authentication.uo_ID (Authentication.lo_User out)) ->
  Authentication.Login ttl input s = (Ok out, s1) ->
  (forall st c, (ParseAndValidate (Authentication.lo_AccessToken out) st).1 = Ok c ->
     untouched (Claims.UserID c) (Claims.JTI c) (Claims.SessionID c) (elapse d (rc_view s1)) (rc_view s2)) ->
  0 <= d < 1000 * duration_seconds (Authentication.sessionTTL ttl) ->
  d < 1000 * duration_seconds (Authentication.refreshTTL ttl) ->
  time_Now s2 = (Ok t, s3) -> time_Now s3 = (Ok t', s4) ->
  let issued := JWTManager.NewNumericDate (Authentication.lo_AccessTokenExpiresAt out - Authentication.accessTTL ttl) in
  let expires := JWTManager.NewNumericDate (Authentication.lo_AccessTokenExpiresAt out) in
  issued <= t < expires -> issued <= t' < expires ->
  exists p s5 state sa sb,
    authenticated ("Bearer " +:+ Authentication.lo_AccessToken out) s2 = (inl p, s5)
    /\ Authorization.userID p = Authentication.uo_ID (Authentication.lo_User out)
    /\ UserRepo.GetSecurityState (Authorization.userID p) sa = (Ok state, sb)
    /\ sec_Status state = Status.StatusActive
    /\ Authorization.role p = sec_Role state /\ Authorization.permissions p = sec_Permissions state.
Proof using All.
  intros Hwf Hulid Hascii Hlogin Hv2 Hd Hd' Ht Ht' issued expires Hin Hin'.
  apply Login_Ok_inv in Hlogin as (user & state & jti & sid & access & rc & ac & x1 & x2 & x3 & x4 & x5 & x6 & u & x7
    & Hf & Htr & Hg & Hsame & Hact & Hu1 & Hu2 & Hgr & Hcs & Hga & -> & Hexp & Hid).
  cbn zeta in *. rewrite Hid in Hascii.
  destruct (GetSecurityState_proper _ _ _ _ Hg) as [Hrole [ps Hps]].
  assert (Hview : rc_view x6 = rc_view s).
  { rewrite (nothing_same _ _ _ _ (generate_does _ _ _ _ _) Hgr), (nothing_same _ _ _ _ ulid_not_redis Hu2),
      (nothing_same _ _ _ _ ulid_not_redis Hu1), (nothing_same _ _ _ _ (GetSecurityState_redis _) Hg),
      (trace_nothing_same _ _ Htr). exact (nothing_same _ _ _ _ (FindByEmail_redis _) Hf). }
  destruct (JWTManager.generateToken_Ok _ _ _ _ _ _ _ _ _ Hga) as (now & Hc & _).
  destruct (Claims.NewJWTClaims_Ok _ _ _ _ _ _ Hc)
    as (Eu & Es & Ej & Ev & Ett & Er & Eps & Ee & Ei & _ & _ & Hcv & Hune & Hsne & Hjne & _ & _).
  cbn in Eu, Es, Ej, Ev, Er, Eps, Hcv, Hune, Hsne, Hjne.
  assert (Hissued : issued = JWTManager.NewNumericDate (Claims.IssuedAt ac)).
  { unfold issued. rewrite <- Hexp, Ee, Ei. f_equal. lia. }
  assert (Hexpires : expires = JWTManager.NewNumericDate (Claims.ExpiresAt ac)) by (unfold expires; by rewrite Hexp).
  assert (Hlife : issued < expires) by lia. rewrite Hissued, Hexpires in Hlife.
  pose proof (fun a b c d => JWTManager.generated_lifetime secret _ _ _ _ _ ac x7 s1 a b c d Hga Hlife) as Hparse.
  cbn [Claims.ti_UserID Claims.ti_SessionID Claims.ti_JTI] in Hparse.
  destruct (Hparse Hascii (Hulid x4 sid ltac:(by rewrite Hu2)) (Hulid x3 jti ltac:(by rewrite Hu1))
              (conj Hrole (ex_intro _ ps Hps))) as [Hparse' _]. clear Hparse. rename Hparse' into Hparse.
  specialize (Hparse s2 s3 s4 t t' Ht Ht' ltac:(lia) ltac:(lia)).
  assert (Hmax : Claims.CredentialVersion ac <= maxInt) by exact (parse_int64 secret _ _ _ _ Hparse).
  assert (Hview4 : rc_view s4 = rc_view s2).
  { pose proof (time_Now_view s3) as H3. rewrite Ht' in H3. pose proof (time_Now_view s2) as H2'. rewrite Ht in H2'.
    cbn in H3, H2'. by rewrite H3. }
  specialize (Hv2 s2 (JWTManager.whole_seconds ac) (f_equal fst Hparse)).
  rewrite (nothing_same _ _ _ _ (generate_does _ _ _ _ _) Hga), <- Hview4 in Hv2. cbn in Hv2. rewrite Eu, Es, Ej in Hv2.
  destruct (fun H1 H2 H3 H4 H5 => CreateSession_found _ _ _ s4 _ d H1 H2 H3 H4 H5 Hcs Hv2 Hd Hd')
    as (n & s5 & Hn & Hfind); cbn; try done; [by rewrite Hview|lia|].
  eexists (token_principal (JWTManager.whole_seconds ac)), s5, state, x2, x3.
  split; [|split; [|split; [|split]]].
  - eapply (authenticated_found _ _ n); [exact Hparse| | | | | | | |];
      cbn; rewrite ?Ett, ?Eu, ?Es, ?Ej, ?Ev, ?Er; done.
  - cbn. by rewrite Eu, Hid.
  - cbn. by rewrite Eu, Hsame.
  - done.
  - done.
Qed.

End LoginRoundtrip.

(** * A local token library, for the witnesses *)

Module LocalTokens.
Import JWTManager.

(** A library that signs the claims of a table, with one secret. *)
Section Table.
Context (table : list (string * tokenClaims)).

Definition named (token : string) : option tokenClaims :=
  snd <$> List.find (fun e => e.1 =s token) table.
Definition name_of (c : tokenClaims) : option string :=
  fst <$> List.find (fun e => bool_decide (e.2 = c)) table.

Definition table_lib : JWTLib := {|
  SignedString := fun c k =>
    match name_of c with
    | Some token => if k =s "secret" then Ok token else Err (ENew "unknown key")
    | None => Err (ENew "unsupported claims")
    end;
  ParseWithClaims := fun token k now =>
    match named token with
    | Some c => if k =s "secret" then documented_parse c now else Err (ESentinel JwtErrSignatureInvalid)
    | None => Err (ESentinel JwtErrTokenMalformed)
    end;
|}.

Lemma named_name c token : NoDup (map fst table) -> name_of c = Some token -> named token = Some c.
Proof.
  unfold name_of, named. intros Hnd ([n c'] & Hf & ->)%fmap_Some. cbn.
  apply List.find_some in Hf as [Hin He]. cbn in He. apply bool_decide_eq_true in He as ->.
  induction table as [|[n' c'] l IH]; [done|]. cbn in Hnd |- *. apply NoDup_cons in Hnd as [Hn Hnd].
  destruct Hin as [[= -> ->]|Hin]; [by rewrite eqb_refl_string|].
  rewrite eqb_ne_string; [by apply IH|]. intros ->. apply Hn, list_elem_of_In, in_map_iff. by exists (n, c).
Qed.

Lemma table_laws : NoDup (map fst table) -> JWTLibLaws (H := table_lib).
Proof.
  intros Hnd. split. intros c k token now _. cbn. destruct (name_of c) as [n|] eqn:En; [|discriminate].
  destruct (k =s "secret"); [|discriminate]. intros [= <-]. by rewrite (named_name _ _ Hnd En).
Qed.

Lemma table_int64 :
  Forall (fun e => in_int64 (tc_CredentialVersion e.2)) table -> JWTLibInt64 (H := table_lib).
Proof.
  intros Hall token k now c v. cbn. unfold named. destruct (List.find _ table) as [[n c']|] eqn:Hf; [|discriminate].
  cbn. destruct (k =s "secret"); [|discriminate]. unfold documented_parse.
  destruct (documented_errors c' now); [|discriminate]. intros [= <- _].
  apply List.find_some in Hf as [Hin _]. rewrite Forall_forall in Hall.
  exact (Hall (n, c') (proj2 (list_elem_of_In _ _) Hin)).
Qed.

(** A token of the table is accepted with its own claims only. *)
Lemma table_claims {S} `{Environment S} token w c (s : S) :
  named token = Some w ->
  (ParseAndValidate (H := table_lib) "secret" token s).1 = Ok c -> toDomain w = Ok c.
Proof.
  intros Hw. unfold ParseAndValidate, bind at 1. destruct (time_Now s) as [[now|e] s1]; [|discriminate].
  unfold ParseWithClaims, table_lib. rewrite Hw. cbn [String.eqb Ascii.eqb Bool.eqb].
  change ("secret" =s "secret") with true. cbn iota. unfold documented_parse.
  destruct (documented_errors w now); [|discriminate].
  unfold map_err, of_res, bind. cbn. destruct (toDomain w) as [c'|]; [|discriminate]. cbn.
  destruct (ValidateClaims c' s1) as [[[]|e] s2]; [|discriminate]. by intros [= <-].
Qed.
End Table.

Definition identity (sid jti : string) : Claims.TokenIdentity :=
  {| Claims.ti_UserID := LocalWorld.alice; Claims.ti_SessionID := sid; Claims.ti_JTI := jti;
     Claims.ti_CredentialVersion := 1 |}.
Definition client : Claims.AuthorizationSnapshot :=
  {| Claims.as_Role := Role.RoleClient; Claims.as_Permissions := Permission.emptySet |}.

(** The claims of a token issued at second 1000, the instant of the local stores. *)
Definition claims_of (sid jti tokenType : string) (lifetime : Z) (snapshot : Claims.AuthorizationSnapshot)
    : Claims.JWTClaims :=
  match Claims.NewJWTClaims (identity sid jti) tokenType (1000000000000 + lifetime) 1000000000000 snapshot with
  | Ok c => c
  | Err _ => LocalAuth.claims
  end.
Definition refresh_claims (sid jti : string) : Claims.JWTClaims :=
  claims_of sid jti Claims.TokenTypeRefresh 600000000000 Claims.zeroSnapshot.
Definition access_claims (sid jti : string) : Claims.JWTClaims :=
  claims_of sid jti Claims.TokenTypeAccess 300000000000 client.

(** The generated identifier of the local world. *)
Definition ulid : string := "01ARZ3NDEKTSV4RRFFQ69G5FAV".

Definition table : list (string * tokenClaims) :=
  [("refresh-j1", tokenClaimsFromDomain (refresh_claims "s1" "j1"));
   ("access-j1", tokenClaimsFromDomain (access_claims "s1" "j1"));
   ("refresh-next", tokenClaimsFromDomain (refresh_claims "s1" ulid));
   ("access-next", tokenClaimsFromDomain (access_claims "s1" ulid));
   ("refresh-login", tokenClaimsFromDomain (refresh_claims ulid ulid));
   ("access-login", tokenClaimsFromDomain (access_claims ulid ulid))].

#[export] Instance lib : JWTLib := table_lib table.
#[export] Instance lib_laws : JWTLibLaws.
Proof. apply table_laws. apply (bool_decide_unpack _). vm_compute. exact I. Qed.
#[export] Instance lib_int64 : JWTLibInt64.
Proof. apply table_int64. repeat constructor; vm_compute; discriminate. Qed.
#[export] Instance generators : GeneratorsAside (S := world) (D := undisturbed) (PD := pg_undisturbed).
Proof. split; intros; intros w; exists []; (split; [constructor|done]). Qed.

Definition refresh : Authentication.RefreshInput :=
  {| Authentication.rf_RefreshToken := "refresh-j1"; Authentication.rf_IP := "192.0.2.1";
     Authentication.rf_Device := "phone" |}.
#[export] Instance manager : JWTService world := jwt_manager "secret".
Definition refreshed : res Authentication.RefreshOutput * world :=
  Authentication.Refresh LocalAuth.lifetimes refresh LocalWorld.logged_in.

Definition login : Authentication.LoginInput :=
  {| Authentication.lg_Email := "alice@example.com"; Authentication.lg_Password := "Old-passw0rd";
     Authentication.lg_IP := "192.0.2.1"; Authentication.lg_Device := "phone" |}.
Definition logged : res Authentication.LoginOutput * world :=
  Authentication.Login LocalAuth.lifetimes login LocalWorld.joined.

Example refreshed_ok : is_ok refreshed.1 = true.
Proof. vm_compute. reflexivity. Qed.
Example logged_ok : is_ok logged.1 = true.
Proof. vm_compute. reflexivity. Qed.
End LocalTokens.
Import LocalTokens.

Lemma suspended_user_locked_out_witness :
  ((exists snap s1, UserRepo.FindStatusSnapshotByID LocalWorld.alice LocalWorld.logged_in = (Ok snap, s1)
                    /\ ss_Status snap = Status.StatusSuspended)
   \/ locked_out "secret" LocalWorld.alice (LocalWorld.suspended LocalWorld.alice))
  /\ refused_afresh "secret" LocalWorld.alice (fun _ => True) (LocalWorld.suspended LocalWorld.alice).
Proof.
  destruct (suspended_user_locked_out (D := undisturbed) (PD := pg_undisturbed) "secret"
              (LocalWorld.suspend LocalWorld.alice) LocalWorld.alice LocalWorld.logged_in
              (LocalWorld.suspended LocalWorld.alice) (LocalWorld.suspended LocalWorld.alice)) as [H1 H2].
  - reflexivity.
  - reflexivity.
  - apply LocalWorld.logged_in_wf.
  - apply LocalWorld.logged_in_wf.
  - by intros op [].
  - by intros st [].
  - vm_compute. reflexivity.
  - exact (conj (H1 (store_trace_refl _ _)) (H2 (sql_trace_refl _ _))).
Defined.

Lemma deleted_user_locked_out_witness :
  locked_out "secret" LocalWorld.alice LocalWorld.deleted
  /\ refused_afresh "secret" LocalWorld.alice (fun _ => True) LocalWorld.deleted.
Proof.
  destruct (deleted_user_locked_out (D := undisturbed) (PD := pg_undisturbed) "secret"
              LocalWorld.alice LocalWorld.alice LocalWorld.logged_in LocalWorld.deleted LocalWorld.deleted) as [H1 H2].
  - reflexivity.
  - apply LocalWorld.logged_in_wf.
  - apply LocalWorld.logged_in_wf.
  - by intros op [].
  - by intros st [].
  - vm_compute. reflexivity.
  - exact (conj (H1 (store_trace_refl _ _)) (H2 (sql_trace_refl _ _))).
Defined.

Lemma changed_password_locks_old_tokens_out_witness :
  refused_afresh "secret" LocalWorld.alice (fun p => Authorization.credentialVersion p <= 1) password_changed.
Proof.
  apply (changed_password_locks_old_tokens_out (D := undisturbed) (PD := pg_undisturbed) "secret"
           new_password LocalWorld.alice LocalWorld.row LocalWorld.logged_in password_changed password_changed).
  - apply LocalWorld.logged_in_wf.
  - reflexivity.
  - apply LocalWorld.row_stored.
  - by intros st [].
  - vm_compute. reflexivity.
  - apply sql_trace_refl.
Defined.

(** The access token of the session is refused once its refresh token was used. *)
Lemma refresh_retires_tokens_witness :
  (authenticated "Bearer access-j1" LocalWorld.logged_in).1
    = inl (token_principal (JWTManager.whole_seconds (access_claims "s1" "j1")))
  /\ (forall rl k ip path p s3, admission rl k ip path "Bearer access-j1" refreshed.2 <> (inl p, s3))
  /\ (forall input' out', Authentication.rf_RefreshToken input' = "refresh-j1" ->
        (Authentication.Refresh LocalAuth.lifetimes input' refreshed.2).1 <> Ok out').
Proof.
  split; [vm_compute; reflexivity|].
  destruct refreshed as [[out|e] s1] eqn:Hr; cbn [snd].
  2:{ exfalso. pose proof refreshed_ok as Hok. rewrite Hr in Hok. discriminate. }
  apply (refresh_retires_tokens (D := undisturbed) (PD := pg_undisturbed) "secret" LocalAuth.lifetimes refresh
           LocalWorld.logged_in s1 s1 out (refresh_claims "s1" "j1") "Bearer access-j1").
  - intros st c Hc. apply (table_claims table "refresh-j1" (JWTManager.tokenClaimsFromDomain (refresh_claims "s1" "j1")))
      in Hc; [|reflexivity]. vm_compute in Hc. injection Hc as <-. reflexivity.
  - intros st c Hc. apply (table_claims table "access-j1" (JWTManager.tokenClaimsFromDomain (access_claims "s1" "j1")))
      in Hc; [|reflexivity]. vm_compute in Hc. injection Hc as <-. reflexivity.
  - intros st j Hj. injection Hj as <-. discriminate.
  - by intros op [].
  - cbn. lia.
  - cbn. lia.
  - apply LocalWorld.logged_in_wf.
  - exact Hr.
  - apply store_trace_refl.
Defined.

(** The world a minute later. *)
Definition a_minute_later (w : world) : world :=
  {| w_redis := elapse 60000 (w_redis w); w_pg := w_pg w |}.

Lemma logged_shape :
  match logged with
  | (Ok out, s1) =>
      (Authentication.lo_AccessTokenExpiresAt out =? 1300000000000)
      && (ks_now (w_redis s1) =? 1000000)
      && (Authentication.uo_ID (Authentication.lo_User out) =s LocalWorld.alice) = true
  | _ => False
  end.
Proof. vm_compute. reflexivity. Qed.

Lemma login_then_authenticated_witness :
  match logged with
  | (Ok out, s1) =>
      exists p s5 state sa sb,
        authenticated ("Bearer " +:+ Authentication.lo_AccessToken out) (a_minute_later s1) = (inl p, s5)
        /\ Authorization.userID p = Authentication.uo_ID (Authentication.lo_User out)
        /\ UserRepo.GetSecurityState (Authorization.userID p) sa = (Ok state, sb)
        /\ sec_Status state = Status.StatusActive
        /\ Authorization.role p = sec_Role state /\ Authorization.permissions p = sec_Permissions state
  | _ => False
  end.
Proof.
  pose proof logged_shape as Hshape. destruct logged as [[out|e] s1] eqn:Hl; [|exact Hshape].
  apply andb_true_iff in Hshape as [[Hexp%Z.eqb_eq Hnow%Z.eqb_eq]%andb_true_iff Huid%String.eqb_eq].
  assert (Hclock : forall w : world, time_Now w = (Ok (ks_now (w_redis w) * 1000000), w)) by reflexivity.
  apply (login_then_authenticated (PD := pg_undisturbed) "secret" Local.registry Local.registry_ok LocalAuth.lifetimes login
           LocalWorld.joined s1 (a_minute_later s1) (a_minute_later s1) (a_minute_later s1) out 60000
           (ks_now (w_redis (a_minute_later s1)) * 1000000) (ks_now (w_redis (a_minute_later s1)) * 1000000)).
  - exact Local.store_wf.
  - intros st j Hj. injection Hj as <-. apply JWTManager.ascii_text_dec. vm_compute. reflexivity.
  - rewrite Huid. apply JWTManager.ascii_text_dec. vm_compute. reflexivity.
  - exact Hl.
  - intros st c _. apply untouched_refl.
  - vm_compute. split; [discriminate|reflexivity].
  - vm_compute. reflexivity.
  - apply Hclock.
  - apply Hclock.
  - rewrite Hexp. cbn [a_minute_later w_redis elapse ks_now]. rewrite Hnow. vm_compute. split; [discriminate|reflexivity].
  - rewrite Hexp. cbn [a_minute_later w_redis elapse ks_now]. rewrite Hnow. vm_compute. split; [discriminate|reflexivity].
Defined.

(** The session of the login, logged out. *)
Definition logged_out : world := (Authentication.Logout ulid LocalWorld.alice logged.2).2.

Lemma logged_out_ok : Authentication.Logout ulid LocalWorld.alice logged.2 = (Ok tt, logged_out).
Proof.
  assert (Hok : is_ok (Authentication.Logout ulid LocalWorld.alice logged.2).1 = true) by (vm_compute; reflexivity).
  unfold logged_out. by destruct (Authentication.Logout _ _ _) as [[[]|e] w].
Qed.

(** Its access token was let in before. *)
Lemma logged_in_before : (authenticated "Bearer access-login" logged.2).1
    = inl (token_principal (JWTManager.whole_seconds (access_claims ulid ulid))).
Proof. vm_compute. reflexivity. Qed.

Lemma logged_wf : wf (rc_view logged.2).
Proof.
  apply (Login_wf (PD := pg_undisturbed) "secret" LocalAuth.lifetimes login LocalWorld.joined), Local.store_wf.
Qed.

Lemma ended_session_locked_out_witness :
  (authenticated "Bearer access-login" logged.2).1
    = inl (token_principal (JWTManager.whole_seconds (access_claims ulid ulid)))
  /\ (forall rl k ip path auth p s3, admission rl k ip path auth logged_out = (inl p, s3) ->
                                     Authorization.sessionID p <> ulid)
  /\ (forall ttl s3 out, Authentication.Refresh ttl
         {| Authentication.rf_RefreshToken := "refresh-login"; Authentication.rf_IP := "192.0.2.1";
            Authentication.rf_Device := "phone" |} logged_out <> (Ok out, s3)).
Proof.
  split; [exact logged_in_before|].
  destruct (ended_session_locked_out (D := undisturbed) (PD := pg_undisturbed) "secret" ulid
              logged.2 logged_out logged_out) as [H1 H2].
  - by intros op [].
  - exact logged_wf.
  - left. exists LocalWorld.alice. exact logged_out_ok.
  - apply store_trace_refl.
  - split; [exact H1|]. intros ttl s3 out. apply H2. intros st c Hc.
    apply (table_claims table "refresh-login" (JWTManager.tokenClaimsFromDomain (refresh_claims ulid ulid)))
      in Hc; [|reflexivity]. vm_compute in Hc. injection Hc as <-. reflexivity.
Defined.
